(* ===== verification/_CoqProject ===== *)
-Q . S2P
Prelude.v
Heap.v
CLib.v
Slice.v
Buffer.v
HttpMessage.v
Codec.v
Decoder.v
Os.v
ClientContext.v
IocpServer.v
ServerInv.v
ServerSafe.v
ServerRuns.v
Serving.v
HttpServer.v
Connections.v
Lifecycle.v
Moves.v
Program.v
Service.v
Timer.v
Mempool.v
CStr.v
Interact.v
Posix.v
HttpParse.v
HttpGrammar.v
HttpServe.v
Connect.v
Nbc.v
Endian.v
Web.v
EchoSelect.v
AsynEcho.v
Threads.v
Workers.v
WorkersSafe.v
WorkersRun.v
WorkersSound.v
IocpEcho.v
CmplRouEcho.v
Semaphore.v
HttpClient.v
WriteV.v
Winsock.v
WebMain.v
Unix.v
Copies.v
Datagrams.v
UdpEcho.v
Greetings.v
Epoll.v
Signals.v
Explore.v
Pipe.v
Addr.v
HttpCodecOld.v
