(* ===== verification/Prelude.v ===== *)
(** * A verification library for the programs of NetworkProgrammingDemo

    The repository collects network programs.  Its main one, under
    [src/Windows/WinHttpServer/WinHttpServer/], is an HTTP server over Windows
    completion ports; smaller ones under [src/Linux] and [src/Windows] are an HTTP
    parser built as a state machine, clients that connect without blocking, and
    servers built on threads, [select], events, completion routines and completion
    ports.  This library models these programs and proves what they do, and, where
    they do not do what they mean to, what they do instead.  File names without a directory are those of
    the main program.

    ** The completion port server

    [main.cpp] makes an [HttpServer], a subclass of [IocpServer], and starts it.
    [IocpServer] keeps ten accepts outstanding and a [ClientContext] for every
    connection.  Worker threads take completion packets from one port and call
    [handleAccept], [handleRecv], [handleSend] or [handleClose].  Bytes received
    are appended to the context's [m_inBuf] and given to the virtual
    [notifyPackageReceived]; the base class echoes them, [HttpServer] decodes
    them with an [HttpCodec] (a parser over [Slice]s of the buffer) and sends the
    codec's response through [m_outBuf].  A context is used again, through a free
    list, when [m_nPendingIoCnt] says that nothing refers to it.

    ** The Linux programs

    [LinuxHighPerformanceServerPrograming/http_parse.cpp] accepts one connection,
    reads it into a buffer that is parsed in place, piece by piece, and answers
    with one of two lines.  [nonBlockingConnect.cpp], [2_NonblockConnect.cpp] and
    [nbc.cpp] in [Demo/DemoProject/DemoProject] start connections and wait for
    them with [select] or [poll], the last for many hosts at once.
    [LinuxHighPerformanceServerPrograming/writev.cpp] sends one file to one client.
    [TCP-IPNetworkPrograming] has programs in C: [http_server/http_server.c]
    sends files, with a thread for each connection, and [http_server/http_client.c]
    asks for one; [echo_select/echo_selectserv.c] serves all its clients from one loop
    around [select]; two threads of [semaphore/semaphore.c] pass numbers through one
    variable, two processes of [pipe/pipe.c] messages through one pipe.  The other
    samples of both directories are one [main] of a few calls each: they copy files, send
    and show datagrams, greet a client, wait for events with [epoll] and [poll], and wait
    for signals and child processes.

    ** The Windows samples

    Under [src/Windows/TCP-IPNetworkPrograming]: echo servers around network events
    ([AsynNotiEcho]), completion routines ([CmplRouEchoServ]) and, twice, a completion
    port whose threads share the structures of their requests ([IOCPEchoServ],
    [IOCPDemo]); [AcceptExFunction] accepts connections through a port.  Under
    [src/Windows/Demo]: a client that connects without blocking and [JudgeEndian.cpp].

    ** The files

    - [Prelude]: bytes, machine integers, lists cut at integer positions, the
      state monad in which the program's functions run ([None] is an access
      violation or a failed [assert]), triples for it, and tactics.
    - [Heap]: memory as blocks of bytes with access violations, [VirtualAlloc]
      ([VirtualMem]: which block it returns is a parameter), [CopyMemory].
    - [CLib]: [strstr], [memcmp], [atoi], [isspace], and [size_t] at the width of
      the machine ([Arch], 32 and 64 bits).
    - [Slice], [Buffer], [HttpMessage], [Codec]: one file for each class.  [Decoder]: a
      reference for the decoder, written without its definitions.
    - [Os]: the calls of Winsock and Win32.  What a call answers is a parameter, a
      function of the calls made before ([WinOS]).
    - [ClientContext]: the structures of [ClientContext.h], [IoContext.h] and
      [Global.h].
    - [IocpServer]: every function of [IocpServer.cpp] and [Net.cpp], over one
      state [Sys]: the server, the contexts, memory, the requests in flight.
    - [ServerInv], [ServerSafe], [ServerRuns]: the invariant of the server, that
      every function keeps it, and the states a started server reaches.
    - [Serving]: a connection whose peer behaves, with the memory of its buffers:
      conversations with the server, for any callback that keeps [Answers].
    - [HttpServer]: the callback of [HttpServer.cpp].
    - [Workers], [WorkersSafe], [WorkersRun], [WorkersSound]: the handlers of
      [IocpServer.cpp] once more, call by call, for any number of worker threads side by
      side under the locks of [LockGuard.h]: the program and its shared state; what each
      thread may rely on; the functions of one thread; all runs.
    - [Connections], [Lifecycle]: accepting a connection, using a context again;
      starting and shutting down.
    - [Moves], [Program], [Service]: connections side by side; [main.cpp] and the
      visitors that come one after the other; and what the program promises, as a
      transition system ([step]) that it refines.
    - [Timer], [Mempool], [Addr], [HttpCodecOld]: [Timer.cpp], [Mempool.h], [Addr.cpp] and
      [HttpCodec.cpp], which nothing in the program starts or uses, [Addr] but for the
      console.
    - [CStr]: arrays of [char] and the functions of [string.h] on them.
    - [Interact]: programs that call the system as interaction trees, protocols
      of calls and answers, and what it means that a program is [safe] or [total].
    - [Posix]: the calls of the Linux programs, [htons] and [fd_set].
    - [HttpParse], [HttpGrammar], [HttpServe]: the parser of [http_parse.cpp]
      with its reference, the requests it accepts, and [main].
    - [Connect]: [nonBlockingConnect.cpp] and [2_NonblockConnect.cpp].
    - [Nbc]: [nbc.cpp].
    - [Web], [WebMain]: [http_server.c], its threads over calls of [stdio.h] and its
      [main]; [HttpClient]: [http_client.c]; [WriteV]: [writev.cpp].
    - [EchoSelect]: [echo_selectserv.c].
    - [AsynEcho]: [AsynNotiEcho.cpp] of [src/Windows/TCP-IPNetworkPrograming], an
      echo server that waits for events of Winsock, with calls of its own.
    - [Threads]: programs that run side by side, and what each must do and may rely on;
      [IocpEcho] and [Semaphore]: the two echo servers over completion ports and
      [semaphore.c], as pools of threads; [CmplRouEcho]: [CmplRouEchoServ.cpp], whose
      completion routines run inside [SleepEx].
    - [Winsock]: [AcceptExFunction.cpp] and [Non-blockingConnect.cpp] of
      [src/Windows/Demo/DemoProject/DemoProject].
    - [Endian]: [JudgeEndian.cpp] of [src/Windows/Demo/DemoProject/DemoProject], and the
      [main] that runs it.
    - [Unix]: the calls of the small Linux samples; [Copies]: [stdcpy.c], [syscpy.c],
      [low_open.c], [low_read.c], [tee_splice.cpp]; [Datagrams]: the programs of [udp_echo]
      and [multicast_broadcast], of which [UdpEcho] runs the echo server and its client side
      by side; [Greetings]: [hello], [tcp], [daytime_demo.c], [dup.c], [listen_demo.c];
      [Epoll]: [epoll_poll_test.c] and [poll_test.c]; [Signals]: [signal], [zombie],
      [sigalrm.cpp].
    - [Explore]: all runs of a pool whose calls have finitely many answers, followed by
      evaluation; [Pipe]: [pipe.c], which is such a pool.

    ** Definitions and code

    A function of the program is a definition of the same name.  An object in
    memory the program shares, such as a context, is an entry of a map of the
    state under its address; a value is a record with the members' names.
    Integers are [Z], and [u32] and [s32] wrap where the code computes with a
    [UINT] or an [int].  [Buffer] operations run on the [heap], and dangling
    pointers and shallow copies are what they are in the program: the fields of a
    [Buffer] may point to a block that is gone.  In [IocpServer] a handler runs to
    its end without interference, and the order of the packets, and
    the number of bytes of each, is arbitrary; the locks, and what happens when several
    threads run handlers at once, are in [Workers], which leaves the contents of the buffers
    out.  Output to the console is left
    out where no theorem speaks of it.

    In the other programs a call is an event of a tree, which the system answers
    as it likes.  A [protocol] over a state of the sockets says which calls are
    right in it and what each answer means (documented behaviour of the system,
    failures included); [safe] says that every call is right, [total] that the
    program also ends.  A loop of the program is a [loop] and needs no fuel.  Programs with several
    threads are pools of such trees, which take turns at their calls in any order
    ([pool_step] of [Threads]); there a protocol also says what a thread may find changed
    by the others.

    ** Interfaces

    - [VirtualMemOk], [VirtualMemGrants]: documented behaviour of [VirtualAlloc]
      (a block that is not in use; room for the request).  [bump_mem] is an
      instance for evaluation.
    - [Accepts], [Associates], [Posts], [Listens]: the system accepts the requests, and
      has a socket for every accept.  [demo_os] is an instance.  The safety theorems need none of these: they
      hold for every system.
    - [Notify]: what the invariant needs of a callback; [echo] keeps it, the HTTP
      callback does not (see [refused_freed_in_flight]).
    - [Answers], [Waits]: what a conversation needs of a callback: it answers a message
      that is complete, touching no memory but the connection's, and leaves one that is
      not; [echo] answers every message and the HTTP callback requests of at most 512
      bytes, whose parts it waits for.  The theorems about conversations and services
      are proved from these two.
    - [non_interfering]: what the calls of one thread must leave to the others; the pools
      of [Workers], [IocpEcho] and [UdpEcho] keep it.
    - [Ntop]: documented behaviour of [inet_ntop]; [dotted] is an instance.

    ** What the theorems show

    - Memory: a [Buffer] is a byte queue and leaks nothing ([Buffer]); [Slice]'s
      operations cut where their reference functions on byte strings cut.
    - Decoding: on any bytes [tryDecode] gives the result, and leaves the record, of a
      reference that knows only the bytes ([tryDecode_refines]); on printed requests it records what was printed
      ([parse_print]) and gives the verdict of its checks.
    - Safety of the server, for the callback of the base class, any system and
      any order of packets, whose handlers run one at a time: a context is not given up while a request refers to
      it, connections are capped, open connections are listened to.
    - Worker threads: with any number of them at work at once, each makes only the calls it
      may make, no two are at the same socket, buffer or list, and what the system still
      uses is left alone ([workers_safe]); but the maximum number of connections may be
      passed by as many as there are other threads ([workers_exceed_cap]).
    - Service: [program_refines_service] shows that the HTTP server, from [main] on, does
      what the service it offers allows, for any number of connections up to its limit
      and any interleaving of their bytes, when each peer sends its next request only
      after it has read the answer to the last; [echo_session] and [http_session] show for one
      connection that whole conversations, in messages that arrive in any pieces, have
      the right answers, byte for byte, and leave the server as it was;
      [program_serves] follows visitors one after the other; [started_accepting] and
      [new_connection_fresh] lead from [start] to the state in which they begin.
      All of these speak of peers that wait for their answers; one that does not can make
      the server read memory that was freed ([pipelined_echo_faults]).
    - Errors: what happens to refused requests, to requests that fill a block, to
      answers that are queued, to contexts used again, and at a tick of the
      heartbeat timer.
    - Parsing in place: [pieces_verdict] and [accepts_requests] say what the
      state machine of [http_parse.cpp] accepts, however the data are cut up;
      [parser_well_formed] what its indices and buffer are between receives;
      [main_serves] that its server keeps to its protocol and ends.
    - Threads: in the echo servers over completion ports, built for 32 bits (they make
      addresses [DWORD]s), every byte received is sent back once and no thread touches a
      structure that is another's ([echo_pool_safe]), but that it reads the handle that
      comes with a send, which may have been freed ([handle_read_after_free]); every
      operation of [CmplRouEchoServ.cpp] is given the completion routine that keeps its
      structures in order ([cmpl_main_safe]); the adding
      thread of [semaphore.c] adds every number that was read exactly once, and the
      program ends ([semaphore_sums]).
    - One client, one file: [client_fetches] and [writev_responds] say what [http_client.c]
      asks for and shows, and what [writev.cpp] answers, closes and leaves open.
    - The small samples: copies are copies ([copies_file]); what is sent is what is in the
      file, and what is shown is what came ([news_delivered], [udp_echoes]); the line of the
      server is shown ([greetings_exchanged]); the [epoll] loop serves what it watches
      ([epoll_serves]), but its [main] never gets there ([main_crashes]); long sleeps end
      early ([signals_end]), and the two ends of a pipe may wait for ever
      ([pipe_outcomes]).
    - Serving without completion ports: a thread of the web server answers its
      request, or ends the process, exactly as the request calls for
      ([request_handler_answers], [undotted_crashes]), as long as no other thread calls
      [strtok] in between; but [main] may lose a connection to the next
      ([race_loses_connection]); the loop of the echo server
      deals with every socket it is told of ([scan_serves]), but is never told of
      any ([accepts_nobody]); the two arrays of the echo server over events stay
      in step ([arrays_in_step]).
    - Connecting: the clients use their socket as they should ([clients_safe])
      and those with a bound end ([main2_ends], [nbc_ends]); the others may wait
      and send for ever, as they mean to.  The theorems after these say when a
      socket is lost, a connection is given up, or nothing is waited for any more.

    ** Fuel and bounds

    [getHeader_loop] and [parse_fields] run with the length of their input as
    fuel and are shown never to exhaust it.  The loop of the HTTP callback has its
    fuel as an argument: [http_session] shows that two turns are enough for short
    requests, and [full_block_never_ends] that no number is for others.
    [parse_line_loop] and [parse_content_loop] run with what is left to check and
    to cut as fuel, which [pieces_verdict] shows to be enough.  The
    safety theorems cover runs of fewer than 2^31 - 1 packets, after which the
    reference counts could wrap.

    [explore] runs with the number of steps a run may take, which is enough when it
    answers [true].

    ** Not modelled

    Every line of [Buffer_old.h] and [Buffer_old.cpp] is a comment.  [setAllocSize] of
    [Mempool.h] does not compile when it is instantiated, nor does [reactor.cpp] at all, in
    whose loop a statement is cut off.  [get_euid.cpp] prints two numbers of the system, and
    [http_server/tt.cpp] is one write through a pointer that was never set.  What the
    programs print for the user, other than what a theorem speaks of, and the contents of
    the buffers in the model of the worker threads are left out. *)
From stdpp Require Export base numbers list gmap option tactics.
From Stdlib Require Export ZArith Lia.
From stdpp Require Export strings.
From Stdlib Require Strings.Byte.

#[global] Open Scope Z_scope.

(** ** Bytes *)

(** A [char] or [BYTE] of the program. *)
Abbreviation byte := Byte.byte.
Abbreviation bytes := (list byte).

#[export] Instance byte_eq_dec : EqDecision byte := Byte.byte_eq_dec.
#[export] Instance byte_inhabited : Inhabited byte := populate Byte.x00.
#[export] Instance byte_countable : Countable byte :=
  inj_countable Byte.to_N Byte.of_N Byte.of_to_N.

(** The unsigned value of a byte, and the value of the (signed) C [char]. *)
Definition byte_val (c : byte) : Z := Z.of_N (Byte.to_N c).

(** The bytes of a string literal, without its terminating NUL. *)
Definition lit (s : string) : bytes := String.list_byte_of_string s.
Arguments lit s%_string_scope.

Definition NUL : byte := Byte.x00.
Definition TAB : byte := Byte.x09.
Definition LF : byte := Byte.x0a.
Definition CR : byte := Byte.x0d.
Definition SP : byte := Byte.x20.

Lemma byte_val_range c : 0 <= byte_val c < 256.
Proof.
  unfold byte_val. pose proof (Byte.to_N_bounded c). lia.
Qed.

Lemma byte_val_inj c d : byte_val c = byte_val d -> c = d.
Proof.
  unfold byte_val. intros H%N2Z.inj.
  pose proof (Byte.of_to_N c) as Hc. pose proof (Byte.of_to_N d) as Hd.
  rewrite H in Hc. congruence.
Qed.

(** ** Machine integers: [UINT], [DWORD], [ULONG] and [int] are 32 bits wide. *)

Definition u32 (z : Z) : Z := z mod 2 ^ 32.
Definition s32 (z : Z) : Z := (z + 2 ^ 31) mod 2 ^ 32 - 2 ^ 31.

Lemma u32_small z : 0 <= z < 2 ^ 32 -> u32 z = z.
Proof. apply Z.mod_small. Qed.

Lemma u32_range z : 0 <= u32 z < 2 ^ 32.
Proof. apply Z.mod_pos_bound. lia. Qed.

Lemma s32_small z : - 2 ^ 31 <= z < 2 ^ 31 -> s32 z = z.
Proof. intros H. unfold s32. rewrite Z.mod_small; lia. Qed.

(** ** A state monad whose computations may fault

    [None] is the end of the process: an access violation or a failed
    [assert]. *)

Definition ST (S A : Type) : Type := S -> option (A * S).

#[export] Instance ST_ret S : MRet (ST S) := λ A a s, Some (a, s).
#[export] Instance ST_bind S : MBind (ST S) := λ A B f m s,
  match m s with Some (a, s') => f a s' | None => None end.

Definition st_gets {S A} (f : S -> A) : ST S A := λ s, Some (f s, s).
Definition st_modify {S} (f : S -> S) : ST S unit := λ s, Some (tt, f s).
Definition st_fault {S A} : ST S A := λ _, None.
(** A computation that only reads the state. *)
Definition st_reads {S A} (f : S -> option A) : ST S A :=
  λ s, match f s with Some a => Some (a, s) | None => None end.
Definition st_assert {S} (P : bool) : ST S unit :=
  λ s, if P then Some (tt, s) else None.

Lemma st_bind_Some {S A B} (m : ST S A) (k : A -> ST S B) s a s' :
  m s = Some (a, s') -> (m ≫= k) s = k a s'.
Proof. intros H. unfold mbind, ST_bind. by rewrite H. Qed.

Lemma st_bind_inv {S A B} (m : ST S A) (k : A -> ST S B) s r :
  (m ≫= k) s = Some r ->
  exists a s', m s = Some (a, s') /\ k a s' = Some r.
Proof. unfold mbind, ST_bind. destruct (m s) as [[a s']|]; eauto; done. Qed.

(** Evaluating a computation only as far as a test of its outcome. *)
Definition holds_after {A S} (P : A -> S -> bool) (r : option (A * S)) : bool :=
  match r with Some (a, s) => P a s | None => false end.

Lemma holds_after_inv {A S} (P : A -> S -> bool) (r : option (A * S)) :
  holds_after P r = true -> exists a s, r = Some (a, s) /\ P a s = true.
Proof. destruct r as [[a s]|]; [eauto|done]. Qed.

(** Step through a monadic goal with an equation for its first action, and
    take a monadic hypothesis apart. *)
Ltac st_step H := rewrite (st_bind_Some _ _ _ _ _ H); cbv beta iota.
Ltac st_inv H :=
  let a := fresh "r" in let s := fresh "s" in let E := fresh "E" in
  apply st_bind_inv in H; destruct H as (a & s & E & H); cbv beta iota in H.

(** ** Lists cut at an integer position *)

Definition takeZ {A} (n : Z) (l : list A) : list A := take (Z.to_nat n) l.
Definition dropZ {A} (n : Z) (l : list A) : list A := drop (Z.to_nat n) l.
Definition lenZ {A} (l : list A) : Z := Z.of_nat (length l).

Lemma lenZ_nonneg {A} (l : list A) : 0 <= lenZ l.
Proof. unfold lenZ. lia. Qed.

Lemma lenZ_nil : lenZ (@nil byte) = 0.
Proof. done. Qed.

Lemma lenZ_cons {A} (x : A) l : lenZ (x :: l) = 1 + lenZ l.
Proof. unfold lenZ. cbn [length]. lia. Qed.

Lemma lenZ_app {A} (l k : list A) : lenZ (l ++ k) = lenZ l + lenZ k.
Proof. unfold lenZ. rewrite length_app. lia. Qed.

Lemma lenZ_takeZ {A} n (l : list A) : 0 <= n <= lenZ l -> lenZ (takeZ n l) = n.
Proof. unfold lenZ, takeZ. intros H. rewrite length_take. lia. Qed.

Lemma lenZ_dropZ {A} n (l : list A) : 0 <= n <= lenZ l -> lenZ (dropZ n l) = lenZ l - n.
Proof. unfold lenZ, dropZ. intros H. rewrite length_drop. lia. Qed.

Lemma takeZ_dropZ {A} n (l : list A) : takeZ n l ++ dropZ n l = l.
Proof. apply take_drop. Qed.

Lemma takeZ_app {A} n (l k : list A) : n = lenZ l -> takeZ n (l ++ k) = l.
Proof. unfold takeZ, lenZ. intros ->. rewrite Nat2Z.id. apply take_app_length. Qed.

Lemma dropZ_app {A} n (l k : list A) : n = lenZ l -> dropZ n (l ++ k) = k.
Proof. unfold dropZ, lenZ. intros ->. rewrite Nat2Z.id. apply drop_app_length. Qed.

Lemma takeZ_0 {A} (l : list A) : takeZ 0 l = [].
Proof. done. Qed.

Lemma dropZ_0 {A} (l : list A) : dropZ 0 l = l.
Proof. done. Qed.

Lemma takeZ_ge {A} n (l : list A) : lenZ l <= n -> takeZ n l = l.
Proof. unfold takeZ, lenZ. intros H. apply take_ge. lia. Qed.

Lemma dropZ_ge {A} n (l : list A) : lenZ l <= n -> dropZ n l = [].
Proof. unfold dropZ, lenZ. intros H. apply drop_ge. lia. Qed.

Lemma dropZ_dropZ {A} n m (l : list A) :
  0 <= n -> 0 <= m -> dropZ n (dropZ m l) = dropZ (m + n) l.
Proof. unfold dropZ. intros. rewrite drop_drop. f_equal. lia. Qed.

Lemma lenZ_0_inv {A} (l : list A) : lenZ l = 0 -> l = [].
Proof. unfold lenZ. intros H. apply nil_length_inv. lia. Qed.

Lemma lenZ_replicate {A} n (x : A) : 0 <= n -> lenZ (replicate (Z.to_nat n) x) = n.
Proof. unfold lenZ. rewrite length_replicate. lia. Qed.

Create HintDb bytes discriminated.
Create Rewrite HintDb bytes_rw.
#[export] Hint Rewrite @lenZ_app @lenZ_cons lenZ_nil @takeZ_0 @dropZ_0 @app_nil_r : bytes_rw.
#[export] Hint Resolve lenZ_nonneg byte_val_range u32_range : bytes.

(** Closes goals of linear arithmetic over lengths. *)
Ltac len_lia :=
  autorewrite with bytes_rw in *;
  repeat match goal with
  | |- context [lenZ ?l] =>
      lazymatch goal with
      | _ : 0 <= lenZ l |- _ => fail
      | _ => pose proof (lenZ_nonneg l)
      end
  | _ : context [lenZ ?l] |- _ =>
      lazymatch goal with
      | _ : 0 <= lenZ l |- _ => fail
      | _ => pose proof (lenZ_nonneg l)
      end
  end; lia.

(** Decide the tests of a goal one by one. *)
Ltac case_tests :=
  repeat match goal with
  | |- context [bool_decide ?P] => destruct (bool_decide_reflect P)
  | |- context [Z.ltb ?a ?b] => destruct (Z.ltb_spec a b)
  | |- context [Z.leb ?a ?b] => destruct (Z.leb_spec a b)
  | |- context [Z.eqb ?a ?b] => destruct (Z.eqb_spec a b)
  end.

(** Rewrite away the comparisons that arithmetic decides. *)
Ltac arith_tests :=
  repeat match goal with
  | |- context [?a <=? ?b] =>
      first [ rewrite (proj2 (Z.leb_le a b)) by len_lia
            | rewrite (proj2 (Z.leb_gt a b)) by len_lia ]
  | |- context [?a <? ?b] =>
      first [ rewrite (proj2 (Z.ltb_lt a b)) by len_lia
            | rewrite (proj2 (Z.ltb_ge a b)) by len_lia ]
  | |- context [?a =? ?b] =>
      first [ rewrite (proj2 (Z.eqb_eq a b)) by len_lia
            | rewrite (proj2 (Z.eqb_neq a b)) by len_lia ]
  end; cbn [andb orb negb].

(** ** Reasoning about computations that may fault

    [triple P m Q]: started in a state where [P] holds, [m], if it does not
    fault, ends in one where [Q] holds of its result. *)
Definition triple {S A} (P : S -> Prop) (m : ST S A) (Q : A -> S -> Prop) : Prop :=
  forall s a s', P s -> m s = Some (a, s') -> Q a s'.

Section triples.
Context {S A : Type}.
Implicit Types (P : S -> Prop) (m : ST S A).

Lemma triple_bind {B} P m (R : A -> S -> Prop) (k : A -> ST S B) (Q : B -> S -> Prop) :
  triple P m R -> (forall a, triple (R a) (k a) Q) -> triple P (m ≫= k) Q.
Proof. intros Hm Hk s b s' HP H. st_inv H. eapply Hk; [by eapply Hm|done]. Qed.

Lemma triple_ret P (Q : A -> S -> Prop) a : (forall s, P s -> Q a s) -> triple P (mret a) Q.
Proof. intros H s b s' HP [= <- <-]. by apply H. Qed.

Lemma triple_conseq P P' m (Q Q' : A -> S -> Prop) :
  triple P' m Q' -> (forall s, P s -> P' s) -> (forall a s, Q' a s -> Q a s) -> triple P m Q.
Proof. intros H HP HQ s a s' Hs Hm. eapply HQ, H; [by apply HP|done]. Qed.

Lemma triple_pre P P' m (Q : A -> S -> Prop) :
  triple P' m Q -> (forall s, P s -> P' s) -> triple P m Q.
Proof. intros H HP. by eapply triple_conseq. Qed.

(** A fact that does not depend on the state. *)
Lemma triple_pure P (phi : Prop) m (Q : A -> S -> Prop) :
  (phi -> triple P m Q) -> triple (λ s, P s /\ phi) m Q.
Proof. intros H s a s' [HP Hphi]. by apply H. Qed.

Lemma triple_ret_bind {B} P (a : A) (k : A -> ST S B) (Q : B -> S -> Prop) :
  triple P (k a) Q -> triple P (mret a ≫= k) Q.
Proof. done. Qed.

Lemma triple_if P (b : bool) m1 m2 (Q : A -> S -> Prop) :
  (b = true -> triple P m1 Q) -> (b = false -> triple P m2 Q) ->
  triple P (if b then m1 else m2) Q.
Proof. intros H1 H2. destruct b; [by apply H1|by apply H2]. Qed.

Lemma triple_gets (f : S -> A) P (Q : A -> S -> Prop) :
  (forall s, P s -> Q (f s) s) -> triple P (st_gets f) Q.
Proof. intros H s a s' HP [= <- <-]. by apply H. Qed.

Lemma triple_reads (f : S -> option A) P (Q : A -> S -> Prop) :
  (forall s a, P s -> f s = Some a -> Q a s) -> triple P (st_reads f) Q.
Proof.
  intros H s a s' HP. unfold st_reads. destruct (f s) eqn:E; [|done].
  intros [= <- <-]. by apply H.
Qed.
End triples.

Lemma triple_modify {S} (f : S -> S) (P : S -> Prop) (Q : unit -> S -> Prop) :
  (forall s, P s -> Q tt (f s)) -> triple P (st_modify f) Q.
Proof. intros H s a s' HP [= <- <-]. by apply H. Qed.

Lemma triple_assert {S} (b : bool) (P : S -> Prop) (Q : unit -> S -> Prop) :
  (forall s, b = true -> P s -> Q tt s) -> triple P (st_assert b) Q.
Proof.
  intros H s a s' HP. unfold st_assert. destruct b; [|done]. intros [= <- <-]. by apply H.
Qed.

(** Take a triple for a sequence apart at its first action. *)
Ltac t_bind H := eapply triple_bind; [eapply H|intros ?; cbv beta].
