(* ===== verification/Heap.v ===== *)
(** * Memory obtained from [VirtualAlloc] and pointers into it

    A pointer is a block and an offset in it, the block being what one call of
    [VirtualAlloc] returned (or an object the program does not obtain that
    way, such as a string literal).  Reading or writing outside a live block is
    an access violation, which ends the process: the operations return [None].

    [VirtualAlloc] and [VirtualFree] are the operating system's.  Which block
    a call returns, and whether it succeeds at all, is a parameter ([VirtualMem]);
    its documented behaviour is [VirtualMemOk]. *)
From S2P Require Import Prelude.

(** ** Pointers *)

Record ptr := Ptr { p_blk : Z; p_off : Z }.

#[export] Instance ptr_eq_dec : EqDecision ptr.
Proof. solve_decision. Defined.
#[export] Instance ptr_inhabited : Inhabited ptr := populate (Ptr 0 0).

Definition NULL : ptr := Ptr 0 0.

(** [p + n], [p - q] and [p < q] for pointers into one block. *)
Definition ptr_add (p : ptr) (n : Z) : ptr := Ptr (p_blk p) (p_off p + n).
Definition ptr_diff (p q : ptr) : Z := p_off p - p_off q.
Definition ptr_lt (p q : ptr) : bool := p_off p <? p_off q.

Declare Scope ptr_scope.
Delimit Scope ptr_scope with ptr.
Bind Scope ptr_scope with ptr.
Infix "+" := ptr_add : ptr_scope.
Infix "-" := ptr_diff : ptr_scope.
Infix "<?" := ptr_lt : ptr_scope.

Lemma ptr_add_0 p : (p + 0)%ptr = p.
Proof. destruct p. unfold ptr_add. cbn. f_equal. lia. Qed.

Lemma ptr_add_add p n m : ((p + n) + m)%ptr = (p + (n + m))%ptr.
Proof. unfold ptr_add. cbn. f_equal. lia. Qed.

Lemma ptr_diff_add p n : ((p + n) - p)%ptr = n.
Proof. unfold ptr_diff, ptr_add. cbn. lia. Qed.

#[export] Hint Rewrite ptr_add_0 ptr_add_add ptr_diff_add : bytes_rw.

(** ** Loads and stores *)

Abbreviation heap := (gmap Z (list byte)).

Implicit Types (h : heap) (p q : ptr) (l bs : list byte).

(** [n] bytes read at [p]. *)
Definition load (h : heap) (p : ptr) (n : Z) : option (list byte) :=
  if n =? 0 then Some []
  else match h !! p_blk p with
       | Some l =>
           if (0 <=? p_off p) && (0 <=? n) && (p_off p + n <=? lenZ l)
           then Some (takeZ n (dropZ (p_off p) l)) else None
       | None => None
       end.

(** The bytes [bs] written at [p]. *)
Definition store (h : heap) (p : ptr) (bs : list byte) : option heap :=
  if lenZ bs =? 0 then Some h
  else match h !! p_blk p with
       | Some l =>
           if (0 <=? p_off p) && (p_off p + lenZ bs <=? lenZ l)
           then Some (<[p_blk p := takeZ (p_off p) l ++ bs ++
                        dropZ (p_off p + lenZ bs) l]> h)
           else None
       | None => None
       end.

Lemma load_0 h p : load h p 0 = Some [].
Proof. done. Qed.

Lemma store_nil h p : store h p [] = Some h.
Proof. done. Qed.

(** What a load at a known block returns: the block cut at the two ends of
    the range. *)
Lemma load_block h b l1 l2 l3 o n :
  h !! b = Some (l1 ++ l2 ++ l3) -> o = lenZ l1 -> n = lenZ l2 ->
  load h (Ptr b o) n = Some l2.
Proof.
  intros Hb -> ->. unfold load. cbn. rewrite Hb.
  destruct (Z.eqb_spec (lenZ l2) 0) as [E|E].
  { by rewrite (lenZ_0_inv _ E). }
  arith_tests.
  by rewrite dropZ_app, takeZ_app.
Qed.

(** What a store at a known block does. *)
Lemma store_block h b l1 l2 l3 o bs :
  h !! b = Some (l1 ++ l2 ++ l3) -> o = lenZ l1 -> lenZ bs = lenZ l2 ->
  store h (Ptr b o) bs = Some (<[b := l1 ++ bs ++ l3]> h).
Proof.
  intros Hb -> Hbs. unfold store. cbn. rewrite Hb.
  destruct (Z.eqb_spec (lenZ bs) 0) as [E|E].
  { rewrite E in Hbs. rewrite (lenZ_0_inv bs E).
    rewrite (lenZ_0_inv l2 (eq_sym Hbs)) in Hb. by rewrite insert_id. }
  arith_tests.
  rewrite takeZ_app by done. rewrite (app_assoc l1 l2), dropZ_app; [done|].
  rewrite lenZ_app. lia.
Qed.

(** A load only reads the block it points into. *)
Lemma load_frame h h' p n :
  h' !! p_blk p = h !! p_blk p -> load h' p n = load h p n.
Proof. unfold load. intros ->. done. Qed.

Lemma load_length h p n l : load h p n = Some l -> lenZ l = n.
Proof.
  unfold load. destruct (Z.eqb_spec n 0) as [->|Hn]; [by intros [= <-]|].
  destruct (h !! _) as [m|]; [|done].
  destruct (Z.leb_spec 0 (p_off p)); [|done]. destruct (Z.leb_spec 0 n); [|done].
  destruct (Z.leb_spec (p_off p + n) (lenZ m)); [|done]. cbn. intros [= <-].
  rewrite lenZ_takeZ; [done|]. rewrite lenZ_dropZ; lia.
Qed.

(** A load of a range is the loads of its two halves. *)
Lemma load_app h p n l1 l2 :
  load h p n = Some (l1 ++ l2) ->
  load h p (lenZ l1) = Some l1 /\ load h (p + lenZ l1)%ptr (lenZ l2) = Some l2.
Proof.
  intros H. pose proof (load_length _ _ _ _ H) as Hn. rewrite lenZ_app in Hn.
  pose proof (lenZ_nonneg l1). pose proof (lenZ_nonneg l2).
  unfold load in H. destruct (Z.eqb_spec n 0) as [E|E].
  { rewrite (lenZ_0_inv l1), (lenZ_0_inv l2) by lia. done. }
  destruct (h !! p_blk p) as [m|] eqn:Hb; [|done].
  destruct (Z.leb_spec 0 (p_off p)); [|done]. destruct (Z.leb_spec 0 n); [|done].
  destruct (Z.leb_spec (p_off p + n) (lenZ m)); [|done]. cbn in H.
  injection H as H.
  assert (m = takeZ (p_off p) m ++ l1 ++ l2 ++ dropZ n (dropZ (p_off p) m)) as Hm.
  { rewrite (app_assoc l1), <- H, !takeZ_dropZ. done. }
  rewrite Hm in Hb. destruct p as [b o]. cbn in *. split.
  - eapply load_block; [exact Hb| |done]. rewrite lenZ_takeZ; lia.
  - unfold ptr_add. cbn. rewrite app_assoc in Hb. eapply load_block; [exact Hb| |done].
    rewrite lenZ_app, lenZ_takeZ; lia.
Qed.

(** One byte: [*p]. *)
Definition load1 (h : heap) (p : ptr) : option byte :=
  match load h p 1 with Some [c] => Some c | _ => None end.

Lemma load1_head h p c l :
  load h p (lenZ (c :: l)) = Some (c :: l) ->
  load1 h p = Some c /\ load h (p + 1)%ptr (lenZ l) = Some l.
Proof.
  intros H. pose proof (load_app h p _ [c] l H) as [H1 H2]. unfold load1.
  change (lenZ [c]) with 1 in *. by rewrite H1.
Qed.

Lemma load1_last h p c l :
  load h p (lenZ (l ++ [c])) = Some (l ++ [c]) ->
  load1 h (p + lenZ l)%ptr = Some c /\ load h p (lenZ l) = Some l.
Proof.
  intros H. pose proof (load_app h p _ l [c] H) as [H1 H2]. unfold load1.
  change (lenZ [c]) with 1 in *. by rewrite H2.
Qed.

(** ** The operating system's allocator *)

Class VirtualMem := {
  (** The block [VirtualAlloc(NULL, n, MEM_COMMIT, PAGE_READWRITE)] returns, 0
      when it fails. *)
  va_block : heap -> Z -> Z;
}.

(** Documented behaviour: a successful call returns memory that is not in use;
    a call for 0 bytes fails ([ERROR_INVALID_PARAMETER]). *)
Class VirtualMemOk (VM : VirtualMem) : Prop := {
  va_fresh : forall h n, va_block h n <> 0 -> h !! va_block h n = None;
  va_zero : forall h, va_block h 0 = 0;
}.

(** The system has room for requests up to [limit] bytes. *)
Class VirtualMemGrants (VM : VirtualMem) (limit : Z) : Prop := {
  va_grants : forall h n, 0 < n <= limit -> va_block h n <> 0;
}.

(** Memory is committed in whole pages of 4096 bytes, initialised to zero. *)
Definition page_round (n : Z) : Z := (n + 4095) / 4096 * 4096.

Lemma page_round_ge n : n <= page_round n.
Proof. unfold page_round. Z.div_mod_to_equations. lia. Qed.

Definition zeros (n : Z) : list byte := replicate (Z.to_nat n) NUL.

Lemma lenZ_zeros n : 0 <= n -> lenZ (zeros n) = n.
Proof. apply lenZ_replicate. Qed.

Lemma zeros_add n m : 0 <= n -> 0 <= m -> zeros (n + m) = zeros n ++ zeros m.
Proof. intros. unfold zeros. rewrite Z2Nat.inj_add by done. apply replicate_add. Qed.

Section alloc.
Context {VM : VirtualMem}.

Definition VirtualAlloc (n : Z) : ST heap ptr := λ h,
  let b := va_block h n in
  if b =? 0 then Some (NULL, h)
  else Some (Ptr b 0, <[b := zeros (page_round n)]> h).

Definition VirtualFree (p : ptr) : ST heap unit :=
  st_modify (delete (p_blk p)).

(** [CopyMemory] and [MoveMemory]: the source is read before the
    destination is written. *)
Definition CopyMemory (dst src : ptr) (n : Z) : ST heap unit := λ h,
  match load h src n with
  | Some bs => match store h dst bs with Some h' => Some (tt, h') | None => None end
  | None => None
  end.

Lemma VirtualAlloc_ok h n limit :
  VirtualMemOk VM -> VirtualMemGrants VM limit -> 0 < n <= limit ->
  exists b, b <> 0 /\ h !! b = None /\
    VirtualAlloc n h = Some (Ptr b 0, <[b := zeros (page_round n)]> h).
Proof.
  intros HOk HG Hn. exists (va_block h n).
  pose proof (va_grants h n Hn) as Hb. split; [done|].
  split; [by apply va_fresh|]. unfold VirtualAlloc.
  destruct (Z.eqb_spec (va_block h n) 0); [done|reflexivity].
Qed.

Lemma VirtualAlloc_0 h :
  VirtualMemOk VM -> VirtualAlloc 0 h = Some (NULL, h).
Proof. intros HOk. unfold VirtualAlloc. by rewrite va_zero. Qed.
End alloc.

(** Where the data handed to an operation is: memory of the heap, or the
    characters of a live [std::string] or of another object that is not
    [VirtualAlloc]ed. *)
Inductive src := SMem (p : ptr) | SObj (s : list byte).

Definition load_src (h : heap) (d : src) (n : Z) : option (list byte) :=
  match d with
  | SMem p => load h p n
  | SObj s => if (0 <=? n) && (n <=? lenZ s) then Some (takeZ n s) else None
  end.

Definition CopyFrom (dst : ptr) (d : src) (n : Z) : ST heap unit := λ h,
  match load_src h d n with
  | Some bs => match store h dst bs with Some h' => Some (tt, h') | None => None end
  | None => None
  end.

(** A concrete allocator for evaluation: the block after the highest one. *)
Definition bump_block (h : heap) : Z := map_fold (λ k _ r, Z.max (k + 1) r) 1 h.

Lemma bump_block_above h k : is_Some (h !! k) -> k < bump_block h.
Proof.
  unfold bump_block. revert k.
  apply (map_fold_weak_ind (λ r m, forall k, is_Some (m !! k) -> k < r)).
  - intros k [x Hx]. by rewrite lookup_empty in Hx.
  - intros i x m r Hi IH k [y Hy]. destruct (decide (i = k)) as [->|Hne]; [lia|].
    rewrite lookup_insert_ne in Hy by done. specialize (IH k (mk_is_Some _ _ Hy)). lia.
Qed.

Lemma bump_block_pos h : 0 < bump_block h.
Proof.
  unfold bump_block. apply (map_fold_weak_ind (λ r m, 0 < r)); lia.
Qed.

Definition bump_mem : VirtualMem :=
  {| va_block h n := if n =? 0 then 0 else bump_block h |}.

#[export] Instance bump_mem_ok : VirtualMemOk bump_mem.
Proof.
  split; [|done]. intros h n. cbn. destruct (n =? 0); [done|]. intros _.
  destruct (h !! bump_block h) eqn:E; [|done].
  pose proof (bump_block_above h _ (mk_is_Some _ _ E)). lia.
Qed.

#[export] Instance bump_mem_grants limit : VirtualMemGrants bump_mem limit.
Proof.
  split. intros h n Hn. cbn. destruct (Z.eqb_spec n 0); [lia|].
  pose proof (bump_block_pos h). lia.
Qed.
