(* ===== verification/CLib.v ===== *)
(** * The C library functions the sources call, on byte strings

    A C string is the bytes before its NUL.  Characters are classified as in
    the "C" locale; a [char] above 127 belongs to no class (the sources pass
    negative [char]s to [isspace], for which C leaves the answer open).
    [memcmp] and [strcasecmp] return a number whose sign is specified and whose
    value is not: the model returns -1, 0 or 1. *)
From S2P Require Import Prelude.

(** ** Characters *)

Definition isspace (c : byte) : bool :=
  let v := byte_val c in ((9 <=? v) && (v <=? 13)) || (v =? 32).

Definition isdigit (c : byte) : bool :=
  let v := byte_val c in (48 <=? v) && (v <=? 57).

Definition tolower (c : byte) : byte :=
  let v := byte_val c in
  if (65 <=? v) && (v <=? 90)
  then default c (Byte.of_N (Z.to_N (v + 32))) else c.

(** ** Cutting strings *)

(** The longest prefix whose bytes satisfy [f], and the rest. *)
Fixpoint span (f : byte -> bool) (l : bytes) : bytes * bytes :=
  match l with
  | [] => ([], [])
  | c :: l' =>
      if f c then let '(a, b) := span f l' in (c :: a, b) else ([], l)
  end.

Definition take_while f l := (span f l).1.
Definition drop_while f l := (span f l).2.

Lemma span_app f l : take_while f l ++ drop_while f l = l.
Proof.
  unfold take_while, drop_while. induction l as [|c l IH]; [done|]. cbn.
  destruct (f c); [|done]. destruct (span f l). cbn in *. by rewrite IH.
Qed.

Lemma take_while_all f l : Forall (λ c, f c = true) (take_while f l).
Proof.
  unfold take_while. induction l as [|c l IH]; [done|]. cbn.
  destruct (f c) eqn:E; [|done]. destruct (span f l). cbn in *. by constructor.
Qed.

Lemma drop_while_head f l c k : drop_while f l = c :: k -> f c = false.
Proof.
  unfold drop_while. induction l as [|d l IH]; [done|]. cbn.
  destruct (f d) eqn:E.
  - destruct (span f l). cbn in *. done.
  - cbn. by intros [= -> ->].
Qed.

(** A prefix that satisfies [f], followed by nothing or by a byte that does
    not, is the one [span] finds. *)
Lemma span_exact f a b :
  Forall (λ c, f c = true) a ->
  match b with [] => True | c :: _ => f c = false end ->
  span f (a ++ b) = (a, b).
Proof.
  intros Ha Hb. induction Ha as [|c a Hc Ha IH]; cbn.
  - destruct b as [|c b]; [done|]. cbn. by rewrite Hb.
  - by rewrite Hc, IH.
Qed.

Lemma span_eq f l : span f l = (take_while f l, drop_while f l).
Proof. unfold take_while, drop_while. by destruct (span f l). Qed.

(** The C string at the start of [l]: the bytes before the first NUL. *)
Definition cstr (l : bytes) : bytes :=
  take_while (λ c, negb (bool_decide (c = NUL))) l.

(** ** Comparing *)

Fixpoint memcmp (l k : bytes) : Z :=
  match l, k with
  | c :: l', d :: k' =>
      if byte_val c =? byte_val d then memcmp l' k'
      else if byte_val c <? byte_val d then -1 else 1
  | _, _ => 0
  end.

(** [strcasecmp] and [strncasecmp]. *)
Fixpoint strcasecmp (l k : bytes) : Z :=
  match l, k with
  | [], [] => 0
  | [], _ :: _ => -1
  | _ :: _, [] => 1
  | c :: l', d :: k' =>
      let a := byte_val (tolower c) in let b := byte_val (tolower d) in
      if a =? b then strcasecmp l' k' else if a <? b then -1 else 1
  end.

Definition strncasecmp (l k : bytes) (n : nat) : Z :=
  strcasecmp (take n l) (take n k).

(** ** Searching *)

Fixpoint prefixb (k l : bytes) : bool :=
  match k, l with
  | [], _ => true
  | c :: k', d :: l' => bool_decide (c = d) && prefixb k' l'
  | _ :: _, [] => false
  end.

(** [strstr]: the offset of the first occurrence of [k] in [l]. *)
Fixpoint strstr (l k : bytes) : option Z :=
  if prefixb k l then Some 0
  else match l with
       | [] => None
       | _ :: l' => match strstr l' k with Some i => Some (i + 1) | None => None end
       end.

(** [strpbrk]: the rest of [l] from its first byte in [accept]. *)
Definition strpbrk (l accept : bytes) : option bytes :=
  match drop_while (λ c, negb (bool_decide (c ∈ accept))) l with
  | [] => None
  | r => Some r
  end.

(** [strspn]: the length of the prefix made of bytes of [accept]. *)
Definition strspn (l accept : bytes) : nat :=
  length (take_while (λ c, bool_decide (c ∈ accept)) l).

(** [strchr] for a byte other than NUL. *)
Definition strchr (l : bytes) (c : byte) : option bytes := strpbrk l [c].

(** ** Numbers *)

Fixpoint digits_value (acc : Z) (l : bytes) : Z :=
  match l with
  | c :: l' => if isdigit c then digits_value (acc * 10 + (byte_val c - 48)) l' else acc
  | [] => acc
  end.

(** [atoi], saturating at the ends of [int]. *)
Definition atoi (s : bytes) : Z :=
  let t := drop_while isspace (cstr s) in
  let v := match t with
           | c :: t' =>
               if bool_decide (c = Byte.x2d) then - digits_value 0 t'
               else if bool_decide (c = Byte.x2b) then digits_value 0 t'
               else digits_value 0 t
           | [] => 0
           end in
  Z.max (- 2 ^ 31) (Z.min (2 ^ 31 - 1) v).

(** ** Facts *)

Lemma memcmp_eq l k : length l = length k -> memcmp l k = 0 <-> l = k.
Proof.
  revert k. induction l as [|c l IH]; intros [|d k]; try done.
  cbn [length memcmp]. intros [= Hlen].
  destruct (Z.eqb_spec (byte_val c) (byte_val d)) as [E|E].
  - apply byte_val_inj in E as ->. rewrite IH by done. split; [by intros ->|by intros [= ->]].
  - split; [destruct (_ <? _); done|]. intros [= -> ->]. done.
Qed.

Lemma memcmp_refl l : memcmp l l = 0.
Proof. by apply memcmp_eq. Qed.

Lemma memcmp_antisym l k : memcmp k l = - memcmp l k.
Proof.
  revert k. induction l as [|c l IH]; intros [|d k]; try done.
  cbn [memcmp]. rewrite (Z.eqb_sym (byte_val d)).
  destruct (Z.eqb_spec (byte_val c) (byte_val d)); [done|].
  destruct (Z.ltb_spec (byte_val c) (byte_val d)), (Z.ltb_spec (byte_val d) (byte_val c)); lia.
Qed.

Lemma prefixb_spec k l : prefixb k l = true <-> exists r, l = k ++ r.
Proof.
  revert l. induction k as [|c k IH]; intros l; cbn.
  - split; [eauto|done].
  - destruct l as [|d l]; [split; [done|by intros [r ?]]|].
    rewrite andb_true_iff, bool_decide_eq_true, IH. split.
    + intros [-> [r ->]]. eauto.
    + intros [r [= -> ->]]. eauto.
Qed.

Lemma prefixb_app k r : prefixb k (k ++ r) = true.
Proof. apply prefixb_spec. eauto. Qed.

(** [strstr] finds an occurrence, and no earlier one exists. *)
Lemma strstr_Some l k i :
  strstr l k = Some i ->
  exists a b, l = a ++ k ++ b /\ i = lenZ a /\
    forall a' b', l = a' ++ k ++ b' -> lenZ a <= lenZ a'.
Proof.
  revert i. induction l as [|c l IH]; intros i; cbn.
  - destruct (prefixb k []) eqn:E; [|done]. intros [= <-].
    apply prefixb_spec in E as [r E]. exists [], r. cbn. split_and!; [done..|].
    intros. len_lia.
  - destruct (prefixb k (c :: l)) eqn:E.
    + intros [= <-]. apply prefixb_spec in E as [r E]. exists [], r.
      split_and!; [done..|]. intros. len_lia.
    + destruct (strstr l k) as [j|] eqn:Hj; [|done]. intros [= <-].
      destruct (IH j eq_refl) as (a & b & -> & -> & Hmin).
      exists (c :: a), b. split_and!; [done|len_lia|].
      intros [|c' a'] b' Heq.
      * cbn in Heq. rewrite Heq, prefixb_app in E. done.
      * injection Heq as <- Heq. specialize (Hmin _ _ Heq). len_lia.
Qed.

Lemma strstr_None l k a b : strstr l k = None -> l <> a ++ k ++ b.
Proof.
  revert a. induction l as [|c l IH]; intros a; cbn.
  - destruct (prefixb k []) eqn:E; [done|]. intros _ Heq.
    destruct a; [|done]. cbn in Heq. by rewrite Heq, prefixb_app in E.
  - destruct (prefixb k (c :: l)) eqn:E; [done|].
    destruct (strstr l k) eqn:Hj; [done|]. intros _ Heq.
    destruct a as [|c' a]; cbn in Heq.
    + by rewrite Heq, prefixb_app in E.
    + injection Heq as <- Heq. by apply (IH a).
Qed.

(** More text does not change what is found. *)
Lemma strstr_app l k x i : strstr l k = Some i -> strstr (l ++ x) k = Some i.
Proof.
  revert i. induction l as [|c l IH]; intros i; cbn.
  - destruct k as [|d k]; cbn; [|done]. intros [= <-]. by destruct x.
  - destruct (prefixb k (c :: l)) eqn:E.
    + intros [= <-]. apply prefixb_spec in E as [r E].
      rewrite (app_comm_cons l x c), E, <- app_assoc, prefixb_app. done.
    + destruct (strstr l k) as [j|] eqn:Hj; [|done]. intros [= <-].
      destruct (prefixb k (c :: l ++ x)) eqn:E'.
      * exfalso. apply prefixb_spec in E' as [r E'].
        destruct (strstr_Some _ _ _ Hj) as (a & y & -> & _ & _).
        assert (k = take (length k) (c :: (a ++ k ++ y))) as Hk.
        { change (c :: (a ++ k ++ y) ++ x) with ((c :: (a ++ k ++ y)) ++ x) in E'.
          apply (f_equal (take (length k))) in E'. rewrite take_app_length in E'.
          rewrite take_app_le in E'; [by rewrite E'|]. cbn. rewrite !length_app. lia. }
        rewrite <- (take_drop (length k) (c :: (a ++ k ++ y))), <- Hk, prefixb_app in E. done.
      * by rewrite (IH j eq_refl).
Qed.

Example atoi_ex : (atoi (lit " -12x"), atoi (lit "99999999999"), atoi (lit "")) = (-12, 2 ^ 31 - 1, 0).
Proof. vm_compute. reflexivity. Qed.
Example strcasecmp_ex : strcasecmp (lit "GeT") (lit "get") = 0.
Proof. vm_compute. reflexivity. Qed.
