(* ===== verification/Slice.v ===== *)
(** * [Slice] (WinHttpServer/Slice.h, Slice.cpp): a view of bytes owned by a [Buffer]

    A [Slice] is a pair of pointers; every access goes through the memory they
    point into, so a slice is only meaningful while that memory is live and
    unchanged.  [slice_is h s l] says that in memory [h] the slice [s] shows
    the bytes [l]. *)
From S2P Require Import Prelude Heap CLib.

Record Slice := mkSlice { m_pb : ptr; m_pe : ptr }.

(** ** Operations *)

(** The literal [""], an object of static storage holding one NUL. *)
Definition lit_empty : ptr := Ptr (-1) 0.

Definition Slice_default : Slice := mkSlice lit_empty lit_empty.
Definition Slice_range (b e : ptr) : Slice := mkSlice b e.
Definition Slice_sized (d : ptr) (n : Z) : Slice := mkSlice d (d + n)%ptr.

(** [strlen]: it reads up to the first NUL, which must be in the same object. *)
Definition strlen (h : heap) (p : ptr) : option Z :=
  l ← h !! p_blk p;
  let t := dropZ (p_off p) l in
  if (0 <=? p_off p) && bool_decide (NUL ∈ t) then Some (lenZ (cstr t)) else None.

Definition Slice_cstr (h : heap) (s : ptr) : option Slice :=
  n ← strlen h s; Some (mkSlice s (s + n)%ptr).
(** From a [std::string] whose characters [s] are at [d]. *)
Definition Slice_string (d : ptr) (s : bytes) : Slice := mkSlice d (d + lenZ s)%ptr.

Definition data (s : Slice) : ptr := m_pb s.
Definition begin (s : Slice) : ptr := m_pb s.
Definition end_ (s : Slice) : ptr := m_pe s.

Definition front (h : heap) (s : Slice) : option byte := load1 h (m_pb s).
Definition back (h : heap) (s : Slice) : option byte := load1 h (m_pe s + -1)%ptr.

(** [size_t] is an unsigned word: 32 bits in the Win32 configurations, 64 in
    the x64 ones. *)
Class Arch := { size_bits : Z; size_bits_ok : size_bits = 32 \/ size_bits = 64 }.
Definition to_size `{Arch} (z : Z) : Z := z mod 2 ^ size_bits.

Definition Win32 : Arch := {| size_bits := 32; size_bits_ok := or_introl eq_refl |}.
Definition X64 : Arch := {| size_bits := 64; size_bits_ok := or_intror eq_refl |}.

Lemma to_size_small `{Arch} z : 0 <= z < 2 ^ 32 -> to_size z = z.
Proof.
  intros Hz. unfold to_size. apply Z.mod_small.
  destruct size_bits_ok as [-> | ->]; lia.
Qed.

Definition size `{Arch} (s : Slice) : Z := to_size (m_pe s - m_pb s)%ptr.
Definition empty (s : Slice) : bool := bool_decide (m_pe s = m_pb s).
Definition resize (s : Slice) (sz : Z) : Slice := mkSlice (m_pb s) (m_pb s + sz)%ptr.
Definition clear (s : Slice) : Slice := mkSlice lit_empty lit_empty.

(** The loop [while (p < pe && f( *p)) ++p].  [fuel] bounds the number of
    iterations; [pe - p] of them suffice. *)
Fixpoint skip_while (h : heap) (f : byte -> bool) (fuel : nat) (p pe : ptr) : option ptr :=
  if (p <? pe)%ptr then
    match fuel with
    | O => None
    | S fuel =>
        c ← load1 h p;
        if f c then skip_while h f fuel (p + 1)%ptr pe else Some p
    end
  else Some p.

(** The loop [while (pb < pe && f(pe[-1])) pe--]. *)
Fixpoint skip_back (h : heap) (f : byte -> bool) (fuel : nat) (pb pe : ptr) : option ptr :=
  if (pb <? pe)%ptr then
    match fuel with
    | O => None
    | S fuel =>
        c ← load1 h (pe + -1)%ptr;
        if f c then skip_back h f fuel pb (pe + -1)%ptr else Some pe
    end
  else Some pe.

Definition room (p pe : ptr) : nat := Z.to_nat (pe - p)%ptr.

Definition eatWord (h : heap) (s : Slice) : option (Slice * Slice) :=
  b ← skip_while h isspace (room (m_pb s) (m_pe s)) (m_pb s) (m_pe s);
  e ← skip_while h (λ c, negb (isspace c)) (room b (m_pe s)) b (m_pe s);
  Some (Slice_range b e, mkSlice e (m_pe s)).

Definition eatLine (h : heap) (s : Slice) : option (Slice * Slice) :=
  let p := m_pb s in
  q ← skip_while h (λ c, negb (bool_decide (c = CR)) && negb (bool_decide (c = LF)))
        (room p (m_pe s)) p (m_pe s);
  Some (Slice_sized p (q - p)%ptr, mkSlice q (m_pe s)).

Definition eat `{Arch} (s : Slice) (sz : Z) : Slice * Slice :=
  let sz := if size s <? sz then size s else sz in
  (Slice_sized (m_pb s) sz, mkSlice (m_pb s + sz)%ptr (m_pe s)).

Definition sub (s : Slice) (boff eoff : Z) : Slice :=
  mkSlice (m_pb s + boff)%ptr (m_pe s + eoff)%ptr.

Definition trimSpace (h : heap) (s : Slice) : option Slice :=
  b ← skip_while h isspace (room (m_pb s) (m_pe s)) (m_pb s) (m_pe s);
  e ← skip_back h isspace (room b (m_pe s)) b (m_pe s);
  Some (mkSlice b e).

Definition at_ (h : heap) (s : Slice) (n : Z) : option byte := load1 h (m_pb s + n)%ptr.

(** [toString] and the conversion to [std::string]. *)
Definition toString (h : heap) (s : Slice) : option bytes :=
  load h (m_pb s) (m_pe s - m_pb s)%ptr.

Definition compare `{Arch} (h : heap) (s b : Slice) : option Z :=
  let sz := size s in let bsz := size b in
  let min_len := s32 (if sz <? bsz then sz else bsz) in
  x ← load h (m_pb s) (to_size min_len);
  y ← load h (m_pb b) (to_size min_len);
  let r := memcmp x y in
  Some (if r =? 0 then (if sz <? bsz then -1 else if bsz <? sz then 1 else r) else r).

Definition starts_with `{Arch} (h : heap) (s x : Slice) : option bool :=
  if size x <=? size s then
    a ← load h (m_pb s) (size x);
    b ← load h (m_pb x) (size x);
    Some (memcmp a b =? 0)
  else Some false.

Definition end_with `{Arch} (h : heap) (s x : Slice) : option bool :=
  if size x <=? size s then
    a ← load h (m_pe s + - size x)%ptr (size x);
    b ← load h (m_pb x) (size x);
    Some (memcmp a b =? 0)
  else Some false.

(** The [for] loop of [split]: [p] runs to [pe], [pb] is the start of the
    current piece, [r] the pieces so far. *)
Fixpoint split_loop (h : heap) (ch : byte) (fuel : nat) (pb p pe : ptr)
    (r : list Slice) : option (ptr * list Slice) :=
  if (p <? pe)%ptr then
    match fuel with
    | O => None
    | S fuel =>
        c ← load1 h p;
        if bool_decide (c = ch)
        then split_loop h ch fuel (p + 1)%ptr (p + 1)%ptr pe (r ++ [Slice_range pb p])
        else split_loop h ch fuel pb (p + 1)%ptr pe r
    end
  else Some (pb, r).

Definition split (h : heap) (s : Slice) (ch : byte) : option (list Slice) :=
  '(pb, r) ← split_loop h ch (room (m_pb s) (m_pe s)) (m_pb s) (m_pb s) (m_pe s) [];
  Some (if bool_decide (m_pe s = m_pb s) then r else r ++ [Slice_range pb (m_pe s)]).

(** [operator<], [operator==] and [operator!=]. *)
Definition slice_lt `{Arch} (h : heap) (x y : Slice) : option bool :=
  r ← compare h x y; Some (r <? 0).

Definition slice_eq `{Arch} (h : heap) (x y : Slice) : option bool :=
  if size x =? size y then
    a ← load h (m_pb x) (size x);
    b ← load h (m_pb y) (size x);
    Some (memcmp a b =? 0)
  else Some false.

Definition slice_ne `{Arch} (h : heap) (x y : Slice) : option bool :=
  r ← slice_eq h x y; Some (negb r).

(** ** What a slice shows *)

Definition slice_is (h : heap) (s : Slice) (l : bytes) : Prop :=
  load h (m_pb s) (lenZ l) = Some l /\ m_pe s = (m_pb s + lenZ l)%ptr.

Implicit Types (h : heap) (s x y : Slice) (l k : bytes) (p q : ptr).

Lemma slice_is_toString h s l : slice_is h s l -> toString h s = Some l.
Proof. intros [Hl He]. unfold toString. by rewrite He, ptr_diff_add. Qed.

Lemma slice_is_size `{Arch} h s l : slice_is h s l -> lenZ l < 2 ^ 32 -> size s = lenZ l.
Proof.
  intros [_ He] Hl. unfold size. rewrite He, ptr_diff_add. apply to_size_small. len_lia.
Qed.

Lemma slice_is_empty h s l : slice_is h s l -> empty s = bool_decide (l = []).
Proof.
  intros [_ He]. unfold empty. apply bool_decide_ext. rewrite He. split; [|intros ->].
  - intros E. apply lenZ_0_inv. rewrite <- (ptr_diff_add (m_pb s) (lenZ l)), E.
    unfold ptr_diff. lia.
  - apply ptr_add_0.
Qed.

(** A slice that shows [a ++ b] falls into one that shows [a] and one that
    shows [b]. *)
Lemma slice_is_app h p pe a b :
  slice_is h (mkSlice p pe) (a ++ b) ->
  slice_is h (mkSlice p (p + lenZ a)%ptr) a /\
  slice_is h (mkSlice (p + lenZ a)%ptr pe) b.
Proof.
  intros [Hl He]. cbn in *. apply load_app in Hl as [Ha Hb].
  split; split; cbn; [done|done|done|].
  rewrite He, ptr_add_add, lenZ_app. done.
Qed.

Lemma slice_is_eta h s l : slice_is h s l <-> slice_is h (mkSlice (m_pb s) (m_pe s)) l.
Proof. done. Qed.

Lemma slice_is_room h s l : slice_is h s l -> room (m_pb s) (m_pe s) = length l.
Proof. intros [_ He]. unfold room. rewrite He, ptr_diff_add. unfold lenZ. lia. Qed.

(** The loop of the scanning operations stops, within as many iterations as
    there are bytes, at the first byte that fails the test. *)
Lemma skip_while_spec h f fuel p pe l :
  slice_is h (mkSlice p pe) l -> (length l <= fuel)%nat ->
  skip_while h f fuel p pe = Some (p + lenZ (take_while f l))%ptr.
Proof.
  revert fuel p. induction l as [|c l IH]; intros fuel p [Hl He] Hf; cbn in Hl, He.
  - rewrite lenZ_nil, ptr_add_0 in He. subst pe. unfold take_while. cbn.
    rewrite lenZ_nil, ptr_add_0. unfold skip_while, ptr_lt. destruct fuel; by rewrite Z.ltb_irrefl.
  - destruct fuel as [|fuel]; [cbn in Hf; lia|]. cbn [length] in Hf.
    apply load1_head in Hl as [Hc Hl]. rewrite lenZ_cons in He.
    unfold take_while. cbn. subst pe. unfold ptr_lt. cbn [ptr_add p_off].
    arith_tests. rewrite Hc. cbn. destruct (f c) eqn:E; cbn.
    + rewrite span_eq. cbn. rewrite (IH fuel (p + 1)%ptr); [|split; cbn; [done|]|lia].
      * by rewrite ptr_add_add, lenZ_cons.
      * by rewrite ptr_add_add.
    + by rewrite lenZ_nil, ptr_add_0.
Qed.

Lemma skip_while_ext h f g fuel p pe :
  (forall c, f c = g c) -> skip_while h f fuel p pe = skip_while h g fuel p pe.
Proof.
  intros Hfg. revert p. induction fuel as [|fuel IH]; intros p; cbn; [done|].
  destruct (p <? pe)%ptr; [|done]. destruct (load1 h p); cbn; [|done].
  by rewrite Hfg, IH.
Qed.

(** A scan from [m_pb s] cuts the slice in two. *)
Lemma skip_while_cut h f s l :
  slice_is h s l ->
  exists q, skip_while h f (room (m_pb s) (m_pe s)) (m_pb s) (m_pe s) = Some q /\
    slice_is h (mkSlice (m_pb s) q) (take_while f l) /\
    slice_is h (mkSlice q (m_pe s)) (drop_while f l).
Proof.
  intros Hs. eexists. split.
  { apply skip_while_spec; [by apply slice_is_eta|]. by rewrite (slice_is_room h s l Hs). }
  apply slice_is_app. by rewrite span_app.
Qed.

(** ** The reference operations on byte strings *)

Module Spec.
Definition is_eol (c : byte) : bool := bool_decide (c = CR) || bool_decide (c = LF).

(** The next word and what follows it. *)
Definition eat_word (l : bytes) : bytes * bytes :=
  span (λ c, negb (isspace c)) (drop_while isspace l).

(** The text before the end of the line, and the rest from there on. *)
Definition eat_line (l : bytes) : bytes * bytes := span (λ c, negb (is_eol c)) l.

Definition trim (l : bytes) : bytes :=
  reverse (drop_while isspace (reverse (drop_while isspace l))).

(** The pieces of [l] between the occurrences of [ch]. *)
Fixpoint pieces (ch : byte) (l : bytes) : list bytes :=
  match l with
  | [] => [[]]
  | c :: l' =>
      if bool_decide (c = ch) then [] :: pieces ch l'
      else match pieces ch l' with
           | p :: ps => (c :: p) :: ps
           | [] => [[c]]
           end
  end.

Fixpoint join (ch : byte) (ps : list bytes) : bytes :=
  match ps with
  | [] => []
  | [p] => p
  | p :: ps' => p ++ ch :: join ch ps'
  end.

(** The lexicographic order on byte strings. *)
Fixpoint lex (l k : bytes) : comparison :=
  match l, k with
  | [], [] => Eq
  | [], _ :: _ => Lt
  | _ :: _, [] => Gt
  | c :: l', d :: k' =>
      match Z.compare (byte_val c) (byte_val d) with
      | Eq => lex l' k'
      | r => r
      end
  end.
End Spec.

(** ** Scanning *)

Lemma eatWord_spec h s l :
  slice_is h s l ->
  exists w r, eatWord h s = Some (w, r) /\
    slice_is h w (Spec.eat_word l).1 /\ slice_is h r (Spec.eat_word l).2.
Proof.
  intros Hs. unfold eatWord.
  destruct (skip_while_cut h isspace s l Hs) as (b & -> & _ & Hb). cbn.
  destruct (skip_while_cut h (λ c, negb (isspace c)) _ _ Hb) as (e & He & Hw & Hr).
  cbn in He. rewrite He. cbn. do 2 eexists. split; [done|].
  unfold Spec.eat_word. rewrite span_eq. done.
Qed.

Lemma eatLine_spec h s l :
  slice_is h s l ->
  exists w r, eatLine h s = Some (w, r) /\
    slice_is h w (Spec.eat_line l).1 /\ slice_is h r (Spec.eat_line l).2.
Proof.
  intros Hs. unfold eatLine.
  destruct (skip_while_cut h (λ c, negb (Spec.is_eol c)) s l Hs) as (q & Hq & Hw & Hr).
  rewrite (skip_while_ext _ _ (λ c, negb (Spec.is_eol c))), Hq
    by (intros c; unfold Spec.is_eol; by rewrite negb_orb).
  cbn. do 2 eexists. split; [done|]. unfold Spec.eat_line. rewrite span_eq. cbn.
  split; [|done]. destruct Hw as [Hw Hq']. cbn in Hw, Hq'. split; cbn; [done|].
  by rewrite Hq', ptr_diff_add.
Qed.

Lemma eat_spec `{Arch} h s l n :
  slice_is h s l -> lenZ l < 2 ^ 32 -> 0 <= n ->
  slice_is h (eat s n).1 (takeZ n l) /\ slice_is h (eat s n).2 (dropZ n l).
Proof.
  intros Hs Hl Hn. unfold eat. rewrite (slice_is_size h s l Hs Hl).
  rewrite <- (takeZ_dropZ n l) in Hs. destruct (slice_is_app _ _ _ _ _ Hs) as [Ha Hb].
  destruct (Z.ltb_spec (lenZ l) n).
  - rewrite takeZ_ge, dropZ_ge in * by lia. split; [done|]. done.
  - rewrite lenZ_takeZ in * by lia. done.
Qed.

Lemma sub_back_spec h s l c :
  slice_is h s (l ++ [c]) ->
  back h s = Some c /\ slice_is h (sub s 0 (-1)) l.
Proof.
  intros [Hl He]. apply load1_last in Hl as [Hc Hl].
  unfold back, sub, slice_is. cbn. rewrite He, lenZ_app, !ptr_add_add, ptr_add_0.
  change (lenZ [c]) with 1. replace (lenZ l + 1 + -1) with (lenZ l) by lia. done.
Qed.

Lemma front_spec h s c l : slice_is h s (c :: l) -> front h s = Some c.
Proof. intros [Hl _]. by apply load1_head in Hl as [Hc _]. Qed.

Lemma resize_spec h s l k : slice_is h s (l ++ k) -> slice_is h (resize s (lenZ l)) l.
Proof. intros Hs. by apply (slice_is_app h (m_pb s) (m_pe s)) in Hs as [? _]. Qed.

Lemma skip_back_spec h f fuel p pe l :
  slice_is h (mkSlice p pe) l -> (length l <= fuel)%nat ->
  exists q, skip_back h f fuel p pe = Some q /\
    slice_is h (mkSlice p q) (reverse (drop_while f (reverse l))).
Proof.
  revert fuel pe. induction l as [|c l IH] using rev_ind; intros fuel pe Hs Hf.
  - destruct Hs as [Hl He]. cbn in *. rewrite lenZ_nil, ptr_add_0 in He. subst pe.
    exists p. unfold skip_back, ptr_lt.
    destruct fuel; rewrite Z.ltb_irrefl; (split; [done|split; [done|]]);
      cbn; by rewrite lenZ_nil, ptr_add_0.
  - rewrite length_app in Hf. cbn in Hf. destruct fuel as [|fuel]; [lia|].
    destruct (sub_back_spec _ _ _ _ Hs) as [Hc Hsub].
    destruct Hs as [Hl He]. cbn in Hl, He. subst pe. unfold back in Hc. cbn in Hc.
    unfold sub in Hsub. cbn in Hsub. rewrite ptr_add_0 in Hsub.
    cbn [skip_back]. unfold ptr_lt. cbn [ptr_add p_off]. rewrite lenZ_app.
    change (lenZ [c]) with 1. arith_tests. rewrite lenZ_app in Hc, Hsub.
    change (lenZ [c]) with 1 in Hc, Hsub. rewrite Hc. cbn.
    rewrite reverse_snoc. unfold drop_while. cbn [span].
    destruct (f c) eqn:E.
    + destruct (IH fuel _ Hsub ltac:(lia)) as (q & -> & Hq). exists q. split; [done|].
      unfold drop_while in Hq. by destruct (span f (reverse l)).
    + eexists. split; [done|]. cbn [snd]. rewrite reverse_cons, reverse_involutive.
      split; cbn; [done|]. by rewrite lenZ_app.
Qed.

(** [trimSpace] leaves the bytes without the white space at the two ends. *)
Lemma trimSpace_spec h s l :
  slice_is h s l ->
  exists t, trimSpace h s = Some t /\ slice_is h t (Spec.trim l).
Proof.
  intros Hs. unfold trimSpace.
  destruct (skip_while_cut h isspace s l Hs) as (b & -> & _ & Hb). cbn.
  destruct (skip_back_spec h isspace (room b (m_pe s)) b (m_pe s) _ Hb) as (e & -> & He).
  { by rewrite (slice_is_room h _ _ Hb : room b (m_pe s) = _). }
  eexists. split; [done|]. done.
Qed.

(** ** Comparing *)

Lemma lex_memcmp l k n :
  n = Z.to_nat (Z.min (lenZ l) (lenZ k)) ->
  let r := memcmp (take n l) (take n k) in
  Spec.lex l k =
    (if r =? 0 then Z.compare (lenZ l) (lenZ k) else Z.compare r 0).
Proof.
  revert k n. induction l as [|c l IH]; intros [|d k] n Hn; cbn zeta.
  - by subst n.
  - subst n. rewrite Z.min_l by len_lia. cbn -[Z.compare]. symmetry. apply Z.compare_lt_iff. len_lia.
  - subst n. rewrite Z.min_r by len_lia. cbn -[Z.compare]. symmetry. apply Z.compare_gt_iff. len_lia.
  - assert (n = S (Z.to_nat (Z.min (lenZ l) (lenZ k)))) as -> by len_lia. clear Hn.
    cbn [take memcmp Spec.lex]. rewrite (IH k _ eq_refl), !lenZ_cons. cbn zeta.
    destruct (Z.compare_spec (byte_val c) (byte_val d)) as [E|E|E].
    + rewrite E, Z.eqb_refl. rewrite Z.add_compare_mono_l. done.
    + arith_tests. done.
    + arith_tests. done.
Qed.

Lemma compare_spec `{Arch} h x y l k :
  slice_is h x l -> slice_is h y k -> lenZ l < 2 ^ 31 -> lenZ k < 2 ^ 31 ->
  exists r, compare h x y = Some r /\ Z.compare r 0 = Spec.lex l k.
Proof.
  intros Hx Hy Hl Hk. unfold compare.
  rewrite (slice_is_size h x l Hx), (slice_is_size h y k Hy) by lia.
  set (n := s32 _). assert (n = Z.min (lenZ l) (lenZ k)) as Hn.
  { subst n. destruct (Z.ltb_spec (lenZ l) (lenZ k)); rewrite s32_small; len_lia. }
  clearbody n. rewrite to_size_small by len_lia.
  destruct Hx as [Hx _], Hy as [Hy _].
  rewrite <- (takeZ_dropZ n l) in Hx. rewrite <- (takeZ_dropZ n k) in Hy.
  rewrite lenZ_app in Hx, Hy.
  apply load_app in Hx as [Hx _]. apply load_app in Hy as [Hy _].
  rewrite lenZ_takeZ in Hx, Hy by len_lia. rewrite Hx, Hy. cbn -[Z.compare].
  eexists. split; [done|]. rewrite (lex_memcmp l k (Z.to_nat n)) by (by rewrite Hn).
  unfold takeZ. cbn zeta. destruct (_ =? 0) eqn:E; [|done].
  destruct (Z.compare_spec (lenZ l) (lenZ k)); arith_tests; try done.
  by apply Z.eqb_eq in E as ->.
Qed.

Lemma lex_Eq l k : Spec.lex l k = Eq <-> l = k.
Proof.
  revert k. induction l as [|c l IH]; intros [|d k]; try done. cbn.
  destruct (Z.compare_spec (byte_val c) (byte_val d)) as [E|E|E].
  - apply byte_val_inj in E as ->. rewrite IH. split; [by intros ->|by intros [= ->]].
  - split; [done|]. intros [= -> ->]. lia.
  - split; [done|]. intros [= -> ->]. lia.
Qed.

Lemma lex_antisym l k : Spec.lex k l = CompOpp (Spec.lex l k).
Proof.
  revert k. induction l as [|c l IH]; intros [|d k]; try done. cbn.
  rewrite Z.compare_antisym. destruct (_ ?= _); cbn; auto.
Qed.

Lemma lex_trans l k m : Spec.lex l k = Lt -> Spec.lex k m = Lt -> Spec.lex l m = Lt.
Proof.
  revert k m. induction l as [|c l IH]; intros [|d k] [|e m]; try done. cbn.
  destruct (Z.compare_spec (byte_val c) (byte_val d)),
    (Z.compare_spec (byte_val d) (byte_val e)); intros; try done;
    destruct (Z.compare_spec (byte_val c) (byte_val e)); try done; try lia.
  by eapply IH.
Qed.

Lemma slice_eq_spec `{Arch} h x y l k :
  slice_is h x l -> slice_is h y k -> lenZ l < 2 ^ 32 -> lenZ k < 2 ^ 32 ->
  slice_eq h x y = Some (bool_decide (l = k)).
Proof.
  intros Hx Hy Hl Hk. unfold slice_eq.
  rewrite (slice_is_size h x l Hx Hl), (slice_is_size h y k Hy Hk).
  destruct (Z.eqb_spec (lenZ l) (lenZ k)) as [E|E].
  - destruct Hx as [-> _], Hy as [Hy _]. rewrite E, Hy. cbn. f_equal.
    apply Bool.eq_iff_eq_true. rewrite Z.eqb_eq, bool_decide_eq_true.
    apply memcmp_eq. unfold lenZ in E. lia.
  - rewrite bool_decide_false by (intros ->; done). done.
Qed.

Lemma starts_with_spec `{Arch} h s x l k :
  slice_is h s l -> slice_is h x k -> lenZ l < 2 ^ 32 -> lenZ k < 2 ^ 32 ->
  starts_with h s x = Some (bool_decide (k `prefix_of` l)).
Proof.
  intros Hs Hx Hl Hk. unfold starts_with.
  rewrite (slice_is_size h s l Hs Hl), (slice_is_size h x k Hx Hk).
  destruct (Z.leb_spec (lenZ k) (lenZ l)) as [E|E].
  - destruct Hs as [Hs _], Hx as [Hx _]. rewrite <- (takeZ_dropZ (lenZ k) l) in Hs.
    apply load_app in Hs as [Hs _]. rewrite lenZ_takeZ in Hs by len_lia.
    rewrite Hs, Hx. cbn. f_equal. apply Bool.eq_iff_eq_true.
    rewrite Z.eqb_eq, bool_decide_eq_true, memcmp_eq.
    + split; [intros Ht|intros [r ->]].
      * exists (dropZ (lenZ k) l). by rewrite <- Ht at 1; rewrite takeZ_dropZ.
      * by apply takeZ_app.
    + pose proof (lenZ_takeZ (lenZ k) l ltac:(len_lia)). unfold lenZ in *. lia.
  - rewrite bool_decide_false; [done|]. intros [r ->]. len_lia.
Qed.

Lemma end_with_spec `{Arch} h s x l k :
  slice_is h s l -> slice_is h x k -> lenZ l < 2 ^ 32 -> lenZ k < 2 ^ 32 ->
  end_with h s x = Some (bool_decide (k `suffix_of` l)).
Proof.
  intros Hs Hx Hl Hk. unfold end_with.
  rewrite (slice_is_size h s l Hs Hl), (slice_is_size h x k Hx Hk).
  destruct (Z.leb_spec (lenZ k) (lenZ l)) as [E|E].
  - destruct Hs as [Hs He], Hx as [Hx _]. set (n := lenZ l - lenZ k).
    rewrite <- (takeZ_dropZ n l) in Hs. rewrite He, ptr_add_add.
    replace (lenZ l + - lenZ k) with n by (unfold n; lia).
    apply load_app in Hs as [_ Hs].
    rewrite lenZ_takeZ, lenZ_dropZ in Hs by (unfold n; len_lia).
    replace (lenZ l - n) with (lenZ k) in Hs by (unfold n; lia).
    rewrite Hs, Hx. cbn. f_equal. apply Bool.eq_iff_eq_true.
    rewrite Z.eqb_eq, bool_decide_eq_true, memcmp_eq.
    + split; [intros Ht|intros [r Hr]].
      * exists (takeZ n l). by rewrite <- Ht at 1; rewrite takeZ_dropZ.
      * subst l. apply dropZ_app. unfold n. len_lia.
    + pose proof (lenZ_dropZ n l ltac:(unfold n; len_lia)). unfold n, lenZ in *. lia.
  - rewrite bool_decide_false; [done|]. intros [r ->]. len_lia.
Qed.

(** ** Splitting *)

Lemma pieces_not_nil ch l : Spec.pieces ch l <> [].
Proof.
  destruct l as [|c l]; cbn; [done|]. destruct (bool_decide _); [done|].
  by destruct (Spec.pieces ch l).
Qed.

(** The pieces of [cur ++ l] when [cur], the current piece, has no [ch]. *)
Definition glue (cur : bytes) (ps : list bytes) : list bytes :=
  match ps with p :: ps' => (cur ++ p) :: ps' | [] => [cur] end.

Lemma glue_snoc cur c ch l :
  c <> ch -> glue (cur ++ [c]) (Spec.pieces ch l) = glue cur (Spec.pieces ch (c :: l)).
Proof.
  intros Hc. cbn. rewrite bool_decide_false by done.
  destruct (Spec.pieces ch l) eqn:E; [by apply pieces_not_nil in E|].
  cbn. by rewrite <- app_assoc.
Qed.

Lemma split_loop_spec h ch pe l fuel pb cur r :
  slice_is h (mkSlice pb pe) (cur ++ l) -> (length l <= fuel)%nat ->
  exists pb' rs, split_loop h ch fuel pb (pb + lenZ cur)%ptr pe r = Some (pb', r ++ rs) /\
    Forall2 (slice_is h) (rs ++ [Slice_range pb' pe]) (glue cur (Spec.pieces ch l)).
Proof.
  revert fuel pb cur r. induction l as [|c l IH]; intros fuel pb cur r Hs Hf.
  - exists pb, []. rewrite app_nil_r in *. destruct Hs as [Hl He]. cbn in Hl, He. split.
    + subst pe. unfold split_loop, ptr_lt. destruct fuel; by rewrite Z.ltb_irrefl.
    + cbn. constructor; [|constructor]. by rewrite app_nil_r.
  - destruct fuel as [|fuel]; [cbn in Hf; lia|]. cbn [length] in Hf.
    destruct (slice_is_app _ _ _ _ _ Hs) as [Hcur Hcl].
    destruct (slice_is_app h _ pe [c] l Hcl) as [_ Hl].
    destruct Hcl as [Hc He]. cbn in Hc, He. apply load1_head in Hc as [Hc _].
    change (lenZ [c]) with 1 in Hl.
    cbn [split_loop]. unfold ptr_lt at 1. subst pe. cbn [ptr_add p_off].
    rewrite lenZ_cons in *. arith_tests. rewrite Hc. cbn [mbind option_bind].
    case_bool_decide as Hch.
    + destruct (IH fuel _ [] (r ++ [Slice_range pb (pb + lenZ cur)%ptr]) Hl ltac:(lia))
        as (pb' & rs & Hrun & Hall).
      rewrite lenZ_nil, ptr_add_0 in Hrun. rewrite Hrun.
      exists pb', (Slice_range pb (pb + lenZ cur)%ptr :: rs).
      rewrite <- app_assoc. split; [done|].
      cbn. rewrite bool_decide_true by done. cbn. rewrite app_nil_r.
      constructor; [done|]. cbn in Hall.
      destruct (Spec.pieces ch l) eqn:E; [by apply pieces_not_nil in E|done].
    + rewrite (cons_middle c cur l), app_assoc in Hs.
      destruct (IH fuel pb (cur ++ [c]) r Hs ltac:(lia)) as (pb' & rs & Hrun & Hall).
      exists pb', rs. rewrite ptr_add_add.
      rewrite lenZ_app in Hrun. change (lenZ [c]) with 1 in Hrun. rewrite Hrun.
      split; [done|]. by rewrite <- glue_snoc.
Qed.

(** [split] returns the pieces between the separators, and nothing for the
    empty slice. *)
Lemma split_spec h s l ch :
  slice_is h s l ->
  exists rs, split h s ch = Some rs /\
    Forall2 (slice_is h) rs (if bool_decide (l = []) then [] else Spec.pieces ch l).
Proof.
  intros Hs. unfold split. rewrite (slice_is_room h s l Hs).
  destruct (split_loop_spec h ch (m_pe s) l (length l) (m_pb s) [] [] Hs ltac:(lia))
    as (pb' & rs & Hrun & Hall).
  rewrite lenZ_nil, ptr_add_0 in Hrun. rewrite Hrun. cbn [mbind option_bind].
  pose proof (slice_is_empty h s l Hs) as He. unfold empty in He. rewrite He.
  eexists. split; [done|]. clear He. case_bool_decide as Hl.
  - subst l. cbn in Hrun. destruct Hs as [_ Hpe]. rewrite lenZ_nil, ptr_add_0 in Hpe.
    rewrite Hpe in Hrun. unfold ptr_lt in Hrun. rewrite Z.ltb_irrefl in Hrun.
    injection Hrun as _ <-. constructor.
  - cbn in Hall. destruct (Spec.pieces ch l) eqn:E; [by apply pieces_not_nil in E|done].
Qed.

Lemma join_pieces ch l : Spec.join ch (Spec.pieces ch l) = l.
Proof.
  induction l as [|c l IH]; [done|]. cbn. case_bool_decide as Hc.
  - subst c. cbn. destruct (Spec.pieces ch l) eqn:E; [by apply pieces_not_nil in E|].
    by rewrite IH.
  - destruct (Spec.pieces ch l) as [|p ps] eqn:E; [by apply pieces_not_nil in E|].
    destruct ps; cbn in *; congruence.
Qed.

Lemma pieces_no_sep ch l : Forall (λ w : bytes, ch ∉ w) (Spec.pieces ch l).
Proof.
  induction l as [|c l IH]; cbn.
  - constructor; [set_solver|constructor].
  - case_bool_decide as Hc; [constructor; [set_solver|done]|].
    destruct (Spec.pieces ch l) as [|w ws]; [repeat constructor; set_solver|].
    apply Forall_cons in IH as [Hw Hws]. constructor; [set_solver|done].
Qed.

(** ** Properties *)

(** A slice over a block that holds exactly [l]. *)
Definition demo_mem (l : bytes) : heap := {[1 := l]}.
Definition demo_slice (l : bytes) : Slice := Slice_sized (Ptr 1 0) (lenZ l).

Lemma demo_slice_is l : slice_is (demo_mem l) (demo_slice l) l.
Proof.
  split; [|done]. apply (load_block _ 1 [] l []); [|done|done].
  unfold demo_mem. by rewrite lookup_singleton_eq, app_nil_r.
Defined.

(** [eatWord] reads nothing outside the slice and cuts it in three: white
    space that is dropped, a word with no white space that is returned, and the
    rest, which is empty or begins with white space and stays in the slice.
    The word is empty only when nothing but white space was left. *)
Theorem eatWord_correct (h : heap) (s : Slice) (l : bytes) :
  slice_is h s l ->
  exists sw sr ws w r, eatWord h s = Some (sw, sr) /\ l = ws ++ w ++ r /\
    slice_is h sw w /\ slice_is h sr r /\
    Forall (λ c, isspace c = true) ws /\ Forall (λ c, isspace c = false) w /\
    match r with [] => True | c :: _ => isspace c = true end /\
    (w = [] -> r = []).
Proof.
  intros Hs. destruct (eatWord_spec h s l Hs) as (sw & sr & Hrun & Hw & Hr).
  unfold Spec.eat_word in *. rewrite span_eq in Hw, Hr. cbn in Hw, Hr.
  set (t := drop_while isspace l) in *.
  exists sw, sr, (take_while isspace l), (take_while (λ c, negb (isspace c)) t),
    (drop_while (λ c, negb (isspace c)) t).
  rewrite span_app. unfold t at 1. rewrite span_app.
  assert (forall c k, drop_while (λ c, negb (isspace c)) t = c :: k -> isspace c = true) as Hhd.
  { intros c k Hc. apply drop_while_head in Hc. by apply negb_false_iff in Hc. }
  split_and!; [done|done|done|done|apply take_while_all| | |].
  - eapply Forall_impl; [apply take_while_all|]. cbn. intros c Hc. by apply negb_true_iff in Hc.
  - destruct (drop_while _ t) as [|c k] eqn:E; [done|]. by eapply Hhd.
  - intros Hnil. destruct (drop_while _ t) as [|c k] eqn:E; [done|]. exfalso.
    pose proof (span_app (λ c, negb (isspace c)) t) as Happ. rewrite Hnil, E in Happ.
    cbn in Happ. assert (isspace c = true) as Hc by (by eapply Hhd).
    symmetry in Happ. unfold t in Happ. apply drop_while_head in Happ. congruence.
Qed.

Lemma eatWord_correct_witness :
  exists sw sr ws w r, eatWord (demo_mem (lit "  GET /x")) (demo_slice (lit "  GET /x")) = Some (sw, sr) /\
    lit "  GET /x" = ws ++ w ++ r /\
    slice_is (demo_mem (lit "  GET /x")) sw w /\ slice_is (demo_mem (lit "  GET /x")) sr r /\
    Forall (λ c, isspace c = true) ws /\ Forall (λ c, isspace c = false) w /\
    match r with [] => True | c :: _ => isspace c = true end /\
    (w = [] -> r = []).
Proof. apply eatWord_correct. apply demo_slice_is. Defined.

(** [trimSpace] removes the white space at both ends and nothing else. *)
Theorem trimSpace_correct (h : heap) (s : Slice) (l : bytes) :
  slice_is h s l ->
  exists t a m b, trimSpace h s = Some t /\ slice_is h t m /\ l = a ++ m ++ b /\
    Forall (λ c, isspace c = true) a /\ Forall (λ c, isspace c = true) b /\
    match m with [] => True | c :: _ => isspace c = false end /\
    match last m with None => True | Some c => isspace c = false end.
Proof.
  intros Hs. destruct (trimSpace_spec h s l Hs) as (t & Hrun & Ht).
  set (u := drop_while isspace l) in *. unfold Spec.trim in Ht. fold u in Ht.
  set (m := reverse (drop_while isspace (reverse u))) in *.
  assert (u = m ++ reverse (take_while isspace (reverse u))) as Hu.
  { unfold m. rewrite <- reverse_app, span_app. by rewrite reverse_involutive. }
  exists t, (take_while isspace l), m, (reverse (take_while isspace (reverse u))).
  split_and!; [done|done| |apply take_while_all| | |].
  - rewrite <- Hu. unfold u. by rewrite span_app.
  - apply Forall_reverse. apply take_while_all.
  - destruct m as [|c k] eqn:E; [done|]. cbn in Hu. unfold u in Hu. by apply drop_while_head in Hu.
  - destruct (last m) as [c|] eqn:E; [|done]. apply last_Some in E as [k E].
    unfold m in E. apply (f_equal reverse) in E.
    rewrite reverse_involutive, reverse_snoc in E. by apply drop_while_head in E.
Qed.

Lemma trimSpace_correct_witness :
  exists t a m b, trimSpace (demo_mem (lit " a b ")) (demo_slice (lit " a b ")) = Some t /\
    slice_is (demo_mem (lit " a b ")) t m /\ lit " a b " = a ++ m ++ b /\
    Forall (λ c, isspace c = true) a /\ Forall (λ c, isspace c = true) b /\
    match m with [] => True | c :: _ => isspace c = false end /\
    match last m with None => True | Some c => isspace c = false end.
Proof. apply trimSpace_correct. apply demo_slice_is. Defined.

(** [compare] is the lexicographic order on the bytes shown, a total order:
    it is 0 exactly when [operator==] holds, [operator<] is its strict part,
    swapping the arguments flips the sign, and it is transitive. *)
Theorem compare_total_order `{Arch} (h : heap) (x y z : Slice) (l k m : bytes) :
  slice_is h x l -> slice_is h y k -> slice_is h z m ->
  lenZ l < 2 ^ 31 -> lenZ k < 2 ^ 31 -> lenZ m < 2 ^ 31 ->
  exists rxy ryx ryz rxz,
    compare h x y = Some rxy /\ compare h y x = Some ryx /\
    compare h y z = Some ryz /\ compare h x z = Some rxz /\
    Z.compare rxy 0 = Spec.lex l k /\
    slice_eq h x y = Some (rxy =? 0) /\ (rxy = 0 <-> l = k) /\
    slice_lt h x y = Some (rxy <? 0) /\
    (rxy < 0 <-> ryx > 0) /\ (rxy < 0 -> ryz < 0 -> rxz < 0).
Proof.
  intros Hx Hy Hz Hl Hk Hm.
  destruct (compare_spec h x y l k Hx Hy Hl Hk) as (rxy & Rxy & Exy).
  destruct (compare_spec h y x k l Hy Hx Hk Hl) as (ryx & Ryx & Eyx).
  destruct (compare_spec h y z k m Hy Hz Hk Hm) as (ryz & Ryz & Eyz).
  destruct (compare_spec h x z l m Hx Hz Hl Hm) as (rxz & Rxz & Exz).
  exists rxy, ryx, ryz, rxz. split_and!; try done.
  - rewrite (slice_eq_spec h x y l k) by (done || lia). f_equal.
    apply Bool.eq_iff_eq_true. rewrite bool_decide_eq_true, Z.eqb_eq, <- lex_Eq, <- Exy.
    apply Z.compare_eq_iff.
  - rewrite <- lex_Eq, <- Exy. symmetry. apply Z.compare_eq_iff.
  - unfold slice_lt. by rewrite Rxy.
  - rewrite <- Z.compare_lt_iff, Z.gt_lt_iff, <- Z.compare_gt_iff, Exy, Eyx, (lex_antisym l k).
    by destruct (Spec.lex l k).
  - rewrite <- !Z.compare_lt_iff, Exy, Eyz, Exz. apply lex_trans.
Qed.

Definition demo_mem3 : heap := {[1 := lit "abc"; 2 := lit "abd"; 3 := lit "b"]}.

Lemma compare_total_order_witness :
  let A := X64 in
  let x := Slice_sized (Ptr 1 0) 3 in let y := Slice_sized (Ptr 2 0) 3 in
  let z := Slice_sized (Ptr 3 0) 1 in
  exists rxy ryx ryz rxz,
    compare demo_mem3 x y = Some rxy /\ compare demo_mem3 y x = Some ryx /\
    compare demo_mem3 y z = Some ryz /\ compare demo_mem3 x z = Some rxz /\
    Z.compare rxy 0 = Spec.lex (lit "abc") (lit "abd") /\
    slice_eq demo_mem3 x y = Some (rxy =? 0) /\ (rxy = 0 <-> lit "abc" = lit "abd") /\
    slice_lt demo_mem3 x y = Some (rxy <? 0) /\
    (rxy < 0 <-> ryx > 0) /\ (rxy < 0 -> ryz < 0 -> rxz < 0).
Proof.
  apply (compare_total_order (H := X64)) with (m := lit "b"); by vm_compute.
Defined.

(** [split] returns the pieces between the separators, in order: joined
    with the separator again they give the bytes of the slice, and none of them
    contains it.  An empty slice has no pieces, and every other slice one more
    than it has separators. *)
Theorem split_correct (h : heap) (s : Slice) (l : bytes) (ch : byte) :
  slice_is h s l ->
  exists rs ps, split h s ch = Some rs /\ Forall2 (slice_is h) rs ps /\
    Spec.join ch ps = l /\ Forall (λ w, ch ∉ w) ps /\
    (l = [] -> rs = []) /\
    (l <> [] -> length rs = S (length (filter (.= ch) l))).
Proof.
  intros Hs. destruct (split_spec h s l ch Hs) as (rs & Hrun & Hall).
  exists rs, (if bool_decide (l = []) then [] else Spec.pieces ch l).
  split_and!; [done|done| | | |].
  - case_bool_decide as E; [by subst l|apply join_pieces].
  - case_bool_decide; [constructor|apply pieces_no_sep].
  - intros ->. cbn in Hall. by apply Forall2_nil_inv_r in Hall.
  - intros Hl. rewrite (Forall2_length _ _ _ Hall). rewrite bool_decide_false by done.
    clear. induction l as [|c l IH]; [done|]. cbn [Spec.pieces]. rewrite filter_cons.
    case_bool_decide as Hc; [rewrite decide_True by done; cbn; by rewrite IH|].
    rewrite decide_False by done. destruct (Spec.pieces ch l); cbn in *; congruence.
Qed.

Lemma split_correct_witness :
  exists rs ps, split (demo_mem (lit "a,,b")) (demo_slice (lit "a,,b")) Byte.x2c = Some rs /\
    Forall2 (slice_is (demo_mem (lit "a,,b"))) rs ps /\
    Spec.join Byte.x2c ps = lit "a,,b" /\ Forall (λ w, Byte.x2c ∉ w) ps /\
    (lit "a,,b" = [] -> rs = []) /\
    (lit "a,,b" <> [] -> length rs = S (length (filter (.= Byte.x2c) (lit "a,,b")))).
Proof. apply split_correct. apply demo_slice_is. Defined.

(** [starts_with] and [end_with] decide whether the other slice's bytes are
    a prefix and a suffix of the slice's. *)
Theorem starts_ends_with_correct `{Arch} (h : heap) (s x : Slice) (l k : bytes) :
  slice_is h s l -> slice_is h x k -> lenZ l < 2 ^ 32 -> lenZ k < 2 ^ 32 ->
  starts_with h s x = Some (bool_decide (k `prefix_of` l)) /\
  end_with h s x = Some (bool_decide (k `suffix_of` l)).
Proof. intros. split; [by apply starts_with_spec|by apply end_with_spec]. Qed.

Lemma starts_ends_with_correct_witness :
  starts_with (H := Win32) demo_mem3 (Slice_sized (Ptr 1 0) 3) (Slice_sized (Ptr 2 0) 2) =
    Some (bool_decide (lit "ab" `prefix_of` lit "abc")) /\
  end_with (H := Win32) demo_mem3 (Slice_sized (Ptr 1 0) 3) (Slice_sized (Ptr 2 0) 2) =
    Some (bool_decide (lit "ab" `suffix_of` lit "abc")).
Proof. apply (starts_ends_with_correct (H := Win32)); by vm_compute. Defined.
