(* ===== verification/Buffer.v ===== *)
(** * [Buffer] (WinHttpServer/Buffer.h, Buffer.cpp): a growable byte buffer

    The data lie between [m_pBegin] and [m_pEnd] in one block of memory of
    [m_nSize] bytes; the block is replaced by a bigger one when it is full.
    [buf_rep h b d s] says that in memory [h] the buffer [b] holds the data [d]
    and that the rest of its block, which the code never clears, holds [s]. *)
From S2P Require Import Prelude Heap CLib Slice.

Record Buffer := mkBuffer { m_pBegin : ptr; m_pEnd : ptr; m_nSize : Z }.

#[export] Instance Buffer_eq_dec : EqDecision Buffer.
Proof. solve_decision. Defined.

Section ops.
Context {VM : VirtualMem}.

(** ** Operations *)

Definition Buffer_new : Buffer := mkBuffer NULL NULL 0.

Definition Buffer_delete (b : Buffer) : ST heap unit :=
  if bool_decide (m_pBegin b = NULL) then mret tt else VirtualFree (m_pBegin b).

Definition getMemSize (b : Buffer) : Z := m_nSize b.

(** [int nSize = m_pEnd - m_pBegin], returned as a [UINT]. *)
Definition getBufferLen (b : Buffer) : Z :=
  if bool_decide (m_pBegin b = NULL) then 0
  else u32 (s32 (m_pEnd b - m_pBegin b)%ptr).

Definition getBuffer (b : Buffer) (nPos : Z) : ptr := (m_pBegin b + nPos)%ptr.

Definition to_Slice (b : Buffer) : Slice := Slice_sized (m_pBegin b) (getBufferLen b).

(** [(UINT)ceil(nSize / 1024.0) * 1024]: a [double] holds the quotient of a
    [UINT] by 1024 exactly; the product is a [UINT]. *)
Definition round1024 (nSize : Z) : Z := u32 ((nSize + 1023) / 1024 * 1024).

(** The common end of [reallocateBuffer] and [deallocateBuffer]: move to a
    block of [nNewSize] bytes. *)
Definition moveBuffer (b : Buffer) (nNewSize : Z) : ST heap (Z * Buffer) :=
  pNewBuffer ← VirtualAlloc nNewSize;
  let nBufferLen := getBufferLen b in
  CopyMemory pNewBuffer (m_pBegin b) nBufferLen;;
  (if bool_decide (m_pBegin b = NULL) then mret tt else VirtualFree (m_pBegin b));;
  mret (nNewSize, mkBuffer pNewBuffer (pNewBuffer + nBufferLen)%ptr nNewSize).

Definition reallocateBuffer (b : Buffer) (nSize : Z) : ST heap (Z * Buffer) :=
  if nSize <? getMemSize b then mret (0, b)
  else moveBuffer b (round1024 nSize).

Definition deallocateBuffer (b : Buffer) (nSize : Z) : ST heap (Z * Buffer) :=
  if nSize <? getBufferLen b then mret (0, b)
  else let nNewSize := round1024 nSize in
       if nNewSize <? getMemSize b then mret (0, b)
       else moveBuffer b nNewSize.

Definition clear (b : Buffer) : ST heap Buffer :=
  r ← deallocateBuffer (mkBuffer (m_pBegin b) (m_pBegin b) (m_nSize b)) 1024;
  mret r.2.

(** The bytes after the first [nSize] move to the front. *)
Definition shiftOut (b : Buffer) (nSize : Z) : ST heap Buffer :=
  CopyMemory (m_pBegin b) (m_pBegin b + nSize)%ptr (u32 (getMemSize b - nSize));;
  mret (mkBuffer (m_pBegin b) (m_pEnd b + - nSize)%ptr (m_nSize b)).

Definition remove (b : Buffer) (nSize : Z) : ST heap (Z * Buffer) :=
  if getMemSize b <? nSize then mret (0, b)
  else
    let nSize := if getBufferLen b <? nSize then getBufferLen b else nSize in
    b' ← (if nSize =? 0 then mret b else shiftOut b nSize);
    r ← deallocateBuffer b' (getBufferLen b');
    mret (nSize, r.2).

(** [read] copies to memory of the caller: the bytes copied are returned. *)
Definition read (b : Buffer) (nSize : Z) : ST heap (Z * bytes * Buffer) :=
  if getMemSize b <? nSize then mret (0, [], b)
  else
    let nSize := if getBufferLen b <? nSize then getBufferLen b else nSize in
    pData ← (if nSize =? 0 then mret []
             else st_reads (λ h, load h (m_pBegin b) nSize));
    b' ← (if nSize =? 0 then mret b else shiftOut b nSize);
    r ← deallocateBuffer b' (getBufferLen b');
    mret (nSize, pData, r.2).

Definition write (b : Buffer) (pData : src) (nSize : Z) : ST heap (Z * Buffer) :=
  r ← reallocateBuffer b (u32 (nSize + getBufferLen b));
  let b' : Buffer := r.2 in
  CopyFrom (m_pEnd b') pData nSize;;
  mret (nSize, mkBuffer (m_pBegin b') (m_pEnd b' + nSize)%ptr (m_nSize b')).

Definition write_string (b : Buffer) (s : bytes) : ST heap (Z * Buffer) :=
  let nSize := s32 (lenZ s) in
  write b (SObj (s ++ [NUL])) (u32 nSize).

Definition insert (b : Buffer) (pData : src) (nSize : Z) : ST heap (Z * Buffer) :=
  r ← reallocateBuffer b (u32 (nSize + getBufferLen b));
  let b' : Buffer := r.2 in
  CopyMemory (m_pBegin b' + nSize)%ptr (m_pBegin b') (u32 (getMemSize b' - nSize));;
  CopyFrom (m_pBegin b') pData nSize;;
  mret (nSize, mkBuffer (m_pBegin b') (m_pEnd b' + nSize)%ptr (m_nSize b')).

Definition insert_string (b : Buffer) (s : bytes) : ST heap (Z * Buffer) :=
  let nSize := s32 (lenZ s) in
  insert b (SObj (s ++ [NUL])) (u32 nSize).

(** [copy(buf)]: the lengths are read before [this] is cleared. *)
Definition copy (b buf : Buffer) : ST heap Buffer :=
  let nReSize := getMemSize buf in
  let nSize := s32 (getBufferLen buf) in
  b1 ← clear b;
  r ← reallocateBuffer b1 nReSize;
  let b2 : Buffer := r.2 in
  let b3 := mkBuffer (m_pBegin b2) (m_pBegin b2 + nSize)%ptr (m_nSize b2) in
  CopyMemory (m_pBegin b3) (getBuffer buf 0) (getBufferLen buf);;
  mret b3.

(** [scan(pScan, nPos)]: [strstr] runs to the first NUL of the memory, not to
    the end of the data; when there is none it runs off the block. *)
Definition scan (h : heap) (b : Buffer) (pScan : bytes) (nPos : Z) : option Z :=
  if getBufferLen b <? nPos then Some (-1)
  else
    len ← strlen h (getBuffer b nPos);
    txt ← load h (getBuffer b nPos) len;
    Some match strstr txt (cstr pScan) with
         | Some i => s32 (nPos + i + lenZ (cstr pScan))
         | None => 0
         end.
End ops.

(** ** Representation *)

Inductive buf_rep (h : heap) (b : Buffer) (d s : bytes) : Prop :=
  | rep_null :
      b = Buffer_new -> d = [] -> s = [] -> buf_rep h b d s
  | rep_block blk pad :
      b = mkBuffer (Ptr blk 0) (Ptr blk (lenZ d)) (lenZ d + lenZ s) ->
      blk <> 0 ->
      0 < lenZ d + lenZ s < 2 ^ 31 -> (1024 | lenZ d + lenZ s) ->
      h !! blk = Some (d ++ s ++ pad) ->
      buf_rep h b d s.

(** The change a buffer operation makes to memory: it may replace the
    buffer's block by a fresh one, and touches no other. *)
Definition buf_step (h h' : heap) (b b' : Buffer) : Prop :=
  (p_blk (m_pBegin b') = p_blk (m_pBegin b) \/ h !! p_blk (m_pBegin b') = None) /\
  (p_blk (m_pBegin b') <> p_blk (m_pBegin b) -> p_blk (m_pBegin b) <> 0 ->
     h' !! p_blk (m_pBegin b) = None) /\
  h' !! 0 = h !! 0 /\
  (forall k, k <> p_blk (m_pBegin b) -> k <> p_blk (m_pBegin b') -> h' !! k = h !! k).

(** ** Basic facts about the representation *)

Lemma rep_len h b d s : buf_rep h b d s -> getBufferLen b = lenZ d.
Proof.
  intros [-> -> ->|blk pad -> Hb Hsz _ _]; [done|].
  unfold getBufferLen. cbn. rewrite bool_decide_false by (intros [= ?]; done).
  unfold ptr_diff. cbn. rewrite s32_small, u32_small by len_lia. lia.
Qed.

Lemma rep_size h b d s : buf_rep h b d s -> getMemSize b = lenZ d + lenZ s.
Proof. by intros [-> -> ->|blk pad -> _ _ _ _]. Qed.

Lemma rep_bounds h b d s : buf_rep h b d s -> 0 <= lenZ d + lenZ s < 2 ^ 31.
Proof. intros [_ -> ->|blk pad _ _ ? _ _]; len_lia. Qed.

(** The slice over a buffer shows its data. *)
Lemma rep_slice h b d s : buf_rep h b d s -> slice_is h (to_Slice b) d.
Proof.
  intros H. unfold to_Slice. rewrite (rep_len _ _ _ _ H).
  destruct H as [-> -> ->|blk pad -> _ _ _ Hblk]; [done|]. split; cbn; [|done].
  by apply (load_block h blk [] d (s ++ pad)).
Qed.

Lemma round1024_spec n :
  0 <= n <= 2 ^ 32 - 1024 ->
  n <= round1024 n < n + 1024 /\ (1024 | round1024 n).
Proof.
  intros Hn. unfold round1024. rewrite u32_small by (Z.div_mod_to_equations; lia).
  split; [Z.div_mod_to_equations; lia|]. apply Z.divide_factor_r.
Qed.

Lemma round1024_mult n : 0 <= n < 2 ^ 32 -> (1024 | n) -> round1024 n = n.
Proof.
  intros Hn [k ->]. unfold round1024. rewrite u32_small; Z.div_mod_to_equations; lia.
Qed.

(** Rounding a length up never passes the next multiple of 1024. *)
Lemma round1024_le n m : 0 <= n <= m -> m < 2 ^ 31 -> (1024 | m) -> round1024 n <= m.
Proof.
  intros Hn Hm [k ->]. unfold round1024. rewrite u32_small; Z.div_mod_to_equations; lia.
Qed.

Lemma buf_step_refl h b : buf_step h h b b.
Proof. split_and!; [by left|done..]. Qed.

(** Two steps in a row, the second one on the buffer the first one left. *)
Lemma buf_step_trans h1 h2 h3 b1 b2 b3 :
  p_blk (m_pBegin b2) <> 0 ->
  buf_step h1 h2 b1 b2 -> buf_step h2 h3 b2 b3 -> buf_step h1 h3 b1 b3.
Proof.
  intros Hb2 (F1 & D1 & Z1 & E1) (F2 & D2 & Z2 & E2).
  unfold buf_step. rewrite Z2, Z1.
  destruct (decide (p_blk (m_pBegin b2) = p_blk (m_pBegin b1))) as [E12|N12].
  - rewrite E12 in *. split_and!; [|done|done|].
    + destruct F2 as [F2|F2]; [by left|].
      destruct (decide (p_blk (m_pBegin b3) = p_blk (m_pBegin b1))); [by left|right].
      rewrite <- E1; done.
    + intros k K1 K3. by rewrite E2, E1 by done.
  - assert (h1 !! p_blk (m_pBegin b2) = None) as F1' by (destruct F1; done).
    destruct (decide (p_blk (m_pBegin b3) = p_blk (m_pBegin b1))) as [E31|N31].
    + split_and!; [by left|done|done|]. intros k K1 K3.
      destruct (decide (k = p_blk (m_pBegin b2))) as [->|K2].
      * rewrite D2, F1'; [done|by rewrite E31|done].
      * by rewrite E2, E1 by done.
    + split_and!; [| |done|].
      * destruct (decide (p_blk (m_pBegin b3) = p_blk (m_pBegin b2))) as [E|N]; [right; by rewrite E|].
        right. destruct F2 as [F2|F2]; [done|]. rewrite <- E1; done.
      * intros _ Hb1. rewrite E2; [by apply D1|done|done].
      * intros k K1 K3. destruct (decide (k = p_blk (m_pBegin b2))) as [->|K2].
        -- rewrite D2, F1'; done.
        -- by rewrite E2, E1 by done.
Qed.

(** ** The memory operations on a represented buffer *)

Lemma CopyMemory_eq h dst src n bs h' :
  load h src n = Some bs -> store h dst bs = Some h' ->
  CopyMemory dst src n h = Some (tt, h').
Proof. intros H1 H2. unfold CopyMemory. by rewrite H1, H2. Qed.

Lemma CopyFrom_eq h dst d n bs h' :
  load_src h d n = Some bs -> store h dst bs = Some h' ->
  CopyFrom dst d n h = Some (tt, h').
Proof. intros H1 H2. unfold CopyFrom. by rewrite H1, H2. Qed.

Lemma st_ret_eq {S A} (a : A) (s : S) : (mret a : ST S A) s = Some (a, s).
Proof. done. Qed.

Section specs.
Context {VM : VirtualMem} {VOk : VirtualMemOk VM} {VG : VirtualMemGrants VM (2 ^ 31)}.
Implicit Types (h : heap) (b : Buffer) (d s bs : bytes).

(** Moving to a block of [N] bytes keeps the data and zeroes the rest. *)
Lemma moveBuffer_spec h b d s N :
  buf_rep h b d s -> 0 < N < 2 ^ 31 -> (1024 | N) -> lenZ d <= N ->
  exists h' b', moveBuffer b N h = Some ((N, b'), h') /\
    buf_rep h' b' d (zeros (N - lenZ d)) /\ buf_step h h' b b' /\
    h !! p_blk (m_pBegin b') = None /\ m_pBegin b' <> NULL.
Proof.
  intros Hrep HN Hdiv Hd. unfold moveBuffer.
  destruct (VirtualAlloc_ok h N (2 ^ 31) VOk VG ltac:(lia)) as (nb & Hnb & Hfresh & Halloc).
  st_step Halloc. rewrite (rep_len _ _ _ _ Hrep).
  set (h1 := <[nb := _]> h).
  pose proof (lenZ_nonneg d) as Hd0. pose proof (page_round_ge N) as Hpage.
  set (pad := zeros (page_round N - N)).
  set (h2 := <[nb := d ++ zeros (N - lenZ d) ++ pad]> h1).
  assert (CopyMemory (Ptr nb 0) (m_pBegin b) (lenZ d) h1 = Some (tt, h2)) as Hcopy.
  { apply CopyMemory_eq with (bs := d).
    - destruct Hrep as [-> -> ->|blk p0 -> Hb Hsz Hdv Hblk]; [done|]. cbn.
      apply (load_block h1 blk [] d (s ++ p0)); [|done|done].
      unfold h1. rewrite lookup_insert_ne by (intros ->; congruence). done.
    - apply (store_block h1 nb [] (zeros (lenZ d)) (zeros (N - lenZ d) ++ pad)); [|done|].
      + unfold h1, pad. rewrite lookup_insert_eq. cbn. f_equal.
        rewrite <- !zeros_add by lia. f_equal. lia.
      + by rewrite lenZ_zeros. }
  st_step Hcopy.
  assert (lenZ d + lenZ (zeros (N - lenZ d)) = N) as HlenN by (rewrite lenZ_zeros; lia).
  set (b' := mkBuffer _ _ _).
  assert (buf_rep h2 b' d (zeros (N - lenZ d))) as Hrep2.
  { apply (rep_block _ _ _ _ nb pad); rewrite ?HlenN; [|done|lia|done|apply lookup_insert_eq].
    unfold b'. by rewrite ptr_add_0 || reflexivity. }
  destruct Hrep as [-> -> ->|blk p0 -> Hb Hsz Hdv Hblk]; cbn.
  - rewrite bool_decide_true by done. eexists h2, b'. split; [reflexivity|].
    split_and!; [done| |done|intros [= ?]; done].
    unfold buf_step, h2, h1. cbn. split_and!; [by right|done| |].
    + by rewrite !lookup_insert_ne.
    + intros k _ Hk. by rewrite !lookup_insert_ne.
  - rewrite bool_decide_false by (intros [= ?]; done).
    assert (blk <> nb) as Hne by congruence.
    eexists (delete blk h2), b'. split; [reflexivity|].
    split_and!; [|split_and!|done|intros [= ?]; done].
    + apply (rep_block _ _ _ _ nb pad); rewrite ?HlenN; [|done|lia|done|].
      * unfold b'. reflexivity.
      * rewrite lookup_delete_ne by done. apply lookup_insert_eq.
    + by right.
    + intros _ _. apply lookup_delete_eq.
    + rewrite lookup_delete_ne by done. unfold h2, h1. by rewrite !lookup_insert_ne.
    + cbn. intros k Hk1 Hk2. rewrite lookup_delete_ne by done.
      unfold h2, h1. by rewrite !lookup_insert_ne.
Qed.

(** Moving an unallocated buffer to 0 bytes leaves it unallocated. *)
Lemma moveBuffer_null h :
  moveBuffer Buffer_new 0 h = Some ((0, Buffer_new), h).
Proof.
  unfold moveBuffer. st_step (VirtualAlloc_0 h VOk). cbn. reflexivity.
Qed.

(** The outcome of making room for [n] bytes in a buffer with data [d]. *)
Definition grown (h : heap) b d s (n : Z) (h' : heap) b' s' : Prop :=
  buf_rep h' b' d s' /\ buf_step h h' b b' /\ n <= lenZ d + lenZ s' /\
  (n = 0 \/ m_pBegin b' <> NULL) /\
  (h' = h /\ b' = b /\ s' = s \/ s' = zeros (round1024 n - lenZ d)).

Lemma grown_move h b d s n :
  buf_rep h b d s -> lenZ d <= n <= 2 ^ 31 - 1024 ->
  lenZ d + lenZ s <= round1024 n ->
  exists h' b', moveBuffer b (round1024 n) h = Some ((round1024 n, b'), h') /\
    grown h b d s n h' b' (zeros (round1024 n - lenZ d)).
Proof.
  intros Hrep Hn Hle. pose proof (lenZ_nonneg d). pose proof (lenZ_nonneg s).
  destruct (round1024_spec n ltac:(lia)) as [Hr Hdiv].
  destruct (decide (round1024 n = 0)) as [E|E].
  - destruct Hrep as [-> -> ->|blk pad _ _ Hsz _ _]; [|lia].
    rewrite E. exists h, Buffer_new. split; [apply moveBuffer_null|].
    unfold grown. rewrite E. split_and!.
    + by apply rep_null.
    + apply buf_step_refl.
    + rewrite lenZ_zeros; lia.
    + left. rewrite lenZ_nil in Hn. lia.
    + by right.
  - destruct (moveBuffer_spec h b d s (round1024 n)) as (h' & b' & Hm & Hrep' & Hst & _ & Hnn);
      [done| |done|lia|].
    + split; lia.
    + exists h', b'. split; [done|]. unfold grown. split_and!; [done|done| |by right|by right].
      rewrite lenZ_zeros by lia. lia.
Qed.

Lemma reallocateBuffer_spec h b d s n :
  buf_rep h b d s -> lenZ d <= n <= 2 ^ 31 - 1024 ->
  exists r h' b' s', reallocateBuffer b n h = Some ((r, b'), h') /\
    grown h b d s n h' b' s'.
Proof.
  intros Hrep Hn. unfold reallocateBuffer. rewrite (rep_size _ _ _ _ Hrep).
  pose proof (lenZ_nonneg d).
  destruct (Z.ltb_spec n (lenZ d + lenZ s)).
  - exists 0, h, b, s. split; [done|]. unfold grown.
    split_and!; [done|apply buf_step_refl|lia| |by left].
    right. destruct Hrep as [-> -> ->|blk pad -> Hb _ _ _]; [rewrite lenZ_nil in *; lia|].
    by intros [= ?].
  - destruct (round1024_spec n ltac:(lia)) as [Hr _].
    destruct (grown_move h b d s n) as (h' & b' & Hm & Hg); [done|lia|lia|].
    exists (round1024 n), h', b', (zeros (round1024 n - lenZ d)). done.
Qed.

(** [deallocateBuffer] never gives memory back: the block it leaves is at
    least as large as before. *)
Lemma deallocateBuffer_spec h b d s n :
  buf_rep h b d s -> lenZ d <= n <= 2 ^ 31 - 1024 ->
  exists r h' b' s', deallocateBuffer b n h = Some ((r, b'), h') /\
    buf_rep h' b' d s' /\ buf_step h h' b b' /\ lenZ s <= lenZ s' /\
    (h' = h /\ b' = b /\ s' = s \/
     lenZ d + lenZ s <= round1024 n /\ s' = zeros (round1024 n - lenZ d)).
Proof.
  intros Hrep Hn. unfold deallocateBuffer.
  rewrite (rep_size _ _ _ _ Hrep), (rep_len _ _ _ _ Hrep).
  pose proof (lenZ_nonneg d). arith_tests.
  destruct (Z.ltb_spec (round1024 n) (lenZ d + lenZ s)).
  - exists 0, h, b, s. split; [done|]. split_and!; [done|apply buf_step_refl|done|by left].
  - destruct (round1024_spec n ltac:(lia)) as [Hr _].
    destruct (grown_move h b d s n) as (h' & b' & Hm & Hg); [done|lia|lia|].
    eexists _, h', b', _. split; [exact Hm|]. destruct Hg as (Hrep' & Hst & _ & _ & _).
    split_and!; [done|done| |right; split; [lia|done]].
    rewrite lenZ_zeros by lia. lia.
Qed.

(** Shifting [n] bytes out: the data lose their first [n] bytes, and the
    last [n] bytes of the block stay where they were. *)
Lemma shiftOut_spec h b d1 d2 s :
  buf_rep h b (d1 ++ d2) s -> 0 < lenZ d1 ->
  exists h' b', shiftOut b (lenZ d1) h = Some (b', h') /\
    buf_rep h' b' d2 (s ++ dropZ (lenZ d2 + lenZ s) (d1 ++ d2 ++ s)) /\
    buf_step h h' b b' /\ m_pBegin b' = m_pBegin b.
Proof.
  intros Hrep Hd1. destruct Hrep as [-> Hd _|blk pad -> Hb Hsz Hdiv Hblk].
  { destruct d1; [rewrite lenZ_nil in Hd1; lia|done]. }
  rewrite lenZ_app in *. pose proof (lenZ_nonneg d2). pose proof (lenZ_nonneg s).
  set (tl := dropZ (lenZ d2 + lenZ s) (d1 ++ d2 ++ s)).
  assert (lenZ tl = lenZ d1) as Htl by (unfold tl; rewrite lenZ_dropZ; len_lia).
  assert (d1 ++ d2 ++ s = takeZ (lenZ d2 + lenZ s) (d1 ++ d2 ++ s) ++ tl) as Hcut
    by (symmetry; apply takeZ_dropZ).
  unfold shiftOut, getMemSize. cbn [m_nSize m_pBegin m_pEnd].
  set (h' := <[blk := (d2 ++ s) ++ tl ++ pad]> h).
  assert (CopyMemory (Ptr blk 0) (Ptr blk 0 + lenZ d1)%ptr
            (u32 (lenZ d1 + lenZ d2 + lenZ s - lenZ d1)) h = Some (tt, h')) as Hcopy.
  { rewrite u32_small by lia. apply CopyMemory_eq with (bs := d2 ++ s).
    - unfold ptr_add. cbn. apply (load_block h blk d1 (d2 ++ s) pad);
        [by rewrite <- !app_assoc in *|lia|len_lia].
    - apply (store_block h blk [] (takeZ (lenZ d2 + lenZ s) (d1 ++ d2 ++ s)) (tl ++ pad));
        [|done|].
      + rewrite Hblk. cbn. by rewrite (app_assoc (takeZ _ _) tl), <- Hcut, <- !app_assoc.
      + rewrite lenZ_takeZ; len_lia. }
  st_step Hcopy. eexists h', _. split; [reflexivity|]. split_and!; [|split_and!|done].
  - apply (rep_block _ _ _ _ blk pad); rewrite ?lenZ_app, ?Htl; [|done|lia| |].
    + unfold ptr_add. cbn. f_equal; [f_equal|]; lia.
    + by replace (lenZ d2 + (lenZ s + lenZ d1)) with (lenZ d1 + lenZ d2 + lenZ s) by lia.
    + unfold h'. rewrite lookup_insert_eq. by rewrite <- !app_assoc.
  - by left.
  - done.
  - unfold h'. by rewrite lookup_insert_ne.
  - cbn. intros k Hk _. unfold h'. by rewrite lookup_insert_ne.
Qed.

(** ** The operations *)

Lemma clear_spec h b d s :
  buf_rep h b d s ->
  exists h' b' s', clear b h = Some (b', h') /\ buf_rep h' b' [] s' /\
    buf_step h h' b b' /\ 1024 <= lenZ s' /\ lenZ d + lenZ s <= lenZ s'.
Proof.
  intros Hrep. unfold clear. set (b0 := mkBuffer _ _ _).
  assert (buf_rep h b0 [] (d ++ s)) as Hrep0.
  { destruct Hrep as [-> -> ->|blk pad -> Hb Hsz Hdiv Hblk]; [by apply rep_null|].
    apply (rep_block _ _ _ _ blk pad); rewrite ?lenZ_nil, ?lenZ_app, ?Z.add_0_l; try done.
    by rewrite Hblk, <- app_assoc. }
  destruct (deallocateBuffer_spec h b0 [] (d ++ s) 1024 Hrep0) as
    (r & h' & b' & s' & Hrun & Hrep' & Hst & Hle & Hcase); [rewrite lenZ_nil; lia|].
  st_step Hrun. exists h', b', s'. split; [done|]. rewrite lenZ_app in Hle.
  split_and!; [done|done| |lia].
  destruct Hcase as [(-> & -> & ->)|[_ ->]].
  - destruct (Z.leb_spec 1024 (lenZ (d ++ s))) as [|Hlt]; [done|exfalso].
    revert Hrun. unfold deallocateBuffer.
    rewrite (rep_size _ _ _ _ Hrep0), (rep_len _ _ _ _ Hrep0), lenZ_nil.
    change (round1024 1024) with 1024. arith_tests. intros Hrun.
    destruct (moveBuffer_spec h b0 [] (d ++ s) 1024) as (h2 & b2 & Hm & Hrep2 & _);
      [done|lia|by exists 1|rewrite lenZ_nil; lia|].
    rewrite Hm in Hrun. injection Hrun as _ E1 E2.
    pose proof (rep_size _ _ _ _ Hrep2) as E3. rewrite E1 in E3.
    rewrite (rep_size _ _ _ _ Hrep0), lenZ_nil, lenZ_zeros in E3 by lia. lia.
  - change (round1024 1024) with 1024. by rewrite lenZ_nil, lenZ_zeros.
Qed.

(** What the block holds after the data once the first [lenZ d1] bytes have
    been removed. *)
Definition left_behind (d1 d2 s s' : bytes) : Prop :=
  s' = s ++ dropZ (lenZ d2 + lenZ s) (d1 ++ d2 ++ s) \/
  lenZ d1 + lenZ d2 + lenZ s <= round1024 (lenZ d2) /\ s' = zeros (round1024 (lenZ d2) - lenZ d2).

Lemma shift_dealloc_spec h b d1 d2 s :
  buf_rep h b (d1 ++ d2) s -> lenZ d1 + lenZ d2 <= 2 ^ 31 - 1024 ->
  exists h1 b1 r h' b' s',
    (if lenZ d1 =? 0 then mret b else shiftOut b (lenZ d1)) h = Some (b1, h1) /\
    deallocateBuffer b1 (getBufferLen b1) h1 = Some ((r, b'), h') /\
    buf_rep h' b' d2 s' /\ buf_step h h' b b' /\ left_behind d1 d2 s s'.
Proof.
  intros Hrep Hlen. pose proof (lenZ_nonneg d1). pose proof (lenZ_nonneg d2).
  pose proof (lenZ_nonneg s).
  assert (exists h1 b1 s1,
    (if lenZ d1 =? 0 then mret b else shiftOut b (lenZ d1)) h = Some (b1, h1) /\
    buf_rep h1 b1 d2 s1 /\ buf_step h h1 b b1 /\ m_pBegin b1 = m_pBegin b /\
    s1 = s ++ dropZ (lenZ d2 + lenZ s) (d1 ++ d2 ++ s)) as
    (h1 & b1 & s1 & Hrun & Hrep1 & Hst1 & Hb1 & Hs1).
  { destruct (Z.eqb_spec (lenZ d1) 0) as [E|E].
    - rewrite (lenZ_0_inv d1 E) in *. exists h, b, s. cbn in Hrep.
      split_and!; [done|done|apply buf_step_refl|done|].
      rewrite dropZ_ge by (cbn; len_lia). by rewrite app_nil_r.
    - destruct (shiftOut_spec h b d1 d2 s Hrep ltac:(lia)) as (h1 & b1 & ? & ? & ? & ?).
      eexists h1, b1, _. done. }
  pose proof (rep_len _ _ _ _ Hrep1) as Hl1.
  destruct (deallocateBuffer_spec h1 b1 d2 s1 (lenZ d2) Hrep1) as
    (r & h' & b' & s' & Hde & Hrep' & Hst & _ & Hcase); [lia|].
  exists h1, b1, r, h', b', s'. rewrite Hl1. split_and!; [done|done|done| |].
  - destruct (decide (p_blk (m_pBegin b) = 0)) as [E0|E0].
    + assert (b = Buffer_new /\ d1 = [] /\ d2 = []) as (-> & -> & ->).
      { destruct Hrep as [? [? ?]%app_nil _|blk pad -> ? _ _ _]; [done|done]. }
      cbn in Hrun. by injection Hrun as <- <-.
    + eapply buf_step_trans; [|done|done]. by rewrite Hb1.
  - destruct Hcase as [(-> & -> & ->)|[Hle ->]]; [by left|right].
    split; [|done]. rewrite Hs1 in Hle.
    rewrite !lenZ_app, lenZ_dropZ in Hle by len_lia. len_lia.
Qed.

(** The bytes taken out of a buffer with data [d] when [n] are asked for. *)
Definition taken (d s : bytes) (n : Z) : Z :=
  if lenZ d + lenZ s <? n then 0 else Z.min n (lenZ d).

Lemma remove_spec h b d s n :
  buf_rep h b d s -> 0 <= n -> lenZ d <= 2 ^ 31 - 1024 ->
  exists h' b' s', remove b n h = Some ((taken d s n, b'), h') /\
    buf_rep h' b' (dropZ (taken d s n) d) s' /\ buf_step h h' b b' /\
    (n <= lenZ d -> left_behind (takeZ n d) (dropZ n d) s s').
Proof.
  intros Hrep Hn Hlen. unfold remove, taken.
  rewrite (rep_size _ _ _ _ Hrep), (rep_len _ _ _ _ Hrep).
  destruct (Z.ltb_spec (lenZ d + lenZ s) n).
  { exists h, b, s. split_and!; [done|done|apply buf_step_refl|]. intros. len_lia. }
  set (k := if lenZ d <? n then lenZ d else n).
  assert (k = Z.min n (lenZ d)) as Hk by (unfold k; case_tests; lia).
  rewrite <- Hk. clearbody k. pose proof (lenZ_nonneg d).
  assert (lenZ (takeZ k d) = k) as Hlk by (apply lenZ_takeZ; lia).
  assert (lenZ (dropZ k d) = lenZ d - k) as Hld by (apply lenZ_dropZ; lia).
  rewrite <- (takeZ_dropZ k d) in Hrep at 1.
  destruct (shift_dealloc_spec h b _ _ s Hrep ltac:(lia)) as
    (h1 & b1 & r & h' & b' & s' & Hrun & Hde & Hrep' & Hst & Hlb).
  rewrite Hlk in Hrun. st_step Hrun. st_step Hde.
  exists h', b', s'. split_and!; [done|done|done|].
  intros Hnd. replace n with k by lia. done.
Qed.

(** Taking out everything there is: the block stays, and the codec's slice of
    it now shows what was behind the data. *)
Lemma remove_everything h b d s :
  buf_rep h b d s -> 0 < lenZ d <= 2 ^ 31 - 1024 ->
  exists h' b', remove b (lenZ d) h = Some ((lenZ d, b'), h') /\
    buf_rep h' b' [] (s ++ dropZ (lenZ s) (d ++ s)) /\ buf_step h h' b b' /\
    m_pBegin b' = m_pBegin b.
Proof.
  intros Hrep Hd. pose proof (lenZ_nonneg s). unfold remove.
  rewrite (rep_size _ _ _ _ Hrep), (rep_len _ _ _ _ Hrep). arith_tests.
  rewrite <- (app_nil_r d) in Hrep at 1.
  destruct (shiftOut_spec h b d [] s Hrep ltac:(lia)) as (h1 & b1 & Hrun & Hrep1 & Hst & Hb).
  st_step Hrun. exists h1, b1. split_and!; [|exact Hrep1|done|done].
  rewrite (rep_len _ _ _ _ Hrep1). rewrite (st_bind_Some _ _ h1 (0, b1) h1); [done|].
  unfold deallocateBuffer.
  rewrite (rep_len _ _ _ _ Hrep1), (rep_size _ _ _ _ Hrep1). change (round1024 (lenZ [])) with 0.
  rewrite lenZ_nil, lenZ_app, lenZ_dropZ by len_lia. cbn [app]. by arith_tests.
Qed.

Lemma remove_nothing h b s :
  buf_rep h b [] s -> 0 < lenZ s -> remove b 0 h = Some ((0, b), h).
Proof.
  intros Hrep Hs. unfold remove. rewrite (rep_size _ _ _ _ Hrep), (rep_len _ _ _ _ Hrep), lenZ_nil.
  arith_tests. rewrite (st_bind_Some _ _ h b h) by done.
  rewrite (st_bind_Some _ _ h (0, b) h); [done|]. unfold deallocateBuffer.
  rewrite (rep_len _ _ _ _ Hrep), (rep_size _ _ _ _ Hrep), lenZ_nil.
  change (round1024 0) with 0. by arith_tests.
Qed.

(** A buffer that has never been written to. *)
Lemma remove_new h : remove Buffer_new 0 h = Some ((0, Buffer_new), h).
Proof.
  unfold remove. change (getMemSize Buffer_new <? 0) with false.
  change (getBufferLen Buffer_new <? 0) with false. cbv beta iota zeta. cbn [Z.eqb].
  rewrite (st_bind_Some _ _ h Buffer_new h) by done.
  by rewrite (st_bind_Some _ _ h (0, Buffer_new) h) by apply moveBuffer_null.
Qed.

Lemma write_nothing h str : write Buffer_new (SObj str) 0 h = Some ((0, Buffer_new), h).
Proof.
  unfold write. rewrite (st_bind_Some _ _ h (0, Buffer_new) h) by apply moveBuffer_null.
  rewrite (st_bind_Some _ _ h tt h); [done|]. unfold CopyFrom. cbn.
  by rewrite (proj2 (Z.leb_le 0 (lenZ str)) (lenZ_nonneg str)).
Qed.

Lemma copy_nothing h b s :
  buf_rep h b [] s ->
  exists h' b' s', copy b Buffer_new h = Some (b', h') /\ buf_rep h' b' [] s' /\ buf_step h h' b b'.
Proof.
  intros Hrep. unfold copy. destruct (clear_spec h b [] s Hrep) as (h1 & b1 & s1 & Hc & Hrep1 & Hst & Hs & _).
  st_step Hc. assert (reallocateBuffer b1 0 h1 = Some ((0, b1), h1)) as Hre.
  { unfold reallocateBuffer. rewrite (rep_size _ _ _ _ Hrep1), lenZ_nil. by arith_tests. }
  change (getMemSize Buffer_new) with 0. st_step Hre. cbn [snd].
  assert (mkBuffer (m_pBegin b1) (m_pBegin b1 + s32 (getBufferLen Buffer_new))%ptr (m_nSize b1) = b1) as ->.
  { change (s32 (getBufferLen Buffer_new)) with 0. rewrite ptr_add_0.
    by destruct Hrep1 as [-> _ _|blk pad -> _ _ _ _]. }
  exists h1, b1, s1. split; [|done].
  rewrite (st_bind_Some _ _ h1 tt h1); [done|]. unfold CopyMemory.
  change (getBufferLen Buffer_new) with 0. by rewrite load_0, store_nil.
Qed.

Lemma read_spec h b d s n :
  buf_rep h b d s -> 0 <= n -> lenZ d <= 2 ^ 31 - 1024 ->
  exists h' b' s', read b n h = Some ((taken d s n, takeZ (taken d s n) d, b'), h') /\
    buf_rep h' b' (dropZ (taken d s n) d) s' /\ buf_step h h' b b'.
Proof.
  intros Hrep Hn Hlen. unfold read, taken.
  rewrite (rep_size _ _ _ _ Hrep), (rep_len _ _ _ _ Hrep).
  destruct (Z.ltb_spec (lenZ d + lenZ s) n).
  { exists h, b, s. split_and!; [done|done|apply buf_step_refl]. }
  set (k := if lenZ d <? n then lenZ d else n).
  assert (k = Z.min n (lenZ d)) as Hk by (unfold k; case_tests; lia).
  rewrite <- Hk. clearbody k. pose proof (lenZ_nonneg d).
  assert (lenZ (takeZ k d) = k) as Hlk by (apply lenZ_takeZ; lia).
  assert (lenZ (dropZ k d) = lenZ d - k) as Hld by (apply lenZ_dropZ; lia).
  assert ((if k =? 0 then mret [] else st_reads (λ h, load h (m_pBegin b) k)) h
          = Some (takeZ k d, h)) as Hread.
  { destruct (Z.eqb_spec k 0) as [->|E]; [done|]. unfold st_reads.
    destruct (rep_slice _ _ _ _ Hrep) as [Hl _]. cbn in Hl.
    rewrite <- (takeZ_dropZ k d) in Hl. apply load_app in Hl as [Hl _].
    rewrite Hlk in Hl. by rewrite Hl. }
  st_step Hread.
  rewrite <- (takeZ_dropZ k d) in Hrep at 1.
  destruct (shift_dealloc_spec h b _ _ s Hrep ltac:(lia)) as
    (h1 & b1 & r & h' & b' & s' & Hrun & Hde & Hrep' & Hst & _).
  rewrite Hlk in Hrun. st_step Hrun. st_step Hde.
  exists h', b', s'. done.
Qed.

(** Data that stay readable while the buffer is moved: they are not in its
    own block. *)
Definition src_ok (h : heap) b (pData : src) bs : Prop :=
  load_src h pData (lenZ bs) = Some bs /\
  match pData with
  | SMem p => lenZ bs = 0 \/ p_blk p <> p_blk (m_pBegin b)
  | SObj _ => True
  end.

Lemma src_ok_step h h' b b' pData bs :
  src_ok h b pData bs -> buf_step h h' b b' -> load_src h' pData (lenZ bs) = Some bs.
Proof.
  intros [Hl Hne] (Hf & _ & _ & Hk). destruct pData as [p|t]; [|done]. cbn in *.
  destruct Hne as [E|Hne].
  { rewrite E in *. by rewrite load_0 in *. }
  destruct (Z.eqb_spec (lenZ bs) 0) as [E|E]; [rewrite E in *; by rewrite load_0 in *|].
  rewrite <- Hl. apply load_frame. apply Hk; [done|]. intros E'.
  destruct Hf as [Hf|Hf]; [congruence|]. rewrite <- E' in Hf.
  unfold load in Hl. rewrite Hf in Hl. by destruct (Z.eqb_spec (lenZ bs) 0).
Qed.

Lemma buf_step_store h h' b b' l e n :
  buf_step h h' b b' -> p_blk (m_pBegin b') <> 0 ->
  buf_step h (<[p_blk (m_pBegin b') := l]> h') b (mkBuffer (m_pBegin b') e n).
Proof.
  intros (Hf & Hd & Hz & Hk) Hb'. split_and!; cbn; [done| | |].
  - intros Hne H0. rewrite lookup_insert_ne by done. by apply Hd.
  - by rewrite lookup_insert_ne.
  - intros k K1 K2. rewrite lookup_insert_ne by done. by apply Hk.
Qed.

(** The slack after [n] more bytes have been put into a buffer with data [d]
    and slack [s]: what is left of [s], or zeros of a new block. *)
Definition slack_after (n : Z) (d s s' : bytes) : Prop :=
  s' = dropZ n s \/ s' = zeros (round1024 (n + lenZ d) - lenZ d - n).

Lemma write_spec h b d s pData bs :
  buf_rep h b d s -> src_ok h b pData bs -> lenZ d + lenZ bs <= 2 ^ 31 - 1024 ->
  exists h' b' s', write b pData (lenZ bs) h = Some ((lenZ bs, b'), h') /\
    buf_rep h' b' (d ++ bs) s' /\ buf_step h h' b b' /\ slack_after (lenZ bs) d s s'.
Proof.
  intros Hrep Hsrc Hlen. unfold write. pose proof (lenZ_nonneg d). pose proof (lenZ_nonneg bs).
  rewrite (rep_len _ _ _ _ Hrep), u32_small by lia.
  destruct (reallocateBuffer_spec h b d s (lenZ bs + lenZ d) Hrep ltac:(lia)) as
    (r & h1 & b1 & s1 & Hrun & Hrep1 & Hst & Hroom & Hnn & Hcase).
  st_step Hrun. cbn [snd]. pose proof (src_ok_step _ _ _ _ _ _ Hsrc Hst) as Hload.
  destruct Hrep1 as [Hb1 Hd0 Hs0|blk pad Hb1 Hb Hsz Hdiv Hblk].
  { subst b1 d s1. rewrite !lenZ_nil in *.
    assert (bs = []) as -> by (apply lenZ_0_inv; lia).
    rewrite (st_bind_Some _ _ _ tt h1) by (by eapply CopyFrom_eq).
    exists h1, Buffer_new, []. split_and!; [done|by apply rep_null|done|].
    destruct Hcase as [(_ & _ & <-)|Hz]; [by left|right]. cbn in *. done. }
  assert (s1 = takeZ (lenZ bs) s1 ++ dropZ (lenZ bs) s1) as Hcut by (symmetry; apply takeZ_dropZ).
  assert (lenZ (takeZ (lenZ bs) s1) = lenZ bs) as Hlt by (apply lenZ_takeZ; lia).
  assert (lenZ (dropZ (lenZ bs) s1) = lenZ s1 - lenZ bs) as Hld by (apply lenZ_dropZ; lia).
  set (h' := <[blk := d ++ bs ++ dropZ (lenZ bs) s1 ++ pad]> h1).
  assert (CopyFrom (m_pEnd b1) pData (lenZ bs) h1 = Some (tt, h')) as Hcopy.
  { eapply CopyFrom_eq; [done|]. rewrite Hb1. cbn.
    apply (store_block h1 blk d (takeZ (lenZ bs) s1)); [|done|done].
    rewrite Hblk. by rewrite (app_assoc (takeZ _ _)), <- Hcut. }
  st_step Hcopy. eexists h', _, (dropZ (lenZ bs) s1). split; [reflexivity|]. split_and!.
  - apply (rep_block _ _ _ _ blk pad); rewrite ?lenZ_app, ?Hld.
    + rewrite Hb1. unfold ptr_add. cbn. f_equal. lia.
    + done.
    + lia.
    + by replace (lenZ d + lenZ bs + (lenZ s1 - lenZ bs)) with (lenZ d + lenZ s1) by lia.
    + unfold h'. rewrite lookup_insert_eq, <- !app_assoc. done.
  - unfold h'. replace blk with (p_blk (m_pBegin b1)) by (by rewrite Hb1).
    by apply buf_step_store; [done|rewrite Hb1].
  - unfold slack_after. destruct Hcase as [(-> & -> & ->)|Hz]; [by left|right].
    rewrite Hz. unfold dropZ, zeros. rewrite drop_replicate. f_equal. lia.
Qed.

Lemma write_string_spec h b d s str :
  buf_rep h b d s -> lenZ d + lenZ str <= 2 ^ 31 - 1024 ->
  exists h' b' s', write_string b str h = Some ((lenZ str, b'), h') /\
    buf_rep h' b' (d ++ str) s' /\ buf_step h h' b b' /\ slack_after (lenZ str) d s s'.
Proof.
  intros Hrep Hlen. unfold write_string. pose proof (lenZ_nonneg d).
  rewrite s32_small, u32_small by len_lia. apply write_spec; [done| |done].
  split; [|done]. cbn. arith_tests. by rewrite takeZ_app.
Qed.

(** The first move of [insert]: the data and what follows it go up by [n] bytes. *)
Lemma shift_right h blk d s pad n :
  h !! blk = Some (d ++ s ++ pad) -> 0 <= n <= lenZ s ->
  CopyMemory (Ptr blk n) (Ptr blk 0) (lenZ d + (lenZ s - n)) h =
    Some (tt, <[blk := takeZ n (d ++ s) ++ (d ++ takeZ (lenZ s - n) s) ++ pad]> h).
Proof.
  intros Hblk Hn. pose proof (lenZ_nonneg d).
  assert (lenZ (takeZ (lenZ s - n) s) = lenZ s - n) as Hm by (apply lenZ_takeZ; lia).
  apply CopyMemory_eq with (bs := d ++ takeZ (lenZ s - n) s).
  - apply (load_block h blk [] _ (dropZ (lenZ s - n) s ++ pad)); [|done|len_lia].
    rewrite Hblk. cbn. rewrite <- app_assoc. f_equal. f_equal. by rewrite app_assoc, takeZ_dropZ.
  - apply (store_block h blk (takeZ n (d ++ s)) (dropZ n (d ++ s)) pad).
    + by rewrite Hblk, (app_assoc (takeZ _ _)), takeZ_dropZ, <- app_assoc.
    + rewrite lenZ_takeZ; len_lia.
    + rewrite lenZ_dropZ; len_lia.
Qed.

(** [insert] puts the bytes in front of the data. *)
Lemma insert_spec h b d s pData bs :
  buf_rep h b d s -> src_ok h b pData bs -> lenZ d + lenZ bs <= 2 ^ 31 - 1024 ->
  exists h' b' s', insert b pData (lenZ bs) h = Some ((lenZ bs, b'), h') /\
    buf_rep h' b' (bs ++ d) s' /\ buf_step h h' b b'.
Proof.
  intros Hrep Hsrc Hlen. unfold insert. pose proof (lenZ_nonneg d). pose proof (lenZ_nonneg bs).
  rewrite (rep_len _ _ _ _ Hrep), u32_small by lia.
  destruct (reallocateBuffer_spec h b d s (lenZ bs + lenZ d) Hrep ltac:(lia)) as
    (r & h1 & b1 & s1 & Hrun & Hrep1 & Hst & Hroom & Hnn & Hcase).
  st_step Hrun. cbn [snd]. pose proof (src_ok_step _ _ _ _ _ _ Hsrc Hst) as Hload.
  destruct Hrep1 as [Hb1 Hd0 Hs0|blk pad Hb1 Hb Hsz Hdiv Hblk].
  { subst b1 d s1. rewrite !lenZ_nil in *.
    assert (bs = []) as -> by (apply lenZ_0_inv; lia).
    rewrite (st_bind_Some _ _ _ tt h1) by done.
    rewrite (st_bind_Some _ _ _ tt h1) by (by eapply CopyFrom_eq).
    exists h1, Buffer_new, []. split_and!; [done|by apply rep_null|done]. }
  set (n := lenZ bs) in *. set (m := lenZ s1 - n).
  set (h2 := <[blk := takeZ n (d ++ s1) ++ (d ++ takeZ m s1) ++ pad]> h1).
  assert (CopyMemory (m_pBegin b1 + n)%ptr (m_pBegin b1) (u32 (getMemSize b1 - n)) h1
          = Some (tt, h2)) as Hmove.
  { rewrite Hb1. unfold getMemSize, ptr_add. cbn [m_nSize m_pBegin p_blk p_off].
    rewrite u32_small, <- Z.add_sub_assoc by lia. apply shift_right; [done|lia]. }
  st_step Hmove.
  set (h3 := <[blk := bs ++ (d ++ takeZ m s1) ++ pad]> h2).
  assert (blk = p_blk (m_pBegin b1)) as Eblk by (by rewrite Hb1).
  assert (load_src h2 pData n = Some bs) as Hload2.
  { eapply src_ok_step; [exact Hsrc|]. unfold h2. rewrite Eblk.
    apply (buf_step_store h h1 b b1 _ (m_pEnd b1) (m_nSize b1) Hst). by rewrite <- Eblk. }
  assert (CopyFrom (m_pBegin b1) pData n h2 = Some (tt, h3)) as Hcopy.
  { eapply CopyFrom_eq; [done|]. rewrite Hb1.
    apply (store_block h2 blk [] (takeZ n (d ++ s1)) ((d ++ takeZ m s1) ++ pad));
      [apply lookup_insert_eq|done|rewrite lenZ_takeZ; len_lia]. }
  st_step Hcopy. eexists h3, _, (takeZ m s1). split; [reflexivity|]. split.
  - rewrite Hb1. unfold ptr_add. cbn. rewrite (Z.add_comm (lenZ d)).
    apply (rep_block _ _ _ _ blk pad); rewrite ?lenZ_app, ?(lenZ_takeZ m s1) by lia; fold n; try done.
    + f_equal. lia.
    + by replace (n + lenZ d + m) with (lenZ d + lenZ s1) by lia.
    + by replace (n + lenZ d + m) with (lenZ d + lenZ s1) by lia.
    + unfold h3. rewrite lookup_insert_eq, <- !app_assoc. done.
  - unfold h3, h2. rewrite insert_insert_eq, Eblk. by apply buf_step_store; [|rewrite <- Eblk].
Qed.

(** A step of one buffer does not move it to the block of another. *)
Lemma buf_step_apart h h' b b' c d s :
  buf_rep h c d s -> buf_step h h' b b' -> p_blk (m_pBegin b') <> 0 ->
  p_blk (m_pBegin b) <> p_blk (m_pBegin c) -> p_blk (m_pBegin b') <> p_blk (m_pBegin c).
Proof.
  intros [-> _ _|blk pad -> ? _ _ Hblk] ([Hf|Hf] & _) Hb' Hne; [done..|by rewrite Hf|].
  cbn in *. congruence.
Qed.

(** A change of another block leaves a buffer's data. *)
Lemma buf_rep_insert_ne h c d s blk l :
  buf_rep h c d s -> blk <> p_blk (m_pBegin c) -> buf_rep (<[blk := l]> h) c d s.
Proof.
  intros [-> -> ->|bb pad -> Hb Hsz Hdiv Hblk] Hne; [by apply rep_null|].
  apply (rep_block _ _ _ _ bb pad); try done. by rewrite lookup_insert_ne.
Qed.

(** What a buffer that has a block holds. *)
Lemma block_of h b d s :
  buf_rep h b d s -> p_blk (m_pBegin b) <> 0 ->
  exists blk pad, b = mkBuffer (Ptr blk 0) (Ptr blk (lenZ d)) (lenZ d + lenZ s) /\ blk <> 0 /\
    0 < lenZ d + lenZ s < 2 ^ 31 /\ (1024 | lenZ d + lenZ s) /\ h !! blk = Some (d ++ s ++ pad).
Proof. intros [-> _ _|blk pad -> ? ? ? ?] Hb; [done|]. by exists blk, pad. Qed.

(** [clear] followed by [reallocateBuffer] leaves an empty buffer with room. *)
Lemma clear_room h b d s n :
  buf_rep h b d s -> 0 <= n <= 2 ^ 31 - 1024 ->
  exists h1 b1 r h2 b2 s2, clear b h = Some (b1, h1) /\
    reallocateBuffer b1 n h1 = Some ((r, b2), h2) /\ buf_rep h2 b2 [] s2 /\
    n <= lenZ s2 /\ p_blk (m_pBegin b2) <> 0 /\ buf_step h h2 b b2.
Proof.
  intros Hrep Hn.
  destruct (clear_spec h b d s Hrep) as (h1 & b1 & s1 & Hc & Hrep1 & Hst1 & Hs1 & _).
  assert (p_blk (m_pBegin b1) <> 0) as Hb1.
  { destruct Hrep1 as [_ _ ->|blk pad -> ? _ _ _]; [rewrite lenZ_nil in Hs1; lia|done]. }
  destruct (reallocateBuffer_spec h1 b1 [] s1 n Hrep1) as
    (r & h2 & b2 & s2 & Hrun & Hrep2 & Hst2 & Hroom & Hnn & Hcase); [by rewrite lenZ_nil|].
  rewrite lenZ_nil in Hroom. exists h1, b1, r, h2, b2, s2.
  split_and!; [done..|lia| |by eapply buf_step_trans]. intros Hb2.
  assert (b2 <> b1) as Hne by congruence.
  destruct Hrep2 as [-> _ ->|blk pad -> H0 _ _ _]; [|done].
  destruct Hcase as [(_ & E & _)|_]; [done|].
  rewrite lenZ_nil in Hroom. revert Hrun. unfold reallocateBuffer.
  rewrite (rep_size _ _ _ _ Hrep1), lenZ_nil. replace n with 0 by lia.
  arith_tests. intros [= _ E _]. by rewrite E in Hne.
Qed.

(** Other buffers do not notice. *)
Lemma buf_rep_frame h h' b b' c d s :
  buf_rep h c d s -> buf_step h h' b b' ->
  p_blk (m_pBegin c) <> p_blk (m_pBegin b) -> buf_rep h' c d s.
Proof.
  intros [-> -> ->|blk pad -> Hb Hsz Hdiv Hblk] (Hf & _ & _ & Hk) Hne; [by apply rep_null|].
  apply (rep_block _ _ _ _ blk pad); try done. cbn in Hne.
  rewrite Hk; [done|done|]. intros ->. destruct Hf as [Hf|Hf]; congruence.
Qed.

Lemma copy_spec h b d s buf d2 s2 :
  buf_rep h b d s -> buf_rep h buf d2 s2 ->
  p_blk (m_pBegin b) <> p_blk (m_pBegin buf) ->
  exists h' b' s', copy b buf h = Some (b', h') /\ buf_rep h' b' d2 s' /\
    buf_rep h' buf d2 s2 /\ buf_step h h' b b'.
Proof.
  intros Hrep Hbuf Hne. unfold copy.
  pose proof (lenZ_nonneg d2). pose proof (lenZ_nonneg s2).
  pose proof (rep_bounds _ _ _ _ Hbuf) as Hbnd.
  rewrite (rep_len _ _ _ _ Hbuf), (rep_size _ _ _ _ Hbuf), s32_small by lia.
  destruct (clear_room h b d s (lenZ d2 + lenZ s2) Hrep) as
    (h1 & b1 & r & h2 & b2 & sl & Hc & Hrun & Hrep2 & Hroom & Hb2 & Hst).
  { destruct Hbuf as [_ -> ->|blk pad _ _ Hsz [k Hk] _]; [done|lia]. }
  st_step Hc. st_step Hrun. cbn [snd m_pBegin].
  pose proof (buf_rep_frame _ _ _ _ _ _ _ Hbuf Hst (not_eq_sym Hne)) as Hbuf2.
  pose proof (buf_step_apart _ _ _ _ _ _ _ Hbuf Hst Hb2 Hne) as Hne2.
  destruct (block_of _ _ _ _ Hrep2 Hb2) as (blk & pad & E & Hb0 & Hsz & Hdiv & Hblk).
  rewrite lenZ_nil in *. cbn [app] in Hblk. rewrite E in Hne2. cbn in Hne2.
  set (h3 := <[blk := d2 ++ dropZ (lenZ d2) sl ++ pad]> h2).
  unfold getBuffer. rewrite ptr_add_0.
  assert (CopyMemory (m_pBegin b2) (m_pBegin buf) (lenZ d2) h2 = Some (tt, h3)) as Hcopy.
  { rewrite E. eapply CopyMemory_eq; [apply (rep_slice _ _ _ _ Hbuf2)|].
    apply (store_block h2 blk [] (takeZ (lenZ d2) sl)); [|done|rewrite lenZ_takeZ; lia].
    rewrite Hblk. cbn. by rewrite app_assoc, takeZ_dropZ. }
  st_step Hcopy. eexists h3, _, (dropZ (lenZ d2) sl). split; [reflexivity|]. split_and!.
  - rewrite E. cbn [m_pBegin m_nSize] in *. unfold h3, ptr_add. cbn.
    apply (rep_block _ _ _ _ blk pad); [|done| | |apply lookup_insert_eq];
      rewrite lenZ_dropZ by lia;
      by replace (lenZ d2 + (lenZ sl - lenZ d2)) with (0 + lenZ sl) by lia.
  - unfold h3. by apply buf_rep_insert_ne.
  - unfold h3. replace blk with (p_blk (m_pBegin b2)) by (by rewrite E).
    by apply buf_step_store.
Qed.
End specs.

(** ** The buffer as a queue of bytes *)

Module Queue.
(** What a client does with a buffer, and what it gets back: the number
    returned and the bytes read. *)
Inductive op :=
  | OWrite (bs : bytes) | OInsert (bs : bytes) | ORemove (n : Z) | ORead (n : Z) | OClear.

Definition out : Type := Z * bytes.

(** The contract.  Asking for more bytes than there are takes all of them,
    or none when the request exceeds the block. *)
Definition may_take (d : bytes) (n k : Z) : Prop :=
  (n <= lenZ d -> k = n) /\ (lenZ d < n -> k = 0 \/ k = lenZ d).

Inductive step : bytes -> op -> out -> bytes -> Prop :=
  | step_write d bs : step d (OWrite bs) (lenZ bs, []) (d ++ bs)
  | step_insert d bs : step d (OInsert bs) (lenZ bs, []) (bs ++ d)
  | step_remove d n k : may_take d n k -> step d (ORemove n) (k, []) (dropZ k d)
  | step_read d n k : may_take d n k -> step d (ORead n) (k, takeZ k d) (dropZ k d)
  | step_clear d : step d OClear (0, []) [].

Inductive steps : bytes -> list op -> list out -> bytes -> Prop :=
  | steps_nil d : steps d [] [] d
  | steps_cons d o r d' os rs d'' :
      step d o r d' -> steps d' os rs d'' -> steps d (o :: os) (r :: rs) d''.

(** The bytes an operation adds; requests are not negative. *)
Definition op_size (o : op) : Z :=
  match o with OWrite bs | OInsert bs => lenZ bs | _ => 0 end.
Definition op_ok (o : op) : Prop :=
  match o with ORemove n | ORead n => 0 <= n | _ => True end.
Definition total (os : list op) : Z := foldr (λ o n, op_size o + n) 0 os.
End Queue.

Section queue.
Context {VM : VirtualMem}.

Definition run_op (b : Buffer) (o : Queue.op) : ST heap (Queue.out * Buffer) :=
  match o with
  | Queue.OWrite bs => r ← write b (SObj bs) (lenZ bs); mret ((r.1, []), r.2)
  | Queue.OInsert bs => r ← insert b (SObj bs) (lenZ bs); mret ((r.1, []), r.2)
  | Queue.ORemove n => r ← remove b n; mret ((r.1, []), r.2)
  | Queue.ORead n => r ← read b n; mret ((r.1.1, r.1.2), r.2)
  | Queue.OClear => b' ← clear b; mret ((0, []), b')
  end.

Fixpoint run_ops (b : Buffer) (os : list Queue.op) : ST heap (list Queue.out * Buffer) :=
  match os with
  | [] => mret ([], b)
  | o :: os' =>
      r ← run_op b o;
      rs ← run_ops r.2 os';
      mret (r.1 :: rs.1, rs.2)
  end.

Context {VOk : VirtualMemOk VM} {VG : VirtualMemGrants VM (2 ^ 31)}.
Implicit Types (h : heap) (b : Buffer) (d s bs : bytes).

Lemma taken_may_take d s n : Queue.may_take d n (taken d s n).
Proof. unfold Queue.may_take, taken. pose proof (lenZ_nonneg s). case_tests; lia. Qed.

Lemma src_obj_ok h b bs : src_ok h b (SObj bs) bs.
Proof. split; [|done]. cbn. pose proof (lenZ_nonneg bs). arith_tests. by rewrite takeZ_ge. Qed.

Lemma run_op_spec h b d s o :
  buf_rep h b d s -> Queue.op_ok o -> lenZ d + Queue.op_size o <= 2 ^ 31 - 1024 ->
  exists r d' h' b' s', run_op b o h = Some ((r, b'), h') /\ Queue.step d o r d' /\
    buf_rep h' b' d' s' /\ buf_step h h' b b' /\ lenZ d' <= lenZ d + Queue.op_size o.
Proof.
  intros Hrep Hok Hlen. destruct o as [bs|bs|n|n|]; cbn in *.
  - destruct (write_spec h b d s (SObj bs) bs Hrep (src_obj_ok h b bs) Hlen)
      as (h' & b' & s' & Hrun & ? & ? & _).
    st_step Hrun. eexists _, (d ++ bs), h', b', s'. split_and!; [done|constructor|done|done|len_lia].
  - destruct (insert_spec h b d s (SObj bs) bs Hrep (src_obj_ok h b bs) Hlen)
      as (h' & b' & s' & Hrun & ? & ?).
    st_step Hrun. eexists _, (bs ++ d), h', b', s'. split_and!; [done|constructor|done|done|len_lia].
  - destruct (remove_spec h b d s n Hrep Hok ltac:(lia)) as (h' & b' & s' & Hrun & ? & ? & _).
    st_step Hrun. eexists _, _, h', b', s'. split_and!; [done| |done|done|].
    + constructor. apply taken_may_take.
    + unfold dropZ, lenZ. rewrite length_drop. lia.
  - destruct (read_spec h b d s n Hrep Hok ltac:(lia)) as (h' & b' & s' & Hrun & ? & ?).
    st_step Hrun. eexists _, _, h', b', s'. split_and!; [done| |done|done|].
    + constructor. apply taken_may_take.
    + unfold dropZ, lenZ. rewrite length_drop. lia.
  - destruct (clear_spec h b d s Hrep) as (h' & b' & s' & Hrun & ? & ? & _).
    st_step Hrun. eexists _, [], h', b', s'. split_and!; [done|constructor|done|done|len_lia].
Qed.

(** Apart from the buffer's own block, a step changes nothing and leaves
    nothing behind. *)
Lemma buf_step_delete h h' b b' d s d' s' :
  buf_rep h b d s -> buf_rep h' b' d' s' -> buf_step h h' b b' -> h !! 0 = None ->
  delete (p_blk (m_pBegin b')) h' = delete (p_blk (m_pBegin b)) h /\ h' !! 0 = None.
Proof.
  intros Hrep Hrep' (Hf & Hd & Hz & Hk) H0. rewrite Hz. split; [|done].
  apply map_eq. intros k. rewrite !lookup_delete.
  destruct (decide (p_blk (m_pBegin b') = k)) as [E1|N1];
    destruct (decide (p_blk (m_pBegin b) = k)) as [E2|N2]; try done.
  - destruct Hf as [Hf|Hf]; [congruence|]. by rewrite <- E1.
  - destruct (decide (p_blk (m_pBegin b) = 0)) as [E0|E0].
    + by rewrite <- E2, E0, Hz.
    + rewrite <- E2. apply Hd; congruence.
  - by apply Hk.
Qed.

Lemma total_nonneg os : 0 <= Queue.total os.
Proof.
  induction os as [|o os IH]; cbn; [done|]. fold (Queue.total os).
  destruct o; cbn; len_lia.
Qed.

Lemma run_ops_spec os : forall h b d s,
  buf_rep h b d s -> h !! 0 = None -> Forall Queue.op_ok os ->
  lenZ d + Queue.total os <= 2 ^ 31 - 1024 ->
  exists rs d' h' b' s', run_ops b os h = Some ((rs, b'), h') /\
    Queue.steps d os rs d' /\ buf_rep h' b' d' s' /\
    delete (p_blk (m_pBegin b')) h' = delete (p_blk (m_pBegin b)) h /\ h' !! 0 = None.
Proof.
  induction os as [|o os IH]; intros h b d s Hrep H0 Hok Hlen.
  { exists [], d, h, b, s. split_and!; [done|constructor|done..]. }
  apply Forall_cons in Hok as [Ho Hos]. cbn in Hlen. fold (Queue.total os) in Hlen.
  pose proof (total_nonneg os).
  destruct (run_op_spec h b d s o Hrep Ho ltac:(lia)) as
    (r & d1 & h1 & b1 & s1 & Hrun & Hstep & Hrep1 & Hst & Hl1).
  destruct (buf_step_delete _ _ _ _ _ _ _ _ Hrep Hrep1 Hst H0) as [Hdel H01].
  destruct (IH h1 b1 d1 s1 Hrep1 H01 Hos ltac:(lia)) as
    (rs & d2 & h2 & b2 & s2 & Hruns & Hsteps & Hrep2 & Hdel2 & H02).
  cbn [run_ops]. st_step Hrun. cbn [fst snd]. st_step Hruns.
  eexists _, d2, h2, b2, s2. split_and!; [done|by econstructor|done|congruence|done].
Qed.
End queue.

(** ** [scan] *)

Lemma cstr_app_nonul t x : NUL ∉ t -> cstr (t ++ x) = t ++ cstr x.
Proof.
  unfold cstr, take_while. induction t as [|c t IH]; [done|].
  intros [Hc Ht]%not_elem_of_cons. cbn. rewrite bool_decide_false by congruence. cbn.
  specialize (IH Ht). by destruct (span _ (t ++ x)), (span _ x); cbn in *; rewrite IH.
Qed.

Lemma cstr_nonul t : NUL ∉ t -> cstr t = t.
Proof. intros H. rewrite <- (app_nil_r t) at 1. rewrite cstr_app_nonul by done. apply app_nil_r. Qed.

Lemma cstr_prefix l : exists r, l = cstr l ++ r.
Proof. eexists. symmetry. apply span_app. Qed.

(** A match inside the data is found, when the data searched have no NUL and
    the unused part of the block has one. *)
Lemma scan_spec h b d s nPos k i :
  buf_rep h b d s -> 0 <= nPos <= lenZ d -> NUL ∉ dropZ nPos d -> NUL ∈ s ->
  strstr (dropZ nPos d) (cstr k) = Some i ->
  scan h b k nPos = Some (nPos + i + lenZ (cstr k)).
Proof.
  intros Hrep Hpos Hnul Hs Hfind. unfold scan. rewrite (rep_len _ _ _ _ Hrep). arith_tests.
  destruct Hrep as [-> -> ->|blk pad -> Hb Hsz Hdiv Hblk]; [by apply not_elem_of_nil in Hs|].
  unfold getBuffer, strlen, ptr_add. cbn [m_pBegin p_blk p_off]. rewrite Hblk. cbn [mbind option_bind].
  set (t := dropZ nPos d) in *.
  assert (d ++ s ++ pad = takeZ nPos d ++ t ++ s ++ pad) as Hcut
    by (unfold t; by rewrite (app_assoc (takeZ nPos d)), takeZ_dropZ).
  assert (lenZ (takeZ nPos d) = nPos) as Hlt by (by apply lenZ_takeZ).
  rewrite Z.add_0_l, Hcut, dropZ_app by done. arith_tests.
  rewrite bool_decide_true by set_solver. rewrite cstr_app_nonul by done.
  destruct (cstr_prefix (s ++ pad)) as [r Hr]. cbn [mbind option_bind].
  rewrite (load_block h blk (takeZ nPos d) (t ++ cstr (s ++ pad)) r); [|by rewrite Hblk, Hcut, <- app_assoc, <- Hr|done|done].
  cbn [mbind option_bind]. rewrite (strstr_app _ _ _ _ Hfind).
  destruct (strstr_Some _ _ _ Hfind) as (x & y & Ht & -> & _).
  assert (lenZ t = lenZ d - nPos) as Hl by (unfold t; by apply lenZ_dropZ).
  rewrite Ht, !lenZ_app in Hl. rewrite s32_small; [done|]. len_lia.
Qed.

(** ** Properties *)

(** C4: A buffer is a byte queue.  Any sequence of writes, inserts, removes,
    reads and clears, started on a new buffer and within 2^31 - 1024 bytes in
    total, runs without an access violation; every operation returns what the
    queue contract says, and at the end the buffer's data and the length it
    reports are those of the queue. *)
Theorem Buffer_refines_queue `{VM : VirtualMem} `{!VirtualMemOk VM}
    `{!VirtualMemGrants VM (2 ^ 31)} (h : heap) (os : list Queue.op) :
  h !! 0 = None -> Forall Queue.op_ok os -> Queue.total os <= 2 ^ 31 - 1024 ->
  exists outs d h' b' s', run_ops Buffer_new os h = Some ((outs, b'), h') /\
    Queue.steps [] os outs d /\ buf_rep h' b' d s' /\ getBufferLen b' = lenZ d.
Proof.
  intros H0 Hok Hlen.
  destruct (run_ops_spec os h Buffer_new [] []) as (rs & d & h' & b' & s' & Hrun & Hst & Hrep & _ & _);
    [by apply rep_null|done|done|by rewrite lenZ_nil|].
  exists rs, d, h', b', s'. split_and!; [done..|by eapply rep_len].
Qed.

Definition demo_ops : list Queue.op :=
  [Queue.OWrite (lit "hello "); Queue.OWrite (lit "world"); Queue.OInsert (lit ">> ");
   Queue.ORead 3; Queue.ORemove 6; Queue.ORead 5000].

Definition demo_total : Queue.total demo_ops <= 2 ^ 31 - 1024.
Proof. by vm_compute. Defined.

Lemma Buffer_refines_queue_witness :
  (exists b' h', run_ops (VM := bump_mem) Buffer_new demo_ops ∅ =
     Some (([(6, []); (5, []); (3, []); (3, lit ">> "); (6, []); (0, [])], b'), h') /\
     getBufferLen b' = 5) /\
  exists outs d h' b' s', run_ops (VM := bump_mem) Buffer_new demo_ops ∅ = Some ((outs, b'), h') /\
    Queue.steps [] demo_ops outs d /\ buf_rep h' b' d s' /\ getBufferLen b' = lenZ d.
Proof.
  split.
  - eexists _, _. split; [vm_compute; reflexivity|vm_compute; reflexivity].
  - apply (Buffer_refines_queue (VM := bump_mem)); [reflexivity| |exact demo_total].
    repeat constructor; cbn; lia.
Defined.

(** C30: The destructor gives back everything.  After any such sequence of
    operations, destroying the buffer leaves the memory exactly as it was
    before the buffer was used: no block is leaked and no other block has
    changed. *)
Theorem Buffer_no_leak `{VM : VirtualMem} `{!VirtualMemOk VM}
    `{!VirtualMemGrants VM (2 ^ 31)} (h : heap) (os : list Queue.op) :
  h !! 0 = None -> Forall Queue.op_ok os -> Queue.total os <= 2 ^ 31 - 1024 ->
  exists outs h' b', run_ops Buffer_new os h = Some ((outs, b'), h') /\
    Buffer_delete b' h' = Some (tt, h).
Proof.
  intros H0 Hok Hlen.
  destruct (run_ops_spec os h Buffer_new [] []) as (rs & d & h' & b' & s' & Hrun & _ & Hrep & Hdel & H0');
    [by apply rep_null|done|done|by rewrite lenZ_nil|].
  exists rs, h', b'. split; [done|]. cbn in Hdel. rewrite (delete_id h 0) in Hdel by done.
  unfold Buffer_delete. case_bool_decide as Hnull.
  - rewrite Hnull in Hdel. cbn in Hdel. rewrite delete_id in Hdel by done. by subst h'.
  - unfold VirtualFree, st_modify. by rewrite Hdel.
Qed.

Lemma Buffer_no_leak_witness :
  exists outs h' b', run_ops (VM := bump_mem) Buffer_new demo_ops ∅ = Some ((outs, b'), h') /\
    Buffer_delete b' h' = Some (tt, ∅).
Proof.
  apply (Buffer_no_leak (VM := bump_mem)); [reflexivity| |exact demo_total].
  repeat constructor; cbn; lia.
Defined.

(** The capacity computed for a request is the next multiple of 1024, for
    every request up to 2^32 - 1024; for a larger one the multiplication wraps
    and the capacity is 0. *)
Theorem round1024_bounds (n : Z) :
  0 <= n < 2 ^ 32 ->
  (n <= 2 ^ 32 - 1024 -> n <= round1024 n < n + 1024 /\ (1024 | round1024 n)) /\
  (2 ^ 32 - 1024 < n -> round1024 n = 0).
Proof.
  intros Hn. split; intros H.
  - apply round1024_spec. lia.
  - unfold round1024.
    replace ((n + 1023) / 1024) with 4194304 by (Z.div_mod_to_equations; lia). done.
Qed.

Lemma round1024_bounds_witness :
  (1025 <= 2 ^ 32 - 1024 -> 1025 <= round1024 1025 < 1025 + 1024 /\ (1024 | round1024 1025)) /\
  (2 ^ 32 - 1024 < 1025 -> round1024 1025 = 0).
Proof. apply (round1024_bounds 1025). lia. Defined.

(** [remove] (and so [read], which ends the same way) never gives memory
    back: whatever is taken out, the capacity of the buffer stays what it was.
    Only the test of [deallocateBuffer] decides that: it returns when the
    smaller block would do. *)
Theorem remove_keeps_capacity `{VM : VirtualMem} `{!VirtualMemOk VM}
    `{!VirtualMemGrants VM (2 ^ 31)} (h : heap) (b : Buffer) (d s : bytes) (n : Z) :
  buf_rep h b d s -> 0 <= n <= lenZ d -> lenZ d <= 2 ^ 31 - 1024 ->
  exists h' b', remove b n h = Some ((n, b'), h') /\ getMemSize b' = getMemSize b.
Proof.
  intros Hrep Hn Hlen.
  destruct (remove_spec h b d s n Hrep ltac:(lia) Hlen) as (h' & b' & s' & Hrun & Hrep' & _ & Hlb).
  pose proof (lenZ_nonneg s). specialize (Hlb ltac:(lia)).
  assert (taken d s n = n) as Ht by (unfold taken; case_tests; lia). rewrite Ht in *.
  exists h', b'. split; [done|].
  rewrite (rep_size _ _ _ _ Hrep), (rep_size _ _ _ _ Hrep').
  assert (lenZ (takeZ n d) = n) as Htk by (by apply lenZ_takeZ).
  assert (lenZ (dropZ n d) = lenZ d - n) as Hdr by (by apply lenZ_dropZ).
  destruct Hlb as [->|[Hle ->]].
  - rewrite lenZ_app, (lenZ_dropZ (lenZ (dropZ n d) + lenZ s)) by (rewrite !lenZ_app; lia).
    rewrite !lenZ_app. lia.
  - rewrite Htk, Hdr in *. pose proof (rep_bounds _ _ _ _ Hrep).
    assert (round1024 (lenZ d - n) <= lenZ d + lenZ s) as Hup.
    { destruct Hrep as [_ -> ->|blk pad _ _ Hsz Hdiv _].
      - rewrite lenZ_nil in *. by replace (0 - n) with 0 by lia.
      - apply round1024_le; [lia|lia|done]. }
    rewrite lenZ_zeros; lia.
Qed.

(** A buffer that holds "abcdef" in block 1. *)
Definition demo_heap : heap := {[1 := lit "abcdef" ++ zeros 4090]}.
Definition demo_buffer : Buffer := mkBuffer (Ptr 1 0) (Ptr 1 6) 1024.

Lemma demo_rep : buf_rep demo_heap demo_buffer (lit "abcdef") (zeros 1018).
Proof.
  apply (rep_block _ _ _ _ 1 (zeros 3072)); [by vm_compute|lia|split; by vm_compute|by exists 1|].
  unfold demo_heap. by rewrite lookup_singleton_eq.
Defined.

Lemma remove_keeps_capacity_witness :
  exists h' b', remove (VM := bump_mem) demo_buffer 4 demo_heap = Some ((4, b'), h') /\
    getMemSize b' = getMemSize demo_buffer.
Proof.
  apply (remove_keeps_capacity (VM := bump_mem) demo_heap demo_buffer (lit "abcdef") (zeros 1018) 4);
    [exact demo_rep|split; by vm_compute|by vm_compute].
Defined.

(** Appending a buffer's own bytes to it is an access violation whenever
    it has to grow: the source is read after the old block has been freed. *)
Theorem write_self_faults `{VM : VirtualMem} `{!VirtualMemOk VM}
    `{!VirtualMemGrants VM (2 ^ 31)} (h : heap) (b : Buffer) (d s : bytes) (n : Z) :
  buf_rep h b d s -> 0 < n <= lenZ d -> lenZ s <= n -> n + lenZ d <= 2 ^ 31 - 1024 ->
  write b (SMem (getBuffer b 0)) n h = None.
Proof.
  intros Hrep Hn Hgrow Hlen. pose proof (lenZ_nonneg s). unfold write.
  rewrite (rep_len _ _ _ _ Hrep), u32_small by lia.
  unfold reallocateBuffer. rewrite (rep_size _ _ _ _ Hrep). arith_tests.
  destruct (round1024_spec (n + lenZ d) ltac:(lia)) as [Hr Hdiv].
  destruct (moveBuffer_spec h b d s (round1024 (n + lenZ d)) Hrep ltac:(lia) Hdiv ltac:(lia))
    as (h' & b' & Hm & _ & (_ & Hdel & _) & Hfresh & _).
  st_step Hm.
  destruct Hrep as [-> -> ->|blk pad -> Hb _ _ Hblk]; [rewrite lenZ_nil in *; lia|].
  cbn in Hdel. specialize (Hdel ltac:(congruence) Hb).
  unfold mbind, ST_bind, CopyFrom, load_src, load, getBuffer, ptr_add. cbn [m_pBegin p_blk].
  arith_tests. by rewrite Hdel.
Qed.

Lemma write_self_faults_witness :
  write (VM := bump_mem) (mkBuffer (Ptr 1 0) (Ptr 1 1024) 1024) (SMem (Ptr 1 0)) 3
    {[1 := replicate 4096 CR]} = None.
Proof.
  apply (write_self_faults (VM := bump_mem) {[1 := replicate 4096 CR]}
           (mkBuffer (Ptr 1 0) (Ptr 1 1024) 1024) (replicate 1024 CR) [] 3).
  - apply (rep_block _ _ _ _ 1 (replicate 3072 CR)); [by vm_compute|lia|split; by vm_compute|by exists 1|].
    by rewrite lookup_singleton_eq.
  - split; by vm_compute.
  - by vm_compute.
  - by vm_compute.
Defined.

(** [copy] makes the buffer hold the other buffer's data, in a block of its
    own, and leaves the other buffer as it was. *)
Theorem copy_correct `{VM : VirtualMem} `{!VirtualMemOk VM}
    `{!VirtualMemGrants VM (2 ^ 31)} (h : heap) (b buf : Buffer) (d s d2 s2 : bytes) :
  buf_rep h b d s -> buf_rep h buf d2 s2 -> p_blk (m_pBegin b) <> p_blk (m_pBegin buf) ->
  exists h' b' s', copy b buf h = Some (b', h') /\ buf_rep h' b' d2 s' /\
    buf_rep h' buf d2 s2 /\ (p_blk (m_pBegin b') = p_blk (m_pBegin buf) -> d2 = [] /\ buf = Buffer_new).
Proof.
  intros Hrep Hbuf Hne.
  destruct (copy_spec h b d s buf d2 s2 Hrep Hbuf Hne) as (h' & b' & s' & Hrun & Hb & Hbuf' & Hst).
  exists h', b', s'. split_and!; [done..|]. intros E.
  destruct Hst as ([Ef|Hf] & _); [congruence|].
  destruct Hbuf as [-> -> _|blk pad -> Hb0 _ _ Hblk]; [done|]. cbn in *. congruence.
Qed.

Lemma copy_correct_witness :
  exists h' b' s', copy (VM := bump_mem) Buffer_new demo_buffer demo_heap = Some (b', h') /\
    buf_rep h' b' (lit "abcdef") s' /\ buf_rep h' demo_buffer (lit "abcdef") (zeros 1018) /\
    (p_blk (m_pBegin b') = p_blk (m_pBegin demo_buffer) ->
       lit "abcdef" = [] /\ demo_buffer = Buffer_new).
Proof.
  apply (copy_correct (VM := bump_mem) demo_heap Buffer_new demo_buffer [] []);
    [by apply rep_null|exact demo_rep|done].
Defined.

(** [scan] returns the offset just past the first occurrence of the text
    at or after [nPos], counted from the start of the data, when the data
    searched hold no NUL and the occurrence lies in them (the block has a NUL
    after the data). *)
Theorem scan_finds_first (h : heap) (b : Buffer) (d s k : bytes) (nPos : Z) (x y : bytes) :
  buf_rep h b d s -> 0 <= nPos <= lenZ d -> NUL ∉ dropZ nPos d -> NUL ∈ s -> NUL ∉ k ->
  dropZ nPos d = x ++ k ++ y ->
  exists a z, dropZ nPos d = a ++ k ++ z /\ lenZ a <= lenZ x /\
    scan h b k nPos = Some (nPos + lenZ a + lenZ k) /\
    nPos + lenZ a + lenZ k <= getBufferLen b.
Proof.
  intros Hrep Hpos Hnul Hs Hk Hxy.
  destruct (strstr (dropZ nPos d) k) as [i|] eqn:Hfind.
  2: { by apply (strstr_None _ _ x y) in Hfind. }
  destruct (strstr_Some _ _ _ Hfind) as (a & z & Haz & -> & Hmin).
  exists a, z. split_and!; [done|by eapply Hmin| |].
  - rewrite <- (cstr_nonul k Hk) in Hfind.
    rewrite (scan_spec h b d s nPos k _ Hrep Hpos Hnul Hs Hfind). by rewrite cstr_nonul.
  - rewrite (rep_len _ _ _ _ Hrep). pose proof (lenZ_dropZ nPos d Hpos) as Hl.
    rewrite Haz, !lenZ_app in Hl. pose proof (lenZ_nonneg z). lia.
Qed.

Lemma scan_finds_first_witness :
  exists a z, dropZ 1 (lit "abcdef") = a ++ lit "cd" ++ z /\ lenZ a <= lenZ (lit "b") /\
    scan demo_heap demo_buffer (lit "cd") 1 = Some (1 + lenZ a + lenZ (lit "cd")) /\
    1 + lenZ a + lenZ (lit "cd") <= getBufferLen demo_buffer.
Proof.
  apply (scan_finds_first demo_heap demo_buffer (lit "abcdef") (zeros 1018) (lit "cd") 1
           (lit "b") (lit "ef")).
  - exact demo_rep.
  - split; by vm_compute.
  - apply (bool_decide_unpack _). by vm_compute.
  - apply (bool_decide_unpack _). by vm_compute.
  - apply (bool_decide_unpack _). by vm_compute.
  - reflexivity.
Defined.

(** [scan] does not stop at the end of the data.  After 2048 bytes ending in
    CR LF have been written and 1500 of them removed, 548 bytes are left; a
    search from their end finds the CR LF among the bytes that [remove] left
    behind and reports an offset of 2048. *)
Theorem scan_past_the_end :
  let run := r ← write (VM := bump_mem) Buffer_new (SObj (replicate 2046 SP ++ [CR; LF])) 2048;
             remove (VM := bump_mem) r.2 1500 in
  exists b h, run ∅ = Some ((1500, b), h) /\ getBufferLen b = 548 /\
    scan h b [CR; LF] 548 = Some 2048.
Proof.
  intros run.
  destruct (holds_after_inv (λ r h, (r.1 =? 1500) && (getBufferLen r.2 =? 548) &&
    bool_decide (scan h r.2 [CR; LF] 548 = Some 2048)) (run ∅)) as ([k b] & h & Hrun & Hchk).
  { vm_compute. reflexivity. }
  apply andb_true_iff in Hchk as [[Hk%Z.eqb_eq Hl%Z.eqb_eq]%andb_true_iff Hs%bool_decide_eq_true].
  cbn [fst snd] in *. subst k. eauto.
Qed.
