(* ===== verification/HttpMessage.v ===== *)
(** * [HttpMessage] (WinHttpServer/HttpMessage.h, HttpMessage.cpp)

    Header fields are kept in an [unordered_map<string, string>]: keys are
    compared byte for byte, so the case of a field name matters. *)
From S2P Require Import Prelude Heap CLib Slice.

(** A [std::unordered_map<std::string, std::string>]. *)
Abbreviation header_map := (gmap bytes bytes).

Record HttpMessage := mkMessage { m_version : bytes; m_headers : header_map }.

(** [it != end ? m_headers[strKey] : ""] *)
Definition getHeaderField (m : HttpMessage) (strKey : bytes) : bytes :=
  match m_headers m !! strKey with Some v => v | None => [] end.

Definition setHeader (m : HttpMessage) (key value : bytes) : HttpMessage :=
  match m_headers m !! key with
  | Some _ => mkMessage (m_version m) (<[key := value]> (m_headers m))
  | None => m
  end.

(** [m_headers.insert(make_pair(key, value))]: an existing entry is kept. *)
Definition insert_header (hs : header_map) (key value : bytes) : header_map :=
  match hs !! key with Some _ => hs | None => <[key := value]> hs end.

Inductive RequestMethod := GET | POST.

Record HttpRequest := mkRequest {
  req_base : HttpMessage;
  m_nHeaderLength : Z;
  m_method : bytes;
  m_url : bytes;
  m_body : Slice;
}.

Record HttpResponse := mkResponse {
  res_base : HttpMessage;
  m_status : Z;
}.

Definition message_new : HttpMessage := mkMessage [] ∅.

(** ** Facts *)

Lemma insert_header_lookup hs k v k' :
  insert_header hs k v !! k' =
    match hs !! k' with
    | Some w => Some w
    | None => if decide (k = k') then Some v else None
    end.
Proof.
  unfold insert_header. destruct (hs !! k) as [w|] eqn:E.
  - destruct (hs !! k') eqn:E'; [done|]. rewrite decide_False by (intros ->; congruence). done.
  - destruct (decide (k = k')) as [->|Hne].
    + by rewrite lookup_insert_eq, E.
    + rewrite lookup_insert_ne by done. by destruct (hs !! k').
Qed.

(** ** Properties *)

(** [setHeader] changes a field only when the message already has it: a
    field that is present takes the new value, one that is absent stays absent,
    and every other field is unchanged.  Starting from a new message, no
    sequence of calls ever adds a header. *)
Theorem setHeader_never_adds (m : HttpMessage) (key value k : bytes) :
  getHeaderField (setHeader m key value) k =
    (if bool_decide (k = key) && bool_decide (is_Some (m_headers m !! key))
     then value else getHeaderField m k) /\
  dom (m_headers (setHeader m key value)) = dom (m_headers m) /\
  forall kvs : list (bytes * bytes),
    m_headers (foldl (λ m kv, setHeader m kv.1 kv.2) message_new kvs) = ∅.
Proof.
  split_and!.
  - unfold setHeader, getHeaderField. destruct (m_headers m !! key) as [w|] eqn:E.
    + rewrite (bool_decide_true (is_Some _)), andb_true_r by done. cbn.
      case_bool_decide as Hk; [subst k; by rewrite lookup_insert_eq|].
      by rewrite lookup_insert_ne.
    + rewrite (bool_decide_false (is_Some _)), andb_false_r by (by intros [? ?]). done.
  - unfold setHeader. destruct (m_headers m !! key) as [w|] eqn:E; [|done]. cbn.
    rewrite dom_insert_L. apply elem_of_dom_2 in E. set_solver.
  - intros kvs. assert (forall m, m_headers m = ∅ ->
      m_headers (foldl (λ m kv, setHeader m kv.1 kv.2) m kvs) = ∅) as H.
    { induction kvs as [|kv kvs IH]; intros m' Hm; [done|]. cbn. apply IH.
      unfold setHeader. by rewrite Hm, lookup_empty. }
    by apply H.
Qed.
