(* ===== verification/Codec.v ===== *)
(** * [HttpCodec] (WinHttpServer/Codec.h, Codec.cpp): decoding HTTP requests

    [tryDecode] reads the bytes its slice points at and either reports how many
    bytes it consumed, 0 for an incomplete request, or -1 for an error.
    [Ref.decode] is the same on byte strings, without the memory; [Decoder] has a
    reference that does not share the code's checks. *)
From stdpp Require Import pretty.
From S2P Require Import Prelude Heap CLib Slice HttpMessage.

Inductive statusType :=
  | continue_transfer | switching_protocol
  | ok | created | accepted | non_authoritative_information | no_content
  | reset_content | partial_content
  | multiple_choices | moved_permanently | found | see_other | not_modified
  | use_proxy | temporary_redirect
  | bad_request | unauthorized | payment_required | forbidden | not_found
  | method_not_allowed | not_acceptable | proxy_authentication_required
  | request_time_out | conflict | gone | precondition_failed
  | request_entity_too_large | request_uri_too_large | unsupported_media_type
  | requested_range_not_satisfiable | expectation_failed
  | internal_server_error | not_implemented | bad_gateway
  | service_unavailable | gateway_timeout | http_version_not_supported
  | server_busy.

Definition status_code (s : statusType) : Z :=
  match s with
  | continue_transfer => 100 | switching_protocol => 101
  | ok => 200 | created => 201 | accepted => 202 | non_authoritative_information => 203
  | no_content => 204 | reset_content => 205 | partial_content => 206
  | multiple_choices => 300 | moved_permanently => 301 | found => 302 | see_other => 303
  | not_modified => 304 | use_proxy => 305 | temporary_redirect => 307
  | bad_request => 400 | unauthorized => 401 | payment_required => 402 | forbidden => 403
  | not_found => 404 | method_not_allowed => 405 | not_acceptable => 406
  | proxy_authentication_required => 407 | request_time_out => 408 | conflict => 409
  | gone => 410 | precondition_failed => 412 | request_entity_too_large => 413
  | request_uri_too_large => 414 | unsupported_media_type => 415
  | requested_range_not_satisfiable => 416 | expectation_failed => 417
  | internal_server_error => 500 | not_implemented => 501 | bad_gateway => 502
  | service_unavailable => 503 | gateway_timeout => 504 | http_version_not_supported => 505
  | server_busy => 600
  end.

Record HttpCodec := mkCodec {
  m_inBuf : Slice;
  m_outBuf : bytes;
  m_req : HttpRequest;
  m_res : HttpResponse;
}.

(** The members without an initialiser, [m_nHeaderLength] and [m_status], start
    with whatever the memory holds. *)
Definition HttpCodec_new (pData : ptr) (n : Z) (hl0 st0 : Z) : HttpCodec :=
  mkCodec (Slice_sized pData n) []
    (mkRequest message_new hl0 [] [] Slice_default)
    (mkResponse message_new st0).

(** ** Assignments to members *)

Definition set_status (s : statusType) (c : HttpCodec) : HttpCodec :=
  mkCodec (m_inBuf c) (m_outBuf c) (m_req c) (mkResponse (res_base (m_res c)) (status_code s)).
Definition set_outBuf (o : bytes) (c : HttpCodec) : HttpCodec :=
  mkCodec (m_inBuf c) o (m_req c) (m_res c).
Definition set_req (r : HttpRequest) (c : HttpCodec) : HttpCodec :=
  mkCodec (m_inBuf c) (m_outBuf c) r (m_res c).
Definition set_header_length (n : Z) (c : HttpCodec) : HttpCodec :=
  let r := m_req c in
  set_req (mkRequest (req_base r) n (m_method r) (m_url r) (m_body r)) c.
Definition set_start_line (m u v : bytes) (c : HttpCodec) : HttpCodec :=
  let r := m_req c in
  set_req (mkRequest (mkMessage v (m_headers (req_base r))) (m_nHeaderLength r) m u (m_body r)) c.
Definition add_header (k v : bytes) (c : HttpCodec) : HttpCodec :=
  let r := m_req c in
  set_req (mkRequest (mkMessage (m_version (req_base r))
                        (insert_header (m_headers (req_base r)) k v))
             (m_nHeaderLength r) (m_method r) (m_url r) (m_body r)) c.
Definition set_body (b : Slice) (c : HttpCodec) : HttpCodec :=
  let r := m_req c in
  set_req (mkRequest (req_base r) (m_nHeaderLength r) (m_method r) (m_url r) b) c.

Abbreviation req_method c := (m_method (m_req c)).
Abbreviation req_url c := (m_url (m_req c)).
Abbreviation req_version c := (m_version (req_base (m_req c))).
Abbreviation req_headers c := (m_headers (req_base (m_req c))).
Abbreviation header_length c := (m_nHeaderLength (m_req c)).

(** ** Operations *)

Definition CRLF2 : bytes := [CR; LF; CR; LF].

Section ops.
Context `{A : Arch}.

Definition responseMessage (c : HttpCodec) : bytes := m_outBuf c.

Definition informUnimplemented (c : HttpCodec) : bool * HttpCodec :=
  (true, set_status not_implemented c).

(** 505 (HTTP Version Not Supported) *)
Definition informUnsupported (c : HttpCodec) : bool * HttpCodec :=
  (true, set_status http_version_not_supported c).

Definition writeResponse (c : HttpCodec) : HttpCodec :=
  let c := set_status ok c in
  let os := lit "HTTP/1.1" ++ lit " " ++ lit (pretty (m_status (m_res c))) ++ [CR; LF] in
  let os := os ++ lit "Content-Type: text/plain" ++ [CR; LF] in
  let os := os ++ lit "Content-Length: 5" ++ [CR; LF] in
  let os := if m_status (m_res c) =? status_code ok then os
            else os ++ lit "Connection: close" ++ [CR; LF] in
  let os := os ++ [CR; LF] in
  let os := os ++ lit "hello" in
  set_outBuf os c.

(** The [for] loop of [getHeader], at index [i]; [sz - 3 - i] iterations are
    left. *)
Fixpoint getHeader_loop (h : heap) (c : HttpCodec) (data : Slice) (sz : Z)
    (fuel : nat) (i : Z) (header : Slice) : option (bool * Slice * HttpCodec) :=
  if i <=? sz - 4 then
    match fuel with
    | O => None
    | S fuel =>
        let pb := Slice.data data in
        ch ← at_ h data i;
        hit ← (if bool_decide (CR = ch)
               then w ← load h (pb + i)%ptr 4; Some (memcmp CRLF2 w =? 0)
               else Some false);
        if (hit : bool) then Some (true, Slice_sized pb i, set_header_length (i + 4) c)
        else getHeader_loop h c data sz fuel (i + 1) header
    end
  else Some (false, header, c).

Definition getHeader (h : heap) (c : HttpCodec) (data header : Slice)
    : option (bool * Slice * HttpCodec) :=
  let sz := size data in
  if sz <? 4 then Some (false, header, c)
  else getHeader_loop h c data sz (Z.to_nat (sz - 3)) 0 header.

Definition parseStartLine (c : HttpCodec) : bool * HttpCodec :=
  if negb (bool_decide (lit "HTTP/1.0" = req_version c)) &&
     negb (bool_decide (lit "HTTP/1.1" = req_version c))
  then (false, (informUnsupported c).2)
  else if negb (bool_decide (lit "GET" = req_method c)) &&
          negb (bool_decide (lit "POST" = req_method c))
  then (false, (informUnimplemented c).2)
  else match req_url c with
       | [] => (false, set_status bad_request c)
       | u :: _ =>
           if bool_decide (Byte.x2f = u) then (true, c)
           else (false, set_status bad_request c)
       end.

Definition parseHeader (c : HttpCodec) : bool * HttpCodec :=
  if bool_decide (lit "POST" = req_method c) &&
     bool_decide (req_headers c !! lit "Content-Length" = None)
  then (false, set_status bad_request c)
  else if bool_decide (req_headers c !! lit "Host" = None)
  then (false, set_status bad_request c)
  else (true, c).

Definition parseBody (c : HttpCodec) : bool * HttpCodec := (true, c).

(** The [while (!header.empty())] loop of [tryDecode]; it answers [false]
    when it meets a bad line. *)
Fixpoint parse_fields (h : heap) (fuel : nat) (header : Slice) (c : HttpCodec)
    : option (bool * HttpCodec) :=
  if empty header then Some (true, c)
  else match fuel with
       | O => None
       | S fuel =>
           let header := (eat header 2).2 in
           '(line, header) ← eatLine h header;
           '(key, line) ← eatWord h line;
           '(value, line) ← eatWord h line;
           good ← (if negb (empty value) && negb (empty key)
                   then ch ← back h key; Some (bool_decide (ch = Byte.x3a))
                   else Some false);
           if (good : bool) then
             k ← toString h (sub key 0 (-1));
             v ← toString h value;
             parse_fields h fuel header (add_header k v c)
           else Some (false, set_status bad_request c)
       end.

(** The end of [tryDecode], from the test of the body's length on. *)
Definition decode_body (c : HttpCodec) : Z * HttpCodec :=
  let contentLength := getHeaderField (req_base (m_req c)) (lit "content-length") in
  if size (m_inBuf c) <? to_size (header_length c + atoi contentLength)
  then (0, c)
  else
    let c := set_body (Slice_sized (Slice.data (m_inBuf c) + header_length c)%ptr
                         (to_size (atoi contentLength))) c in
    if bool_decide (lit "GET" = req_method c) then
      let c := writeResponse c in (s32 (size (m_inBuf c)), c)
    else if bool_decide (lit "POST" = req_method c) then
      let '(r, c) := parseBody c in
      if negb r then (-1, c) else (-1, c)
    else (-1, c).

(** What follows the loop over the header fields. *)
Definition decode_checks (c : HttpCodec) : Z * HttpCodec :=
  let '(r, c) := parseStartLine c in
  if negb r then (-1, c)
  else let '(r, c) := parseHeader c in
       if negb r then (-1, c) else decode_body c.

Definition tryDecode (h : heap) (c : HttpCodec) : option (Z * HttpCodec) :=
  '(_, header, c) ← getHeader h c (m_inBuf c) Slice_default;
  if empty header then Some (0, c)
  else
    '(startLine, header) ← eatLine h header;
    '(method, startLine) ← eatWord h startLine;
    '(url, startLine) ← eatWord h startLine;
    '(version, startLine) ← eatWord h startLine;
    if empty version then Some (-1, set_status bad_request c)
    else
      m ← toString h method;
      u ← toString h url;
      v ← toString h version;
      let c := set_start_line m u v c in
      '(good, c) ← parse_fields h (room (m_pb header) (m_pe header)) header c;
      if negb good then Some (-1, c) else Some (decode_checks c).
End ops.

(** ** Decoding a byte string

    The loops of the code without the memory; what follows them is the code's own. *)

Module Ref.
(** The field lines in [l]: each begins with two bytes, the end of the line
    before it. *)
Fixpoint fields (fuel : nat) (l : bytes) (c : HttpCodec) : bool * HttpCodec :=
  match l with
  | [] => (true, c)
  | _ :: _ =>
      match fuel with
      | O => (false, c)
      | S fuel =>
          let '(line, rest) := Spec.eat_line (dropZ 2 l) in
          let '(key, line) := Spec.eat_word line in
          let '(value, _) := Spec.eat_word line in
          match last key, value with
          | Some ch, _ :: _ =>
              if bool_decide (ch = Byte.x3a)
              then fields fuel rest (add_header (take (length key - 1) key) value c)
              else (false, set_status bad_request c)
          | _, _ => (false, set_status bad_request c)
          end
      end
  end.

(** Once the header text [hd] has been found. *)
Definition header `{Arch} (hd : bytes) (c : HttpCodec) : Z * HttpCodec :=
  let '(line, rest) := Spec.eat_line hd in
  let '(m, line) := Spec.eat_word line in
  let '(u, line) := Spec.eat_word line in
  let '(v, _) := Spec.eat_word line in
  match v with
  | [] => (-1, set_status bad_request c)
  | _ :: _ =>
      let '(good, c) := fields (length rest) rest (set_start_line m u v c) in
      if negb good then (-1, c) else decode_checks c
  end.

Definition decode `{Arch} (l : bytes) (c : HttpCodec) : Z * HttpCodec :=
  match strstr l CRLF2 with
  | None => (0, c)
  | Some i =>
      let c := set_header_length (i + 4) c in
      match takeZ i l with
      | [] => (0, c)
      | hd => header hd c
      end
  end.
End Ref.

Section refinement.
Context `{A : Arch}.
Implicit Types (h : heap) (c : HttpCodec) (l : bytes).

Lemma slice_is_empty_cases h s l : slice_is h s l -> empty s = match l with [] => true | _ => false end.
Proof. intros Hs. rewrite (slice_is_empty h s l Hs). by destruct l. Qed.

(** The test of a field line: a key that ends in a colon. *)
Lemma key_test h key k :
  slice_is h key k ->
  k = [] \/ exists k' ch, k = k' ++ [ch] /\ last k = Some ch /\
    take (length k - 1) k = k' /\ back h key = Some ch /\ toString h (sub key 0 (-1)) = Some k'.
Proof.
  intros Hk. destruct k as [|ch k' _] using rev_ind; [by left|right].
  exists k', ch. destruct (sub_back_spec h key k' ch Hk) as [Hb Hs].
  split_and!; [done|by rewrite last_snoc| |done|by apply slice_is_toString].
  rewrite length_app. cbn. rewrite Nat.add_sub. apply take_app_length.
Qed.

Lemma parse_fields_spec h fuel : forall header l c,
  slice_is h header l -> (length l <= fuel)%nat -> lenZ l < 2 ^ 32 ->
  parse_fields h fuel header c = Some (Ref.fields fuel l c).
Proof.
  induction fuel as [|fuel IH]; intros header l c Hs Hf Hlen; cbn [parse_fields Ref.fields];
    rewrite (slice_is_empty_cases h header l Hs); destruct l as [|ch0 l0] eqn:El;
    [done|cbn in Hf; lia|done|]. rewrite <- El in *.
  destruct (eat_spec h header l 2 Hs Hlen ltac:(lia)) as [_ H2].
  destruct (eatLine_spec h _ _ H2) as (line & rest & -> & Hline & Hrest). cbn [mbind option_bind].
  destruct (eatWord_spec h _ _ Hline) as (key & r1 & -> & Hkey & Hr1). cbn [mbind option_bind].
  destruct (eatWord_spec h _ _ Hr1) as (value & r2 & -> & Hval & _). cbn [mbind option_bind].
  rewrite (slice_is_empty_cases _ _ _ Hkey), (slice_is_empty_cases _ _ _ Hval).
  destruct (Spec.eat_line (dropZ 2 l)) as [ln rs] eqn:Eln. cbn [fst snd] in *.
  destruct (Spec.eat_word ln) as [k l1] eqn:Ek. cbn [fst snd] in *.
  destruct (Spec.eat_word l1) as [v l2] eqn:Ev. cbn [fst snd] in *.
  destruct (key_test h key k Hkey) as [->|(k' & ch & Hk & -> & -> & -> & ->)].
  { by destruct v. }
  destruct v as [|v0 v']; [by destruct k|].
  replace (match k with [] => true | _ :: _ => false end) with false
    by (rewrite Hk; by destruct k').
  cbn [negb andb mbind option_bind]. case_bool_decide; [|done].
  rewrite (slice_is_toString h value _ Hval). cbn [mbind option_bind].
  assert (length rs <= length (dropZ 2 l))%nat as Hrs.
  { unfold Spec.eat_line in Eln. rewrite span_eq in Eln. injection Eln as _ <-.
    rewrite <- (span_app (λ x : byte, negb (Spec.is_eol x)) (dropZ 2 l)) at 2.
    rewrite length_app. lia. }
  unfold dropZ in Hrs. rewrite length_drop in Hrs.
  assert (length l = S (length l0)) as Hl by (by rewrite El). apply IH; [done|lia|].
  unfold lenZ in *. lia.
Qed.

(** Fewer than four bytes hold no empty line. *)
Lemma strstr_CRLF2_short l : lenZ l < 4 -> strstr l CRLF2 = None.
Proof.
  intros Hl. destruct (strstr l CRLF2) eqn:E; [|done].
  destruct (strstr_Some _ _ _ E) as (a & b & -> & _).
  rewrite !lenZ_app in Hl. change (lenZ CRLF2) with 4 in Hl. len_lia.
Qed.

(** The test of one position finds the empty line, when four bytes are left. *)
Lemma CRLF2_test h p ch suf :
  load h p (lenZ (ch :: suf)) = Some (ch :: suf) -> 4 <= lenZ (ch :: suf) ->
  (if bool_decide (CR = ch) then w ← load h p 4; Some (memcmp CRLF2 w =? 0) else Some false) =
    Some (prefixb CRLF2 (ch :: suf)).
Proof.
  intros Hld Hlen. set (w := takeZ 4 (ch :: suf)).
  assert (lenZ w = 4) as Hw by (by apply lenZ_takeZ).
  assert (load h p 4 = Some w) as Hload.
  { rewrite <- (takeZ_dropZ 4 (ch :: suf)) in Hld. apply load_app in Hld as [Hld _].
    fold w in Hld. by rewrite Hw in Hld. }
  assert (prefixb CRLF2 (ch :: suf) = bool_decide (w = CRLF2)) as ->.
  { apply Bool.eq_iff_eq_true. rewrite prefixb_spec, bool_decide_eq_true. split.
    - intros [r Hr]. unfold w. rewrite Hr. by apply takeZ_app.
    - intros Hr. exists (dropZ 4 (ch :: suf)). by rewrite <- Hr; unfold w; rewrite takeZ_dropZ. }
  destruct (bool_decide_reflect (CR = ch)) as [Hc|Hc].
  - rewrite Hload. cbn [mbind option_bind]. f_equal. apply Bool.eq_iff_eq_true.
    rewrite Z.eqb_eq, bool_decide_eq_true, memcmp_eq; [done|]. unfold lenZ in Hw. cbn. lia.
  - f_equal. symmetry. apply bool_decide_eq_false. intros E. apply Hc.
    unfold w, takeZ in E. change (Z.to_nat 4) with 4%nat in E. cbn [take] in E.
    unfold CRLF2 in E. congruence.
Qed.

(** The loop of [getHeader] finds the first CR LF CR LF. *)
Lemma getHeader_loop_spec h c data sz l0 fuel : forall pre suf header,
  slice_is h data l0 -> l0 = pre ++ suf -> sz = lenZ l0 -> (length suf <= fuel + 3)%nat ->
  getHeader_loop h c data sz fuel (lenZ pre) header =
    Some (match strstr suf CRLF2 with
          | Some j => (true, Slice_sized (m_pb data) (lenZ pre + j),
                        set_header_length (lenZ pre + j + 4) c)
          | None => (false, header, c)
          end).
Proof.
  induction fuel as [|fuel IH]; intros pre suf header Hs Hl Hsz Hf;
    cbn [getHeader_loop]; destruct (Z.leb_spec (lenZ pre) (sz - 4)) as [Hle|Hgt];
    try (rewrite strstr_CRLF2_short; [done|subst; rewrite lenZ_app in *; lia]).
  { exfalso. subst. unfold lenZ in *. rewrite length_app in *. lia. }
  destruct suf as [|ch suf]; [exfalso; subst; rewrite app_nil_r in *; lia|].
  assert (slice_is h (mkSlice (m_pb data) (m_pe data)) (pre ++ ch :: suf)) as Hs'
    by (by rewrite <- Hl).
  destruct (slice_is_app _ _ _ _ _ Hs') as [_ [Hld _]]. cbn in Hld.
  destruct (load1_head _ _ _ _ Hld) as [Hch _].
  unfold at_, Slice.data. rewrite Hch. cbn [mbind option_bind].
  assert (4 <= lenZ (ch :: suf)) as H4 by (subst sz l0; rewrite lenZ_app in Hle; lia).
  rewrite (CRLF2_test h _ ch suf Hld H4). cbn [mbind option_bind].
  change (strstr (ch :: suf) CRLF2) with (if prefixb CRLF2 (ch :: suf) then Some 0
    else match strstr suf CRLF2 with Some j => Some (j + 1) | None => None end).
  destruct (prefixb CRLF2 (ch :: suf)); [by rewrite Z.add_0_r|].
  specialize (IH (pre ++ [ch]) suf header Hs). rewrite <- app_assoc in IH.
  specialize (IH Hl Hsz ltac:(cbn in Hf; lia)).
  rewrite lenZ_app in IH. change (lenZ [ch]) with 1 in IH. rewrite IH. f_equal.
  destruct (strstr suf CRLF2) as [j|]; [|done].
  by replace (lenZ pre + 1 + j) with (lenZ pre + (j + 1)) by lia.
Qed.

Lemma getHeader_spec h c s l header :
  slice_is h s l -> lenZ l < 2 ^ 32 ->
  getHeader h c s header =
    Some (match strstr l CRLF2 with
          | Some j => (true, Slice_sized (m_pb s) j, set_header_length (j + 4) c)
          | None => (false, header, c)
          end).
Proof.
  intros Hs Hl. unfold getHeader. rewrite (slice_is_size h s l Hs Hl).
  destruct (Z.ltb_spec (lenZ l) 4) as [Hlt|Hge].
  - destruct (strstr l CRLF2) eqn:E; [|done].
    destruct (strstr_Some _ _ _ E) as (a & b & -> & _).
    rewrite !lenZ_app in Hlt. change (lenZ CRLF2) with 4 in Hlt. len_lia.
  - apply (getHeader_loop_spec h c s (lenZ l) l _ [] l); [done..|]. unfold lenZ in *. lia.
Qed.

(** [tryDecode] faults on no input and computes the reference decoder. *)
Lemma tryDecode_spec h c l :
  slice_is h (m_inBuf c) l -> lenZ l < 2 ^ 32 ->
  tryDecode h c = Some (Ref.decode l c).
Proof.
  intros Hs Hl. unfold tryDecode, Ref.decode.
  rewrite (getHeader_spec h c _ l _ Hs Hl).
  destruct (strstr l CRLF2) as [j|] eqn:Ej; cbn [mbind option_bind]; [|done].
  destruct (strstr_Some _ _ _ Ej) as (a & b & El & -> & _).
  assert (slice_is h (Slice_sized (m_pb (m_inBuf c)) (lenZ a)) a) as Ha.
  { rewrite El in Hs. by apply slice_is_eta, slice_is_app in Hs as [Hs _]. }
  rewrite (slice_is_empty_cases h _ a Ha). rewrite El at 1. rewrite takeZ_app by done.
  destruct a as [|a0 a'] eqn:Ea; [done|]. rewrite <- Ea in *. unfold Ref.header.
  assert (lenZ a < 2 ^ 32) as Hla by (rewrite El in Hl; len_lia). clear Hs El Ea a0 a' Hl Ej.
  destruct (eatLine_spec h _ _ Ha) as (line & rest & -> & Hline & Hrest). cbn [mbind option_bind].
  destruct (eatWord_spec h _ _ Hline) as (m & r1 & -> & Hm & Hr1). cbn [mbind option_bind].
  destruct (eatWord_spec h _ _ Hr1) as (u & r2 & -> & Hu & Hr2). cbn [mbind option_bind].
  destruct (eatWord_spec h _ _ Hr2) as (v & r3 & -> & Hv & _). cbn [mbind option_bind].
  rewrite (slice_is_empty_cases _ _ _ Hv).
  rewrite (slice_is_toString _ _ _ Hm), (slice_is_toString _ _ _ Hu), (slice_is_toString _ _ _ Hv).
  cbn [mbind option_bind]. rewrite (slice_is_room h _ _ Hrest).
  assert (length (Spec.eat_line a).2 <= length a)%nat as Hle.
  { unfold Spec.eat_line. rewrite span_eq. cbn [snd].
    rewrite <- (span_app (λ x : byte, negb (Spec.is_eol x)) a) at 2. rewrite length_app. lia. }
  destruct (Spec.eat_line a) as [ln rs]. cbn [fst snd] in *.
  destruct (Spec.eat_word ln) as [m' l1]. cbn [fst snd] in *.
  destruct (Spec.eat_word l1) as [u' l2]. cbn [fst snd] in *.
  destruct (Spec.eat_word l2) as [v' l3]. cbn [fst snd] in *.
  destruct v' as [|v0 v']; [done|].
  rewrite (parse_fields_spec h _ rest rs _ Hrest (le_n _)) by (unfold lenZ in *; lia).
  cbn [mbind option_bind].
  destruct (Ref.fields _ _ _) as [good c']. by destruct good.
Qed.
End refinement.

(** ** Requests as text *)

Module Text.
Record request := mkReq {
  rq_method : bytes; rq_url : bytes; rq_version : bytes;
  rq_fields : list (bytes * bytes);
}.

Definition field (kv : bytes * bytes) : bytes :=
  [CR; LF] ++ (kv.1 ++ lit ":") ++ [SP] ++ kv.2.

Definition fields (fs : list (bytes * bytes)) : bytes := concat (map field fs).

Definition start_line (q : request) : bytes :=
  rq_method q ++ [SP] ++ rq_url q ++ [SP] ++ rq_version q.

(** The text of the header, without the empty line that ends it. *)
Definition head (q : request) : bytes := start_line q ++ fields (rq_fields q).

Definition print (q : request) : bytes := head q ++ CRLF2.

Definition plain (w : bytes) : Prop := Forall (λ x : byte, isspace x = false) w.
Definition word (w : bytes) : Prop := w <> [] /\ plain w.

#[export] Instance plain_dec w : Decision (plain w).
Proof. unfold plain. apply _. Defined.
#[export] Instance word_dec w : Decision (word w).
Proof. unfold word. apply _. Defined.

Definition wf (q : request) : Prop :=
  word (rq_method q) /\ word (rq_url q) /\ word (rq_version q) /\
  Forall (λ kv : bytes * bytes, plain kv.1 /\ word kv.2) (rq_fields q).

#[export] Instance wf_dec q : Decision (wf q).
Proof. unfold wf. apply _. Defined.

(** The value of the first field named [k]. *)
Fixpoint first_value (fs : list (bytes * bytes)) (k : bytes) : option bytes :=
  match fs with
  | [] => None
  | (k', v) :: fs => if bool_decide (k' = k) then Some v else first_value fs k
  end.

(** What the decoder has recorded once it has read the header of [q]: the
    first field of each name is the one that counts. *)
Definition record_fields (fs : list (bytes * bytes)) (c : HttpCodec) : HttpCodec :=
  foldl (λ d kv, add_header kv.1 kv.2 d) c fs.

Definition recorded (q : request) (c : HttpCodec) : HttpCodec :=
  record_fields (rq_fields q)
    (set_start_line (rq_method q) (rq_url q) (rq_version q)
       (set_header_length (lenZ (print q)) c)).
End Text.

Section text.
Implicit Types (w l : bytes) (q : Text.request).

Lemma plain_not_eol w : Text.plain w -> Forall (λ x : byte, negb (Spec.is_eol x) = true) w.
Proof.
  intros H. eapply Forall_impl; [exact H|]. cbn. intros x Hx.
  unfold Spec.is_eol. repeat case_bool_decide; subst; done.
Qed.

Lemma plain_not_space w : Text.plain w -> Forall (λ x : byte, negb (isspace x) = true) w.
Proof. intros H. eapply Forall_impl; [exact H|]. cbn. by intros x ->. Qed.

Lemma eat_word_word w l :
  Text.word w -> match l with [] => True | x :: _ => isspace x = true end ->
  Spec.eat_word (w ++ l) = (w, l).
Proof.
  intros [Hne Hw] Hl. unfold Spec.eat_word.
  assert (drop_while isspace (w ++ l) = w ++ l) as ->.
  { destruct w as [|x w]; [done|]. apply Forall_cons in Hw as [Hx _].
    unfold drop_while. cbn. by rewrite Hx. }
  apply span_exact; [by apply plain_not_space|]. destruct l as [|x l]; [done|].
  cbn. by rewrite Hl.
Qed.

Lemma eat_word_skip x l : isspace x = true -> Spec.eat_word (x :: l) = Spec.eat_word l.
Proof.
  intros Hx. unfold Spec.eat_word. f_equal. unfold drop_while. cbn. rewrite Hx.
  by destruct (span isspace l).
Qed.

Lemma strstr_step x l k :
  prefixb k (x :: l) = false -> strstr (x :: l) k = (λ i, 1 + i) <$> strstr l k.
Proof. cbn [strstr]. intros ->. destruct (strstr l k); [|done]. cbn. f_equal. lia. Qed.

(** The text before the first [CR] holds no line end and no match. *)
Lemma strstr_skip w l :
  CR ∉ w -> strstr (w ++ l) CRLF2 = (λ i, lenZ w + i) <$> strstr l CRLF2.
Proof.
  induction w as [|x w IH]; intros Hw.
  - cbn [app]. destruct (strstr l CRLF2); [|done]. cbn. by rewrite lenZ_nil.
  - apply not_elem_of_cons in Hw as [Hx Hw]. cbn [app].
    rewrite strstr_step by (cbn; by rewrite bool_decide_false). rewrite (IH Hw).
    destruct (strstr l CRLF2); [|done]. cbn [fmap option_fmap option_map].
    f_equal. rewrite lenZ_cons. lia.
Qed.

Lemma plain_no_CR w : Text.plain w -> CR ∉ w.
Proof. intros H Hin. by apply (Forall_forall _ _) with (x := CR) in H. Qed.

Lemma strstr_field k v l :
  Text.plain k -> Text.word v ->
  strstr (Text.field (k, v) ++ l) CRLF2 =
    (λ i, lenZ (Text.field (k, v)) + i) <$> strstr l CRLF2.
Proof.
  intros Hk [Hv0 Hv]. unfold Text.field. cbn [fst snd].
  set (t := (k ++ lit ":") ++ [SP] ++ v).
  assert (CR ∉ t) as Ht.
  { unfold t. rewrite !not_elem_of_app. split_and!; [by apply plain_no_CR| | |by apply plain_no_CR];
      apply (bool_decide_unpack _); by vm_compute. }
  assert (exists y u, t = y :: u /\ y <> CR) as (y & u & Et & Hy).
  { unfold t in *. destruct k as [|y k]; [by exists Byte.x3a, ([SP] ++ v)|].
    eexists y, _. split; [done|]. intros ->. apply Ht. cbn. left. }
  change (([CR; LF] ++ t) ++ l) with (CR :: LF :: t ++ l).
  rewrite strstr_step.
  2: { rewrite Et. cbn. by rewrite (bool_decide_false (CR = y)). }
  rewrite strstr_step by done. rewrite (strstr_skip t l Ht).
  destruct (strstr l CRLF2); [|done]. cbn [fmap option_fmap option_map]. f_equal.
  rewrite lenZ_app. change (lenZ [CR; LF]) with 2. lia.
Qed.

Lemma strstr_fields fs l :
  Forall (λ kv : bytes * bytes, Text.plain kv.1 /\ Text.word kv.2) fs ->
  strstr (Text.fields fs ++ l) CRLF2 = (λ i, lenZ (Text.fields fs) + i) <$> strstr l CRLF2.
Proof.
  unfold Text.fields. induction 1 as [|[k v] fs [Hk Hv] Hfs IH]; cbn [concat map].
  - apply (strstr_skip [] l). apply not_elem_of_nil.
  - rewrite <- app_assoc, (strstr_field k v _ Hk Hv), IH.
    destruct (strstr l CRLF2); [|done]. cbn [fmap option_fmap option_map]. f_equal.
    rewrite lenZ_app. lia.
Qed.

(** The empty line that ends a header is the first CR LF CR LF. *)
Lemma strstr_print q body :
  Text.wf q -> strstr (Text.print q ++ body) CRLF2 = Some (lenZ (Text.head q)).
Proof.
  intros ([_ Hm] & [_ Hu] & [_ Hv] & Hfs). unfold Text.print, Text.head, Text.start_line.
  rewrite <- !(app_assoc _ _ body). rewrite <- (app_assoc _ (Text.fields _)).
  rewrite strstr_skip.
  2: { rewrite !not_elem_of_app. split_and!; try (by apply plain_no_CR);
         apply (bool_decide_unpack _); by vm_compute. }
  rewrite (strstr_fields _ _ Hfs).
  assert (strstr (CRLF2 ++ body) CRLF2 = Some 0) as -> by reflexivity.
  cbn [fmap option_fmap option_map]. f_equal. rewrite !lenZ_app. lia.
Qed.

Lemma fields_head fs :
  match Text.fields fs with [] => fs = [] | x :: _ => x = CR end.
Proof. by destruct fs as [|[k v] fs]. Qed.

Lemma eat_line_cut w l :
  Forall (λ x : byte, negb (Spec.is_eol x) = true) w ->
  match l with [] => True | x :: _ => x = CR end -> Spec.eat_line (w ++ l) = (w, l).
Proof. intros Hw Hl. apply span_exact; [done|]. destruct l; [done|by subst]. Qed.

Lemma fields_print fs :
  Forall (λ kv : bytes * bytes, Text.plain kv.1 /\ Text.word kv.2) fs ->
  forall fuel c, (length (Text.fields fs) <= fuel)%nat ->
    Ref.fields fuel (Text.fields fs) c = (true, Text.record_fields fs c).
Proof.
  induction 1 as [|[k v] fs [Hk Hv] Hfs IH]; intros fuel c Hf; [by destruct fuel|].
  change (Text.fields ((k, v) :: fs)) with (Text.field (k, v) ++ Text.fields fs) in *.
  rewrite length_app in Hf. cbn [fst snd] in *. unfold Text.field in *. cbn [fst snd] in *.
  set (w := k ++ lit ":") in *. set (t := w ++ [SP] ++ v) in *. rewrite length_app in Hf.
  destruct fuel as [|fuel]; [cbn in Hf; lia|].
  change (([CR; LF] ++ t) ++ Text.fields fs) with (CR :: LF :: (t ++ Text.fields fs)).
  cbn [Ref.fields]. change (dropZ 2 (CR :: LF :: ?r)) with r.
  assert (Text.word w) as Hw.
  { split; [by destruct k|]. apply Forall_app; split; [done|]. repeat constructor. }
  rewrite eat_line_cut.
  2: { unfold t. rewrite !Forall_app. split_and!; [|by repeat constructor|].
       - apply plain_not_eol. apply Hw.
       - apply plain_not_eol. apply Hv. }
  2: { pose proof (fields_head fs) as Hh. by destruct (Text.fields fs). }
  unfold t. rewrite (eat_word_word w) by done.
  change ([SP] ++ v) with (SP :: v). rewrite eat_word_skip by done.
  rewrite <- (app_nil_r v) at 1. rewrite (eat_word_word v []) by done.
  destruct Hv as [Hv0 _]. destruct v as [|v0 v]; [done|].
  assert (last w = Some Byte.x3a) as -> by apply last_snoc.
  rewrite bool_decide_true by done.
  rewrite IH by (cbn in Hf; lia). cbn [Text.record_fields foldl fst snd].
  unfold w. rewrite length_app. cbn [length]. rewrite Nat.add_sub, take_app_length. done.
Qed.

Lemma decode_print `{Arch} q body c :
  Text.wf q -> Ref.decode (Text.print q ++ body) c = decode_checks (Text.recorded q c).
Proof.
  intros Hwf. unfold Ref.decode. rewrite (strstr_print q body Hwf).
  destruct Hwf as (Hm & Hu & Hv & Hfs).
  assert (lenZ (Text.head q) + 4 = lenZ (Text.print q)) as ->
    by (unfold Text.print; by rewrite lenZ_app).
  assert (takeZ (lenZ (Text.head q)) (Text.print q ++ body) = Text.head q) as ->.
  { unfold Text.print. rewrite <- app_assoc. by apply takeZ_app. }
  assert (exists x r, Text.head q = x :: r) as (x & r & Hh).
  { unfold Text.head, Text.start_line. destruct Hm as [Hm _].
    destruct (Text.rq_method q) as [|x m]; [done|]. cbn. eauto. }
  rewrite Hh, <- Hh. clear x r Hh. unfold Ref.header, Text.head, Text.start_line.
  rewrite eat_line_cut.
  2: { rewrite !Forall_app. split_and!; try (by apply plain_not_eol, Hm);
         try (by apply plain_not_eol, Hu); try (by apply plain_not_eol, Hv);
         by repeat constructor. }
  2: { pose proof (fields_head (Text.rq_fields q)) as Hh. by destruct (Text.fields _). }
  rewrite (eat_word_word _ _ Hm) by done. cbn [app]. rewrite eat_word_skip by done.
  rewrite (eat_word_word _ _ Hu) by done. rewrite eat_word_skip by done.
  rewrite <- (app_nil_r (Text.rq_version q)) at 1. rewrite (eat_word_word _ [] Hv) by done.
  assert (exists x r, Text.rq_version q = x :: r) as (x & r & Hx).
  { destruct Hv as [Hv _]. destruct (Text.rq_version q); [done|]. eauto. }
  rewrite Hx, <- Hx. by rewrite (fields_print _ Hfs).
Qed.

(** The parts of the codec that recording a header touches. *)
Lemma record_fields_frame fs : forall c,
  let d := Text.record_fields fs c in
  m_inBuf d = m_inBuf c /\ m_outBuf d = m_outBuf c /\ m_res d = m_res c /\
  req_method d = req_method c /\ req_url d = req_url c /\ req_version d = req_version c /\
  header_length d = header_length c /\
  req_headers d = foldl (λ hs kv, insert_header hs kv.1 kv.2) (req_headers c) fs.
Proof.
  induction fs as [|kv fs IH]; intros c; cbn zeta; [done|]. cbn [Text.record_fields foldl].
  apply (IH (add_header kv.1 kv.2 c)).
Qed.

(** The value that counts for a name: the one there was, or else the first. *)
Lemma insert_headers_lookup fs k : forall hs : header_map,
  foldl (λ hs kv, insert_header hs kv.1 kv.2) hs fs !! k =
    match hs !! k with Some v => Some v | None => Text.first_value fs k end.
Proof.
  induction fs as [|[k' v] fs IH]; intros hs; cbn [foldl fst snd Text.first_value].
  { by destruct (hs !! k). }
  rewrite IH, insert_header_lookup. destruct (hs !! k); [done|].
  destruct (decide (k' = k)) as [->|Hne]; [by rewrite bool_decide_true|].
  by rewrite bool_decide_false.
Qed.
End text.

(** ** The checks, case by case *)

(** The one response the server ever writes. *)
Definition hello_response : bytes :=
  lit "HTTP/1.1 200" ++ [CR; LF] ++ lit "Content-Type: text/plain" ++ [CR; LF] ++
  lit "Content-Length: 5" ++ CRLF2 ++ lit "hello".

Section checks.
Context `{A : Arch}.
Implicit Types (h : heap) (c : HttpCodec) (l : bytes).

Lemma writeResponse_out c : m_outBuf (writeResponse c) = hello_response.
Proof. reflexivity. Qed.

(** A codec whose recorded request passes every check. *)
Definition acceptable c : Prop :=
  (req_version c = lit "HTTP/1.0" \/ req_version c = lit "HTTP/1.1") /\
  req_method c = lit "GET" /\ head (req_url c) = Some Byte.x2f /\
  is_Some (req_headers c !! lit "Host").

Lemma parseStartLine_true c :
  (parseStartLine c).1 = true ->
  (parseStartLine c).2 = c /\
  (req_version c = lit "HTTP/1.0" \/ req_version c = lit "HTTP/1.1") /\
  (req_method c = lit "GET" \/ req_method c = lit "POST") /\
  head (req_url c) = Some Byte.x2f.
Proof.
  unfold parseStartLine.
  destruct (bool_decide_reflect (lit "HTTP/1.0" = req_version c)),
    (bool_decide_reflect (lit "HTTP/1.1" = req_version c)),
    (bool_decide_reflect (lit "GET" = req_method c)),
    (bool_decide_reflect (lit "POST" = req_method c)); cbn [negb andb]; try done;
    destruct (req_url c) as [|u us]; try done; case_bool_decide as Hu; try done;
    intros _; subst; auto using eq_sym.
Qed.

Lemma parseHeader_true c :
  (parseHeader c).1 = true ->
  (parseHeader c).2 = c /\ is_Some (req_headers c !! lit "Host").
Proof.
  unfold parseHeader. destruct (_ && _); [done|].
  case_bool_decide as Hh; [done|]. intros _. split; [done|].
  by apply not_eq_None_Some.
Qed.

(** None of the checks touches what the codec reads or has written. *)
Lemma parse_frame c :
  m_inBuf (parseStartLine c).2 = m_inBuf c /\ m_outBuf (parseStartLine c).2 = m_outBuf c /\
  m_inBuf (parseHeader c).2 = m_inBuf c /\ m_outBuf (parseHeader c).2 = m_outBuf c.
Proof.
  split_and!; unfold parseStartLine, parseHeader; repeat case_match; done.
Qed.

(** What a result of the decoder may be. *)
Definition outcome (n : Z) (c : HttpCodec) (r : Z) (c' : HttpCodec) : Prop :=
  m_inBuf c' = m_inBuf c /\
  (r = -1 /\ m_outBuf c' = m_outBuf c \/ r = 0 /\ m_outBuf c' = m_outBuf c \/
   r = n /\ acceptable c' /\ m_outBuf c' = hello_response /\
   m_status (m_res c') = status_code ok).

Lemma decode_checks_outcome c :
  outcome (s32 (size (m_inBuf c))) c (decode_checks c).1 (decode_checks c).2.
Proof.
  unfold decode_checks. pose proof (parse_frame c) as (F1 & F2 & F3 & F4).
  destruct (parseStartLine c) as [[] c1] eqn:E1; cbn [negb fst snd] in *.
  2: { split; [done|]. by left. }
  destruct (parseStartLine_true c) as (Hc1 & Hv & Hm & Hu); [by rewrite E1|].
  rewrite E1 in Hc1. cbn in Hc1. subst c1.
  destruct (parseHeader c) as [[] c2] eqn:E2; cbn [negb fst snd] in *.
  2: { split; [done|]. by left. }
  destruct (parseHeader_true c) as (Hc2 & Hh); [by rewrite E2|].
  rewrite E2 in Hc2. cbn in Hc2. subst c2. unfold decode_body.
  destruct (_ <? _); cbn [fst snd]; [split; [done|]; by right; left|].
  set (c3 := set_body _ c). change (req_method c3) with (req_method c).
  case_bool_decide as Hg.
  - split; [done|]. right; right. split_and!; [done| |done|done].
    split_and!; [exact Hv|done|exact Hu|exact Hh].
  - case_bool_decide; cbn; (split; [done|by left]).
Qed.

Lemma fields_frame fuel : forall l c,
  m_inBuf (Ref.fields fuel l c).2 = m_inBuf c /\ m_outBuf (Ref.fields fuel l c).2 = m_outBuf c.
Proof.
  induction fuel as [|fuel IH]; intros l c; destruct l as [|x l]; try done.
  cbn [Ref.fields]. destruct (Spec.eat_line _) as [line rest].
  destruct (Spec.eat_word line) as [k l1]. destruct (Spec.eat_word l1) as [v l2].
  destruct (last k) as [ch|]; [|done]. destruct v as [|v0 v]; [done|].
  case_bool_decide; [|done]. by rewrite (proj1 (IH _ _)), (proj2 (IH _ _)).
Qed.

Lemma decode_outcome l c :
  outcome (s32 (size (m_inBuf c))) c (Ref.decode l c).1 (Ref.decode l c).2.
Proof.
  unfold Ref.decode. destruct (strstr l CRLF2) as [i|]; [|split; [done|]; by right; left].
  destruct (takeZ i l) as [|x hd]; [split; [done|]; by right; left|].
  unfold Ref.header. destruct (Spec.eat_line _) as [line rest].
  destruct (Spec.eat_word line) as [m l1]. destruct (Spec.eat_word l1) as [u l2].
  destruct (Spec.eat_word l2) as [v l3]. destruct v as [|v0 v]; [split; [done|]; by left|].
  set (c1 := set_start_line _ _ _ _).
  pose proof (fields_frame (length rest) rest c1) as [F1 F2].
  destruct (Ref.fields _ _ _) as [[] c2]; cbn [negb fst snd] in *; [|split; [done|]; by left].
  pose proof (decode_checks_outcome c2) as [G1 G2]. rewrite F1, F2 in *.
  split; [done|exact G2].
Qed.
End checks.

(** ** The verdict on a well-formed request *)

Section verdict.
Context `{A : Arch}.
Implicit Types (h : heap) (c : HttpCodec) (q : Text.request) (body : bytes).

(** The status a request is refused with. *)
Definition verdict q : option statusType :=
  if negb (bool_decide (Text.rq_version q ∈ [lit "HTTP/1.0"; lit "HTTP/1.1"]))
  then Some http_version_not_supported
  else if negb (bool_decide (Text.rq_method q ∈ [lit "GET"; lit "POST"]))
  then Some not_implemented
  else if negb (bool_decide (head (Text.rq_url q) = Some Byte.x2f)) then Some bad_request
  else if bool_decide (Text.rq_method q = lit "POST") &&
          bool_decide (Text.first_value (Text.rq_fields q) (lit "Content-Length") = None)
  then Some bad_request
  else if bool_decide (Text.first_value (Text.rq_fields q) (lit "Host") = None)
  then Some bad_request
  else None.

(** The body length a request announces, as the decoder understands it. *)
Definition announced q : Z :=
  atoi (default [] (Text.first_value (Text.rq_fields q) (lit "content-length"))).

(** The fields a codec has recorded before are those of [q] as well. *)
Definition agrees q c : Prop :=
  forall k v, req_headers c !! k = Some v -> Text.first_value (Text.rq_fields q) k = Some v.

Lemma agrees_new q c : req_headers c = ∅ -> agrees q c.
Proof. intros Hc k v. by rewrite Hc, lookup_empty. Qed.

Lemma recorded_spec q c :
  agrees q c ->
  let d := Text.recorded q c in
  m_inBuf d = m_inBuf c /\ m_outBuf d = m_outBuf c /\ m_res d = m_res c /\
  req_method d = Text.rq_method q /\ req_url d = Text.rq_url q /\
  req_version d = Text.rq_version q /\ header_length d = lenZ (Text.print q) /\
  (forall k, req_headers d !! k = Text.first_value (Text.rq_fields q) k).
Proof.
  intros Hc. cbn zeta. unfold Text.recorded. set (c1 := set_start_line _ _ _ _).
  destruct (record_fields_frame (Text.rq_fields q) c1) as (F1 & F2 & F3 & F4 & F5 & F6 & F7 & F8).
  split_and!; [done..|]. intros k. rewrite F8, insert_headers_lookup.
  change (req_headers c1) with (req_headers c). specialize (Hc k).
  destruct (req_headers c !! k) as [v|]; [|done]. by rewrite (Hc v).
Qed.

(** The checks keep what has been recorded of the request. *)
Lemma decode_checks_req c :
  let d := (decode_checks c).2 in
  req_method d = req_method c /\ req_url d = req_url c /\ req_version d = req_version c /\
  req_headers d = req_headers c /\ header_length d = header_length c.
Proof.
  cbn zeta. assert (m_req (parseStartLine c).2 = m_req c) as H1.
  { unfold parseStartLine. repeat case_match; done. }
  assert (forall c, m_req (parseHeader c).2 = m_req c) as H2.
  { intros c'. unfold parseHeader. repeat case_match; done. }
  unfold decode_checks. destruct (parseStartLine c) as [[] c1]; cbn in *; [|by rewrite H1].
  specialize (H2 c1). destruct (parseHeader c1) as [[] c2]; cbn in *; [|by rewrite H2, H1].
  rewrite <- H1, <- H2. unfold decode_body, parseBody.
  destruct (_ <? _); [done|]. destruct (bool_decide _); [done|]. by destruct (bool_decide _).
Qed.

Lemma list_elem_pair {B} `{EqDecision B} (x y z : B) :
  bool_decide (x ∈ [y; z]) = bool_decide (y = x) || bool_decide (z = x).
Proof.
  apply Bool.eq_iff_eq_true. rewrite orb_true_iff, !bool_decide_eq_true.
  rewrite !elem_of_cons, elem_of_nil.
  split; [intros [->|[->|[]]]; auto|intros [->| ->]; auto].
Qed.

(** The checks follow the verdict. *)
Lemma decode_checks_verdict q c :
  agrees q c ->
  decode_checks (Text.recorded q c) =
    match verdict q with
    | Some s => (-1, set_status s (Text.recorded q c))
    | None => decode_body (Text.recorded q c)
    end.
Proof.
  intros Hc. destruct (recorded_spec q c Hc) as (_ & _ & _ & Em & Eu & Ev & _ & Eh).
  set (d := Text.recorded q c) in *. unfold decode_checks, verdict, parseStartLine.
  rewrite !list_elem_pair, Em, Ev, Eu, !negb_orb.
  destruct (_ && _); [done|].
  destruct (negb (bool_decide (lit "GET" = _)) && _); [done|].
  assert (bool_decide (head (Text.rq_url q) = Some Byte.x2f) =
          match Text.rq_url q with [] => false | u :: _ => bool_decide (Byte.x2f = u) end) as ->.
  { destruct (Text.rq_url q) as [|u us]; [done|]. cbn. apply bool_decide_ext.
    split; [by intros [= ->]|by intros <-]. }
  destruct (Text.rq_url q) as [|u us]; [done|]. case_bool_decide; cbn [negb]; [|done].
  unfold parseHeader. rewrite Em, !Eh.
  rewrite (bool_decide_ext (Text.rq_method q = lit "POST") (lit "POST" = Text.rq_method q))
    by (split; done).
  destruct (_ && _); cbn [negb]; [done|]. case_bool_decide; done.
Qed.

Lemma tryDecode_print h q body c :
  slice_is h (m_inBuf c) (Text.print q ++ body) -> Text.wf q ->
  lenZ (Text.print q ++ body) < 2 ^ 32 ->
  tryDecode h c = Some (decode_checks (Text.recorded q c)).
Proof. intros Hs Hwf Hl. by rewrite (tryDecode_spec h c _ Hs Hl), decode_print. Qed.

(** The end of the decoding of a request that passes the checks. *)
Lemma decode_body_eq h q body c :
  slice_is h (m_inBuf c) (Text.print q ++ body) -> agrees q c ->
  lenZ (Text.print q ++ body) < 2 ^ 31 ->
  let total := lenZ (Text.print q ++ body) in
  let d := Text.recorded q c in
  let d' := set_body (Slice_sized (m_pb (m_inBuf c) + lenZ (Text.print q))%ptr
                       (to_size (announced q))) d in
  decode_body d =
    if total <? to_size (lenZ (Text.print q) + announced q) then (0, d)
    else if bool_decide (lit "GET" = Text.rq_method q) then (total, writeResponse d')
    else (-1, d').
Proof.
  intros Hs Hc Hl. cbn zeta.
  destruct (recorded_spec q c Hc) as (Ei & _ & _ & Em & _ & _ & El & Eh).
  set (d := Text.recorded q c) in *. unfold decode_body.
  assert (getHeaderField (req_base (m_req d)) (lit "content-length") =
          default [] (Text.first_value (Text.rq_fields q) (lit "content-length"))) as ->.
  { unfold getHeaderField. rewrite Eh. by destruct (Text.first_value _ _). }
  fold (announced q). rewrite Ei, El, (slice_is_size h _ _ Hs) by lia.
  destruct (_ <? _); [done|]. change (m_method (m_req (set_body ?b d))) with (req_method d).
  rewrite Em. case_bool_decide.
  - cbn. rewrite Ei, (slice_is_size h _ _ Hs), s32_small by len_lia. done.
  - case_bool_decide; done.
Qed.
(** A complete request the server answers. *)
Record served q body : Prop := {
  served_wf : Text.wf q;
  served_get : Text.rq_method q = lit "GET";
  served_verdict : verdict q = None;
  served_body : 0 <= announced q <= lenZ body;
}.

Lemma decode_served h q body c :
  slice_is h (m_inBuf c) (Text.print q ++ body) -> agrees q c -> served q body ->
  lenZ (Text.print q ++ body) < 2 ^ 31 ->
  exists c', tryDecode h c = Some (lenZ (Text.print q ++ body), c') /\
    m_inBuf c' = m_inBuf c /\ m_outBuf c' = hello_response /\ agrees q c'.
Proof.
  intros Hs Hc [Hwf Hm Hv Hn] Hl. rewrite (tryDecode_print h q body c Hs Hwf) by lia.
  rewrite (decode_checks_verdict q c Hc), Hv.
  rewrite (decode_body_eq h q body c Hs Hc Hl), Hm, bool_decide_true by done.
  assert (announced q < 2 ^ 31) as Hn2 by (unfold announced, atoi; lia).
  rewrite !to_size_small by len_lia. rewrite (proj2 (Z.ltb_ge _ _)) by len_lia.
  destruct (recorded_spec q c Hc) as (Ei & _ & _ & _ & _ & _ & _ & Eh).
  eexists. split_and!; [done|exact Ei|apply writeResponse_out|].
  intros k v Hk. rewrite <- Eh. exact Hk.
Qed.

Lemma decode_no_end h l c :
  slice_is h (m_inBuf c) l -> lenZ l < 2 ^ 32 -> strstr l CRLF2 = None ->
  tryDecode h c = Some (0, c).
Proof. intros Hs Hl Hno. rewrite (tryDecode_spec h c l Hs Hl). unfold Ref.decode. by rewrite Hno. Qed.
(** A part of such a request, which ends in the header or before the body announced
    is complete, is not decoded yet. *)
Lemma decode_waits h q body l more c :
  l ++ more = Text.print q ++ body -> slice_is h (m_inBuf c) l -> agrees q c -> served q body ->
  lenZ l < lenZ (Text.print q) + announced q -> lenZ (Text.print q ++ body) < 2 ^ 31 ->
  exists c', tryDecode h c = Some (0, c').
Proof.
  intros El Hs Hc [Hwf Hm Hv Hn] Hlt Hl. pose proof (lenZ_nonneg more).
  assert (lenZ l < 2 ^ 31) as Hl31 by (rewrite <- El, lenZ_app in Hl; lia).
  destruct (strstr l CRLF2) as [i|] eqn:E.
  2: { exists c. apply (decode_no_end h l c Hs); [lia|done]. }
  pose proof (strstr_app l CRLF2 more i E) as Hi. rewrite El, (strstr_print q body Hwf) in Hi.
  injection Hi as <-. destruct (strstr_Some _ _ _ E) as (a & b & -> & Ha & _).
  unfold Text.print in El. rewrite <- !app_assoc in El.
  apply app_inj_1 in El as [-> El]; [|unfold lenZ in Ha; lia]. apply app_inv_head in El.
  rewrite app_assoc in Hs. fold (Text.print q) in Hs.
  rewrite app_assoc in Hl31. fold (Text.print q) in Hl31. rewrite app_assoc in Hlt. fold (Text.print q) in Hlt.
  rewrite (tryDecode_print h q b c Hs Hwf) by lia.
  rewrite (decode_checks_verdict q c Hc), Hv, (decode_body_eq h q b c Hs Hc Hl31).
  rewrite <- El, !lenZ_app in *. assert (announced q < 2 ^ 31) as Hn2 by (unfold announced, atoi; lia).
  rewrite !to_size_small by len_lia. rewrite (proj2 (Z.ltb_lt _ _)) by len_lia. by eexists.
Qed.

Lemma decode_refused h q body c s :
  slice_is h (m_inBuf c) (Text.print q ++ body) -> agrees q c -> Text.wf q ->
  verdict q = Some s -> lenZ (Text.print q ++ body) < 2 ^ 31 ->
  exists c', tryDecode h c = Some (-1, c') /\ m_outBuf c' = m_outBuf c.
Proof.
  intros Hs Hc Hwf Hv Hl. rewrite (tryDecode_print h q body c Hs Hwf) by lia.
  rewrite (decode_checks_verdict q c Hc), Hv. eexists. split; [done|].
  by destruct (recorded_spec q c Hc) as (_ & Eo & _).
Qed.

End verdict.

(** ** Properties *)

(** A codec on a block that holds exactly [l]. *)
Definition demo_codec (l : bytes) : HttpCodec := HttpCodec_new (Ptr 1 0) (lenZ l) 77 99.

Definition demo_get : bytes :=
  lit "GET /index HTTP/1.1" ++ [CR; LF] ++ lit "Host: here" ++ CRLF2.

(** C26: The result of [tryDecode] is 0, -1 or the number of bytes in the buffer.
    It is positive only for an acceptable request: method GET, version 1.0 or
    1.1, a path that starts with a slash and a [Host] field; the status is then
    200 and the response is the fixed one.  In the other cases no response has
    been written.  Bytes without an empty line give 0 and leave the codec as it
    was. *)
Theorem tryDecode_outcomes `{Arch} (h : heap) (c : HttpCodec) (l : bytes) :
  slice_is h (m_inBuf c) l -> lenZ l < 2 ^ 31 ->
  exists r c', tryDecode h c = Some (r, c') /\ m_inBuf c' = m_inBuf c /\
    (r = -1 \/ r = 0 \/ r = lenZ l) /\
    (r <= 0 -> m_outBuf c' = m_outBuf c) /\
    (0 < r -> acceptable c' /\ m_outBuf c' = hello_response /\
              m_status (m_res c') = status_code ok) /\
    ((forall a b, l <> a ++ CRLF2 ++ b) -> r = 0 /\ c' = c).
Proof.
  intros Hs Hl. rewrite (tryDecode_spec h c l Hs) by lia.
  pose proof (decode_outcome l c) as [Hin Hout]. pose proof (lenZ_nonneg l).
  rewrite (slice_is_size h _ l Hs), s32_small in Hout by lia.
  exists (Ref.decode l c).1, (Ref.decode l c).2. split_and!.
  - by destruct (Ref.decode l c).
  - done.
  - destruct Hout as [[-> _]|[[-> _]|[-> _]]]; auto.
  - destruct Hout as [[_ ?]|[[_ ?]|(-> & _ & _)]]; [done..|]. intros Hle.
    assert (l = []) as -> by (apply lenZ_0_inv; lia). done.
  - destruct Hout as [[-> _]|[[-> _]|(_ & ? & ? & ?)]]; [lia..|done].
  - intros Hno. unfold Ref.decode. destruct (strstr l CRLF2) as [i|] eqn:E; [|done].
    destruct (strstr_Some _ _ _ E) as (a & b & Hab & _). by destruct (Hno a b).
Qed.

Lemma tryDecode_outcomes_witness :
  exists r c', tryDecode (A := Win32) (demo_mem demo_get) (demo_codec demo_get) = Some (r, c') /\
    m_inBuf c' = m_inBuf (demo_codec demo_get) /\
    (r = -1 \/ r = 0 \/ r = lenZ demo_get) /\
    (r <= 0 -> m_outBuf c' = m_outBuf (demo_codec demo_get)) /\
    (0 < r -> acceptable c' /\ m_outBuf c' = hello_response /\
              m_status (m_res c') = status_code ok) /\
    ((forall a b, demo_get <> a ++ CRLF2 ++ b) -> r = 0 /\ c' = demo_codec demo_get).
Proof.
  apply (tryDecode_outcomes (H := Win32)); [apply demo_slice_is|by vm_compute].
Defined.

(** C25: Parsing undoes printing.  When the text of a well-formed request is in
    the buffer, with anything after it, a new codec records exactly its method,
    path and version, the length of the header, and for every field name the
    value of the first field of that name (and nothing for the other names). *)
Theorem parse_print `{Arch} (h : heap) (c : HttpCodec) (q : Text.request) (body : bytes) :
  slice_is h (m_inBuf c) (Text.print q ++ body) -> Text.wf q -> req_headers c = ∅ ->
  lenZ (Text.print q ++ body) < 2 ^ 32 ->
  exists r c', tryDecode h c = Some (r, c') /\
    req_method c' = Text.rq_method q /\ req_url c' = Text.rq_url q /\
    req_version c' = Text.rq_version q /\ header_length c' = lenZ (Text.print q) /\
    (forall k, req_headers c' !! k = Text.first_value (Text.rq_fields q) k).
Proof.
  intros Hs Hwf Hc Hl. rewrite (tryDecode_print h q body c Hs Hwf Hl).
  destruct (recorded_spec q c (agrees_new q c Hc)) as (_ & _ & _ & Em & Eu & Ev & El & Eh).
  destruct (decode_checks_req (Text.recorded q c)) as (Fm & Fu & Fv & Fh & Fl).
  destruct (decode_checks _) as [r c'] eqn:E. exists r, c'. cbn [snd] in *.
  split_and!; [done|congruence..|]. intros k. by rewrite Fh, Eh.
Qed.

Definition demo_req (m : bytes) (fs : list (bytes * bytes)) : Text.request :=
  Text.mkReq m (lit "/index") (lit "HTTP/1.1") ((lit "Host", lit "here") :: fs).

Lemma parse_print_witness :
  let q := demo_req (lit "GET") [(lit "Host", lit "there")] in
  let l := Text.print q ++ lit "xyz" in
  exists r c', tryDecode (A := X64) (demo_mem l) (demo_codec l) = Some (r, c') /\
    req_method c' = Text.rq_method q /\ req_url c' = Text.rq_url q /\
    req_version c' = Text.rq_version q /\ header_length c' = lenZ (Text.print q) /\
    (forall k, req_headers c' !! k = Text.first_value (Text.rq_fields q) k).
Proof.
  apply (parse_print (H := X64)) with (body := lit "xyz");
    [apply demo_slice_is|by apply (bool_decide_unpack _)|done|by vm_compute].
Defined.

(** C27: The status of a refused request.  A well-formed request is refused, with
    -1 and no response written, exactly with the status of the first check it
    fails: 505 for the version, 501 for the method, 400 for a path without a
    leading slash, a POST without [Content-Length] or a missing [Host]. *)
Theorem refused_status `{Arch} (h : heap) (c : HttpCodec) (q : Text.request) (body : bytes)
    (s : statusType) :
  slice_is h (m_inBuf c) (Text.print q ++ body) -> Text.wf q -> req_headers c = ∅ ->
  lenZ (Text.print q ++ body) < 2 ^ 32 -> verdict q = Some s ->
  exists c', tryDecode h c = Some (-1, c') /\ m_status (m_res c') = status_code s /\
    m_outBuf c' = m_outBuf c.
Proof.
  intros Hs Hwf Hc Hl Hv. rewrite (tryDecode_print h q body c Hs Hwf Hl).
  rewrite (decode_checks_verdict q c (agrees_new q c Hc)), Hv. eexists. split_and!; [done|done|].
  by destruct (recorded_spec q c (agrees_new q c Hc)) as (_ & Eo & _).
Qed.

Lemma refused_status_witness :
  let q := demo_req (lit "PUT") [] in
  exists c', tryDecode (A := X64) (demo_mem (Text.print q ++ [])) (demo_codec (Text.print q ++ [])) =
      Some (-1, c') /\
    m_status (m_res c') = status_code not_implemented /\ m_outBuf c' = [].
Proof.
  apply (refused_status (H := X64) _ (demo_codec _) (demo_req (lit "PUT") []) []);
    [apply demo_slice_is|by apply (bool_decide_unpack _)|done|by vm_compute|by vm_compute].
Defined.

(** A GET request that passes the checks is answered once its body is
    there.  With [n] the number in its [content-length] field, 0 without one,
    the decoder waits (0) while fewer than [n] bytes follow the header; then it
    consumes everything in the buffer, the body is the first [n] bytes after
    the header and the response is the fixed one. *)
Theorem GET_complete `{Arch} (h : heap) (c : HttpCodec) (q : Text.request) (body : bytes) :
  slice_is h (m_inBuf c) (Text.print q ++ body) -> Text.wf q -> req_headers c = ∅ ->
  lenZ (Text.print q ++ body) < 2 ^ 31 -> Text.rq_method q = lit "GET" -> verdict q = None ->
  0 <= announced q ->
  exists r c', tryDecode h c = Some (r, c') /\
    (lenZ body < announced q -> r = 0 /\ m_outBuf c' = m_outBuf c) /\
    (announced q <= lenZ body -> r = lenZ (Text.print q ++ body) /\
       m_outBuf c' = hello_response /\ slice_is h (m_body (m_req c')) (takeZ (announced q) body)).
Proof.
  intros Hs Hwf Hc Hl Hm Hv Hn. rewrite (tryDecode_print h q body c Hs Hwf) by lia.
  rewrite (decode_checks_verdict q c (agrees_new q c Hc)), Hv.
  rewrite (decode_body_eq h q body c Hs (agrees_new q c Hc) Hl), Hm, bool_decide_true by done.
  assert (announced q < 2 ^ 31) as Hn2 by (unfold announced, atoi; lia).
  rewrite !to_size_small by len_lia. rewrite lenZ_app in *.
  destruct (Z.ltb_spec (lenZ (Text.print q) + lenZ body) (lenZ (Text.print q) + announced q)).
  - eexists _, _. split_and!; [done| |lia]. split; [done|].
    by destruct (recorded_spec q c (agrees_new q c Hc)) as (_ & Eo & _).
  - eexists _, _. split_and!; [done|lia|]. intros _. split_and!; [done|done|]. cbn.
    apply slice_is_eta, slice_is_app in Hs as [_ Hb].
    rewrite <- (takeZ_dropZ (announced q) body) in Hb. apply slice_is_app in Hb as [Hb _].
    rewrite lenZ_takeZ in Hb by lia. done.
Qed.

Lemma GET_complete_witness :
  let q := demo_req (lit "GET") [(lit "content-length", lit "2")] in
  let l := Text.print q ++ lit "xyz" in
  exists r c', tryDecode (A := X64) (demo_mem l) (demo_codec l) = Some (r, c') /\
    (lenZ (lit "xyz") < announced q -> r = 0 /\ m_outBuf c' = []) /\
    (announced q <= lenZ (lit "xyz") -> r = lenZ l /\
       m_outBuf c' = hello_response /\
       slice_is (demo_mem l) (m_body (m_req c')) (takeZ (announced q) (lit "xyz"))).
Proof.
  apply (GET_complete (H := X64)) with (c := demo_codec _);
    [apply demo_slice_is|by apply (bool_decide_unpack _)|done|by vm_compute..].
Defined.

(** No POST request is ever served.  One that passes every check and whose
    body is complete makes [tryDecode] return -1, as an error does, but without
    an error status: the status is what it was and no response is written. *)
Theorem POST_never_served `{Arch} (h : heap) (c : HttpCodec) (q : Text.request) (body : bytes) :
  slice_is h (m_inBuf c) (Text.print q ++ body) -> Text.wf q -> req_headers c = ∅ ->
  lenZ (Text.print q ++ body) < 2 ^ 31 -> Text.rq_method q = lit "POST" -> verdict q = None ->
  0 <= announced q <= lenZ body ->
  exists c', tryDecode h c = Some (-1, c') /\ m_res c' = m_res c /\ m_outBuf c' = m_outBuf c.
Proof.
  intros Hs Hwf Hc Hl Hm Hv Hn. rewrite (tryDecode_print h q body c Hs Hwf) by lia.
  rewrite (decode_checks_verdict q c (agrees_new q c Hc)), Hv.
  rewrite (decode_body_eq h q body c Hs (agrees_new q c Hc) Hl), Hm, bool_decide_false by done.
  assert (announced q < 2 ^ 31) as Hn2 by (unfold announced, atoi; lia).
  rewrite !to_size_small by len_lia. rewrite lenZ_app in *. arith_tests.
  destruct (recorded_spec q c (agrees_new q c Hc)) as (_ & Eo & Er & _). eexists. split_and!; [done|exact Er|exact Eo].
Qed.

Lemma POST_never_served_witness :
  let q := demo_req (lit "POST") [(lit "Content-Length", lit "3")] in
  let l := Text.print q ++ lit "xyz" in
  exists c', tryDecode (A := X64) (demo_mem l) (demo_codec l) = Some (-1, c') /\
    m_res c' = m_res (demo_codec l) /\ m_outBuf c' = [].
Proof.
  apply (POST_never_served (H := X64)) with (c := demo_codec _)
    (q := demo_req (lit "POST") [(lit "Content-Length", lit "3")]) (body := lit "xyz");
    [apply demo_slice_is|by apply (bool_decide_unpack _)|done|by vm_compute..|].
  split; by vm_compute.
Defined.

(** The field [Content-Length] is not the one the decoder asks for: it looks
    up [content-length], and names are compared byte for byte.  Whatever
    [Content-Length] a GET request announces, if it has no [content-length] the
    decoder does not wait for a body: the header alone is consumed as a complete
    request, with an empty body. *)
Theorem Content_Length_ignored `{Arch} (h : heap) (c : HttpCodec) (q : Text.request) :
  slice_is h (m_inBuf c) (Text.print q) -> Text.wf q -> req_headers c = ∅ ->
  lenZ (Text.print q) < 2 ^ 31 -> Text.rq_method q = lit "GET" -> verdict q = None ->
  Text.first_value (Text.rq_fields q) (lit "content-length") = None ->
  exists c', tryDecode h c = Some (lenZ (Text.print q), c') /\
    m_outBuf c' = hello_response /\ empty (m_body (m_req c')) = true.
Proof.
  intros Hs Hwf Hc Hl Hm Hv Hcl. rewrite <- (app_nil_r (Text.print q)) in Hs, Hl.
  rewrite (tryDecode_print h q [] c Hs Hwf) by lia.
  rewrite (decode_checks_verdict q c (agrees_new q c Hc)), Hv.
  rewrite (decode_body_eq h q [] c Hs (agrees_new q c Hc) Hl), Hm, bool_decide_true by done.
  assert (announced q = 0) as -> by (unfold announced; by rewrite Hcl).
  rewrite app_nil_r in *. rewrite !to_size_small by len_lia. arith_tests.
  eexists. split_and!; [done|done|]. cbn. unfold empty, Slice_sized. cbn.
  apply bool_decide_true. apply ptr_add_0.
Qed.

Lemma Content_Length_ignored_witness :
  let q := demo_req (lit "GET") [(lit "Content-Length", lit "1000")] in
  exists c', tryDecode (A := X64) (demo_mem (Text.print q)) (demo_codec (Text.print q)) =
      Some (lenZ (Text.print q), c') /\
    m_outBuf c' = hello_response /\ empty (m_body (m_req c')) = true.
Proof.
  apply (Content_Length_ignored (H := X64));
    [apply demo_slice_is|by apply (bool_decide_unpack _)|done|by vm_compute..].
Defined.

(** A negative [content-length] passes the test of the body's length: the
    unsigned sum is smaller than the header.  The request is answered, and the
    body recorded for it is a slice that runs far past the end of the buffer. *)
Theorem negative_length_accepted `{Arch} (h : heap) (c : HttpCodec) (q : Text.request)
    (body : bytes) :
  slice_is h (m_inBuf c) (Text.print q ++ body) -> Text.wf q -> req_headers c = ∅ ->
  lenZ (Text.print q ++ body) < 2 ^ 31 -> Text.rq_method q = lit "GET" -> verdict q = None ->
  - lenZ (Text.print q) <= announced q < 0 ->
  exists c', tryDecode h c = Some (lenZ (Text.print q ++ body), c') /\
    m_outBuf c' = hello_response /\
    2 ^ 31 <= size (m_body (m_req c')) /\ size (m_inBuf c') < 2 ^ 31.
Proof.
  intros Hs Hwf Hc Hl Hm Hv Hn. rewrite (tryDecode_print h q body c Hs Hwf) by lia.
  rewrite (decode_checks_verdict q c (agrees_new q c Hc)), Hv.
  rewrite (decode_body_eq h q body c Hs (agrees_new q c Hc) Hl), Hm, bool_decide_true by done.
  assert (- 2 ^ 31 <= announced q) as Hn2 by (unfold announced, atoi; lia).
  rewrite lenZ_app in *. rewrite (to_size_small (lenZ _ + announced _)) by len_lia.
  pose proof (lenZ_nonneg body). arith_tests. eexists. split_and!; [done|done| |].
  - cbn. unfold size, Slice_sized. cbn [m_pb m_pe]. rewrite ptr_diff_add.
    unfold to_size. rewrite Zmod_mod.
    destruct size_bits_ok as [-> | ->]; Z.div_mod_to_equations; lia.
  - cbn. destruct (recorded_spec q c (agrees_new q c Hc)) as (Ei & _). cbn in Ei. rewrite Ei.
    rewrite (slice_is_size h _ _ Hs); rewrite lenZ_app; lia.
Qed.

Lemma negative_length_accepted_witness :
  let q := demo_req (lit "GET") [(lit "content-length", lit "-5")] in
  let l := Text.print q ++ lit "xyz" in
  exists c', tryDecode (A := X64) (demo_mem l) (demo_codec l) = Some (lenZ l, c') /\
    m_outBuf c' = hello_response /\
    2 ^ 31 <= size (H := X64) (m_body (m_req c')) /\ size (H := X64) (m_inBuf c') < 2 ^ 31.
Proof.
  apply (negative_length_accepted (H := X64)) with
    (q := demo_req (lit "GET") [(lit "content-length", lit "-5")]) (body := lit "xyz");
    [apply demo_slice_is|by apply (bool_decide_unpack _)|done|by vm_compute..|].
  split; by vm_compute.
Defined.

(** Bytes that begin with an empty line are never decoded, whatever follows:
    the header found is empty, which [tryDecode] takes for an incomplete one.
    It returns 0 however much more arrives. *)
Theorem leading_empty_line_stalls `{Arch} (h : heap) (c : HttpCodec) (l : bytes) :
  slice_is h (m_inBuf c) (CRLF2 ++ l) -> lenZ (CRLF2 ++ l) < 2 ^ 32 ->
  exists c', tryDecode h c = Some (0, c') /\ m_outBuf c' = m_outBuf c /\ m_res c' = m_res c.
Proof.
  intros Hs Hl. rewrite (tryDecode_spec h c _ Hs Hl). unfold Ref.decode.
  assert (strstr (CRLF2 ++ l) CRLF2 = Some 0) as -> by reflexivity.
  rewrite takeZ_0. eexists. done.
Qed.

Lemma leading_empty_line_stalls_witness :
  let l := CRLF2 ++ demo_get in
  exists c', tryDecode (A := X64) (demo_mem l) (demo_codec l) = Some (0, c') /\
    m_outBuf c' = [] /\ m_res c' = m_res (demo_codec l).
Proof.
  apply (leading_empty_line_stalls (H := X64)) with (c := demo_codec _) (l := demo_get);
    [apply demo_slice_is|by vm_compute].
Defined.

(** The response is a well-formed message.  Read with the decoder's own line
    and word splitting, it has a status line of two words, the version and 200,
    its fields are [Content-Type] and [Content-Length], and the length announced
    is the number of bytes after the empty line.  It never asks to close the
    connection: the status has just been set to 200 where that is tested. *)
Theorem response_well_formed `{Arch} (c : HttpCodec) :
  let out := m_outBuf (writeResponse c) in
  exists i line rest d, strstr out CRLF2 = Some i /\
    Spec.eat_line (takeZ i out) = (line, rest) /\
    (Spec.eat_word line).1 = lit "HTTP/1.1" /\
    Spec.eat_word (Spec.eat_word line).2 = (lit "200", []) /\
    Ref.fields (length rest) rest (HttpCodec_new NULL 0 0 0) = (true, d) /\
    atoi (getHeaderField (req_base (m_req d)) (lit "Content-Length")) = lenZ out - (i + 4) /\
    req_headers d !! lit "Connection" = None /\
    m_status (m_res (writeResponse c)) = status_code ok.
Proof.
  cbn zeta. rewrite writeResponse_out. do 4 eexists.
  split_and!; try reflexivity; vm_compute; reflexivity.
Qed.
