(* ===== verification/Decoder.v ===== *)
(** * What [tryDecode] decides, from the bytes (WinHttpServer/Codec.cpp)

    A reference for the decoder that shares nothing with it but the cutting of lines and
    words ([Spec], on byte strings) and the library functions [strstr] and [atoi]: which
    request the bytes hold, whether it is refused and with what status, and what is answered.
    The only thing it needs to know of the codec is [old], the fields it has recorded
    before, of which a new codec has none. *)
From S2P Require Import Prelude Heap CLib Slice HttpMessage Codec.

(** ** The header *)

(** A line of the header: a name that ends in a colon, and a value. *)
Definition field_of (line : bytes) : option (bytes * bytes) :=
  let '(key, rest) := Spec.eat_word line in
  let '(value, _) := Spec.eat_word rest in
  match reverse key, value with
  | c :: name, _ :: _ => if bool_decide (c = Byte.x3a) then Some (reverse name, value) else None
  | _, _ => None
  end.

(** The lines of [l], in which two bytes stand before every line. *)
Fixpoint header_lines (fuel : nat) (l : bytes) : list bytes :=
  match fuel, l with
  | S fuel, _ :: _ =>
      let '(line, rest) := Spec.eat_line (dropZ 2 l) in line :: header_lines fuel rest
  | _, _ => []
  end.

(** The fields up to the first line that is none, and whether there is no such line. *)
Fixpoint read_fields (lines : list bytes) : list (bytes * bytes) * bool :=
  match lines with
  | [] => ([], true)
  | line :: lines =>
      match field_of line with
      | None => ([], false)
      | Some kv => let '(fs, good) := read_fields lines in (kv :: fs, good)
      end
  end.

(** The first field of a name counts, and one that was there before counts more. *)
Definition known (old : header_map) (fs : list (bytes * bytes)) : header_map :=
  foldl (λ m kv, match m !! kv.1 with Some _ => m | None => <[kv.1 := kv.2]> m end) old fs.

(** ** The decision *)

(** The status of the first check a request fails. *)
Definition refusal (method url version : bytes) (fields : header_map) : option Z :=
  if negb (bool_decide (version = lit "HTTP/1.0" \/ version = lit "HTTP/1.1")) then Some 505
  else if negb (bool_decide (method = lit "GET" \/ method = lit "POST")) then Some 501
  else if negb (bool_decide (head url = Some Byte.x2f)) then Some 400
  else if bool_decide (method = lit "POST" /\ fields !! lit "Content-Length" = None) then Some 400
  else if bool_decide (fields !! lit "Host" = None) then Some 400
  else None.

Definition answer : bytes :=
  lit "HTTP/1.1 200" ++ [CR; LF] ++ lit "Content-Type: text/plain" ++ [CR; LF] ++
  lit "Content-Length: 5" ++ [CR; LF] ++ [CR; LF] ++ lit "hello".

(** What is returned, and what is recorded, where anything is: the status, the start line,
    the length of the header, where the body is and how long, and the response; and the
    fields. *)
Record decision := mkDecision {
  d_result : Z; d_status : option Z; d_line : option (bytes * bytes * bytes);
  d_fields : list (bytes * bytes); d_header : option Z; d_body : option (Z * Z);
  d_response : option bytes;
}.

Definition decide_body `{Arch} (n i : Z) (method url version : bytes) (fs : list (bytes * bytes))
    (fields : header_map) : decision :=
  let content := atoi (default [] (fields !! lit "content-length")) in
  let line := Some (method, url, version) in
  if n <? to_size (i + 4 + content) then mkDecision 0 None line fs (Some (i + 4)) None None
  else
    let body := Some (i + 4, to_size content) in
    if bool_decide (method = lit "GET")
    then mkDecision (s32 n) (Some 200) line fs (Some (i + 4)) body (Some answer)
    else mkDecision (-1) None line fs (Some (i + 4)) body None.

Definition decide_header `{Arch} (n i : Z) (hd : bytes) (old : header_map) : decision :=
  let '(start, rest) := Spec.eat_line hd in
  let '(method, start) := Spec.eat_word start in
  let '(url, start) := Spec.eat_word start in
  let '(version, _) := Spec.eat_word start in
  let bad := mkDecision (-1) (Some 400) in
  if bool_decide (version = []) then bad None [] (Some (i + 4)) None None
  else
    let line := Some (method, url, version) in
    let '(fs, good) := read_fields (header_lines (length rest) rest) in
    if negb good then bad line fs (Some (i + 4)) None None
    else match refusal method url version (known old fs) with
         | Some status => mkDecision (-1) (Some status) line fs (Some (i + 4)) None None
         | None => decide_body n i method url version fs (known old fs)
         end.

Definition decided `{Arch} (old : header_map) (l : bytes) : decision :=
  match strstr l CRLF2 with
  | None => mkDecision 0 None None [] None None None
  | Some i =>
      if i =? 0 then mkDecision 0 None None [] (Some 4) None None
      else decide_header (lenZ l) i (takeZ i l) old
  end.

(** The codec after a decision. *)
Definition after (d : decision) (c : HttpCodec) : HttpCodec :=
  let r := m_req c in
  mkCodec (m_inBuf c) (default (m_outBuf c) (d_response d))
    (mkRequest
       (mkMessage (match d_line d with Some (_, _, v) => v | None => req_version c end)
          (known (req_headers c) (d_fields d)))
       (default (m_nHeaderLength r) (d_header d))
       (match d_line d with Some (m, _, _) => m | None => m_method r end)
       (match d_line d with Some (_, u, _) => u | None => m_url r end)
       (match d_body d with
        | Some (k, n) => Slice_sized (Slice.data (m_inBuf c) + k)%ptr n
        | None => m_body r
        end))
    (mkResponse (res_base (m_res c)) (default (m_status (m_res c)) (d_status d))).

(** ** The code makes this decision *)

Lemma key_cases (key : bytes) :
  (last key = None /\ reverse key = []) \/
  exists c name, last key = Some c /\ reverse key = c :: reverse name /\ take (length key - 1) key = name.
Proof.
  destruct key as [|c name _] using rev_ind; [by left|right]. exists c, name.
  rewrite last_snoc, reverse_app, length_app. cbn. rewrite Nat.add_sub, take_app_length. done.
Qed.

(** The fields are recorded one by one. *)
Definition record_all (fs : list (bytes * bytes)) (c : HttpCodec) : HttpCodec :=
  foldl (λ d kv, add_header kv.1 kv.2 d) c fs.

Lemma fields_read fuel : forall l c, (length l <= fuel)%nat ->
  Ref.fields fuel l c =
    (let '(fs, good) := read_fields (header_lines fuel l) in
     (good, if good : bool then record_all fs c else set_status bad_request (record_all fs c))).
Proof.
  induction fuel as [|fuel IH]; intros l c Hf; (destruct l as [|x l]; [done|]); [cbn in Hf; lia|].
  cbn [Ref.fields header_lines]. destruct (Spec.eat_line (dropZ 2 (x :: l))) as [line rest] eqn:El.
  assert (length rest <= fuel)%nat as Hr.
  { unfold Spec.eat_line in El. rewrite span_eq in El. injection El as _ <-.
    pose proof (span_app (λ b : byte, negb (Spec.is_eol b)) (dropZ 2 (x :: l))) as E.
    apply (f_equal length) in E. rewrite length_app in E. unfold dropZ in *. rewrite length_drop in E. cbn in *. lia. }
  cbn [read_fields]. unfold field_of.
  destruct (Spec.eat_word line) as [key r1]. destruct (Spec.eat_word r1) as [value r2].
  destruct (key_cases key) as [[-> ->]|(ch & name & -> & -> & ->)]; [done|].
  destruct value as [|v0 v]; [done|]. case_bool_decide; [|done].
  rewrite IH by done. rewrite reverse_involutive. by destruct (read_fields _) as [fs []].
Qed.

Lemma record_all_codec fs : forall c,
  record_all fs c = set_req (mkRequest (mkMessage (req_version c) (known (req_headers c) fs))
    (header_length c) (req_method c) (req_url c) (m_body (m_req c))) c.
Proof.
  induction fs as [|[k v] fs IH]; intros c; [by destruct c as [? ? [[]] ?]|]. cbn [record_all foldl] in *.
  unfold record_all in IH. rewrite IH. cbn. unfold insert_header. done.
Qed.

Section decision.
Context `{A : Arch}.

Lemma not_either (b1 b2 : bytes) x : negb (bool_decide (b1 = x)) && negb (bool_decide (b2 = x)) =
  negb (bool_decide (x = b1 \/ x = b2)).
Proof. repeat case_bool_decide; naive_solver. Qed.

(** The checks, one after the other. *)
Lemma checks_decided c :
  decode_checks c =
    match refusal (req_method c) (req_url c) (req_version c) (req_headers c) with
    | Some status => (-1, mkCodec (m_inBuf c) (m_outBuf c) (m_req c) (mkResponse (res_base (m_res c)) status))
    | None => decode_body c
    end.
Proof.
  unfold decode_checks, parseStartLine, parseHeader, refusal. rewrite !not_either.
  destruct (negb (bool_decide (req_version c = _ \/ _))); [done|].
  destruct (negb (bool_decide (req_method c = _ \/ _))); [done|].
  destruct (req_url c) as [|u r]; [done|]. cbn [head].
  rewrite (bool_decide_ext (Some u = Some Byte.x2f) (Byte.x2f = u)) by naive_solver.
  destruct (bool_decide (Byte.x2f = u)); [|done]. cbn [negb].
  rewrite (bool_decide_ext (req_method c = lit "POST" /\ _)
    (lit "POST" = req_method c /\ req_headers c !! lit "Content-Length" = None)) by naive_solver.
  rewrite bool_decide_and.
  destruct (bool_decide (lit "POST" = req_method c) && _); [done|]. by destruct (bool_decide _).
Qed.

Lemma body_decided c n i fs old :
  size (m_inBuf c) = n -> header_length c = i + 4 -> req_headers c = known old fs ->
  refusal (req_method c) (req_url c) (req_version c) (req_headers c) = None ->
  decode_body c =
    (let d := decide_body n i (req_method c) (req_url c) (req_version c) fs (known old fs) in
     (d_result d,
      mkCodec (m_inBuf c) (default (m_outBuf c) (d_response d))
        (mkRequest (req_base (m_req c)) (header_length c) (req_method c) (req_url c)
           (match d_body d with Some (k, n) => Slice_sized (Slice.data (m_inBuf c) + k)%ptr n | None => m_body (m_req c) end))
        (mkResponse (res_base (m_res c)) (default (m_status (m_res c)) (d_status d))))).
Proof.
  intros <- Hh Hf Hok. unfold decode_body, decide_body, getHeaderField. rewrite Hh, Hf.
  change (match known old fs !! lit "content-length" with Some v => v | None => [] end)
    with (default [] (known old fs !! lit "content-length")).
  destruct (_ <? _); [by destruct c as [? ? [] []]; cbn in *; subst|].
  rewrite (bool_decide_ext (lit "GET" = _) (req_method c = lit "GET")) by naive_solver.
  change (req_method (set_body _ c)) with (req_method c).
  destruct c as [inb out [base hl m u b] [rb st]]. cbn -[lit s32 size] in *. subst hl.
  destruct (bool_decide (m = lit "GET")); [done|]. by destruct (bool_decide (lit "POST" = m)).
Qed.

Lemma decide_spec l c n :
  size (m_inBuf c) = n -> n = lenZ l ->
  Ref.decode l c = (d_result (decided (req_headers c) l), after (decided (req_headers c) l) c).
Proof.
  intros Hn ->. unfold Ref.decode, decided. destruct (strstr l CRLF2) as [i|] eqn:Es; [|by destruct c as [? ? [[]] []]].
  destruct (strstr_Some _ _ _ Es) as (a & b & -> & -> & _). rewrite takeZ_app by done.
  destruct a as [|a0 a']; [by destruct c as [? ? [[]] []]|].
  replace (lenZ (a0 :: a') =? 0) with false by (symmetry; apply Z.eqb_neq; rewrite lenZ_cons; pose proof (lenZ_nonneg a'); lia).
  set (i := lenZ (a0 :: a')) in *. set (l := (a0 :: a') ++ CRLF2 ++ b) in *. set (hd := a0 :: a') in *.
  unfold Ref.header, decide_header.
  destruct (Spec.eat_line hd) as [start rest]. destruct (Spec.eat_word start) as [m l1].
  destruct (Spec.eat_word l1) as [u l2]. destruct (Spec.eat_word l2) as [[|v0 v] l3]; [by destruct c as [? ? [[]] []]|].
  rewrite (bool_decide_false (v0 :: v = [])) by done. rewrite fields_read by done.
  destruct (read_fields _) as [fs good].
  destruct good; [|rewrite record_all_codec; by destruct c as [? ? [[]] []]].
  rewrite record_all_codec, checks_decided. cbn -[lit decode_body refusal].
  destruct (refusal m u (v0 :: v) _) as [status|] eqn:Hr; [by destruct c as [? ? [[]] []]|].
  rewrite (body_decided _ (lenZ l) i fs (req_headers c)) by (first [done|exact Hn|exact Hr]).
  destruct c as [? ? [[]] []]. cbn -[lit decide_body]. unfold after, decide_body. cbn -[lit s32].
  destruct (_ <? _); [done|]. by destruct (bool_decide _).
Qed.
End decision.

(** ** Properties *)

(** C3: On any bytes, well-formed or not, [tryDecode] reads nothing outside the slice it was
    given, and its result and everything it records (method, path, version, fields, the
    length of the header, the body, the status, the response) are those of the reference,
    a function of the bytes and of the fields the codec has recorded before, of which a
    new codec has none. *)
Theorem tryDecode_refines `{Arch} (h : heap) (c : HttpCodec) (l : bytes) :
  slice_is h (m_inBuf c) l -> lenZ l < 2 ^ 32 ->
  tryDecode h c = Some (d_result (decided (req_headers c) l), after (decided (req_headers c) l) c).
Proof.
  intros Hs Hl. rewrite (tryDecode_spec h c l Hs Hl). f_equal.
  apply (decide_spec l c (lenZ l)); [by apply (slice_is_size h)|done].
Qed.

Lemma tryDecode_refines_witness :
  tryDecode (A := X64) (demo_mem demo_get) (demo_codec demo_get) =
    Some (35, after (decided (H := X64) ∅ demo_get) (demo_codec demo_get)) /\
  d_response (decided (H := X64) ∅ demo_get) = Some answer.
Proof.
  split; [|vm_compute; reflexivity].
  assert (d_result (decided (H := X64) ∅ demo_get) = 35) as <- by (vm_compute; reflexivity).
  apply (tryDecode_refines (H := X64) (demo_mem demo_get) (demo_codec demo_get)); [apply demo_slice_is|by vm_compute].
Defined.
