(* ===== verification/Os.v ===== *)
(** * The operating system under the server

    The sources call Winsock and the Win32 API.  Those are not the program's:
    what a call answers is a parameter, a function of the calls made so far
    ([WinOS]), and the state keeps the record of the calls and their answers.
    An answer is what the call returns, or, for a call that reports success or
    failure, 0 for success and the code [WSAGetLastError] gives otherwise.

    An overlapped request the system accepts is in flight until its completion
    packet is taken from the completion port; [s_ops] lists the packets that
    are still to come. *)
From S2P Require Import Prelude Heap.

(** ** Names of objects *)

(** A [ClientContext*] and an [AcceptIoContext*]. *)
Abbreviation client := Z.
Abbreviation acceptor := Z.

Definition INVALID_SOCKET : Z := -1.
Definition WSA_IO_PENDING : Z := 997.
Definition ERROR_NOT_FOUND : Z := 1168.

(** The completion key: 0, the server itself or a client. *)
Inductive compl_key := KeyExit | KeyServer | KeyClient (c : client).

(** The [OVERLAPPED] structure of a request: the first member of an
    [AcceptIoContext], or of a client's [m_recvIoCtx] or [m_sendIoCtx]. *)
Inductive overlapped :=
  | OvNull | OvAccept (a : acceptor) | OvRecv (c : client) | OvSend (c : client).

#[export] Instance compl_key_eq_dec : EqDecision compl_key.
Proof. solve_decision. Defined.
#[export] Instance overlapped_eq_dec : EqDecision overlapped.
Proof. solve_decision. Defined.

(** ** Calls *)

Inductive call :=
  | WSAStartup | WSACleanup
  | WSASocket | Bind (s port : Z) | Listen (s : Z)
  | Getpeername (s : Z)
  | SetKeepAlive (s : Z) | SetLinger (s : Z) | UpdateAcceptContext (ls s : Z)
  | IoctlKeepAlive (s time interval : Z) | IoctlAcceptEx (s : Z) | IoctlAcceptExAddrs (s : Z)
  | NewCompletionPort | Associate (s : Z) (k : compl_key)
  | AcceptEx (ls s : Z) (a : acceptor)
  | WSARecv (s : Z) (c : client)
  | WSASend (s : Z) (c : client) (p : ptr) (n : Z)
  | Closesocket (s : Z) | CancelIo (s : Z) | CancelIoEx (s : Z) (ov : overlapped)
  | PostQueued (k : compl_key)
  | BeginThread | CpuCount | WaitThreads (n : Z)
  | CreateEvent (manual initial : bool) | SetEvent (h : Z) | CloseHandle (h : Z)
  | CreateTimer | SetTimer (h : Z) | WaitTimer (h : Z)
  | GetTickCount.

#[export] Instance call_eq_dec : EqDecision call.
Proof. solve_decision. Defined.

Abbreviation history := (list (call * Z)).

(** What the system answers to a call after a history (latest call first). *)
Class WinOS := { os_answer : history -> call -> Z }.

(** A packet of the completion port: the key and the structure it comes with,
    and for a send the bytes that were handed over. *)
Record op := mkOp { op_key : compl_key; op_ov : overlapped }.

#[export] Instance op_eq_dec : EqDecision op.
Proof. solve_decision. Defined.
