(* ===== verification/ClientContext.v ===== *)
(** * Contexts of connections and of requests (ClientContext.h/.cpp, IoContext.h/.cpp) *)
From S2P Require Import Prelude Heap CLib Slice Buffer Os.

(** ** Global.h *)

Definition IO_BUF_SIZE : Z := 8192.

Inductive PostType := ACCEPT_EVENT | RECV_EVENT | SEND_EVENT | PARSE_EVNET | CLOSE_EVENT.

Inductive PostResult := PostResultSuccesful | PostResultFailed | PostResultInvalidSocket.

#[export] Instance PostType_eq_dec : EqDecision PostType.
Proof. solve_decision. Defined.
#[export] Instance PostResult_eq_dec : EqDecision PostResult.
Proof. solve_decision. Defined.

(** ** Request contexts *)

(** The [buf] of a [WSABUF]: not set, the context's own array, or memory. *)
Inductive wsa_buf := WsaUnset | WsaOwn | WsaMem (p : ptr).

Record IoContext := mkIo { m_postType : PostType; m_wsaBuf : wsa_buf * Z }.

Definition IoContext_new (type : PostType) : IoContext := mkIo type (WsaUnset, 0).

Record AcceptIoContext := mkAcceptIo {
  acc_base : IoContext;
  m_acceptSocket : Z;
  m_accpetBuf : bytes;
}.

Definition AcceptIoContext_new (acceptSocket : Z) : AcceptIoContext :=
  mkAcceptIo (mkIo ACCEPT_EVENT (WsaOwn, IO_BUF_SIZE)) acceptSocket (zeros IO_BUF_SIZE).

Definition accept_resetBuffer (a : AcceptIoContext) : AcceptIoContext :=
  mkAcceptIo (acc_base a) (m_acceptSocket a) (zeros IO_BUF_SIZE).

Record RecvIoContext := mkRecvIo { recv_base : IoContext; m_recvBuf : bytes }.

Definition RecvIoContext_new : RecvIoContext :=
  mkRecvIo (mkIo RECV_EVENT (WsaOwn, IO_BUF_SIZE)) (zeros IO_BUF_SIZE).

Definition recv_resetBuffer (r : RecvIoContext) : RecvIoContext :=
  mkRecvIo (recv_base r) (zeros IO_BUF_SIZE).

(** ** The listener *)

Record ListenContext := mkListen { l_socket : Z; l_port : Z }.

(** ** A connection *)

(** [m_addr] is the raw address, 0 when zeroed. *)
Record ClientContext := mkClient {
  m_socket : Z;
  m_addr : Z;
  m_nPendingIoCnt : Z;
  m_recvIoCtx : RecvIoContext;
  m_sendIoCtx : IoContext;
  m_inBuf : Buffer;
  m_outBuf : Buffer;
  m_outBufQueue : list Buffer;
  m_nLastHeartbeatTime : Z;
}.

(** [m_nLastHeartbeatTime] has no initialiser: it holds [hb0] until [reset]. *)
Definition ClientContext_new (socket hb0 : Z) : ClientContext :=
  mkClient socket 0 0 RecvIoContext_new (IoContext_new SEND_EVENT)
    Buffer_new Buffer_new [] hb0.

(** ** Assignments to members *)

Definition set_socket (s : Z) (c : ClientContext) : ClientContext :=
  mkClient s (m_addr c) (m_nPendingIoCnt c) (m_recvIoCtx c) (m_sendIoCtx c)
    (m_inBuf c) (m_outBuf c) (m_outBufQueue c) (m_nLastHeartbeatTime c).
Definition set_addr (a : Z) (c : ClientContext) : ClientContext :=
  mkClient (m_socket c) a (m_nPendingIoCnt c) (m_recvIoCtx c) (m_sendIoCtx c)
    (m_inBuf c) (m_outBuf c) (m_outBufQueue c) (m_nLastHeartbeatTime c).
Definition set_pending (n : Z) (c : ClientContext) : ClientContext :=
  mkClient (m_socket c) (m_addr c) n (m_recvIoCtx c) (m_sendIoCtx c)
    (m_inBuf c) (m_outBuf c) (m_outBufQueue c) (m_nLastHeartbeatTime c).
Definition set_recvIo (r : RecvIoContext) (c : ClientContext) : ClientContext :=
  mkClient (m_socket c) (m_addr c) (m_nPendingIoCnt c) r (m_sendIoCtx c)
    (m_inBuf c) (m_outBuf c) (m_outBufQueue c) (m_nLastHeartbeatTime c).
Definition set_sendIo (i : IoContext) (c : ClientContext) : ClientContext :=
  mkClient (m_socket c) (m_addr c) (m_nPendingIoCnt c) (m_recvIoCtx c) i
    (m_inBuf c) (m_outBuf c) (m_outBufQueue c) (m_nLastHeartbeatTime c).
Definition set_inBuf (b : Buffer) (c : ClientContext) : ClientContext :=
  mkClient (m_socket c) (m_addr c) (m_nPendingIoCnt c) (m_recvIoCtx c) (m_sendIoCtx c)
    b (m_outBuf c) (m_outBufQueue c) (m_nLastHeartbeatTime c).
Definition set_outBuf (b : Buffer) (c : ClientContext) : ClientContext :=
  mkClient (m_socket c) (m_addr c) (m_nPendingIoCnt c) (m_recvIoCtx c) (m_sendIoCtx c)
    (m_inBuf c) b (m_outBufQueue c) (m_nLastHeartbeatTime c).
Definition set_outQueue (q : list Buffer) (c : ClientContext) : ClientContext :=
  mkClient (m_socket c) (m_addr c) (m_nPendingIoCnt c) (m_recvIoCtx c) (m_sendIoCtx c)
    (m_inBuf c) (m_outBuf c) q (m_nLastHeartbeatTime c).
Definition set_heartbeat (t : Z) (c : ClientContext) : ClientContext :=
  mkClient (m_socket c) (m_addr c) (m_nPendingIoCnt c) (m_recvIoCtx c) (m_sendIoCtx c)
    (m_inBuf c) (m_outBuf c) (m_outBufQueue c) t.

(** ** [appendToBuffer]: what becomes of [m_inBuf] *)

Section append.
Context {VM : VirtualMem}.

Definition appendToBuffer (x : ClientContext) (pInBuf : src) (len : Z) : ST heap Buffer :=
  r ← write (m_inBuf x) pInBuf (u32 len); mret r.2.

Definition appendToBuffer_string (x : ClientContext) (inBuf : bytes) : ST heap Buffer :=
  r ← write_string (m_inBuf x) inBuf; mret r.2.
End append.
