(* ===== verification/IocpServer.v ===== *)
(** * [IocpServer] (WinHttpServer/IocpServer.h, IocpServer.cpp, Net.cpp)

    The server keeps a listening socket, ten outstanding accepts, and for every
    connection a [ClientContext] that is either in [m_connectedClientList] or,
    once nothing refers to it any more, in [m_freeClientList], from where it is
    used again.  [m_nPendingIoCnt] counts what refers to a context.

    Each function runs on the whole state [Sys]: the server, the contexts, the
    memory, the requests in flight and the record of the calls made.  [None] is
    the end of the process: an access violation or a failed [assert].  A handler
    runs to its end without interference; locks are left out. *)
From S2P Require Import Prelude Heap CLib Slice Buffer Os ClientContext.

(** ** State *)

Record IocpServer := mkServer {
  m_bIsShutdown : bool;
  m_listenPort : Z;
  m_hComPort : Z;
  m_hExitEvent : Z;
  m_hWriteCompletedEvent : Z;
  m_nWorkerCnt : Z;
  m_nConnClientCnt : Z;
  m_nMaxConnClientCnt : Z;
  m_lpfnAcceptEx : bool;
  m_lpfnGetAcceptExAddr : bool;
  m_pListenCtx : option ListenContext;
  m_connectedClientList : list client;
  m_freeClientList : list client;
  m_hWorkerThreads : list Z;
  m_acceptIoCtxList : list acceptor;
}.

(** [s_next] is the address the next [new] returns; [s_exit] says whether the
    exit event is set. *)
Record Sys := mkSys {
  s_srv : IocpServer;
  s_ctxs : gmap client ClientContext;
  s_accs : gmap acceptor AcceptIoContext;
  s_heap : heap;
  s_trace : history;
  s_ops : list op;
  s_next : Z;
  s_exit : bool;
}.

Definition srv_shutdown (x : bool) (s : IocpServer) : IocpServer :=
  mkServer x (m_listenPort s) (m_hComPort s) (m_hExitEvent s) (m_hWriteCompletedEvent s)
    (m_nWorkerCnt s) (m_nConnClientCnt s) (m_nMaxConnClientCnt s) (m_lpfnAcceptEx s)
    (m_lpfnGetAcceptExAddr s) (m_pListenCtx s) (m_connectedClientList s)
    (m_freeClientList s) (m_hWorkerThreads s) (m_acceptIoCtxList s).
Definition srv_hComPort (x : Z) (s : IocpServer) : IocpServer :=
  mkServer (m_bIsShutdown s) (m_listenPort s) x (m_hExitEvent s) (m_hWriteCompletedEvent
    s) (m_nWorkerCnt s) (m_nConnClientCnt s) (m_nMaxConnClientCnt s) (m_lpfnAcceptEx s)
    (m_lpfnGetAcceptExAddr s) (m_pListenCtx s) (m_connectedClientList s)
    (m_freeClientList s) (m_hWorkerThreads s) (m_acceptIoCtxList s).
Definition srv_exitEvent (x : Z) (s : IocpServer) : IocpServer :=
  mkServer (m_bIsShutdown s) (m_listenPort s) (m_hComPort s) x (m_hWriteCompletedEvent
    s) (m_nWorkerCnt s) (m_nConnClientCnt s) (m_nMaxConnClientCnt s) (m_lpfnAcceptEx s)
    (m_lpfnGetAcceptExAddr s) (m_pListenCtx s) (m_connectedClientList s)
    (m_freeClientList s) (m_hWorkerThreads s) (m_acceptIoCtxList s).
Definition srv_writeEvent (x : Z) (s : IocpServer) : IocpServer :=
  mkServer (m_bIsShutdown s) (m_listenPort s) (m_hComPort s) (m_hExitEvent s) x
    (m_nWorkerCnt s) (m_nConnClientCnt s) (m_nMaxConnClientCnt s) (m_lpfnAcceptEx s)
    (m_lpfnGetAcceptExAddr s) (m_pListenCtx s) (m_connectedClientList s)
    (m_freeClientList s) (m_hWorkerThreads s) (m_acceptIoCtxList s).
Definition srv_workerCnt (x : Z) (s : IocpServer) : IocpServer :=
  mkServer (m_bIsShutdown s) (m_listenPort s) (m_hComPort s) (m_hExitEvent s)
    (m_hWriteCompletedEvent s) x (m_nConnClientCnt s) (m_nMaxConnClientCnt s)
    (m_lpfnAcceptEx s) (m_lpfnGetAcceptExAddr s) (m_pListenCtx s) (m_connectedClientList
    s) (m_freeClientList s) (m_hWorkerThreads s) (m_acceptIoCtxList s).
Definition srv_connCnt (x : Z) (s : IocpServer) : IocpServer :=
  mkServer (m_bIsShutdown s) (m_listenPort s) (m_hComPort s) (m_hExitEvent s)
    (m_hWriteCompletedEvent s) (m_nWorkerCnt s) x (m_nMaxConnClientCnt s)
    (m_lpfnAcceptEx s) (m_lpfnGetAcceptExAddr s) (m_pListenCtx s) (m_connectedClientList
    s) (m_freeClientList s) (m_hWorkerThreads s) (m_acceptIoCtxList s).
Definition srv_acceptEx (x : bool) (s : IocpServer) : IocpServer :=
  mkServer (m_bIsShutdown s) (m_listenPort s) (m_hComPort s) (m_hExitEvent s)
    (m_hWriteCompletedEvent s) (m_nWorkerCnt s) (m_nConnClientCnt s)
    (m_nMaxConnClientCnt s) x (m_lpfnGetAcceptExAddr s) (m_pListenCtx s)
    (m_connectedClientList s) (m_freeClientList s) (m_hWorkerThreads s)
    (m_acceptIoCtxList s).
Definition srv_getAddrs (x : bool) (s : IocpServer) : IocpServer :=
  mkServer (m_bIsShutdown s) (m_listenPort s) (m_hComPort s) (m_hExitEvent s)
    (m_hWriteCompletedEvent s) (m_nWorkerCnt s) (m_nConnClientCnt s)
    (m_nMaxConnClientCnt s) (m_lpfnAcceptEx s) x (m_pListenCtx s) (m_connectedClientList
    s) (m_freeClientList s) (m_hWorkerThreads s) (m_acceptIoCtxList s).
Definition srv_listenCtx (x : option ListenContext) (s : IocpServer) : IocpServer :=
  mkServer (m_bIsShutdown s) (m_listenPort s) (m_hComPort s) (m_hExitEvent s)
    (m_hWriteCompletedEvent s) (m_nWorkerCnt s) (m_nConnClientCnt s)
    (m_nMaxConnClientCnt s) (m_lpfnAcceptEx s) (m_lpfnGetAcceptExAddr s) x
    (m_connectedClientList s) (m_freeClientList s) (m_hWorkerThreads s)
    (m_acceptIoCtxList s).
Definition srv_connected (x : list client) (s : IocpServer) : IocpServer :=
  mkServer (m_bIsShutdown s) (m_listenPort s) (m_hComPort s) (m_hExitEvent s)
    (m_hWriteCompletedEvent s) (m_nWorkerCnt s) (m_nConnClientCnt s)
    (m_nMaxConnClientCnt s) (m_lpfnAcceptEx s) (m_lpfnGetAcceptExAddr s) (m_pListenCtx
    s) x (m_freeClientList s) (m_hWorkerThreads s) (m_acceptIoCtxList s).
Definition srv_freeList (x : list client) (s : IocpServer) : IocpServer :=
  mkServer (m_bIsShutdown s) (m_listenPort s) (m_hComPort s) (m_hExitEvent s)
    (m_hWriteCompletedEvent s) (m_nWorkerCnt s) (m_nConnClientCnt s)
    (m_nMaxConnClientCnt s) (m_lpfnAcceptEx s) (m_lpfnGetAcceptExAddr s) (m_pListenCtx
    s) (m_connectedClientList s) x (m_hWorkerThreads s) (m_acceptIoCtxList s).
Definition srv_threads (x : list Z) (s : IocpServer) : IocpServer :=
  mkServer (m_bIsShutdown s) (m_listenPort s) (m_hComPort s) (m_hExitEvent s)
    (m_hWriteCompletedEvent s) (m_nWorkerCnt s) (m_nConnClientCnt s)
    (m_nMaxConnClientCnt s) (m_lpfnAcceptEx s) (m_lpfnGetAcceptExAddr s) (m_pListenCtx
    s) (m_connectedClientList s) (m_freeClientList s) x (m_acceptIoCtxList s).
Definition srv_acceptList (x : list acceptor) (s : IocpServer) : IocpServer :=
  mkServer (m_bIsShutdown s) (m_listenPort s) (m_hComPort s) (m_hExitEvent s)
    (m_hWriteCompletedEvent s) (m_nWorkerCnt s) (m_nConnClientCnt s)
    (m_nMaxConnClientCnt s) (m_lpfnAcceptEx s) (m_lpfnGetAcceptExAddr s) (m_pListenCtx
    s) (m_connectedClientList s) (m_freeClientList s) (m_hWorkerThreads s) x.

Definition sys_srv (x : IocpServer) (s : Sys) : Sys :=
  mkSys x (s_ctxs s) (s_accs s) (s_heap s) (s_trace s) (s_ops s) (s_next s) (s_exit s).
Definition sys_ctxs (x : gmap client ClientContext) (s : Sys) : Sys :=
  mkSys (s_srv s) x (s_accs s) (s_heap s) (s_trace s) (s_ops s) (s_next s) (s_exit s).
Definition sys_accs (x : gmap acceptor AcceptIoContext) (s : Sys) : Sys :=
  mkSys (s_srv s) (s_ctxs s) x (s_heap s) (s_trace s) (s_ops s) (s_next s) (s_exit s).
Definition sys_heap (x : heap) (s : Sys) : Sys :=
  mkSys (s_srv s) (s_ctxs s) (s_accs s) x (s_trace s) (s_ops s) (s_next s) (s_exit s).
Definition sys_trace (x : history) (s : Sys) : Sys :=
  mkSys (s_srv s) (s_ctxs s) (s_accs s) (s_heap s) x (s_ops s) (s_next s) (s_exit s).
Definition sys_ops (x : list op) (s : Sys) : Sys :=
  mkSys (s_srv s) (s_ctxs s) (s_accs s) (s_heap s) (s_trace s) x (s_next s) (s_exit s).
Definition sys_next (x : Z) (s : Sys) : Sys :=
  mkSys (s_srv s) (s_ctxs s) (s_accs s) (s_heap s) (s_trace s) (s_ops s) x (s_exit s).
Definition sys_exit (x : bool) (s : Sys) : Sys :=
  mkSys (s_srv s) (s_ctxs s) (s_accs s) (s_heap s) (s_trace s) (s_ops s) (s_next s) x.

(** The constructor's initialisers; [IocpServer_init] is its body.  The function
    pointers [m_lpfnAcceptEx] and [m_lpfnGetAcceptExAddr]
    have no initial value; [false] is "not loaded". *)
Definition IocpServer_new (listenPort maxConnectionCount : Z) : IocpServer :=
  mkServer false listenPort 0 0 0 0 0 (u32 maxConnectionCount) false false None [] [] [] [].

Definition Sys_new (listenPort maxConnectionCount : Z) : Sys :=
  mkSys (IocpServer_new listenPort maxConnectionCount) ∅ ∅ ∅ [] [] 1 false.

(** ** Access to the parts of the state *)

Abbreviation action := (ST Sys).

Definition get_srv : action IocpServer := st_gets s_srv.
Definition upd_srv (f : IocpServer -> IocpServer) : action unit :=
  st_modify (λ s, sys_srv (f (s_srv s)) s).
Definition get_ctx (c : client) : action ClientContext := st_reads (λ s, s_ctxs s !! c).
Definition upd_ctx (c : client) (f : ClientContext -> ClientContext) : action unit :=
  st_modify (λ s, sys_ctxs (alter f c (s_ctxs s)) s).
Definition get_acc (a : acceptor) : action AcceptIoContext := st_reads (λ s, s_accs s !! a).
Definition upd_acc (a : acceptor) (f : AcceptIoContext -> AcceptIoContext) : action unit :=
  st_modify (λ s, sys_accs (alter f a (s_accs s)) s).
Definition on_heap {A} (m : ST heap A) : action A := λ s,
  match m (s_heap s) with Some (a, h) => Some (a, sys_heap h s) | None => None end.
Definition deref {A} (o : option A) : action A := st_reads (λ _, o).

Definition listen_socket : action Z :=
  srv ← get_srv; l ← deref (m_pListenCtx srv); mret (l_socket l).

Section server.
Context {VM : VirtualMem} {OS : WinOS}.

Definition sys_call (c : call) : action Z := λ s,
  let r := os_answer (s_trace s) c in Some (r, sys_trace ((c, r) :: s_trace s) s).

Definition accepted (r : Z) : bool := (r =? 0) || (r =? WSA_IO_PENDING).

(** An overlapped request: the system keeps it when it accepts it. *)
Definition sys_post (c : call) (o : op) : action Z :=
  r ← sys_call c;
  (if accepted r then st_modify (λ s, sys_ops (s_ops s ++ [o]) s) else mret tt);;
  mret r.

(** ** Net.cpp *)

Definition Net_init : action bool := r ← sys_call WSAStartup; mret (r =? 0).
Definition Net_unInit : action bool := sys_call WSACleanup;; mret true.
Definition Net_WSASocket : action Z := sys_call WSASocket.
Definition Net_bind (s port : Z) : action Z := sys_call (Bind s port).
Definition Net_listen (s : Z) : action Z := sys_call (Listen s).
Definition Net_getpeername (s : Z) : action Z := sys_call (Getpeername s).
Definition Net_setKeepAlive (s : Z) : action bool := r ← sys_call (SetKeepAlive s); mret (r =? 0).
Definition Net_setLinger (s : Z) : action bool := r ← sys_call (SetLinger s); mret (r =? 0).
Definition Net_updateAcceptContext (ls s : Z) : action bool :=
  r ← sys_call (UpdateAcceptContext ls s); mret (r =? 0).

(** ** Reference counts *)

Definition enterIoLoop (c : client) : action unit :=
  get_ctx c;; upd_ctx c (λ x, set_pending (u32 (m_nPendingIoCnt x + 1)) x).

(** The new value, as an [int]. *)
Definition exitIoLoop (c : client) : action Z :=
  get_ctx c;; upd_ctx c (λ x, set_pending (u32 (m_nPendingIoCnt x - 1)) x);;
  x ← get_ctx c; mret (s32 (m_nPendingIoCnt x)).

(** ** The lists of clients *)

Definition addClient (c : client) : action unit :=
  upd_srv (λ s, srv_connected (m_connectedClientList s ++ [c]) s).

Definition removeClient (c : client) : action unit :=
  srv ← get_srv;
  if bool_decide (c ∈ m_connectedClientList srv) then
    upd_srv (λ s, srv_connected (filter (.≠ c) (m_connectedClientList s)) s);;
    upd_srv (λ s, srv_freeList (m_freeClientList s ++ [c]) s)
  else mret tt.

Definition removeAllClients : action unit := upd_srv (srv_connected []).

(** [reset] asserts that nothing refers to the context and that nothing is
    queued, and clears only the address and the time. *)
Definition reset (c : client) : action unit :=
  x ← get_ctx c;
  st_assert (0 =? m_nPendingIoCnt x);;
  st_assert (match m_outBufQueue x with [] => true | _ => false end);;
  upd_ctx c (set_addr 0);;
  t ← sys_call GetTickCount;
  upd_ctx c (set_heartbeat (u32 t)).

(** [new ClientContext(s)]; the time it holds before [reset] is arbitrary. *)
Definition new_client (socket : Z) : action client :=
  c ← st_gets s_next;
  st_modify (λ s, sys_next (c + 1) (sys_ctxs (<[c := ClientContext_new socket 0]> (s_ctxs s)) s));;
  mret c.

Definition allocateClientContext (socket : Z) : action client :=
  srv ← get_srv;
  c ← (match m_freeClientList srv with
       | [] => new_client socket
       | c :: fs =>
           upd_srv (srv_freeList fs);;
           get_ctx c;; upd_ctx c (set_socket socket);;
           mret c
       end);
  reset c;;
  mret c.

Definition releaseClientContext (c : client) : action unit :=
  n ← exitIoLoop c;
  if n <=? 0 then removeClient c else mret tt.

(** ** Closing a connection *)

(** [notifyDisconnected] prints; it changes nothing. *)
Definition notifyDisconnected (s addr : Z) : action unit := mret tt.

Definition CloseClient (c : client) : action unit :=
  x ← get_ctx c;
  let s := m_socket x in
  let peerAddr := m_addr x in
  upd_ctx c (set_socket INVALID_SOCKET);;
  if s =? INVALID_SOCKET then mret tt
  else
    notifyDisconnected s peerAddr;;
    ok ← Net_setLinger s;
    if negb ok then mret tt
    else
      r ← sys_call (CancelIoEx s OvNull);
      if negb (r =? 0) && negb (r =? ERROR_NOT_FOUND) then mret tt
      else
        sys_call (Closesocket s);;
        upd_srv (λ v, srv_connCnt (u32 (m_nConnClientCnt v - 1)) v).

(** ** Posting requests *)

Definition postAccept (a : acceptor) : action bool :=
  get_acc a;; upd_acc a accept_resetBuffer;;
  sock ← Net_WSASocket;
  upd_acc a (λ x, mkAcceptIo (acc_base x) sock (m_accpetBuf x));;
  if sock =? INVALID_SOCKET then mret false
  else
    ls ← listen_socket;
    srv ← get_srv; st_assert (m_lpfnAcceptEx srv);;
    r ← sys_post (AcceptEx ls sock a) (mkOp KeyServer (OvAccept a));
    mret (accepted r).

Definition postRecv (c : client) : action PostResult :=
  get_ctx c;; upd_ctx c (λ x, set_recvIo (recv_resetBuffer (m_recvIoCtx x)) x);;
  x ← get_ctx c;
  if m_socket x =? INVALID_SOCKET then mret PostResultInvalidSocket
  else
    r ← sys_post (WSARecv (m_socket x) c) (mkOp (KeyClient c) (OvRecv c));
    mret (if accepted r then PostResultSuccesful else PostResultFailed).

(** The bytes the system sends are those at the address in [m_wsaBuf]. *)
Definition wsa_ptr (w : wsa_buf) : ptr :=
  match w with WsaMem p => p | _ => NULL end.

Definition postSend (c : client) : action PostResult :=
  x ← get_ctx c;
  if m_socket x =? INVALID_SOCKET then mret PostResultInvalidSocket
  else
    let w := m_wsaBuf (m_sendIoCtx x) in
    r ← sys_post (WSASend (m_socket x) c (wsa_ptr w.1) w.2) (mkOp (KeyClient c) (OvSend c));
    mret (if accepted r then PostResultSuccesful else PostResultFailed).

(** The buffer of the next [WSASend]: all of [m_outBuf]. *)
Definition set_sendBuf (c : client) : action unit :=
  upd_ctx c (λ x, set_sendIo (mkIo (m_postType (m_sendIoCtx x))
    (WsaMem (getBuffer (m_outBuf x) 0), getBufferLen (m_outBuf x))) x).

(** ** Sending *)

(** [m_outBufQueue.push(sendBuf)] copies the three members of [sendBuf], whose
    destructor then runs at the end of [send]. *)
Definition send (c : client) (pData : src) (len : Z) : action bool :=
  r ← on_heap (write Buffer_new pData len);
  let sendBuf : Buffer := r.2 in
  x ← get_ctx c;
  ret ← (if getBufferLen (m_outBuf x) =? 0 then
           enterIoLoop c;;
           b ← on_heap (copy (m_outBuf x) sendBuf);
           upd_ctx c (set_outBuf b);;
           set_sendBuf c;;
           result ← postSend c;
           if bool_decide (result = PostResultFailed) then
             CloseClient c;; releaseClientContext c;; mret false
           else mret true
         else
           upd_ctx c (λ y, set_outQueue (m_outBufQueue y ++ [sendBuf]) y);; mret true);
  on_heap (Buffer_delete sendBuf);;
  mret ret.

Definition echo (c : client) : action unit :=
  x ← get_ctx c;
  send c (SMem (getBuffer (m_inBuf x) 0)) (getBufferLen (m_inBuf x));;
  x ← get_ctx c;
  r ← on_heap (remove (m_inBuf x) (getBufferLen (m_inBuf x)));
  upd_ctx c (set_inBuf r.2).

(** ** Callbacks *)

Definition notifyNewConnection (c : client) : action unit :=
  x ← get_ctx c;
  addr ← Net_getpeername (m_socket x);
  upd_ctx c (set_addr addr).

Definition notifyWriteCompleted : action unit := mret tt.
Definition notifyWritePackage : action unit := mret tt.

(** The server's own answer to a package, or that of a class derived from it:
    [notifyPackageReceived] is virtual. *)
Section handlers.
Variable notifyPackageReceived : client -> action unit.

(** ** Completion of requests *)

Definition failed (r : PostResult) : bool :=
  bool_decide (r = PostResultFailed) || bool_decide (r = PostResultInvalidSocket).

Definition handleAccept (a : acceptor) (dwBytesTransferred : Z) : action bool :=
  x ← get_acc a;
  ls ← listen_socket;
  Net_updateAcceptContext ls (m_acceptSocket x);;
  srv ← get_srv;
  if m_nMaxConnClientCnt srv <=? m_nConnClientCnt srv then
    sys_call (Closesocket (m_acceptSocket x));;
    upd_acc a (λ y, mkAcceptIo (acc_base y) INVALID_SOCKET (m_accpetBuf y));;
    postAccept a;;
    mret true
  else
    upd_srv (λ v, srv_connCnt (u32 (m_nConnClientCnt v + 1)) v);;
    c ← allocateClientContext (m_acceptSocket x);
    y ← get_ctx c;
    port ← sys_call (Associate (m_socket y) (KeyClient c));
    if port =? 0 then mret false
    else
      enterIoLoop c;;
      postAccept a;;
      notifyNewConnection c;;
      addClient c;;
      result ← postRecv c;
      (if failed result then CloseClient c;; releaseClientContext c else mret tt);;
      mret true.

Definition handleRecv (c : client) (dwBytesTransferred : Z) : action bool :=
  x ← get_ctx c;
  b ← on_heap (appendToBuffer x (SObj (m_recvBuf (m_recvIoCtx x))) dwBytesTransferred);
  upd_ctx c (set_inBuf b);;
  notifyPackageReceived c;;
  result ← postRecv c;
  (if failed result then CloseClient c;; releaseClientContext c else mret tt);;
  mret true.

(** When everything has been sent: the next queued buffer, or none. *)
Definition next_outBuf (c : client) : action unit :=
  x ← get_ctx c;
  b ← on_heap (clear (m_outBuf x));
  upd_ctx c (set_outBuf b);;
  match m_outBufQueue x with
  | q :: qs =>
      b ← on_heap (copy b q);
      upd_ctx c (set_outBuf b);;
      on_heap (Buffer_delete q);;
      upd_ctx c (set_outQueue qs)
  | [] => releaseClientContext c
  end.

Definition handleSend (c : client) (dwBytesTransferred : Z) : action bool :=
  x ← get_ctx c;
  r ← on_heap (remove (m_outBuf x) dwBytesTransferred);
  upd_ctx c (set_outBuf r.2);;
  (if getBufferLen r.2 =? 0 then notifyWriteCompleted;; next_outBuf c else mret tt);;
  x ← get_ctx c;
  (if getBufferLen (m_outBuf x) =? 0 then mret tt
   else
     set_sendBuf c;;
     result ← postSend c;
     if bool_decide (result = PostResultFailed) then CloseClient c;; releaseClientContext c
     else mret tt);;
  mret false.

Definition handleClose (c : client) : action bool :=
  CloseClient c;; releaseClientContext c;; mret true.

(** ** The worker threads *)

(** What [GetQueuedCompletionStatus] hands over: its result, the packet and the
    number of bytes. *)
Record completion := mkCompletion { cp_ret : Z; cp_op : op; cp_bytes : Z }.

(** The [m_postType] of the context whose first member [lpOverlapped] is. *)
Definition post_type (ov : overlapped) : action PostType :=
  match ov with
  | OvNull => st_fault
  | OvAccept a => x ← get_acc a; mret (m_postType (acc_base x))
  | OvRecv c => x ← get_ctx c; mret (m_postType (recv_base (m_recvIoCtx x)))
  | OvSend c => x ← get_ctx c; mret (m_postType (m_sendIoCtx x))
  end.

(** The contexts a handler casts [lpOverlapped] and [lpCompletionKey] to. *)
Definition as_acceptor (ov : overlapped) : action acceptor :=
  match ov with OvAccept a => mret a | _ => st_fault end.
Definition as_client (k : compl_key) : action client :=
  match k with KeyClient c => mret c | _ => st_fault end.

(** One turn of the loop of [IocpWorkerThread]; [false] ends the thread. *)
Definition worker_turn (p : completion) : action bool :=
  srv ← get_srv;
  let k := op_key (cp_op p) in
  if bool_decide (k = KeyExit) then mret false
  else if m_bIsShutdown srv && bool_decide (k = KeyServer) then mret true
  else if negb (bool_decide (k = KeyServer)) && (cp_ret p =? 0)
  then c ← as_client k; handleClose c;; mret true
  else if negb (bool_decide (k = KeyServer)) && (cp_bytes p =? 0)
  then c ← as_client k; handleClose c;; mret true
  else
    t ← post_type (op_ov (cp_op p));
    match t with
    | ACCEPT_EVENT => a ← as_acceptor (op_ov (cp_op p)); handleAccept a (cp_bytes p);; mret true
    | RECV_EVENT => c ← as_client k; handleRecv c (cp_bytes p);; mret true
    | SEND_EVENT => c ← as_client k; handleSend c (cp_bytes p);; mret true
    | CLOSE_EVENT => c ← as_client k; handleClose c;; mret true
    | PARSE_EVNET => mret true
    end.

(** [IocpWorkerThread] over the packets it takes, in order. *)
Fixpoint IocpWorkerThread (ps : list completion) : action unit :=
  match ps with
  | [] => mret tt
  | p :: ps =>
      ex ← st_gets s_exit;
      if (ex : bool) then mret tt
      else go ← worker_turn p; if (go : bool) then IocpWorkerThread ps else mret tt
  end.
End handlers.

(** ** Starting and stopping *)

Definition IocpServer_init : action unit :=
  e ← sys_call (CreateEvent true false);
  upd_srv (srv_exitEvent e);;
  w ← sys_call (CreateEvent false true);
  upd_srv (srv_writeEvent w).

Definition associateWithCompletionPort (s : Z) (k : compl_key) : action Z :=
  match k with
  | KeyExit => sys_call NewCompletionPort
  | _ => sys_call (Associate s k)
  end.

Definition getAcceptExPtr : action bool :=
  ls ← listen_socket;
  r ← sys_call (IoctlAcceptEx ls);
  if r =? 0 then upd_srv (srv_acceptEx true);; mret true
  else sys_call (Closesocket ls);; mret false.

Definition getAcceptExSockaddrs : action bool :=
  ls ← listen_socket;
  r ← sys_call (IoctlAcceptExAddrs ls);
  if r =? 0 then upd_srv (srv_getAddrs true);; mret true
  else sys_call (Closesocket ls);; mret false.

Definition setKeepAlive (c : client) (time interval : Z) : action bool :=
  x ← get_ctx c;
  ok ← Net_setKeepAlive (m_socket x);
  if negb ok then mret false
  else
    r ← sys_call (IoctlKeepAlive (m_socket x) (u32 (time * 1000)) (u32 (interval * 1000)));
    mret (accepted r).

(** [new ListenContext(port)]: it asserts that [WSASocket] succeeded. *)
Definition ListenContext_new (port : Z) : action ListenContext :=
  s ← Net_WSASocket;
  st_assert (negb (s =? INVALID_SOCKET));;
  mret (mkListen s port).

Definition createListenClient (listenPort : Z) : action bool :=
  l ← ListenContext_new listenPort;
  upd_srv (srv_listenCtx (Some l));;
  p ← associateWithCompletionPort INVALID_SOCKET KeyExit;
  upd_srv (srv_hComPort p);;
  if p =? 0 then mret false
  else
    q ← associateWithCompletionPort (l_socket l) KeyServer;
    if q =? 0 then mret false
    else
      b ← Net_bind (l_socket l) (l_port l);
      if negb (b =? 0) then mret false
      else
        r ← Net_listen (l_socket l);
        if negb (r =? 0) then mret false
        else
          ok ← getAcceptExPtr;
          if negb ok then mret false
          else
            ok ← getAcceptExSockaddrs;
            if negb ok then mret false else mret true.

(** The loop of [createIocpWorker], [n] processors to go. *)
Fixpoint start_workers (n : nat) : action bool :=
  match n with
  | O => mret true
  | S n =>
      h ← sys_call BeginThread;
      if h =? 0 then mret false
      else
        upd_srv (λ v, srv_threads (m_hWorkerThreads v ++ [h]) v);;
        upd_srv (λ v, srv_workerCnt (m_nWorkerCnt v + 1) v);;
        start_workers n
  end.

Definition createIocpWorker : action bool :=
  n ← sys_call CpuCount; start_workers (Z.to_nat n).

Definition POST_ACCEPT_CNT : nat := 10.

(** [new AcceptIoContext(PostType::ACCEPT_EVENT)]: the constructor takes a
    socket, so the new context's socket is the enumerator's value, 0. *)
Definition new_acceptor : action acceptor :=
  a ← st_gets s_next;
  st_modify (λ s, sys_next (a + 1) (sys_accs (<[a := AcceptIoContext_new 0]> (s_accs s)) s));;
  mret a.

(** The loop of [initAcceptIoContext], [n] requests to go. *)
Fixpoint post_accepts (n : nat) : action bool :=
  match n with
  | O => mret true
  | S n =>
      a ← new_acceptor;
      upd_srv (λ v, srv_acceptList (m_acceptIoCtxList v ++ [a]) v);;
      ok ← postAccept a;
      if negb ok then mret false else post_accepts n
  end.

Definition initAcceptIoContext : action bool := post_accepts POST_ACCEPT_CNT.

Definition start : action bool :=
  ok ← Net_init;
  if negb ok then mret false
  else
    srv ← get_srv;
    ok ← createListenClient (m_listenPort srv);
    if negb ok then mret false
    else
      ok ← createIocpWorker;
      if negb ok then mret false
      else
        ok ← initAcceptIoContext;
        if negb ok then mret false else mret true.

(** One exit packet for each worker. *)
Fixpoint post_exits (n : nat) : action unit :=
  match n with
  | O => mret tt
  | S n => sys_post (PostQueued KeyExit) (mkOp KeyExit OvNull);; post_exits n
  end.

Definition exitIocpWorker : action bool :=
  srv ← get_srv;
  sys_call (SetEvent (m_hExitEvent srv));;
  st_modify (sys_exit true);;
  post_exits (Z.to_nat (m_nWorkerCnt srv));;
  sys_call (WaitThreads (m_nWorkerCnt srv));;
  mret true.

Fixpoint close_handles (hs : list Z) : action unit :=
  match hs with
  | [] => mret tt
  | h :: hs => sys_call (CloseHandle h);; close_handles hs
  end.

(** [stop] waits, for each accept, until its request has completed, and deletes
    the context. *)
Fixpoint stop_accepts (l : list acceptor) : action unit :=
  match l with
  | [] => mret tt
  | a :: l =>
      x ← get_acc a;
      sys_call (CancelIo (m_acceptSocket x));;
      sys_call (Closesocket (m_acceptSocket x));;
      st_modify (λ s, sys_accs (delete a (s_accs s)) s);;
      stop_accepts l
  end.

Definition stop : action bool :=
  exitIocpWorker;;
  srv ← get_srv;
  close_handles (m_hWorkerThreads srv);;
  stop_accepts (m_acceptIoCtxList srv);;
  upd_srv (srv_acceptList []);;
  (if m_hExitEvent srv =? 0 then mret tt
   else sys_call (CloseHandle (m_hExitEvent srv));; upd_srv (srv_exitEvent 0));;
  (if m_hComPort srv =? 0 then mret tt
   else sys_call (CloseHandle (m_hComPort srv));; upd_srv (srv_hComPort 0));;
  match m_pListenCtx srv with
  | Some l => sys_call (Closesocket (l_socket l));; upd_srv (srv_listenCtx None)
  | None => mret tt
  end;;
  removeAllClients;;
  mret true.

(** The destructor. *)
Definition IocpServer_delete : action unit := stop;; Net_unInit;; mret tt.

(** The accepts of [shutdown]: one whose request cannot be cancelled is
    skipped, but dropped from the list all the same. *)
Fixpoint shutdown_accepts (l : list acceptor) : action unit :=
  match l with
  | [] => mret tt
  | a :: l =>
      x ← get_acc a;
      r ← sys_call (CancelIoEx (m_acceptSocket x) (OvAccept a));
      (if negb (r =? 0) then mret tt
       else
         sys_call (Closesocket (m_acceptSocket x));;
         st_modify (λ s, sys_accs (delete a (s_accs s)) s));;
      shutdown_accepts l
  end.

Definition shutdown : action bool :=
  upd_srv (srv_shutdown true);;
  ls ← listen_socket;
  r ← sys_call (CancelIoEx ls OvNull);
  if negb (r =? 0) then mret false
  else
    sys_call (Closesocket ls);;
    upd_srv (λ v, srv_listenCtx (l ← m_pListenCtx v; Some (mkListen INVALID_SOCKET (l_port l))) v);;
    srv ← get_srv;
    shutdown_accepts (m_acceptIoCtxList srv);;
    upd_srv (srv_acceptList []);;
    mret false.
End server.
