(* ===== verification/ServerInv.v ===== *)
(** * Reference counts and lists of the server: the invariant

    What the counts and lists do depends on little of the state: [abs] keeps
    only the sockets, counts and lists, and the requests in flight.  [Inv] is
    the invariant on that; [ok] adds that the contexts carry the right request
    types.  A handler holds a token for the request whose completion it
    handles, until it posts the request again or gives the reference up. *)
From S2P Require Import Prelude Heap CLib Slice Buffer Os ClientContext IocpServer.

(** ** What matters of the state *)

Inductive kind := KRecv | KSend.
Definition ref : Type := client * kind.

#[export] Instance kind_eq_dec : EqDecision kind.
Proof. solve_decision. Defined.

Definition op_ref (o : op) : option ref :=
  match op_ov o with OvRecv c => Some (c, KRecv) | OvSend c => Some (c, KSend) | _ => None end.

(** Sockets and counts, the two lists, the number of connections and its
    bound, the next address and the references in flight. *)
Record abst := mkAbst {
  a_ctx : gmap client (Z * Z);
  a_conn : list client;
  a_free : list client;
  a_cnt : Z;
  a_max : Z;
  a_next : Z;
  a_refs : list ref;
}.

Definition ctx_view (x : ClientContext) : Z * Z := (m_socket x, m_nPendingIoCnt x).

Definition abs (s : Sys) : abst :=
  mkAbst (ctx_view <$> s_ctxs s) (m_connectedClientList (s_srv s)) (m_freeClientList (s_srv s))
    (m_nConnClientCnt (s_srv s)) (m_nMaxConnClientCnt (s_srv s)) (s_next s)
    (omap op_ref (s_ops s)).

(** The number of references to [c] in a list. *)
Definition count (c : client) (l : list ref) : Z := lenZ (filter (λ r : ref, r.1 = c) l).

(** The connected clients whose socket is open. *)
Definition open_in (m : gmap client (Z * Z)) (c : client) : Prop :=
  exists v, m !! c = Some v /\ v.1 <> INVALID_SOCKET.

#[export] Instance open_in_dec m c : Decision (open_in m c).
Proof.
  destruct (m !! c) as [v|] eqn:E.
  - destruct (decide (v.1 = INVALID_SOCKET)) as [H|H].
    + right. intros (w & Hw & Hn). congruence.
    + left. by exists v.
  - right. intros (w & Hw & _). congruence.
Defined.

Definition n_open (a : abst) : Z := lenZ (filter (open_in (a_ctx a)) (a_conn a)).

(** The maximum given to the constructor. *)
Class Cap := cap : Z.

(** [B] bounds the counts, [k] connections are counted that are not yet in a
    list, [tok] are the references held by the running handler. *)
Record Inv {M : Cap} (B k : Z) (tok : list ref) (a : abst) : Prop := {
  inv_nodup : NoDup (a_conn a ++ a_free a);
  inv_dom : forall c, c ∈ a_conn a ++ a_free a -> is_Some (a_ctx a !! c);
  inv_next : forall c, is_Some (a_ctx a !! c) -> c < a_next a;
  inv_refs : forall r, r ∈ a_refs a ++ tok -> r.1 ∈ a_conn a;
  inv_count : forall c v, a_ctx a !! c = Some v -> count c (a_refs a ++ tok) <= v.2 <= B;
  inv_free : forall c, c ∈ a_free a -> a_ctx a !! c = Some (INVALID_SOCKET, 0);
  inv_recv : forall c, c ∈ a_conn a -> open_in (a_ctx a) c -> (c, KRecv) ∈ a_refs a ++ tok;
  inv_cap : n_open a + k <= a_cnt a /\ 0 <= k /\ a_cnt a <= a_max a /\ a_max a = cap /\ cap < 2 ^ 32;
}.

(** Requests carry the key and the structure that belong together, and the
    contexts the type of their requests. *)
Definition op_typed (o : op) : Prop :=
  match op_ov o, op_key o with
  | OvAccept _, KeyServer => True
  | OvRecv c, KeyClient c' | OvSend c, KeyClient c' => c = c'
  | OvNull, KeyExit => True
  | _, _ => False
  end.

Definition ctx_typed (x : ClientContext) : Prop :=
  m_postType (recv_base (m_recvIoCtx x)) = RECV_EVENT /\ m_postType (m_sendIoCtx x) = SEND_EVENT.

Record typed (s : Sys) : Prop := {
  typed_ctx : map_Forall (λ _ x, ctx_typed x) (s_ctxs s);
  typed_acc : map_Forall (λ _ x, m_postType (acc_base x) = ACCEPT_EVENT) (s_accs s);
  typed_ops : Forall op_typed (s_ops s);
}.

Definition ok {M : Cap} (B k : Z) (tok : list ref) (s : Sys) : Prop := typed s /\ Inv B k tok (abs s).

(** ** Counting references *)

Lemma count_nil c : count c [] = 0.
Proof. done. Qed.

Lemma count_cons c r l : count c (r :: l) = (if decide (r.1 = c) then 1 else 0) + count c l.
Proof.
  unfold count. rewrite filter_cons. destruct (decide _); [rewrite lenZ_cons; lia|lia].
Qed.

Lemma count_app c l1 l2 : count c (l1 ++ l2) = count c l1 + count c l2.
Proof. unfold count. by rewrite filter_app, lenZ_app. Qed.

Lemma count_nonneg c l : 0 <= count c l.
Proof. apply lenZ_nonneg. Qed.

Lemma count_elem c r l : r ∈ l -> r.1 = c -> 1 <= count c l.
Proof.
  intros Hin Hc. apply list_elem_of_split in Hin as (l1 & l2 & ->).
  rewrite count_app, count_cons, decide_True by done.
  pose proof (count_nonneg c l1). pose proof (count_nonneg c l2). lia.
Qed.

Lemma count_0 c l : (forall r, r ∈ l -> r.1 <> c) -> count c l = 0.
Proof.
  induction l as [|r l IH]; intros H; [done|]. rewrite count_cons, decide_False.
  - rewrite IH; [done|]. intros r' Hr'. apply H. by right.
  - apply H. left.
Qed.

Lemma open_in_insert_eq m c v : open_in (<[c := v]> m) c <-> v.1 <> INVALID_SOCKET.
Proof.
  unfold open_in. rewrite lookup_insert_eq. split; [by intros (w & [= <-] & H)|eauto].
Qed.

Lemma open_in_insert_ne m c c' v :
  c <> c' -> open_in (<[c := v]> m) c' <-> open_in m c'.
Proof. intros Hne. unfold open_in. by rewrite lookup_insert_ne. Qed.

(** ** Changes of the abstract state *)

Section changes.
Context {M : Cap}.
Implicit Types (a : abst) (c : client) (tok : list ref).

(** Tokens in another order. *)
Lemma Inv_perm B k tok tok' a : tok ≡ₚ tok' -> Inv B k tok a -> Inv B k tok' a.
Proof.
  intros Hp [H1 H2 H3 H4 H5 H6 H7 H8]. split; try done.
  - intros r Hr. apply H4. by rewrite Hp.
  - intros c v Hv. replace (count c (a_refs a ++ tok')) with (count c (a_refs a ++ tok)); [by apply H5|].
    unfold count, lenZ. by rewrite Hp.
  - intros c Hc Ho. rewrite <- Hp. by apply H7.
Qed.

(** More room in the bounds. *)
Lemma Inv_weaken B k B' k' tok a : B <= B' -> 0 <= k' <= k -> Inv B k tok a -> Inv B' k' tok a.
Proof.
  intros HB Hk [H1 H2 H3 H4 H5 H6 H7 H8]. split; try done; [|lia].
  intros c v Hv. specialize (H5 c v Hv). lia.
Qed.

(** A token may be forgotten, unless it is what keeps an open socket's receive
    loop alive. *)
Lemma Inv_drop B k c K tok a :
  (K = KRecv -> ~ open_in (a_ctx a) c) -> Inv B k ((c, K) :: tok) a -> Inv B k tok a.
Proof.
  intros HK [H1 H2 H3 H4 H5 H6 H7 H8]. split; try done.
  - intros r Hr. apply H4. rewrite elem_of_app in *. destruct Hr; [by left|right; by right].
  - intros c' v Hv. specialize (H5 c' v Hv). rewrite ?count_app, ?count_cons in *.
    destruct (decide _); lia.
  - intros c' Hc' Ho. specialize (H7 c' Hc' Ho). rewrite elem_of_app, elem_of_cons in *.
    destruct H7 as [?|[[= -> <-]|?]]; [by left| |by right]. by destruct (HK eq_refl).
Qed.

(** A token becomes a request in flight. *)
Lemma Inv_post B k r tok a :
  Inv B k (r :: tok) a ->
  Inv B k tok (mkAbst (a_ctx a) (a_conn a) (a_free a) (a_cnt a) (a_max a) (a_next a) (a_refs a ++ [r])).
Proof.
  intros [H1 H2 H3 H4 H5 H6 H7 H8].
  assert ((a_refs a ++ [r]) ++ tok = a_refs a ++ r :: tok) as E by (by rewrite <- app_assoc).
  by split; cbn; rewrite ?E.
Qed.

(** A completion turns a request in flight into a token. *)
Lemma Inv_take B k r l1 l2 tok a :
  a_refs a = l1 ++ r :: l2 -> Inv B k tok a ->
  Inv B k (r :: tok) (mkAbst (a_ctx a) (a_conn a) (a_free a) (a_cnt a) (a_max a) (a_next a) (l1 ++ l2)).
Proof.
  intros E [H1 H2 H3 H4 H5 H6 H7 H8]. rewrite E in *.
  assert ((l1 ++ l2) ++ r :: tok ≡ₚ (l1 ++ r :: l2) ++ tok) as Hp.
  { rewrite <- !app_assoc. cbn. f_equiv. by rewrite Permutation_middle. }
  split; cbn; try done.
  - intros r' Hr'. apply H4. by rewrite <- Hp.
  - intros c v Hv. specialize (H5 c v Hv). unfold count, lenZ in *. by rewrite Hp.
  - intros c Hc Ho. rewrite Hp. by apply H7.
Qed.

Definition set_ctx a c v : abst :=
  mkAbst (<[c := v]> (a_ctx a)) (a_conn a) (a_free a) (a_cnt a) (a_max a) (a_next a) (a_refs a).

(** The open clients after the socket of [c] has been closed. *)
Lemma n_open_close a c v n :
  NoDup (a_conn a) -> a_ctx a !! c = Some v ->
  n_open (set_ctx a c (INVALID_SOCKET, n)) =
    n_open a - (if decide (c ∈ a_conn a /\ v.1 <> INVALID_SOCKET) then 1 else 0).
Proof.
  unfold n_open. cbn [a_ctx a_conn set_ctx]. intros Hnd Hv.
  induction Hnd as [|d l Hd Hnd IH].
  { rewrite decide_False; [done|]. by intros [H%elem_of_nil _]. }
  rewrite !filter_cons. destruct (decide (d = c)) as [->|Hne].
  - rewrite decide_False by (rewrite open_in_insert_eq; naive_solver). rewrite IH.
    destruct (decide (c ∈ l /\ _)) as [[? _]|_]; [done|].
    assert (open_in (a_ctx a) c <-> c ∈ c :: l /\ v.1 <> INVALID_SOCKET) as Hiff.
    { rewrite elem_of_cons. split; [intros (w & Hw & Hn)|intros [_ Hn]; by exists v].
      rewrite Hv in Hw. injection Hw as <-. auto. }
    destruct (decide (open_in (a_ctx a) c)), (decide (c ∈ c :: l /\ _)); try tauto;
      rewrite ?lenZ_cons; lia.
  - pose proof (open_in_insert_ne (a_ctx a) c d (INVALID_SOCKET, n) ltac:(congruence)) as Ho.
    assert (c ∈ d :: l /\ v.1 <> INVALID_SOCKET <-> c ∈ l /\ v.1 <> INVALID_SOCKET) as Hx.
    { rewrite elem_of_cons. split; [|by intros [? ?]; auto]. by intros [[->|?] ?]. }
    destruct (decide (open_in (<[c := _]> _) d)), (decide (open_in (a_ctx a) d)),
      (decide (c ∈ l /\ _)), (decide (c ∈ d :: l /\ _)); try tauto;
      rewrite ?lenZ_cons, IH; lia.
Qed.

Lemma open_in_same m c c' s n n' :
  m !! c = Some (s, n) -> open_in (<[c := (s, n')]> m) c' <-> open_in m c'.
Proof.
  intros Hc. destruct (decide (c = c')) as [<-|Hne]; [|by apply open_in_insert_ne].
  rewrite open_in_insert_eq. cbn. split; [intros Hs; by exists (s, n)|].
  intros (w & Hw & Hn). rewrite Hc in Hw. by injection Hw as <-.
Qed.

Lemma filter_open_ext m m' (l : list client) :
  (forall c, c ∈ l -> open_in m c <-> open_in m' c) ->
  filter (open_in m) l = filter (open_in m') l.
Proof.
  induction l as [|d l IH]; intros H; [done|]. rewrite !filter_cons, IH.
  - pose proof (H d ltac:(left)) as Hd.
    destruct (decide (open_in m d)), (decide (open_in m' d)); tauto.
  - intros c Hc. apply H. by right.
Qed.

Lemma conn_not_free B k tok a c : Inv B k tok a -> c ∈ a_conn a -> c ∉ a_free a.
Proof. intros H Hc. apply inv_nodup, NoDup_app in H as [_ [Hx _]]. by apply Hx. Qed.

Lemma set_ctx_dom B k tok a c v :
  Inv B k tok a -> c < a_next a ->
  (forall c', c' ∈ a_conn a ++ a_free a -> is_Some (a_ctx (set_ctx a c v) !! c')) /\
  (forall c', is_Some (a_ctx (set_ctx a c v) !! c') -> c' < a_next a).
Proof.
  intros H Hc. split; intros c' Hc'; cbn in *.
  - apply lookup_insert_is_Some'. right. by eapply inv_dom.
  - apply lookup_insert_is_Some' in Hc' as [<-|Hc']; [done|]. by eapply inv_next.
Qed.

(** The socket of a connected client is closed; at most one connection fewer is
    counted, and only if the socket was open. *)
Lemma Inv_close B k tok a c s n d :
  Inv B k tok a -> c ∈ a_conn a -> a_ctx a !! c = Some (s, n) ->
  0 <= d <= (if decide (s = INVALID_SOCKET) then 0 else 1) ->
  let a' := set_ctx a c (INVALID_SOCKET, n) in
  Inv B k tok (mkAbst (a_ctx a') (a_conn a) (a_free a) (a_cnt a - d) (a_max a) (a_next a) (a_refs a)).
Proof.
  intros H Hc Hv Hd a'. pose proof (conn_not_free _ _ _ _ _ H Hc) as Hnf.
  destruct (set_ctx_dom B k tok a c (INVALID_SOCKET, n) H) as [D1 D2].
  { by eapply inv_next. }
  pose proof (n_open_close a c (s, n) n) as Hn. destruct H as [H1 H2 H3 H4 H5 H6 H7 H8].
  specialize (Hn (proj1 (proj1 (NoDup_app _ _) H1)) Hv). cbn [fst] in Hn.
  split; cbn; try done.
  - intros c' v Hv'. destruct (decide (c = c')) as [<-|Hne].
    + rewrite lookup_insert_eq in Hv'. injection Hv' as <-. apply (H5 c (s, n) Hv).
    + rewrite lookup_insert_ne in Hv' by done. by apply H5.
  - intros c' Hc'. rewrite lookup_insert_ne by (intros ->; done). by apply H6.
  - intros c' Hc' Ho. destruct (decide (c = c')) as [<-|Hne].
    + by apply open_in_insert_eq in Ho.
    + apply open_in_insert_ne in Ho; [|done]. by apply H7.
  - change (n_open _) with (n_open a') at 1. unfold a'. rewrite Hn.
    destruct (decide (s = INVALID_SOCKET)), (decide (c ∈ a_conn a /\ s <> INVALID_SOCKET)); try lia; tauto.
Qed.

(** A reference is taken for a send. *)
Lemma Inv_enter B k tok a c s n :
  Inv B k tok a -> c ∈ a_conn a -> a_ctx a !! c = Some (s, n) ->
  Inv (B + 1) k ((c, KSend) :: tok) (set_ctx a c (s, n + 1)).
Proof.
  intros H Hc Hv. pose proof (conn_not_free _ _ _ _ _ H Hc) as Hnf.
  destruct (set_ctx_dom B k tok a c (s, n + 1) H) as [D1 D2]; [by eapply inv_next|].
  pose proof (open_in_same (a_ctx a) c) as Hsame. destruct H as [H1 H2 H3 H4 H5 H6 H7 H8].
  split; cbn; try done.
  - intros r. rewrite elem_of_app, elem_of_cons. intros [Hr|[->|Hr]]; [|done|];
      apply H4; rewrite elem_of_app; auto.
  - intros c' v. rewrite count_app, count_cons. cbn [fst].
    destruct (decide (c = c')) as [<-|Hne].
    + rewrite lookup_insert_eq. intros [= <-]. specialize (H5 c (s, n) Hv).
      rewrite count_app in H5. cbn in *. lia.
    + rewrite lookup_insert_ne by done. intros Hv'. specialize (H5 c' v Hv').
      rewrite count_app in H5. lia.
  - intros c' Hc'. rewrite lookup_insert_ne by (intros ->; done). by apply H6.
  - intros c' Hc' Ho. apply (Hsame c' s n (n + 1) Hv) in Ho. specialize (H7 c' Hc' Ho).
    rewrite elem_of_app in *. destruct H7; [by left|right; by right].
  - unfold n_open in *. cbn. rewrite (filter_open_ext _ (a_ctx a)); [done|].
    intros c' _. by apply (Hsame c' s n).
Qed.

Lemma open_token B k tok a c K :
  Inv B k ((c, K) :: tok) a -> c ∈ a_conn a.
Proof.
  intros H. apply (inv_refs _ _ _ _ H (c, K)). rewrite elem_of_app, elem_of_cons. auto.
Qed.

(** A reference is given up. *)
Lemma Inv_exit B k tok a c K s n :
  Inv B k ((c, K) :: tok) a -> a_ctx a !! c = Some (s, n) -> (K = KRecv -> s = INVALID_SOCKET) ->
  0 < n <= B /\ Inv B k tok (set_ctx a c (s, n - 1)).
Proof.
  intros H Hv HK. pose proof (open_token _ _ _ _ _ _ H) as Hc.
  pose proof (conn_not_free _ _ _ _ _ H Hc) as Hnf.
  assert (0 < n <= B) as Hn.
  { pose proof (inv_count _ _ _ _ H c (s, n) Hv) as Hx. rewrite count_app, count_cons in Hx.
    cbn [fst snd] in Hx. rewrite decide_True in Hx by done.
    pose proof (count_nonneg c (a_refs a)). pose proof (count_nonneg c tok). lia. }
  split; [done|].
  destruct (set_ctx_dom _ k _ a c (s, n - 1) H) as [D1 D2]; [by eapply inv_next|].
  pose proof (open_in_same (a_ctx a) c) as Hsame.
  assert (K = KRecv -> ~ open_in (a_ctx a) c) as HK'.
  { intros E (w & Hw & Hne). rewrite Hv in Hw. injection Hw as <-. by apply Hne, HK. }
  pose proof (Inv_drop _ _ _ _ _ _ HK' H) as [H1 H2 H3 H4 _ H6 H7 H8].
  destruct H as [_ _ _ _ H5 _ _ _]. split; cbn; try done.
  - intros c' v. specialize (H5 c'). rewrite count_app in *. destruct (decide (c = c')) as [<-|Hne].
    + rewrite lookup_insert_eq. intros [= <-]. specialize (H5 (s, n) Hv).
      rewrite count_cons in H5. cbn [fst snd] in *. rewrite decide_True in H5 by done. lia.
    + rewrite lookup_insert_ne by done. intros Hv'. specialize (H5 v Hv').
      rewrite count_cons in H5. cbn [fst] in H5. rewrite decide_False in H5 by done. lia.
  - intros c' Hc'. rewrite lookup_insert_ne by (intros ->; done). by apply H6.
  - intros c' Hc' Ho. apply (Hsame c' s n (n - 1) Hv) in Ho. by apply H7.
  - unfold n_open in *. cbn. rewrite (filter_open_ext _ (a_ctx a)); [done|].
    intros c' _. by apply (Hsame c' s n).
Qed.

Lemma filter_without (P : client -> Prop) `{!forall x, Decision (P x)} c (l : list client) :
  lenZ (filter P (filter (.≠ c) l)) <= lenZ (filter P l).
Proof.
  unfold lenZ. apply Nat2Z.inj_le. induction l as [|x l IH]; [done|]. rewrite !filter_cons.
  destruct (decide (x <> c)); rewrite ?filter_cons; destruct (decide (P x)); cbn; lia.
Qed.

(** A connected client nothing refers to any more moves to the free list: its
    socket is closed. *)
Lemma Inv_free_client B k tok a c s :
  Inv B k tok a -> c ∈ a_conn a -> a_ctx a !! c = Some (s, 0) ->
  Inv B k tok (mkAbst (a_ctx a) (filter (.≠ c) (a_conn a)) (a_free a ++ [c]) (a_cnt a)
                 (a_max a) (a_next a) (a_refs a)).
Proof.
  intros H Hc Hv. destruct H as [H1 H2 H3 H4 H5 H6 H7 H8].
  assert (forall r, r ∈ a_refs a ++ tok -> r.1 <> c) as Hno.
  { intros r Hr E. pose proof (count_elem c r _ Hr E). specialize (H5 c _ Hv). cbn in H5. lia. }
  assert (s = INVALID_SOCKET) as ->.
  { destruct (decide (s = INVALID_SOCKET)) as [E|E]; [done|]. exfalso.
    apply (Hno (c, KRecv)); [|done]. apply H7; [done|]. by exists (s, 0). }
  apply NoDup_app in H1 as (N1 & N2 & N3). split; cbn; try done.
  - apply NoDup_app. split_and!; [by apply NoDup_filter| |].
    + intros x [Hx Hxc]%list_elem_of_filter. rewrite elem_of_app, list_elem_of_singleton.
      intros [?|?]; [by eapply N2|done].
    + apply NoDup_app. split_and!; [done| |apply NoDup_singleton].
      intros x Hx. rewrite list_elem_of_singleton. intros ->. by eapply N2.
  - intros x. rewrite !elem_of_app, list_elem_of_filter, list_elem_of_singleton.
    intros [[_ Hx]|[Hx|Hx]]; apply H2; rewrite elem_of_app; [by left|by right|subst; by left].
  - intros r Hr. rewrite list_elem_of_filter. split; [by apply Hno|by apply H4].
  - intros x. rewrite elem_of_app, list_elem_of_singleton. intros [Hx|Hx]; [by apply H6|by subst x].
  - intros x [_ Hx]%list_elem_of_filter. by apply H7.
  - unfold n_open in *. cbn. split; [|lia].
    pose proof (filter_without (open_in (a_ctx a)) c (a_conn a)). lia.
Qed.

(** What happens to a context in neither list. *)
Lemma Inv_detached B k tok a c v :
  Inv B k tok a -> c ∉ a_conn a ++ a_free a -> c < a_next a -> 0 <= v.2 <= B ->
  Inv B k tok (set_ctx a c v).
Proof.
  intros H Hc Hn Hv. destruct (set_ctx_dom B k tok a c v H Hn) as [D1 D2].
  destruct H as [H1 H2 H3 H4 H5 H6 H7 H8].
  assert (forall c', c' ∈ a_conn a ++ a_free a -> c <> c') as Hne by (intros c' ? ->; done).
  split; cbn; try done.
  - intros c' w. destruct (decide (c = c')) as [<-|Hcc].
    + rewrite lookup_insert_eq. intros [= <-]. rewrite count_0; [done|].
      intros r Hr E. apply Hc. rewrite elem_of_app. left. rewrite <- E. by apply H4.
    + rewrite lookup_insert_ne by done. apply H5.
  - intros c' Hc'. rewrite lookup_insert_ne by (apply Hne; rewrite elem_of_app; auto). by apply H6.
  - intros c' Hc' Ho. apply H7; [done|]. eapply open_in_insert_ne; [|exact Ho].
    apply Hne. rewrite elem_of_app. auto.
  - unfold n_open in *. cbn. rewrite (filter_open_ext _ (a_ctx a)); [done|].
    intros c' Hc'. apply open_in_insert_ne. apply Hne. rewrite elem_of_app. auto.
Qed.

(** The first free context is taken off its list. *)
Lemma Inv_pop B k tok a c (fs : list client) :
  Inv B k tok a -> a_free a = c :: fs ->
  let a' := mkAbst (a_ctx a) (a_conn a) fs (a_cnt a) (a_max a) (a_next a) (a_refs a) in
  Inv B k tok a' /\ (c ∉ a_conn a' ++ a_free a') /\ (c < a_next a') /\
  a_ctx a' !! c = Some (INVALID_SOCKET, 0).
Proof.
  intros [H1 H2 H3 H4 H5 H6 H7 H8] E. rewrite E in *. cbn zeta. cbn.
  assert (a_ctx a !! c = Some (INVALID_SOCKET, 0)) as Hv by (apply H6; left).
  apply NoDup_app in H1 as (N1 & N2 & N3). apply NoDup_cons in N3 as [N3 N4]. split_and!.
  - split; cbn; try done.
    + apply NoDup_app. split_and!; [done| |done]. intros x Hx Hf. apply (N2 x Hx). by right.
    + intros x Hx. apply H2. rewrite !elem_of_app, elem_of_cons in *. tauto.
    + intros x Hx. apply H6. by right.
  - rewrite elem_of_app. intros [Hc|Hc]; [|done]. apply (N2 c Hc). left.
  - apply H3. by rewrite Hv.
  - done.
Qed.

(** A new context is created. *)
Lemma Inv_new B k tok a v :
  Inv B k tok a -> 0 <= v.2 <= B ->
  let c := a_next a in
  let a' := mkAbst (<[c := v]> (a_ctx a)) (a_conn a) (a_free a) (a_cnt a) (a_max a) (c + 1) (a_refs a) in
  Inv B k tok a' /\ (c ∉ a_conn a' ++ a_free a') /\ (c < a_next a').
Proof.
  intros H Hv c a'.
  assert (c ∉ a_conn a ++ a_free a) as Hc.
  { intros Hin. apply (inv_dom _ _ _ _ H) in Hin. apply (inv_next _ _ _ _ H) in Hin. unfold c in *. lia. }
  split_and!; [|done|cbn; lia].
  set (b := mkAbst (a_ctx a) (a_conn a) (a_free a) (a_cnt a) (a_max a) (c + 1) (a_refs a)).
  apply (Inv_detached B k tok b c v); [|done|cbn; lia|done].
  destruct H as [H1 H2 H3 H4 H5 H6 H7 H8]. split; cbn; try done.
  intros c' Hc'. specialize (H3 c' Hc'). unfold c. lia.
Qed.

(** A detached context with one reference joins the connected clients. *)
Lemma Inv_add B k tok a c s n :
  Inv B (k + 1) tok a -> c ∉ a_conn a ++ a_free a -> a_ctx a !! c = Some (s, n) -> 1 <= n <= B ->
  0 <= k ->
  Inv B k ((c, KRecv) :: tok)
    (mkAbst (a_ctx a) (a_conn a ++ [c]) (a_free a) (a_cnt a) (a_max a) (a_next a) (a_refs a)).
Proof.
  intros [H1 H2 H3 H4 H5 H6 H7 H8] Hc Hv Hn Hk. rewrite elem_of_app in Hc.
  assert (forall r, r ∈ a_refs a ++ tok -> r.1 <> c) as Hno.
  { intros r Hr E. apply Hc. left. rewrite <- E. by apply H4. }
  apply NoDup_app in H1 as (N1 & N2 & N3). split; cbn; try done.
  - apply NoDup_app. split_and!; [apply NoDup_app; split_and!| |done].
    + done.
    + intros x Hx. rewrite list_elem_of_singleton. intros ->. tauto.
    + apply NoDup_singleton.
    + intros x. rewrite elem_of_app, list_elem_of_singleton. intros [Hx|Hx] Hf; [by eapply N2|].
      subst x. tauto.
  - intros x. rewrite !elem_of_app, list_elem_of_singleton. intros [[Hx|Hx]|Hx].
    + apply H2. rewrite elem_of_app. auto.
    + by rewrite Hx, Hv.
    + apply H2. rewrite elem_of_app. auto.
  - intros r. rewrite !elem_of_app, elem_of_cons, list_elem_of_singleton.
    intros [Hr|[->|Hr]]; [left; apply H4; rewrite elem_of_app; auto|by right|
                          left; apply H4; rewrite elem_of_app; auto].
  - intros c' v Hv'. rewrite count_app, count_cons. cbn [fst]. specialize (H5 c' v Hv').
    destruct (decide (c = c')) as [<-|Hne].
    + rewrite Hv in Hv'. injection Hv' as <-. cbn in *.
      pose proof (count_0 c _ Hno) as H0. rewrite count_app in H0. lia.
    + rewrite count_app in H5. lia.
  - intros c' Hc' Ho. rewrite elem_of_app, list_elem_of_singleton in Hc'.
    rewrite elem_of_app, elem_of_cons.
    destruct Hc' as [Hc'| ->]; [|by right; left].
    specialize (H7 c' Hc' Ho). rewrite elem_of_app in H7. destruct H7; [by left|by right; right].
  - unfold n_open in *. cbn. rewrite filter_app, lenZ_app, filter_cons, filter_nil.
    destruct (decide (open_in (a_ctx a) c)); unfold lenZ in *; cbn [length] in *; lia.
Qed.
End changes.
