(* ===== verification/ServerSafe.v ===== *)
(** * The server's operations keep the invariant

    Each operation of [IocpServer] has a triple about [ok]: which tokens the
    handler holds before and after it.  The callback [notifyPackageReceived] is
    an interface, [Notify]: whatever implements it may use the token of the
    receive that is being handled, and must leave it. *)
From S2P Require Import Prelude Heap CLib Slice Buffer Os ClientContext IocpServer ServerInv.

(** Changes of the other members are quiet. *)
Ltac quiet_change := intros ?; split; [reflexivity|by intros [? ?]; split].

Section silent.
Context {VM : VirtualMem} {OS : WinOS}.
Implicit Types (s : Sys) (c : client) (tok : list ref) (B k : Z).

(** ** Changes of one context *)

Lemma alter_as_insert {V} (m : gmap Z V) c f x : m !! c = Some x -> alter f c m = <[c := f x]> m.
Proof.
  intros Hx. apply map_eq. intros i. destruct (decide (c = i)) as [<-|Hne].
  - by rewrite lookup_alter_eq, lookup_insert_eq, Hx.
  - by rewrite lookup_alter_ne, lookup_insert_ne.
Qed.

Lemma abs_upd s c f x :
  s_ctxs s !! c = Some x ->
  abs (sys_ctxs (alter f c (s_ctxs s)) s) = set_ctx (abs s) c (ctx_view (f x)).
Proof.
  intros Hx. unfold abs, set_ctx. cbn. f_equal.
  by rewrite (alter_as_insert _ c f x Hx), fmap_insert.
Qed.

Lemma abs_lookup s c x : s_ctxs s !! c = Some x -> a_ctx (abs s) !! c = Some (ctx_view x).
Proof. intros Hx. cbn. by rewrite lookup_fmap, Hx. Qed.

Lemma set_ctx_id a c v : a_ctx a !! c = Some v -> set_ctx a c v = a.
Proof. intros H. unfold set_ctx. rewrite insert_id by done. by destruct a. Qed.

Lemma typed_upd s c f x :
  typed s -> s_ctxs s !! c = Some x -> ctx_typed (f x) ->
  typed (sys_ctxs (alter f c (s_ctxs s)) s).
Proof.
  intros [T1 T2 T3] Hx Hf. split; cbn; [|done..].
  rewrite (alter_as_insert _ c f x Hx). by apply map_Forall_insert_2.
Qed.

Lemma typed_get s c x : typed s -> s_ctxs s !! c = Some x -> ctx_typed x.
Proof. intros [T _ _] Hx. by apply (T c). Qed.

(** A change of a context that touches neither its socket nor its count nor
    the types of its requests. *)
Definition quiet (f : ClientContext -> ClientContext) : Prop :=
  forall x, ctx_view (f x) = ctx_view x /\ (ctx_typed x -> ctx_typed (f x)).

Lemma quiet_step s c f :
  quiet f -> typed s ->
  typed (sys_ctxs (alter f c (s_ctxs s)) s) /\ abs (sys_ctxs (alter f c (s_ctxs s)) s) = abs s.
Proof.
  intros Hf Ht. destruct (s_ctxs s !! c) as [x|] eqn:Hx.
  - destruct (Hf x) as [Hv Hty]. split.
    + eapply typed_upd; [done..|]. apply Hty. by eapply typed_get.
    + rewrite (abs_upd s c f x Hx), Hv, set_ctx_id; [done|]. by apply abs_lookup.
  - assert (alter f c (s_ctxs s) = s_ctxs s) as ->; [|by destruct s].
    apply map_eq. intros i. destruct (decide (c = i)) as [<-|Hne].
    + by rewrite lookup_alter_eq, Hx.
    + by rewrite lookup_alter_ne.
Qed.

(** ** Silent actions: they change nothing that the invariant is about *)

Definition silent {A} (m : action A) : Prop :=
  forall R : abst -> Prop, triple (λ s, typed s /\ R (abs s)) m (λ _ s, typed s /\ R (abs s)).

Lemma silent_ret {A} (x : A) : silent (mret x).
Proof. intros R. by apply triple_ret. Qed.

Lemma silent_bind {A C} (m : action A) (f : A -> action C) :
  silent m -> (forall a, silent (f a)) -> silent (m ≫= f).
Proof. intros Hm Hf R. eapply triple_bind; [apply Hm|intros a; apply Hf]. Qed.

Lemma silent_if {A} (b : bool) (m1 m2 : action A) :
  silent m1 -> silent m2 -> silent (if b then m1 else m2).
Proof. by destruct b. Qed.

Lemma silent_gets {A} (f : Sys -> A) : silent (st_gets f).
Proof. intros R. by apply triple_gets. Qed.

Lemma silent_reads {A} (f : Sys -> option A) : silent (st_reads f).
Proof. intros R. by apply triple_reads. Qed.

Lemma silent_assert b : silent (st_assert b).
Proof. intros R. by apply triple_assert. Qed.

Lemma silent_modify f :
  (forall s, typed s -> typed (f s) /\ abs (f s) = abs s) -> silent (st_modify f).
Proof. intros H R. apply triple_modify. intros s [Ht HR]. destruct (H s Ht) as [? ->]. done. Qed.

Lemma silent_quiet c f : quiet f -> silent (upd_ctx c f).
Proof. intros Hf. apply silent_modify. intros s. by apply quiet_step. Qed.

Lemma silent_call x : silent (sys_call x).
Proof. intros R s r s' [[T1 T2 T3] HR] [= <- <-]. by split. Qed.

Lemma silent_heap {A} (m : ST heap A) : silent (on_heap m).
Proof.
  intros R s r s' [[T1 T2 T3] HR]. unfold on_heap. destruct (m _) as [[a h]|]; [|done].
  intros [= <- <-]. by split.
Qed.

Lemma silent_acc a f :
  (forall x, m_postType (acc_base (f x)) = m_postType (acc_base x)) -> silent (upd_acc a f).
Proof.
  intros Hf. apply silent_modify. intros s [T1 T2 T3]. split; [|done].
  split; cbn; [done| |done]. intros b y Hy. destruct (decide (a = b)) as [<-|Hne].
  - rewrite lookup_alter_eq in Hy. destruct (s_accs s !! a) as [x|] eqn:Hx; [|done].
    injection Hy as <-. rewrite Hf. by apply (T2 a).
  - rewrite lookup_alter_ne in Hy by done. by apply (T2 b).
Qed.

(** A request that does not belong to a client. *)
Lemma silent_post x o : op_ref o = None -> op_typed o -> silent (sys_post x o).
Proof.
  intros Ho Hty. apply silent_bind; [apply silent_call|]. intros r.
  apply silent_bind; [|intros ?; apply silent_ret]. apply silent_if; [|apply silent_ret].
  apply silent_modify. intros s [T1 T2 T3]. split.
  - split; cbn; [done..|]. apply Forall_app. split; [done|by constructor].
  - unfold abs. cbn. rewrite omap_app. cbn. by rewrite Ho, app_nil_r.
Qed.

End silent.

(** Goes through a sequence of silent actions. *)
Ltac silent_auto :=
  repeat first
    [ apply silent_post; [reflexivity|exact I] | apply silent_bind; [|intros ?] | apply silent_if | apply silent_ret | apply silent_gets
    | apply silent_reads | apply silent_assert | apply silent_call | apply silent_heap
    | apply silent_quiet; quiet_change | apply silent_acc; reflexivity ].

Section safe.
Context {VM : VirtualMem} {OS : WinOS} {M : Cap}.
Implicit Types (s : Sys) (c : client) (tok : list ref) (B k : Z).

Lemma silent_listen_socket : silent listen_socket.
Proof. unfold listen_socket, get_srv, deref. silent_auto. Qed.

Lemma silent_postAccept a : silent (postAccept a).
Proof.
  unfold postAccept, get_acc, get_srv, Net_WSASocket. silent_auto.
Qed.

Lemma silent_reset c : silent (reset c).
Proof. unfold reset, get_ctx. silent_auto. Qed.

Lemma silent_notifyNewConnection c : silent (notifyNewConnection c).
Proof. unfold notifyNewConnection, get_ctx, Net_getpeername. silent_auto. Qed.

(** ** Triples of the basic actions *)

(** Under [ok], with something more known of the abstract state. *)
Definition okx B k tok (R : abst -> Prop) (s : Sys) : Prop := ok B k tok s /\ R (abs s).

Lemma silent_okx {A} (m : action A) B k tok R :
  silent m -> triple (okx B k tok R) m (λ _, okx B k tok R).
Proof.
  intros Hm. eapply triple_conseq; [apply (Hm (λ a, Inv B k tok a /\ R a))|..].
  - intros s [[Ht Hi] HR]. done.
  - intros a s (Ht & Hi & HR). done.
Qed.

Lemma silent_ok {A} (m : action A) B k tok :
  silent m -> triple (ok B k tok) m (λ _, ok B k tok).
Proof. intros Hm. apply (Hm (Inv B k tok)). Qed.

Lemma t_get_ctx (P : Sys -> Prop) c :
  triple P (get_ctx c) (λ x s, P s /\ s_ctxs s !! c = Some x).
Proof. by apply triple_reads. Qed.

Lemma t_get_srv (P : Sys -> Prop) : triple P get_srv (λ v s, P s /\ v = s_srv s).
Proof. by apply triple_gets. Qed.

Lemma t_get_acc (P : Sys -> Prop) a :
  triple P (get_acc a) (λ x s, P s /\ s_accs s !! a = Some x).
Proof. by apply triple_reads. Qed.

Lemma t_quiet B k tok c f :
  quiet f -> triple (ok B k tok) (upd_ctx c f) (λ _, ok B k tok).
Proof. intros Hf. by apply silent_ok, silent_quiet. Qed.

Lemma t_call B k tok x : triple (ok B k tok) (sys_call x) (λ _, ok B k tok).
Proof. apply silent_ok, silent_call. Qed.

Lemma t_heap {A} B k tok (m : ST heap A) : triple (ok B k tok) (on_heap m) (λ _, ok B k tok).
Proof. apply silent_ok, silent_heap. Qed.

(** What is known about one context beside the invariant. *)
Definition closed c s : Prop := forall x, s_ctxs s !! c = Some x -> m_socket x = INVALID_SOCKET.

Lemma closed_abs c s : closed c s -> ~ open_in (a_ctx (abs s)) c.
Proof.
  intros Hc (w & Hw & Hn). cbn in Hw. rewrite lookup_fmap in Hw.
  destruct (s_ctxs s !! c) as [x|] eqn:Hx; [|done]. injection Hw as <-. by apply Hn, Hc.
Qed.

(** ** Reference counts *)

Lemma t_enter B k tok c :
  B < 2 ^ 32 - 1 ->
  triple (λ s, ok B k tok s /\ c ∈ a_conn (abs s)) (enterIoLoop c)
    (λ _, ok (B + 1) k ((c, KSend) :: tok)).
Proof.
  intros HB. unfold enterIoLoop. t_bind t_get_ctx. apply triple_modify.
  intros s [[[Ht Hi] Hc] Hx]. split.
  - eapply typed_upd; [done..|]. exact (typed_get _ _ _ Ht Hx).
  - rewrite (abs_upd _ _ _ _ Hx). pose proof (abs_lookup _ _ _ Hx) as Hv.
    pose proof (inv_count _ _ _ _ Hi _ _ Hv) as Hn. cbn [ctx_view snd] in Hn.
    pose proof (count_nonneg c (a_refs (abs s) ++ tok)). unfold ctx_view. cbn [m_socket m_nPendingIoCnt set_pending].
    rewrite u32_small by lia. by apply Inv_enter.
Qed.

Lemma t_release B k tok c K :
  B < 2 ^ 31 ->
  triple (λ s, ok B k ((c, K) :: tok) s /\ (K = KRecv -> closed c s)) (releaseClientContext c)
    (λ _, ok B k tok).
Proof.
  intros HB s r s' [[Ht Hi] HK] Hrun. unfold releaseClientContext in Hrun. st_inv Hrun.
  unfold exitIoLoop in E. st_inv E. unfold get_ctx, st_reads in E0.
  destruct (s_ctxs s !! c) as [x|] eqn:Hx; [|done]. injection E0 as <- <-.
  st_inv E. injection E0 as <- <-. st_inv E. unfold get_ctx, st_reads in E0. cbn in E0.
  rewrite lookup_alter_eq, Hx in E0. cbn in E0. injection E0 as <- <-.
  injection E as <- <-. cbn [m_nPendingIoCnt set_pending] in Hrun.
  pose proof (abs_lookup _ _ _ Hx) as Hv. unfold ctx_view in Hv.
  destruct (Inv_exit _ _ _ _ _ _ _ _ Hi Hv) as [Hn Hi'].
  { intros E. by apply (HK E x). }
  rewrite u32_small in Hrun by lia. rewrite s32_small in Hrun by lia.
  set (s1 := sys_ctxs _ s) in Hrun.
  assert (abs s1 = set_ctx (abs s) c (m_socket x, m_nPendingIoCnt x - 1)) as E1.
  { unfold s1. rewrite (abs_upd _ _ _ _ Hx). unfold ctx_view. cbn. by rewrite u32_small by lia. }
  assert (typed s1) as Ht1.
  { eapply typed_upd; [done..|]. exact (typed_get _ _ _ Ht Hx). }
  destruct (Z.leb_spec (m_nPendingIoCnt x - 1) 0).
  2: { injection Hrun as <- <-. split; [done|]. by rewrite E1. }
  unfold removeClient in Hrun. st_inv Hrun. injection E as <- <-.
  pose proof (open_token _ _ _ _ _ _ Hi) as Hc. rewrite bool_decide_true in Hrun by exact Hc.
  injection Hrun as <- <-. split; [by destruct Ht1|].
  assert (m_nPendingIoCnt x - 1 = 0) as E0 by lia. rewrite E0 in *.
  rewrite <- E1 in Hi'. apply (Inv_free_client _ _ _ _ c (m_socket x)) in Hi'; [exact Hi'|exact Hc|].
  rewrite E1. cbn. by rewrite lookup_insert_eq.
Qed.

(** ** Closing *)

(** One connection fewer is counted. *)
Definition uncount (a : abst) : abst :=
  mkAbst (a_ctx a) (a_conn a) (a_free a) (a_cnt a - 1) (a_max a) (a_next a) (a_refs a).

(** Inside [CloseClient], once the member has been cleared: if the socket was
    open, the invariant holds with and without its connection counted. *)
Definition closing B k tok c (was_open : bool) s : Prop :=
  typed s /\ closed c s /\ c ∈ a_conn (abs s) /\ Inv B k tok (abs s) /\
  (was_open = true -> Inv B k tok (uncount (abs s))).

Lemma t_closing_call B k tok c b x :
  triple (closing B k tok c b) (sys_call x) (λ _, closing B k tok c b).
Proof. intros s r s' [[T1 T2 T3] Hrest] [= <- <-]. split; [by split|exact Hrest]. Qed.

Lemma t_closing_start B k tok c x :
  triple (λ s, (ok B k tok s /\ c ∈ a_conn (abs s)) /\ s_ctxs s !! c = Some x)
    (upd_ctx c (set_socket INVALID_SOCKET))
    (λ _, closing B k tok c (negb (m_socket x =? INVALID_SOCKET))).
Proof.
  apply triple_modify. intros s [[[Ht Hi] Hc] Hx].
  pose proof (abs_lookup _ _ _ Hx) as Hv. unfold ctx_view in Hv.
  split_and!.
  - eapply typed_upd; [done..|]. exact (typed_get _ _ _ Ht Hx).
  - intros y. cbn. rewrite lookup_alter_eq, Hx. by intros [= <-].
  - done.
  - rewrite (abs_upd _ _ _ _ Hx). unfold ctx_view. cbn [m_socket m_nPendingIoCnt set_socket].
    pose proof (Inv_close _ _ _ _ c _ _ 0 Hi Hc Hv) as H. cbn zeta in H.
    rewrite Z.sub_0_r in H. apply H. destruct (decide _); lia.
  - intros Hs%negb_true_iff%Z.eqb_neq. rewrite (abs_upd _ _ _ _ Hx).
    unfold ctx_view. cbn [m_socket m_nPendingIoCnt set_socket].
    apply (Inv_close _ _ _ _ c _ _ 1 Hi Hc Hv). rewrite decide_False by done. lia.
Qed.

Lemma t_close B k tok c :
  triple (λ s, ok B k tok s /\ c ∈ a_conn (abs s)) (CloseClient c)
    (λ _ s, ok B k tok s /\ closed c s /\ c ∈ a_conn (abs s)).
Proof.
  unfold CloseClient. t_bind t_get_ctx. rename a into x. t_bind t_closing_start.
  set (b := negb (m_socket x =? INVALID_SOCKET)).
  assert (forall s, closing B k tok c b s -> ok B k tok s /\ closed c s /\ c ∈ a_conn (abs s)) as Hend.
  { intros s (? & ? & ? & ? & _). done. }
  destruct (m_socket x =? INVALID_SOCKET) eqn:Es; [by apply triple_ret|].
  unfold notifyDisconnected. eapply triple_bind; [by apply triple_ret with (Q := λ _, closing B k tok c b)|].
  intros ?. cbv beta. unfold Net_setLinger. eapply triple_bind.
  { t_bind (t_closing_call B k tok c b). by apply triple_ret with (Q := λ _, closing B k tok c b). }
  intros ok1. cbv beta. apply triple_if; intros _; [by apply triple_ret|].
  t_bind (t_closing_call B k tok c b). apply triple_if; intros _; [by apply triple_ret|].
  t_bind (t_closing_call B k tok c b). apply triple_modify. intros s (Ht & Hc & Hin & Hi & Hu).
  specialize (Hu eq_refl). pose proof (inv_cap _ _ _ _ Hu) as Hcap. cbn in Hcap.
  assert (0 <= n_open (uncount (abs s))) by apply lenZ_nonneg.
  assert (abs (sys_srv (srv_connCnt (u32 (m_nConnClientCnt (s_srv s) - 1)) (s_srv s)) s) =
          uncount (abs s)) as E.
  { unfold abs, uncount. cbn. f_equal. apply u32_small. lia. }
  split_and!; [|exact Hc|exact Hin]. split; [by destruct Ht|]. by rewrite E.
Qed.

(** A handler closes the connection and gives up its reference. *)
Lemma t_close_release B k tok c K :
  B < 2 ^ 31 ->
  triple (ok B k ((c, K) :: tok)) (CloseClient c;; releaseClientContext c) (λ _, ok B k tok).
Proof.
  intros HB. eapply triple_bind.
  - eapply triple_pre; [apply t_close|]. intros s H. split; [exact H|].
    destruct H as [_ Hi]. by eapply open_token.
  - intros ?. eapply triple_pre; [by apply t_release|]. intros s (H & Hc & _). by split.
Qed.

(** ** Posting *)

Definition req_op c (K : kind) : op :=
  mkOp (KeyClient c) (match K with KRecv => OvRecv c | KSend => OvSend c end).

Lemma t_post B k tok c K x :
  triple (ok B k ((c, K) :: tok)) (sys_post x (req_op c K))
    (λ r s, if accepted r then ok B k tok s else ok B k ((c, K) :: tok) s).
Proof.
  unfold sys_post. t_bind t_call. destruct (accepted a) eqn:Ea.
  - intros s r s' [[T1 T2 T3] Hi] [= <- <-]. rewrite Ea. split.
    + split; cbn; [done..|]. apply Forall_app. split; [done|].
      constructor; [by destruct K|constructor].
    + assert (abs (sys_ops (s_ops s ++ [req_op c K]) s) =
        mkAbst (a_ctx (abs s)) (a_conn (abs s)) (a_free (abs s)) (a_cnt (abs s)) (a_max (abs s))
          (a_next (abs s)) (a_refs (abs s) ++ [(c, K)])) as ->.
      { unfold abs. cbn. f_equal. rewrite omap_app. f_equal. by destruct K. }
      by apply Inv_post.
  - intros s r s' H [= <- <-]. by rewrite Ea.
Qed.

Definition posted B k tok c K (r : PostResult) s : Prop :=
  if failed r then ok B k ((c, K) :: tok) s else ok B k tok s.

Lemma t_postRecv B k tok c :
  triple (ok B k ((c, KRecv) :: tok)) (postRecv c) (posted B k tok c KRecv).
Proof.
  unfold postRecv. t_bind t_get_ctx.
  eapply triple_bind with (R := λ _, ok B k ((c, KRecv) :: tok)).
  { eapply triple_pre; [apply t_quiet|by intros s [H _]]. quiet_change. }
  intros ?. t_bind t_get_ctx. apply triple_if; intros _.
  { apply triple_ret. by intros s [H _]. }
  eapply triple_bind.
  { eapply triple_pre; [apply (t_post B k tok c KRecv)|by intros s [H _]]. }
  intros r. apply triple_ret. intros s H. unfold posted. by destruct (accepted r).
Qed.

Lemma t_postSend B k tok c :
  triple (ok B k ((c, KSend) :: tok)) (postSend c) (posted B k tok c KSend).
Proof.
  unfold postSend. t_bind t_get_ctx. apply triple_if; intros _.
  { apply triple_ret. by intros s [H _]. }
  cbv zeta. eapply triple_bind.
  { eapply triple_pre; [apply (t_post B k tok c KSend)|by intros s [H _]]. }
  intros r. apply triple_ret. intros s H. unfold posted. by destruct (accepted r).
Qed.

Lemma ok_drop_send B k tok c s : ok B k ((c, KSend) :: tok) s -> ok B k tok s.
Proof. intros [Ht Hi]. split; [done|]. by apply (Inv_drop B k c KSend) in Hi. Qed.

Lemma ok_weaken B k B' k' tok s : B <= B' -> 0 <= k' <= k -> ok B k tok s -> ok B' k' tok s.
Proof. intros HB Hk [Ht Hi]. split; [done|]. by eapply Inv_weaken. Qed.

Lemma ok_swap B k r1 r2 tok s : ok B k (r1 :: r2 :: tok) s -> ok B k (r2 :: r1 :: tok) s.
Proof. intros [Ht Hi]. split; [done|]. eapply Inv_perm; [|done]. apply Permutation_swap. Qed.

(** After a receive could not be posted. *)
Lemma t_recv_failed B k tok c r :
  B < 2 ^ 31 ->
  triple (posted B k tok c KRecv r)
    (if failed r then CloseClient c;; releaseClientContext c else mret tt) (λ _, ok B k tok).
Proof.
  intros HB. unfold posted. destruct (failed r); [by apply t_close_release|by apply triple_ret].
Qed.

(** ** Sending *)

Lemma t_set_sendBuf B k tok c : triple (ok B k tok) (set_sendBuf c) (λ _, ok B k tok).
Proof. apply t_quiet. quiet_change. Qed.

(** [send] uses no token of its own, but its client must be connected. *)
Lemma t_send B k tok c p n :
  B < 2 ^ 31 - 1 ->
  triple (ok B k ((c, KRecv) :: tok)) (send c p n) (λ _, ok (B + 1) k ((c, KRecv) :: tok)).
Proof.
  intros HB. unfold send. t_bind @t_heap. rename a into w. t_bind t_get_ctx. rename a into x.
  eapply triple_bind with (R := λ _, ok (B + 1) k ((c, KRecv) :: tok)).
  2: { intros ret. t_bind @t_heap. apply triple_ret. done. }
  apply triple_if; intros _.
  - eapply triple_bind.
    { eapply triple_pre; [apply (t_enter B k ((c, KRecv) :: tok) c); lia|].
      intros s [H _]. split; [exact H|]. destruct H as [_ Hi]. by eapply open_token. }
    intros ?. cbv beta. t_bind @t_heap.
    eapply triple_bind; [apply t_quiet; by intros y|]. intros ?. cbv beta.
    t_bind t_set_sendBuf. eapply triple_bind; [apply t_postSend|intros r; cbv beta].
    unfold posted. destruct r; cbn -[CloseClient releaseClientContext].
    + by apply triple_ret.
    + eapply triple_bind.
      { eapply triple_pre; [apply t_close|]. intros s H. split; [exact H|].
        destruct H as [_ Hi]. by eapply open_token. }
      intros ?. eapply triple_bind.
      { eapply triple_pre; [apply (t_release (B + 1) k ((c, KRecv) :: tok) c KSend); lia|].
        intros s (H & _ & _). by split. }
      intros ?. by apply triple_ret.
    + apply triple_ret. intros s H. by apply ok_drop_send in H.
  - eapply triple_bind with (R := λ _, ok B k ((c, KRecv) :: tok)).
    { eapply triple_pre; [apply t_quiet; quiet_change|by intros s [H _]]. }
    intros ?. apply triple_ret. intros s H. eapply ok_weaken; [| |exact H]; [lia|].
    destruct H as [_ Hi]. pose proof (inv_cap _ _ _ _ Hi). lia.
Qed.

End safe.

(** ** The interface of the callback *)

(** [notifyPackageReceived] is called with the token of the receive whose data
    have just been appended, and leaves it; it may add one reference to each
    count's bound. *)
Definition Notify (notify : client -> action unit) : Prop :=
  forall (N : Cap) B k tok c, B < 2 ^ 31 - 1 ->
    triple (ok (M := N) B k ((c, KRecv) :: tok)) (notify c)
      (λ _, ok (M := N) (B + 1) k ((c, KRecv) :: tok)).

Lemma echo_notify {VM : VirtualMem} {OS : WinOS} : Notify echo.
Proof.
  intros N B k tok c HB. unfold echo. t_bind t_get_ctx.
  eapply triple_bind.
  { eapply triple_pre; [by apply t_send|by intros s [H _]]. }
  intros ?. cbv beta. t_bind t_get_ctx. eapply triple_bind.
  { eapply triple_pre; [apply @t_heap|by intros s [H _]]. }
  intros ?. apply t_quiet. quiet_change.
Qed.

Section completions.
Context {VM : VirtualMem} {OS : WinOS} {M : Cap}.
Implicit Types (s : Sys) (c : client) (tok : list ref) (B k : Z).

(** ** Accepting *)

(** A context in neither list, with socket and count [v]. *)
Definition detached c (v : Z * Z) (a : abst) : Prop :=
  (c ∉ a_conn a ++ a_free a) /\ (c < a_next a) /\ a_ctx a !! c = Some v.

Lemma t_new_client B k tok sock :
  0 <= B ->
  triple (ok B k tok) (new_client sock) (λ c, okx B k tok (detached c (sock, 0))).
Proof.
  intros HB s c s' [[T1 T2 T3] Hi] [= <- <-].
  destruct (Inv_new B k tok (abs s) (sock, 0) Hi) as (Hi' & Hd & Hn); [cbn; lia|].
  set (s' := sys_next _ _).
  assert (abs s' = mkAbst (<[s_next s := (sock, 0)]> (a_ctx (abs s))) (a_conn (abs s))
    (a_free (abs s)) (a_cnt (abs s)) (a_max (abs s)) (s_next s + 1) (a_refs (abs s))) as E.
  { unfold s', abs. cbn. f_equal. by rewrite fmap_insert. }
  split; [split|].
  - split; cbn; [|done..]. apply map_Forall_insert_2; [|done]. by split.
  - by rewrite E.
  - rewrite E. split_and!; [exact Hd|exact Hn|]. cbn. by rewrite lookup_insert_eq.
Qed.

Lemma t_detached B k tok c (so n : Z) f (so' n' : Z) :
  0 <= n' <= B ->
  (forall x, ctx_view x = (so, n) -> ctx_view (f x) = (so', n') /\ (ctx_typed x -> ctx_typed (f x))) ->
  triple (okx B k tok (detached c (so, n))) (upd_ctx c f) (λ _, okx B k tok (detached c (so', n'))).
Proof.
  intros Hn Hf. apply triple_modify. intros st [[Ht Hi] (Hd & Hnx & Hv)].
  destruct (s_ctxs st !! c) as [x|] eqn:Hx.
  2: { exfalso. cbn in Hv. by rewrite lookup_fmap, Hx in Hv. }
  rewrite (abs_lookup _ _ _ Hx) in Hv. destruct (Hf x) as [Hfv Hft]; [congruence|].
  split; [split|]; rewrite ?(abs_upd _ _ _ _ Hx), ?Hfv.
  - eapply typed_upd; [done..|]. apply Hft. by eapply typed_get.
  - by apply Inv_detached.
  - split_and!; [exact Hd|exact Hnx|]. cbn. by rewrite lookup_insert_eq.
Qed.

Lemma t_allocate B k tok sock :
  0 <= B ->
  triple (ok B k tok) (allocateClientContext sock) (λ c, okx B k tok (detached c (sock, 0))).
Proof.
  intros HB. unfold allocateClientContext. t_bind t_get_srv. rename a into v.
  eapply triple_bind with (R := λ c, okx B k tok (detached c (sock, 0))).
  2: { intros c. eapply triple_bind; [apply silent_okx, silent_reset|].
       intros ?. by apply triple_ret. }
  destruct (m_freeClientList v) as [|c fs] eqn:Efree.
  { eapply triple_pre; [by apply t_new_client|by intros s [H _]]. }
  eapply triple_bind with (R := λ _, okx B k tok (detached c (INVALID_SOCKET, 0))).
  - apply triple_modify. intros s [[[T1 T2 T3] Hi] ->].
    destruct (Inv_pop _ _ _ _ c fs Hi Efree) as (Hi' & Hd & Hn & Hv).
    split; [split; [by split|exact Hi']|]. split_and!; [exact Hd|exact Hn|exact Hv].
  - intros ?. cbv beta. eapply triple_bind; [apply silent_okx, silent_reads|]. intros ?. cbv beta.
    eapply triple_bind with (R := λ _, okx B k tok (detached c (sock, 0))).
    + apply t_detached; [lia|]. intros x Hx. split; [|by intros [? ?]].
      unfold ctx_view in *. cbn in *. congruence.
    + intros ?. by apply triple_ret.
Qed.

(** A new connection is counted. *)
Lemma t_count B tok v :
  triple (λ s, ok B 0 tok s /\ v = s_srv s /\ m_nConnClientCnt v < m_nMaxConnClientCnt v)
    (upd_srv (λ v, srv_connCnt (u32 (m_nConnClientCnt v + 1)) v)) (λ _, ok B 1 tok).
Proof.
  apply triple_modify. intros s [[[T1 T2 T3] Hi] [-> Hlt]]. split; [by split|].
  pose proof (inv_cap _ _ _ _ Hi) as Hc. cbn in Hc.
  assert (0 <= n_open (abs s)) by apply lenZ_nonneg.
  destruct Hi as [H1 H2 H3 H4 H5 H6 H7 H8]. split; cbn; try done.
  rewrite u32_small by lia. change (n_open _) with (n_open (abs s)). lia.
Qed.

Lemma t_addClient B tok c (so n : Z) :
  1 <= n <= B ->
  triple (okx B 1 tok (detached c (so, n))) (addClient c) (λ _, ok B 0 ((c, KRecv) :: tok)).
Proof.
  intros Hn. apply triple_modify. intros st [[[T1 T2 T3] Hi] (Hd & _ & Hv)].
  split; [by split|]. by apply (Inv_add B 0 tok (abs st) c so n).
Qed.

Lemma t_handleAccept B a n :
  0 <= B < 2 ^ 31 - 1 ->
  triple (ok B 0 []) (handleAccept a n) (λ _, ok (B + 1) 0 []).
Proof.
  intros HB. unfold handleAccept. t_bind t_get_acc. rename a0 into x.
  eapply triple_bind; [eapply triple_pre; [apply (silent_ok _ B 0 []), silent_listen_socket|by intros s [H _]]|].
  intros ls. cbv beta. eapply triple_bind; [apply silent_ok; unfold Net_updateAcceptContext; silent_auto|].
  intros ?. cbv beta. t_bind t_get_srv. rename a1 into v.
  assert (forall s, ok B 0 [] s -> ok (B + 1) 0 [] s) as Hup by (intros s; apply ok_weaken; lia).
  destruct (Z.leb_spec (m_nMaxConnClientCnt v) (m_nConnClientCnt v)).
  { eapply triple_conseq with (P' := ok B 0 []) (Q' := λ _, ok B 0 []);
      [apply silent_ok; silent_auto|by intros s [Hs _]|by intros ? s Hs; apply Hup]. }
  eapply triple_bind; [eapply triple_pre; [apply (t_count B [] v)|by intros s [Hs ?]; split_and!; subst]|].
  intros ?. cbv beta. eapply triple_bind; [apply t_allocate; lia|]. intros c. cbv beta.
  eapply triple_bind; [apply silent_okx, silent_reads|]. intros y. cbv beta.
  eapply triple_bind; [apply silent_okx, silent_call|]. intros port. cbv beta.
  apply triple_if; intros _.
  { apply triple_ret. intros s [H' _]. eapply ok_weaken; [| |exact H']; lia. }
  eapply triple_bind with (R := λ _, okx (B + 1) 1 [] (detached c (m_acceptSocket x, 1))).
  { unfold enterIoLoop. eapply triple_bind; [apply silent_okx, silent_reads|]. intros ?. cbv beta.
    eapply triple_pre with (P' := okx (B + 1) 1 [] (detached c (m_acceptSocket x, 0))).
    - apply t_detached; [lia|]. intros z Hz. split; [|by intros [? ?]].
      unfold ctx_view in *. cbn. injection Hz as -> ->. done.
    - intros s [H' Hd]. split; [|exact Hd]. eapply ok_weaken; [| |exact H']; lia. }
  intros ?. cbv beta. eapply triple_bind; [apply silent_okx, silent_postAccept|]. intros ?. cbv beta.
  eapply triple_bind; [apply silent_okx, silent_notifyNewConnection|]. intros ?. cbv beta.
  eapply triple_bind; [apply t_addClient; lia|]. intros ?. cbv beta.
  eapply triple_bind; [apply t_postRecv|]. intros r. cbv beta.
  eapply triple_bind; [apply t_recv_failed; lia|]. intros ?. by apply triple_ret.
Qed.
(** ** Completions of a client's requests *)

(** An empty buffer is empty after it has been moved. *)
Lemma getBufferLen_empty p n : getBufferLen (mkBuffer p p n) = 0.
Proof. unfold getBufferLen, ptr_diff. cbn. rewrite Z.sub_diag. by case_bool_decide. Qed.

Lemma clear_len b (h h' : heap) b' : clear b h = Some (b', h') -> getBufferLen b' = 0.
Proof.
  unfold clear, deallocateBuffer. intros H. st_inv H. injection H as <- <-. revert E.
  rewrite getBufferLen_empty. destruct (1024 <? 0); [by intros [= <- <-]; apply getBufferLen_empty|].
  destruct (_ <? _); [by intros [= <- <-]; apply getBufferLen_empty|].
  unfold moveBuffer. rewrite getBufferLen_empty. intros H. st_inv H. st_inv H. st_inv H.
  injection H as <- <-. cbn. rewrite ptr_add_0. apply getBufferLen_empty.
Qed.

Section with_notify.
Variable notify : client -> action unit.
Hypothesis notify_ok : Notify notify.

Lemma t_handleRecv B c n :
  B < 2 ^ 31 - 1 ->
  triple (ok B 0 [(c, KRecv)]) (handleRecv notify c n) (λ _, ok (B + 1) 0 []).
Proof.
  intros HB. unfold handleRecv. t_bind t_get_ctx.
  eapply triple_bind; [eapply triple_pre; [apply @t_heap|by intros s [H _]]|].
  intros w. cbv beta. eapply triple_bind; [apply t_quiet; quiet_change|]. intros ?. cbv beta.
  eapply triple_bind; [by apply notify_ok|]. intros ?. cbv beta.
  eapply triple_bind; [apply t_postRecv|]. intros r. cbv beta.
  eapply triple_bind; [apply t_recv_failed; lia|]. intros ?. by apply triple_ret.
Qed.

(** After [next_outBuf] either the token is still there, or it has been given up
    and there is nothing to send. *)
Definition sent_all B c s : Prop :=
  ok B 0 [] s /\ forall x, s_ctxs s !! c = Some x -> getBufferLen (m_outBuf x) = 0.

Lemma release_outBuf c s r s' :
  releaseClientContext c s = Some (r, s') ->
  forall x', s_ctxs s' !! c = Some x' -> exists x, s_ctxs s !! c = Some x /\ m_outBuf x' = m_outBuf x.
Proof.
  unfold releaseClientContext, exitIoLoop. intros H. st_inv H. st_inv E.
  unfold get_ctx, st_reads in E0. destruct (s_ctxs s !! c) as [x|] eqn:Hx; [|done].
  injection E0 as <- <-. st_inv E. injection E0 as <- <-. st_inv E.
  unfold get_ctx, st_reads in E0. cbn in E0. rewrite lookup_alter_eq, Hx in E0. injection E0 as <- <-.
  injection E as <- <-.
  assert (s_ctxs s' = alter (λ x, set_pending (u32 (m_nPendingIoCnt x - 1)) x) c (s_ctxs s)) as E.
  { destruct (_ <=? 0); [|by injection H as <- <-].
    unfold removeClient in H. st_inv H. injection E as <- <-.
    destruct (bool_decide _); by injection H as <- <-. }
  intros x'. rewrite E, lookup_alter_eq, Hx. intros [= <-]. eauto.
Qed.

Lemma t_next_outBuf B c :
  B < 2 ^ 31 ->
  triple (ok B 0 [(c, KSend)]) (next_outBuf c)
    (λ _ s, ok B 0 [(c, KSend)] s \/ sent_all B c s).
Proof.
  intros HB. unfold next_outBuf. t_bind t_get_ctx. rename a into x.
  eapply triple_bind with (R := λ b s, (ok B 0 [(c, KSend)] s /\ s_ctxs s !! c = Some x) /\ getBufferLen b = 0).
  { intros s b s' [Hs Hx]. unfold on_heap. destruct (clear _ _) as [[b' h]|] eqn:E; [|done].
    intros [= <- <-]. split; [split; [|done]|by eapply clear_len].
    destruct Hs as [[T1 T2 T3] Hi]. by split. }
  intros b. eapply triple_bind with (R := λ _ s, ok B 0 [(c, KSend)] s /\
    forall y, s_ctxs s !! c = Some y -> getBufferLen (m_outBuf y) = 0).
  { apply triple_modify. intros s [[[Ht Hi] Hx] Hb].
    destruct (quiet_step s c (set_outBuf b) ltac:(quiet_change) Ht) as [Ht' Ea].
    split; [split; [done|by rewrite Ea]|]. intros y. cbn. rewrite lookup_alter_eq, Hx. by intros [= <-]. }
  intros ?. destruct (m_outBufQueue x) as [|q qs].
  - intros s r s' [Hok Hlen] Hrun. right. split.
    + eapply (t_release B 0 [] c KSend HB); [|exact Hrun]. by split.
    + intros y Hy. destruct (release_outBuf c s r s' Hrun y Hy) as (z & Hz & ->). by apply Hlen.
  - eapply triple_conseq with (P' := ok B 0 [(c, KSend)]) (Q' := λ _, ok B 0 [(c, KSend)]);
      [apply silent_ok; silent_auto|by intros s [H _]|by intros ? s H; left].
Qed.

Lemma t_send_rest B c :
  B < 2 ^ 31 ->
  triple (ok B 0 [(c, KSend)])
    (set_sendBuf c;; result ← postSend c;
     if bool_decide (result = PostResultFailed) then CloseClient c;; releaseClientContext c
     else mret tt) (λ _, ok B 0 []).
Proof.
  intros HB. t_bind t_set_sendBuf. eapply triple_bind; [apply t_postSend|intros r; cbv beta].
  unfold posted. destruct r; cbn -[CloseClient releaseClientContext].
  - by apply triple_ret.
  - by apply t_close_release.
  - apply triple_ret. intros s H. by apply ok_drop_send in H.
Qed.

Lemma t_handleSend B c n :
  B < 2 ^ 31 -> triple (ok B 0 [(c, KSend)]) (handleSend c n) (λ _, ok B 0 []).
Proof.
  intros HB. unfold handleSend. t_bind t_get_ctx.
  eapply triple_bind; [eapply triple_pre; [apply @t_heap|by intros s [H _]]|].
  intros w. cbv beta. eapply triple_bind; [apply t_quiet; quiet_change|]. intros ?. cbv beta.
  eapply triple_bind with (R := λ _ s, ok B 0 [(c, KSend)] s \/ sent_all B c s).
  { apply triple_if; intros _; [|apply triple_ret; by left].
    eapply triple_bind; [apply silent_ok, silent_ret|]. intros ?. by apply t_next_outBuf. }
  intros ?. cbv beta. t_bind t_get_ctx. rename a2 into x.
  eapply triple_bind with (R := λ _, ok B 0 []); [|intros ?; by apply triple_ret].
  destruct (Z.eqb_spec (getBufferLen (m_outBuf x)) 0) as [E|E].
  - apply triple_ret. intros s [[H|[H _]] _]; [by apply ok_drop_send in H|done].
  - eapply triple_pre; [by apply t_send_rest|]. intros s [[H|[_ H]] Hx]; [done|].
    exfalso. by apply E, H.
Qed.

(** A completion packet that belongs to a request in flight: the token its
    handler holds. *)
Definition tokens (o : op) : list ref := match op_ref o with Some r => [r] | None => [] end.

Lemma t_handleClose B c K :
  B < 2 ^ 31 -> triple (ok B 0 [(c, K)]) (handleClose c) (λ _, ok B 0 []).
Proof.
  intros HB. unfold handleClose. eapply triple_bind.
  - eapply triple_pre; [apply t_close|]. intros s H. split; [exact H|].
    destruct H as [_ Hi]. by eapply open_token.
  - intros ?. eapply triple_bind.
    { eapply triple_pre; [by apply (t_release B 0 [] c K)|]. intros s (H & Hc & _). by split. }
    intros ?. by apply triple_ret.
Qed.

Lemma t_client_turn B c K ret n :
  0 <= B < 2 ^ 31 - 1 ->
  triple (ok B 0 [(c, K)]) (worker_turn notify (mkCompletion ret (req_op c K) n))
    (λ _, ok (B + 1) 0 []).
Proof.
  intros HB. unfold worker_turn. t_bind t_get_srv. rename a into v. cbv zeta.
  cbn [cp_op cp_ret cp_bytes req_op op_key op_ov].
  rewrite (bool_decide_false (KeyClient c = KeyExit)),
    (bool_decide_false (KeyClient c = KeyServer)), andb_false_r by done. cbn [negb andb].
  assert (forall s, ok B 0 [] s -> ok (B + 1) 0 [] s) as Hup by (intros s; apply ok_weaken; lia).
  assert (triple (λ s, ok B 0 [(c, K)] s /\ v = s_srv s)
    (c ← as_client (KeyClient c); handleClose c;; mret true) (λ _, ok (B + 1) 0 [])) as Hcl.
  { apply triple_ret_bind. eapply triple_bind; [eapply triple_pre; [apply (t_handleClose B c K); lia|by intros s [H _]]|].
    intros ?. apply triple_ret. apply Hup. }
  apply triple_if; intros _; [exact Hcl|]. apply triple_if; intros _; [exact Hcl|].
  eapply triple_bind with (R := λ t s, ok B 0 [(c, K)] s /\
    t = match K with KRecv => RECV_EVENT | KSend => SEND_EVENT end).
  { destruct K; (t_bind t_get_ctx; apply triple_ret; intros s [[Hs _] Hx]; split; [done|]);
      destruct Hs as [Ht _]; by destruct (typed_get _ _ _ Ht Hx). }
  intros t. apply triple_pure. intros ->. destruct K; apply triple_ret_bind.
  - eapply triple_bind; [apply t_handleRecv; lia|]. intros ?. by apply triple_ret.
  - eapply triple_bind; [apply t_handleSend; lia|]. intros ?. apply triple_ret. apply Hup.
Qed.

Lemma t_worker_turn B p :
  0 <= B < 2 ^ 31 - 1 -> op_typed (cp_op p) ->
  triple (ok B 0 (tokens (cp_op p))) (worker_turn notify p) (λ _, ok (B + 1) 0 []).
Proof.
  intros HB Hty. destruct p as [ret [key ov] n]. cbn [cp_op] in *.
  assert (forall s, ok B 0 [] s -> ok (B + 1) 0 [] s) as Hup by (intros s; apply ok_weaken; lia).
  destruct ov as [|a|c|c], key as [| |c']; try done; cbn in Hty; unfold tokens, op_ref; cbn [op_ov].
  - unfold worker_turn. t_bind t_get_srv. cbn. apply triple_ret. intros s [Hs _]. by apply Hup.
  - unfold worker_turn. t_bind t_get_srv. rename a0 into v. cbv zeta. cbn [cp_op op_key op_ov cp_bytes].
    rewrite (bool_decide_false (KeyServer = KeyExit)), (bool_decide_true (KeyServer = KeyServer)) by done.
    rewrite andb_true_r. cbn [negb andb].
    apply triple_if; intros _; [apply triple_ret; intros s [Hs _]; by apply Hup|].
    eapply triple_bind with (R := λ t s, ok B 0 [] s /\ t = ACCEPT_EVENT).
    { t_bind t_get_acc. apply triple_ret. intros s [[Hs _] Hx]. split; [exact Hs|].
      destruct Hs as [[_ T2 _] _]. by apply (T2 a). }
    intros t. apply triple_pure. intros ->. apply triple_ret_bind.
    eapply triple_bind; [by apply t_handleAccept|]. intros ?. by apply triple_ret.
  - subst c'. by apply (t_client_turn B c KRecv).
  - subst c'. by apply (t_client_turn B c KSend).
Qed.
End with_notify.
End completions.
