(* ===== verification/ServerRuns.v ===== *)
(** * Runs of the server

    The system hands over the packets of the requests in flight, in any order,
    each with a result and a number of bytes of its choice; a worker thread
    handles one at a time.  [shutdown] may be called in between.  The file ends
    with what holds in every state a started server reaches. *)
From S2P Require Import Prelude Heap CLib Slice Buffer Os ClientContext IocpServer.
From S2P Require Import ServerInv ServerSafe.

Section runs.
Context {VM : VirtualMem} {OS : WinOS}.
Variable notify : client -> action unit.

(** The bytes received are in the context's array when the packet arrives. *)
Definition deliver (o : op) (data : bytes) (s : Sys) : Sys :=
  match op_ov o with
  | OvRecv c =>
      sys_ctxs (alter (λ x, set_recvIo (mkRecvIo (recv_base (m_recvIoCtx x))
        (data ++ dropZ (lenZ data) (m_recvBuf (m_recvIoCtx x)))) x) c (s_ctxs s)) s
  | _ => s
  end.

(** A packet the system may hand over: a receive brings as many bytes as it
    reports, and no more than the array holds. *)
Definition packet_ok (p : completion) (data : bytes) : bool :=
  (0 <=? cp_bytes p) &&
  match op_ov (cp_op p) with
  | OvRecv _ => (lenZ data =? cp_bytes p) && (cp_bytes p <=? IO_BUF_SIZE)
  | _ => bool_decide (data = [])
  end.

Inductive step : Sys -> Sys -> Prop :=
  | step_packet s l1 l2 p data go s' :
      s_ops s = l1 ++ cp_op p :: l2 -> packet_ok p data = true ->
      worker_turn notify p (deliver (cp_op p) data (sys_ops (l1 ++ l2) s)) = Some (go, s') ->
      step s s'
  | step_shutdown s r s' : shutdown s = Some (r, s') -> step s s'.

(** The server after [start] has returned true. *)
Definition boot (port max : Z) : option (bool * Sys) :=
  (IocpServer_init;; start) (Sys_new port max).

Definition started (port max : Z) (s : Sys) : Prop := boot port max = Some (true, s).

(** The same, as a function: the packets in [ps] are handled in turn. *)
Fixpoint remove_op (o : op) (l : list op) : option (list op) :=
  match l with
  | [] => None
  | o' :: l => if bool_decide (o = o') then Some l else l' ← remove_op o l; Some (o' :: l')
  end.

Fixpoint run_packets (ps : list (completion * bytes)) : action unit :=
  match ps with
  | [] => mret tt
  | (p, data) :: ps =>
      ops ← st_gets s_ops;
      rest ← deref (remove_op (cp_op p) ops);
      st_assert (packet_ok p data);;
      st_modify (λ s, deliver (cp_op p) data (sys_ops rest s));;
      worker_turn notify p;;
      run_packets ps
  end.

Lemma remove_op_Some o l l' :
  remove_op o l = Some l' -> exists l1 l2, l = l1 ++ o :: l2 /\ l' = l1 ++ l2.
Proof.
  revert l'. induction l as [|o' l IH]; intros l'; [done|]. cbn. case_bool_decide as E.
  - intros [= <-]. subst. by exists [], l.
  - destruct (remove_op o l) as [r|]; [|done]. intros [= <-].
    destruct (IH r eq_refl) as (l1 & l2 & -> & ->). by exists (o' :: l1), l2.
Qed.

Lemma run_packets_steps ps : forall s r s',
  run_packets ps s = Some (r, s') -> nsteps step (length ps) s s'.
Proof.
  induction ps as [|[p data] ps IH]; intros s r s' H; cbn [run_packets] in H.
  { injection H as _ <-. apply nsteps_O. }
  st_inv H. injection E as <- <-. st_inv H. unfold deref, st_reads in E.
  destruct (remove_op _ _) as [rest|] eqn:Er; [|done]. injection E as <- <-.
  destruct (remove_op_Some _ _ _ Er) as (l1 & l2 & Hl & ->).
  st_inv H. unfold st_assert in E. destruct (packet_ok p data) eqn:Ep; [|done].
  injection E as <- <-. st_inv H. injection E as <- <-. st_inv H.
  econstructor; [|by eapply IH]. by eapply step_packet.
Qed.

(** ** The invariant along runs *)

Hypothesis notify_ok : Notify notify.
Context {M : Cap}.

Lemma deliver_ok B k tok o data s : ok B k tok s -> ok B k tok (deliver o data s).
Proof.
  intros [Ht Hi]. unfold deliver. destruct (op_ov o) as [| |c|]; try done.
  edestruct (quiet_step s c) as [Ht' Ea]; [|exact Ht|split; [exact Ht'|by rewrite Ea]].
  quiet_change.
Qed.

Lemma take_ok B s l1 l2 o :
  s_ops s = l1 ++ o :: l2 -> ok B 0 [] s -> ok B 0 (tokens o) (sys_ops (l1 ++ l2) s) /\ op_typed o.
Proof.
  intros Hl [[T1 T2 T3] Hi]. rewrite Hl in T3.
  apply Forall_app in T3 as [T3 [To T4]%Forall_cons]. split; [|done]. split.
  - split; cbn; [done..|]. by apply Forall_app.
  - assert (a_refs (abs s) = omap op_ref l1 ++ tokens o ++ omap op_ref l2) as E.
    { cbn. rewrite Hl, omap_app. f_equal. cbn. unfold tokens. by destruct (op_ref o). }
    unfold tokens in *. destruct (op_ref o) as [r|].
    + apply (Inv_take B 0 r _ _ [] (abs s) E) in Hi. revert Hi. unfold abs. cbn. by rewrite omap_app.
    + assert (abs (sys_ops (l1 ++ l2) s) = abs s) as ->; [|done].
      unfold abs. cbn. f_equal. rewrite Hl, !omap_app. cbn.
      cbn in E. rewrite Hl, omap_app in E. symmetry. exact E.
Qed.

(** [upd_srv] where the lists and the counts are left alone. *)
Definition srv_quiet (f : IocpServer -> IocpServer) : Prop :=
  forall v, let w := f v in
    m_connectedClientList w = m_connectedClientList v /\ m_freeClientList w = m_freeClientList v /\
    m_nConnClientCnt w = m_nConnClientCnt v /\ m_nMaxConnClientCnt w = m_nMaxConnClientCnt v.

Lemma silent_srv f : srv_quiet f -> silent (upd_srv f).
Proof.
  intros Hf. apply silent_modify. intros s [T1 T2 T3]. split; [by split|].
  destruct (Hf (s_srv s)) as (E1 & E2 & E3 & E4). unfold abs. cbn. by rewrite E1, E2, E3, E4.
Qed.

Ltac boot_auto :=
  repeat first
    [ progress silent_auto | apply silent_srv; done
    | lazymatch goal with |- silent (if ?b then _ else _) => destruct b
      | |- silent (match ?x with _ => _ end) => destruct x end ].

Lemma silent_start_workers n : silent (start_workers n).
Proof.
  induction n as [|n IH]; cbn [start_workers]; [apply silent_ret|].
  apply silent_bind; [apply silent_call|]. intros h. apply silent_if; [apply silent_ret|].
  apply silent_bind; [by apply silent_srv|]. intros _.
  apply silent_bind; [by apply silent_srv|]. by intros _.
Qed.

Lemma silent_listen port : silent (createListenClient port).
Proof.
  unfold createListenClient, ListenContext_new, Net_WSASocket, Net_bind, Net_listen,
    associateWithCompletionPort, getAcceptExPtr, getAcceptExSockaddrs, listen_socket, get_srv, deref.
  boot_auto.
Qed.

Lemma t_new_acceptor B :
  triple (ok B 0 []) new_acceptor (λ _, ok B 0 []).
Proof.
  intros s a s' [[T1 T2 T3] Hi] [= <- <-]. split.
  - split; cbn; [done| |done]. by apply map_Forall_insert_2.
  - destruct Hi as [H1 H2 H3 H4 H5 H6 H7 H8]. split; try done.
    intros c Hc. specialize (H3 c Hc). cbn in *. lia.
Qed.

Lemma t_post_accepts B n : triple (ok B 0 []) (post_accepts n) (λ _, ok B 0 []).
Proof.
  induction n as [|n IH]; cbn [post_accepts]; [by apply triple_ret|].
  t_bind t_new_acceptor. eapply triple_bind; [by apply silent_ok, silent_srv|]. intros ?. cbv beta.
  eapply triple_bind; [apply silent_ok, silent_postAccept|]. intros b. cbv beta.
  apply triple_if; intros _; [by apply triple_ret|exact IH].
Qed.

Lemma new_ok port max : 0 <= max < 2 ^ 32 -> M = max -> ok 0 0 [] (Sys_new port max).
Proof.
  intros Hmax HM. split; [split|]; cbn.
  - apply map_Forall_empty.
  - apply map_Forall_empty.
  - constructor.
  - split; cbn; try (intros ? []%elem_of_nil); try (intros ?; rewrite fmap_empty, lookup_empty).
    + constructor.
    + by intros [? ?].
    + done.
    + change (n_open _) with 0. rewrite u32_small by lia. unfold cap. lia.
Qed.

Lemma boot_ok port max s : 0 <= max < 2 ^ 32 -> M = max -> started port max s -> ok 0 0 [] s.
Proof.
  intros Hmax HM Hrun. unfold started, boot in Hrun.
  assert (triple (ok 0 0 []) (IocpServer_init;; start) (λ _, ok 0 0 [])) as H.
  { eapply triple_bind; [apply silent_ok; unfold IocpServer_init; boot_auto|]. intros ?. cbv beta.
    unfold start. eapply triple_bind; [apply silent_ok; unfold Net_init; boot_auto|]. intros ok1. cbv beta.
    apply triple_if; intros _; [by apply triple_ret|].
    eapply triple_bind; [apply silent_ok, silent_gets|]. intros v. cbv beta.
    eapply triple_bind; [apply silent_ok, silent_listen|]. intros ok2. cbv beta.
    apply triple_if; intros _; [by apply triple_ret|].
    eapply triple_bind.
    { apply silent_ok. apply silent_bind; [apply silent_call|]. intros n. apply silent_start_workers. }
    intros ok3. cbv beta. apply triple_if; intros _; [by apply triple_ret|].
    eapply triple_bind; [apply t_post_accepts|]. intros ok4. cbv beta.
    apply triple_if; intros _; by apply triple_ret. }
  eapply H; [|exact Hrun]. by apply new_ok.
Qed.

Lemma silent_shutdown_accepts l : silent (shutdown_accepts l).
Proof.
  induction l as [|a l IH]; cbn [shutdown_accepts]; [apply silent_ret|].
  apply silent_bind; [apply silent_reads|]. intros x. apply silent_bind; [apply silent_call|].
  intros r. apply silent_bind; [|by intros _]. apply silent_if; [apply silent_ret|].
  apply silent_bind; [apply silent_call|]. intros _. apply silent_modify. intros s [T1 T2 T3].
  split; [|done]. split; cbn; [done| |done]. intros b y Hy. apply (T2 b).
  by apply lookup_delete_Some in Hy as [_ ?].
Qed.

Lemma silent_shutdown : silent shutdown.
Proof.
  unfold shutdown, listen_socket, get_srv, deref.
  apply silent_bind; [by apply silent_srv|]. intros _. apply silent_bind; [silent_auto|]. intros ls.
  apply silent_bind; [apply silent_call|]. intros r. apply silent_if; [apply silent_ret|].
  apply silent_bind; [apply silent_call|]. intros _. apply silent_bind; [by apply silent_srv|]. intros _.
  apply silent_bind; [apply silent_gets|]. intros v.
  apply silent_bind; [apply silent_shutdown_accepts|]. intros _.
  apply silent_bind; [by apply silent_srv|]. intros _. apply silent_ret.
Qed.

Lemma step_ok B s s' : 0 <= B < 2 ^ 31 - 1 -> ok B 0 [] s -> step s s' -> ok (B + 1) 0 [] s'.
Proof.
  intros HB Hok Hst. destruct Hst as [s1 l1 l2 p data go s2 Hl _ Hrun|s1 r s2 Hrun].
  - destruct (take_ok B s1 l1 l2 (cp_op p) Hl Hok) as [Hok' Hty].
    eapply (t_worker_turn notify notify_ok B p HB Hty); [|exact Hrun]. by apply deliver_ok.
  - eapply ok_weaken; [| |by eapply (silent_ok shutdown B 0 []); [apply silent_shutdown|..]]; lia.
Qed.

Lemma steps_ok n : forall B s s',
  0 <= B -> B + Z.of_nat n < 2 ^ 31 - 1 -> ok B 0 [] s -> nsteps step n s s' ->
  ok (B + Z.of_nat n) 0 [] s'.
Proof.
  induction n as [|n IH]; intros B s s' HB Hn Hok Hst; inversion Hst as [|? ? s1 ? H1 H2]; subst.
  - by rewrite Z.add_0_r.
  - replace (B + Z.of_nat (S n)) with (B + 1 + Z.of_nat n) by lia.
    apply (IH (B + 1) s1 s'); [lia|lia| |done]. eapply step_ok; [|done..]. lia.
Qed.

Lemma reach_ok port max n s0 s :
  0 <= max < 2 ^ 32 -> M = max -> Z.of_nat n < 2 ^ 31 - 1 -> started port max s0 ->
  nsteps step n s0 s -> ok (Z.of_nat n) 0 [] s.
Proof.
  intros Hmax HM Hn Hs Hst. change (Z.of_nat n) with (0 + Z.of_nat n).
  eapply steps_ok; [lia|lia| |done]. by eapply boot_ok.
Qed.
End runs.

(** The requests of [c] in flight. *)
Definition in_flight (c : client) (s : Sys) : Z := count c (omap op_ref (s_ops s)).

(** The socket of [c] is open. *)
Definition is_open (s : Sys) (c : client) : Prop :=
  exists x, s_ctxs s !! c = Some x /\ m_socket x <> INVALID_SOCKET.

Lemma is_open_abs s c : is_open s c <-> open_in (a_ctx (abs s)) c.
Proof.
  unfold is_open, open_in. cbn. rewrite lookup_fmap. split.
  - intros (x & -> & Hx). by exists (ctx_view x).
  - destruct (s_ctxs s !! c) as [x|]; [|by intros (v & ? & _)].
    intros (v & [= <-] & Hv). by exists x.
Qed.

#[export] Instance is_open_dec s c : Decision (is_open s c).
Proof.
  destruct (decide (open_in (a_ctx (abs s)) c)) as [H|H];
    [left|right]; by rewrite is_open_abs.
Defined.

(** What the theorems below assume of a run: a callback that keeps the
    interface, a maximum that fits its type, and fewer packets than would wrap
    a reference count. *)
Record run_to `{VM : VirtualMem} `{OS : WinOS} (notify : client -> action unit)
    (port max : Z) (s : Sys) : Prop := {
  run_notify : Notify notify;
  run_max : 0 <= max < 2 ^ 32;
  run_steps : exists n s0, Z.of_nat n < 2 ^ 31 - 1 /\ started port max s0 /\
    nsteps (step notify) n s0 s;
}.

Lemma run_inv `{VM : VirtualMem} `{OS : WinOS} notify port max s :
  run_to notify port max s -> exists B, Inv (M := max) B 0 [] (abs s).
Proof.
  intros [Hnot Hmax (n & s0 & Hn & Hs & Hst)]. exists (Z.of_nat n).
  by apply (reach_ok (M := max) notify Hnot port max n s0 s Hmax eq_refl Hn Hs Hst).
Qed.

(** A run of the server with the callback of the base class. *)
Record echo_run `{VM : VirtualMem} `{OS : WinOS} (port max : Z) (s : Sys) : Prop := {
  echo_max : 0 <= max < 2 ^ 32;
  echo_steps : exists n s0, Z.of_nat n < 2 ^ 31 - 1 /\ started port max s0 /\
    nsteps (step echo) n s0 s;
}.

Lemma echo_run_to `{VM : VirtualMem} `{OS : WinOS} port max s : echo_run port max s -> run_to echo port max s.
Proof. intros [Hmax Hs]. split; [apply echo_notify|done|done]. Qed.

(** ** A concrete system, for evaluation: every call succeeds *)

Definition demo_os : WinOS := {| os_answer h x :=
  match x with
  | WSASocket => 100 + lenZ h
  | NewCompletionPort | Associate _ _ => 5
  | BeginThread => 3
  | CpuCount => 2
  | CreateEvent _ _ => 7
  | Getpeername _ => 9
  | GetTickCount => 1000
  | _ => 0
  end |}.

Definition accept_packet (a : acceptor) : completion * bytes :=
  (mkCompletion 1 (mkOp KeyServer (OvAccept a)) 0, []).
Definition recv_packet (c : client) (data : bytes) : completion * bytes :=
  (mkCompletion 1 (req_op c KRecv) (lenZ data), data).
Definition sent_packet (c : client) (n : Z) : completion * bytes :=
  (mkCompletion 1 (req_op c KSend) n, []).
Definition failed_packet (c : client) (K : kind) : completion * bytes :=
  (mkCompletion 0 (req_op c K) 0, []).

Definition demo_run `{VM : VirtualMem} `{OS : WinOS} (notify : client -> action unit) (max : Z)
    (ps : list (completion * bytes)) : option (bool * Sys) :=
  match boot 5001 max with
  | Some (true, s) => match run_packets notify ps s with Some (_, s') => Some (true, s') | None => None end
  | _ => None
  end.

Lemma demo_run_steps `{VM : VirtualMem} `{OS : WinOS} notify max ps b s :
  demo_run notify max ps = Some (b, s) -> Z.of_nat (length ps) < 2 ^ 31 - 1 ->
  exists n s0, Z.of_nat n < 2 ^ 31 - 1 /\ started 5001 max s0 /\ nsteps (step notify) n s0 s.
Proof.
  unfold demo_run. destruct (boot 5001 max) as [[[] s0]|] eqn:Hb; try done.
  destruct (run_packets notify ps s0) as [[? s1]|] eqn:Hr; [|done]. intros [= _ <-] Hn.
  exists (length ps), s0. split_and!; [done|exact Hb|]. by eapply run_packets_steps.
Qed.

(** A connection that receives "hi", echoes it, receives "more" before the echo
    has been sent, and one that has been closed. *)
Definition demo_packets : list (completion * bytes) :=
  [accept_packet 1; recv_packet 11 (lit "hi"); sent_packet 11 2; accept_packet 2;
   recv_packet 11 (lit "more"); failed_packet 12 KRecv].
Definition demo_notify : client -> action unit := echo (VM := bump_mem) (OS := demo_os).
Abbreviation demo_echo := (demo_run (VM := bump_mem) (OS := demo_os) demo_notify 2 demo_packets).

Definition demo_check (s : Sys) : bool :=
  bool_decide (m_connectedClientList (s_srv s) = [11]) &&
  bool_decide (m_freeClientList (s_srv s) = [12]) && (in_flight 11 s =? 2).

Lemma demo_echo_ok :
  exists s, (demo_check s && bool_decide (11 ∈ m_connectedClientList (s_srv s)) &&
      bool_decide (is_open s 11)) = true /\
    echo_run (VM := bump_mem) (OS := demo_os) 5001 2 s.
Proof.
  destruct (holds_after_inv (λ _ s, demo_check s &&
    bool_decide (11 ∈ m_connectedClientList (s_srv s)) && bool_decide (is_open s 11)) demo_echo)
    as (b & s & Hrun & Hchk); [vm_compute; reflexivity|].
  exists s. split; [done|]. split; [lia|]. by eapply demo_run_steps.
Qed.

(** ** Properties *)

(** C2: No context is given up while the system still refers to it.  In every
    state the server of [IocpServer], with the callback of the base class, reaches
    between two handlers that run one at a time, within 2^31 - 2 packets, the two
    lists share no client and hold none twice; the requests in flight for a client
    never outnumber its [m_nPendingIoCnt], and there are none for a client that is
    not in the connected list; a client in the free list has count 0 and a closed
    socket, so that [reset] may use it again. *)
Theorem contexts_not_freed_in_flight `{VM : VirtualMem} `{OS : WinOS} (port max : Z) (s : Sys) :
  echo_run port max s ->
  NoDup (m_connectedClientList (s_srv s) ++ m_freeClientList (s_srv s)) /\
  (forall c x, s_ctxs s !! c = Some x -> in_flight c s <= m_nPendingIoCnt x) /\
  (forall c, 0 < in_flight c s -> c ∈ m_connectedClientList (s_srv s)) /\
  (forall c, c ∈ m_freeClientList (s_srv s) -> in_flight c s = 0 /\
     exists x, s_ctxs s !! c = Some x /\ m_nPendingIoCnt x = 0 /\ m_socket x = INVALID_SOCKET).
Proof.
  intros Hrun%echo_run_to. destruct (run_inv _ _ _ _ Hrun) as [B Hi].
  pose proof (inv_refs _ _ _ _ Hi) as Hrefs. pose proof (inv_nodup _ _ _ _ Hi) as Hnd.
  rewrite app_nil_r in Hrefs.
  assert (forall c, 0 < in_flight c s -> c ∈ m_connectedClientList (s_srv s)) as Hin.
  { intros c Hc. destruct (decide (c ∈ m_connectedClientList (s_srv s))) as [H|H]; [done|].
    exfalso. unfold in_flight in Hc. rewrite count_0 in Hc; [lia|].
    intros r Hr <-. by apply H, Hrefs. }
  split_and!; [done| |done|].
  - intros c x Hx. pose proof (inv_count _ _ _ _ Hi c _ (abs_lookup _ _ _ Hx)) as H.
    rewrite app_nil_r in H. apply H.
  - intros c Hc. pose proof (inv_free _ _ _ _ Hi c Hc) as Hv. cbn in Hv. split.
    + pose proof (count_nonneg c (omap op_ref (s_ops s))). unfold in_flight in *.
      destruct (Z.eq_dec (count c (omap op_ref (s_ops s))) 0) as [E|E]; [done|]. exfalso.
      apply NoDup_app in Hnd as (_ & Hd & _). apply (Hd c); [|done]. apply Hin. lia.
    + rewrite lookup_fmap in Hv. destruct (s_ctxs s !! c) as [x|]; [|done].
      injection Hv as Hsock Hcnt. eauto.
Qed.

Lemma contexts_not_freed_in_flight_witness :
  exists s, demo_check s = true /\
  NoDup (m_connectedClientList (s_srv s) ++ m_freeClientList (s_srv s)) /\
  (forall c x, s_ctxs s !! c = Some x -> in_flight c s <= m_nPendingIoCnt x) /\
  (forall c, 0 < in_flight c s -> c ∈ m_connectedClientList (s_srv s)) /\
  (forall c, c ∈ m_freeClientList (s_srv s) -> in_flight c s = 0 /\
     exists x, s_ctxs s !! c = Some x /\ m_nPendingIoCnt x = 0 /\ m_socket x = INVALID_SOCKET).
Proof.
  destruct demo_echo_ok as (s & [[Hchk _]%andb_true_iff _]%andb_true_iff & Hrun).
  exists s. split; [exact Hchk|].
  apply (contexts_not_freed_in_flight (VM := bump_mem) (OS := demo_os) 5001 2). exact Hrun.
Defined.

(** C23: As long as handlers run one at a time, the server with the callback of the
    base class never has more connections than the maximum given to the
    constructor, and no open connection goes uncounted: the connected clients
    whose socket is open are at most [m_nConnClientCnt], which is at most the
    maximum.  (With handlers of several threads at once see [workers_exceed_cap].) *)
Theorem connections_capped `{VM : VirtualMem} `{OS : WinOS} (port max : Z) (s : Sys) :
  echo_run port max s ->
  lenZ (filter (is_open s) (m_connectedClientList (s_srv s))) <= m_nConnClientCnt (s_srv s) /\
  m_nConnClientCnt (s_srv s) <= max /\ m_nMaxConnClientCnt (s_srv s) = max.
Proof.
  intros Hrun%echo_run_to. destruct (run_inv _ _ _ _ Hrun) as [B Hi].
  pose proof (inv_cap _ _ _ _ Hi) as Hc. unfold cap in Hc.
  assert (n_open (abs s) = lenZ (filter (is_open s) (m_connectedClientList (s_srv s)))) as E.
  { unfold n_open. f_equal. apply list_filter_iff. intros c. by rewrite is_open_abs. }
  rewrite E in Hc. cbn in Hc. lia.
Qed.

Lemma connections_capped_witness :
  exists s, demo_check s = true /\
  lenZ (filter (is_open s) (m_connectedClientList (s_srv s))) <= m_nConnClientCnt (s_srv s) /\
  m_nConnClientCnt (s_srv s) <= 2 /\ m_nMaxConnClientCnt (s_srv s) = 2.
Proof.
  destruct demo_echo_ok as (s & [[Hchk _]%andb_true_iff _]%andb_true_iff & Hrun).
  exists s. split; [exact Hchk|].
  apply (connections_capped (VM := bump_mem) (OS := demo_os) 5001 2). exact Hrun.
Defined.

(** C24: The server with the callback of the base class keeps listening to every
    connection it has not closed: in every state it reaches between two handlers that
    run one at a time, a receive is in flight for each connected client whose socket
    is open.  A peer that sends or disconnects is noticed. *)
Theorem open_connections_receive `{VM : VirtualMem} `{OS : WinOS} (port max : Z) (s : Sys) (c : client) :
  echo_run port max s -> c ∈ m_connectedClientList (s_srv s) -> is_open s c ->
  req_op c KRecv ∈ s_ops s.
Proof.
  intros [Hmax (n & s0 & Hn & Hs & Hst)] Hc Ho.
  destruct (reach_ok (M := max) echo echo_notify port max n s0 s Hmax eq_refl Hn Hs Hst) as [[_ _ T3] Hi].
  apply is_open_abs in Ho. pose proof (inv_recv _ _ _ _ Hi c Hc Ho) as Hr.
  rewrite app_nil_r in Hr. apply list_elem_of_omap in Hr as ([key ov] & Hin & Hr).
  apply (Forall_forall _ _) with (x := mkOp key ov) in T3; [|done].
  unfold op_ref, op_typed in *. cbn in *. destruct ov; try done. injection Hr as ->.
  destruct key; try done. by subst.
Qed.

Lemma open_connections_receive_witness :
  exists s, demo_check s = true /\ req_op 11 KRecv ∈ s_ops s.
Proof.
  destruct demo_echo_ok as
    (s & [[Hchk Hc%bool_decide_eq_true]%andb_true_iff Ho%bool_decide_eq_true]%andb_true_iff & Hrun).
  exists s. split; [exact Hchk|].
  by apply (open_connections_receive (VM := bump_mem) (OS := demo_os) 5001 2 s 11).
Defined.
