(* ===== verification/Serving.v ===== *)
(** * Serving one connection

    The handlers on a connection whose peer behaves: a receive brings a message,
    the server answers, and the system sends the answer in pieces of its choice.
    Here the memory matters: a connection's two buffers hold what [conn_rep]
    says, in blocks of their own, and what the system sends is what the memory
    at [m_wsaBuf] holds when it sends it.

    The handlers run with the other connections at rest, so the state is [conf]:
    everything is that of a fixed state but the memory, one context, the calls
    and the requests in flight. *)
From S2P Require Import Prelude Heap CLib Slice Buffer Os ClientContext IocpServer.
From S2P Require Import ServerInv ServerSafe ServerRuns.

(** The system accepts every send and every receive. *)
Class Accepts (OS : WinOS) : Prop := {
  accepts_send : forall h s c p n, accepted (os_answer h (WSASend s c p n)) = true;
  accepts_recv : forall h s c, accepted (os_answer h (WSARecv s c)) = true;
}.

(** In memory [h] the context's input buffer holds [d] and its output buffer
    [o], followed by [si] and [so]. *)
Record conn_rep (h : heap) (x : ClientContext) (d si o so : bytes) : Prop := {
  rep_in : buf_rep h (m_inBuf x) d si;
  rep_out : buf_rep h (m_outBuf x) o so;
  rep_apart : p_blk (m_pBegin (m_inBuf x)) <> 0 ->
    p_blk (m_pBegin (m_inBuf x)) <> p_blk (m_pBegin (m_outBuf x));
  rep_null_free : h !! 0 = None;
}.

(** The block of another buffer. *)
Definition apart (b : Buffer) (x : ClientContext) : Prop :=
  p_blk (m_pBegin b) <> 0 ->
  p_blk (m_pBegin b) <> p_blk (m_pBegin (m_inBuf x)) /\
  p_blk (m_pBegin b) <> p_blk (m_pBegin (m_outBuf x)).

(** What the work on one context does to memory leaves every other buffer alone, and
    what was apart from the context's buffers stays so. *)
Definition frame (h h' : heap) (x x' : ClientContext) : Prop :=
  forall b d s, buf_rep h b d s -> apart b x -> buf_rep h' b d s /\ apart b x'.

(** What no handler of a connection changes; nothing is queued. *)
Record conn_base (sk : Z) (x : ClientContext) : Prop := {
  base_typed : ctx_typed x;
  base_socket : m_socket x = sk;
  base_open : sk <> INVALID_SOCKET;
  base_queue : m_outBufQueue x = [];
  base_recv : lenZ (m_recvBuf (m_recvIoCtx x)) = IO_BUF_SIZE;
}.

Section serving.
Context {VM : VirtualMem} {VOk : VirtualMemOk VM} {VG : VirtualMemGrants VM (2 ^ 31)}.
Context {OS : WinOS} {Acc : Accepts OS}.
Context (s0 : Sys) (c : client).
Implicit Types (h : heap) (x : ClientContext) (tr : history) (ops : list op) (d o bs : bytes).

Definition conf h x tr ops : Sys :=
  mkSys (s_srv s0) (<[c := x]> (s_ctxs s0)) (s_accs s0) h tr ops (s_next s0) (s_exit s0).

(** ** The basic actions *)

Lemma get_conf h x tr ops : get_ctx c (conf h x tr ops) = Some (x, conf h x tr ops).
Proof. unfold get_ctx, st_reads, conf. cbn. by rewrite lookup_insert_eq. Qed.

Lemma upd_conf f h x tr ops : upd_ctx c f (conf h x tr ops) = Some (tt, conf h (f x) tr ops).
Proof.
  unfold upd_ctx, st_modify, conf, sys_ctxs. cbn. do 3 f_equal. apply map_eq. intros k.
  destruct (decide (c = k)) as [<-|Hne].
  - by rewrite lookup_alter_eq, !lookup_insert_eq.
  - by rewrite lookup_alter_ne, !lookup_insert_ne.
Qed.

Lemma heap_conf {A} (m : ST heap A) a h h' x tr ops :
  m h = Some (a, h') -> on_heap m (conf h x tr ops) = Some (a, conf h' x tr ops).
Proof. intros H. unfold on_heap. cbn. by rewrite H. Qed.

Lemma post_conf k (r : op) h x tr ops :
  accepted (os_answer tr k) = true ->
  sys_post k r (conf h x tr ops) =
    Some (os_answer tr k, conf h x ((k, os_answer tr k) :: tr) (ops ++ [r])).
Proof. intros H. unfold sys_post, sys_call, mbind, ST_bind. cbn. by rewrite H. Qed.

Lemma postRecv_conf h x tr ops :
  m_socket x <> INVALID_SOCKET ->
  exists tr', postRecv c (conf h x tr ops) =
    Some (PostResultSuccesful,
          conf h (set_recvIo (recv_resetBuffer (m_recvIoCtx x)) x) tr' (ops ++ [req_op c KRecv])).
Proof.
  intros Ho. unfold postRecv. st_step (get_conf h x tr ops).
  eexists. st_step (upd_conf (λ y, set_recvIo (recv_resetBuffer (m_recvIoCtx y)) y) h x tr ops).
  set (x' := set_recvIo _ x). st_step (get_conf h x' tr ops).
  change (m_socket x') with (m_socket x). rewrite (proj2 (Z.eqb_neq _ _) Ho).
  rewrite (st_bind_Some _ _ _ _ _ (post_conf _ _ _ _ _ _ (accepts_recv tr (m_socket x) c))).
  rewrite accepts_recv. reflexivity.
Qed.

(** [x] with all of its output buffer announced to the system. *)
Definition announce x : ClientContext :=
  set_sendIo (mkIo (m_postType (m_sendIoCtx x))
    (WsaMem (getBuffer (m_outBuf x) 0), getBufferLen (m_outBuf x))) x.

Lemma postSend_conf h x tr ops sk :
  conn_base sk x ->
  exists tr', (set_sendBuf c;; postSend c) (conf h x tr ops) =
    Some (PostResultSuccesful, conf h (announce x) tr' (ops ++ [req_op c KSend])).
Proof.
  intros [_ Hs Ho _ _]. eexists. unfold set_sendBuf. st_step (upd_conf (λ y, announce y) h x tr ops).
  unfold postSend. st_step (get_conf h (announce x) tr ops).
  change (m_socket (announce x)) with (m_socket x). rewrite Hs, (proj2 (Z.eqb_neq _ _) Ho).
  rewrite (st_bind_Some _ _ _ _ _ (post_conf _ _ _ _ _ _ (accepts_send tr sk c _ _))).
  rewrite accepts_send. reflexivity.
Qed.

(** ** Sending *)

Lemma set_out_base sk x b n : conn_base sk x -> conn_base sk (set_outBuf b (set_pending n x)).
Proof. intros [[? ?] ? ? ? ?]. by split. Qed.

(** Blocks of memory that come and go leave the rest alone. *)
Lemma buf_rep_delete h b d s k :
  buf_rep h b d s -> p_blk (m_pBegin b) <> k -> buf_rep (delete k h) b d s.
Proof.
  intros [-> -> ->|blk pad -> Hb Hsz Hdiv Hblk] Hne; [by apply rep_null|].
  apply (rep_block _ _ _ _ blk pad); try done. cbn in Hne. by rewrite lookup_delete_ne.
Qed.

Lemma rep_live h b d s :
  buf_rep h b d s -> p_blk (m_pBegin b) <> 0 -> is_Some (h !! p_blk (m_pBegin b)).
Proof. intros [-> _ _|blk pad -> _ _ _ Hb] H; [done|]. cbn. by rewrite Hb. Qed.

Lemma rep_nonnull h b d s : buf_rep h b d s -> d <> [] -> p_blk (m_pBegin b) <> 0.
Proof. by intros [_ -> _|blk pad -> ? _ _ _]. Qed.

(** A step of another buffer keeps apart what was apart. *)
Lemma step_apart h h' a a' b d s :
  buf_step h h' a a' -> buf_rep h b d s -> p_blk (m_pBegin b) <> 0 ->
  p_blk (m_pBegin b) <> p_blk (m_pBegin a) -> p_blk (m_pBegin b) <> p_blk (m_pBegin a').
Proof.
  intros ([E|Hf] & _) Hb H0 Hne; [by rewrite E|]. intros E. rewrite <- E in Hf.
  destruct (rep_live _ _ _ _ Hb H0). congruence.
Qed.

Lemma frame_refl h x : frame h h x x.
Proof. by intros b d s. Qed.

Lemma frame_trans h1 h2 h3 x1 x2 x3 : frame h1 h2 x1 x2 -> frame h2 h3 x2 x3 -> frame h1 h3 x1 x3.
Proof. intros H1 H2 b d s Hb Ha. destruct (H1 b d s Hb Ha) as [Hb2 Ha2]. by apply H2. Qed.

(** Only the two buffers of a context matter. *)
Lemma frame_same h h' x x' y y' :
  m_inBuf x = m_inBuf y -> m_outBuf x = m_outBuf y -> m_inBuf x' = m_inBuf y' -> m_outBuf x' = m_outBuf y' ->
  frame h h' x x' -> frame h h' y y'.
Proof. unfold frame, apart. by intros -> -> -> ->. Qed.

Lemma rep_zero h h' b d s : buf_rep h b d s -> p_blk (m_pBegin b) = 0 -> buf_rep h' b d s.
Proof. intros [-> -> ->|blk pad Hx ? _ _ _] E; [by apply rep_null|]. by rewrite Hx in E. Qed.

Lemma frame_in h h' x b : buf_step h h' (m_inBuf x) b -> frame h h' x (set_inBuf b x).
Proof.
  intros Hst c' d s Hc Ha. destruct (decide (p_blk (m_pBegin c') = 0)) as [E|E].
  - split; [by eapply rep_zero|done].
  - destruct (Ha E) as [Hi Ho]. split; [by eapply buf_rep_frame|]. intros _. split; [|done].
    by eapply step_apart.
Qed.

Lemma frame_out h h' x b : buf_step h h' (m_outBuf x) b -> frame h h' x (set_outBuf b x).
Proof.
  intros Hst c' d s Hc Ha. destruct (decide (p_blk (m_pBegin c') = 0)) as [E|E].
  - split; [by eapply rep_zero|done].
  - destruct (Ha E) as [Hi Ho]. split; [by eapply buf_rep_frame|]. intros _. split; [done|].
    by eapply step_apart.
Qed.

(** The temporary buffer of [send] holds a copy of the data, in a block of its
    own. *)
Lemma temp_buffer h pData bs :
  h !! 0 = None -> bs <> [] -> lenZ bs <= 2 ^ 31 - 1024 ->
  load_src h pData (lenZ bs) = Some bs ->
  exists h1 sb ss, write Buffer_new pData (lenZ bs) h = Some ((lenZ bs, sb), h1) /\
    buf_rep h1 sb bs ss /\ p_blk (m_pBegin sb) <> 0 /\ h1 !! 0 = None /\
    forall b d s, buf_rep h b d s -> buf_rep h1 b d s /\ p_blk (m_pBegin b) <> p_blk (m_pBegin sb).
Proof.
  intros H0 Hne Hlen Hload.
  assert (buf_rep h Buffer_new [] []) as Hnew by (by apply rep_null).
  destruct (write_spec h Buffer_new [] [] pData bs Hnew) as (h1 & sb & ss & Hw & Hsb & Hst1 & _).
  { split; [done|]. destruct pData as [p|]; [|done]. right. intros E. cbn in Hload, E.
    unfold load in Hload. rewrite E, H0 in Hload. destruct (Z.eqb_spec (lenZ bs) 0); [|done].
    by apply lenZ_0_inv in e. }
  { by rewrite lenZ_nil. }
  cbn [app] in Hsb. pose proof (rep_nonnull _ _ _ _ Hsb Hne) as Hsb0.
  pose proof (buf_step_delete _ _ _ _ _ _ _ _ Hnew Hsb Hst1 H0) as [_ H01].
  exists h1, sb, ss. split_and!; [done..|]. intros b d' s' Hb.
  destruct (decide (p_blk (m_pBegin b) = 0)) as [E|E].
  - split; [|by rewrite E]. destruct Hb as [-> -> ->|blk pad -> ? _ _ _]; [by apply rep_null|done].
  - split; [by eapply buf_rep_frame|by eapply step_apart].
Qed.

(** A copy of the data is made in the output buffer, and the temporary one is
    destroyed. *)
Lemma send_copy h x d si so pData bs :
  conn_rep h x d si [] so -> bs <> [] -> lenZ bs <= 2 ^ 31 - 1024 ->
  load_src h pData (lenZ bs) = Some bs ->
  exists h1 sb h2 b h3 so',
    write Buffer_new pData (lenZ bs) h = Some ((lenZ bs, sb), h1) /\
    copy (m_outBuf x) sb h1 = Some (b, h2) /\
    Buffer_delete sb h2 = Some (tt, h3) /\
    conn_rep h3 (set_outBuf b x) d si bs so' /\ frame h h3 x (set_outBuf b x).
Proof.
  intros [Hin Hout Hap H0] Hne Hlen Hload.
  destruct (temp_buffer h pData bs H0 Hne Hlen Hload) as (h1 & sb & ss & Hw & Hsb & Hsb0 & H01 & Hfr).
  destruct (Hfr _ _ _ Hin) as [Hin1 Hins]. destruct (Hfr _ _ _ Hout) as [Hout1 Houts].
  destruct (copy_spec h1 (m_outBuf x) [] so sb bs ss Hout1 Hsb Houts) as
    (h2 & b & so' & Hc & Hb & Hsb2 & Hst2).
  pose proof (buf_step_delete _ _ _ _ _ _ _ _ Hout1 Hb Hst2 H01) as [_ H02].
  assert (p_blk (m_pBegin b) <> p_blk (m_pBegin sb)) as Hbs.
  { intros E. eapply (step_apart h1 h2 (m_outBuf x) b sb); eauto. }
  exists h1, sb, h2, b, (delete (p_blk (m_pBegin sb)) h2), so'. split_and!; [done|done| | |].
  3: { intros c' d' s' Hc' Ha. destruct (Hfr _ _ _ Hc') as [Hc1 Hcs].
       destruct (frame_out h1 h2 x b Hst2 c' d' s' Hc1 Ha) as [Hc2 Ha2]. split; [|done].
       by apply buf_rep_delete. }
  - unfold Buffer_delete. rewrite bool_decide_false; [done|]. intros E. by rewrite E in Hsb0.
  - destruct (decide (p_blk (m_pBegin (m_inBuf x)) = 0)) as [E|E].
    + split; cbn; [|by apply buf_rep_delete|done|by rewrite lookup_delete_ne].
      destruct Hin as [-> -> ->|blk pad Hx ? _ _ _]; [by apply rep_null|]. by rewrite Hx in E.
    + split; cbn; [|by apply buf_rep_delete| |by rewrite lookup_delete_ne].
      * apply buf_rep_delete; [|done]. eapply buf_rep_frame; [done|done|by apply Hap].
      * intros _. eapply step_apart; [done|exact Hin1|done|by apply Hap].
Qed.

(** The system has been told to send all of the output buffer, which holds
    [bs]. *)
Definition announced x bs : Prop :=
  m_wsaBuf (m_sendIoCtx x) = (WsaMem (getBuffer (m_outBuf x) 0), lenZ bs).

Lemma announce_announced h x d si bs so :
  conn_rep h x d si bs so -> announced (announce x) bs.
Proof. intros [_ Ho _ _]. unfold announced. cbn. by rewrite (rep_len _ _ _ _ Ho). Qed.

Lemma send_conf h x tr ops sk d si so pData bs :
  conn_base sk x -> conn_rep h x d si [] so -> bs <> [] -> lenZ bs <= 2 ^ 31 - 1024 ->
  load_src h pData (lenZ bs) = Some bs ->
  exists h' x' tr' so', send c pData (lenZ bs) (conf h x tr ops) =
      Some (true, conf h' x' tr' (ops ++ [req_op c KSend])) /\
    conn_base sk x' /\ conn_rep h' x' d si bs so' /\ announced x' bs /\
    m_nPendingIoCnt x' = u32 (m_nPendingIoCnt x + 1) /\ m_inBuf x' = m_inBuf x /\ frame h h' x x'.
Proof.
  intros Hbase Hrep Hne Hlen Hload.
  destruct (send_copy h x d si so pData bs Hrep Hne Hlen Hload) as
    (h1 & sb & h2 & b & h3 & so' & Hw & Hc & Hd & Hrep' & Hfr).
  set (x1 := set_pending (u32 (m_nPendingIoCnt x + 1)) x). set (x2 := set_outBuf b x1).
  assert (conn_base sk x2) as Hbase2 by (by apply set_out_base).
  assert (conn_rep h3 x2 d si bs so') as Hrep2 by (by destruct Hrep').
  destruct (postSend_conf h2 x2 tr ops sk Hbase2) as [tr' Hpost].
  exists h3, (announce x2), tr', so'. split_and!.
  - unfold send. st_step (heap_conf _ _ h h1 x tr ops Hw). cbn [snd].
    st_step (get_conf h1 x tr ops).
    rewrite (rep_len _ _ _ _ (rep_out _ _ _ _ _ _ Hrep)), lenZ_nil. cbn [Z.eqb].
    rewrite (st_bind_Some _ _ _ true (conf h2 (announce x2) tr' (ops ++ [req_op c KSend]))).
    { by st_step (heap_conf _ _ h2 h3 (announce x2) tr' (ops ++ [req_op c KSend]) Hd). }
    unfold enterIoLoop. rewrite (st_bind_Some _ _ _ tt (conf h1 x1 tr ops)).
    2: { st_step (get_conf h1 x tr ops). apply upd_conf. }
    st_step (heap_conf _ _ h1 h2 x1 tr ops Hc). st_step (upd_conf (set_outBuf b) h2 x1 tr ops).
    fold x2. revert Hpost. unfold mbind, ST_bind. destruct (set_sendBuf c _) as [[? s1]|]; [|done].
    intros ->. reflexivity.
  - destruct Hbase2 as [[? ?] ? ? ? ?]. by split.
  - by destruct Hrep2.
  - by eapply announce_announced.
  - done.
  - done.
  - by eapply frame_same; [..|exact Hfr].
Qed.

(** What is sent while the output buffer is not empty is queued: the queue gets
    the members of the temporary buffer, whose memory is freed. *)
Lemma send_busy h x tr ops d si o so pData bs :
  conn_rep h x d si o so -> o <> [] -> bs <> [] -> lenZ bs <= 2 ^ 31 - 1024 ->
  load_src h pData (lenZ bs) = Some bs ->
  exists h' q, send c pData (lenZ bs) (conf h x tr ops) =
      Some (true, conf h' (set_outQueue (m_outBufQueue x ++ [q]) x) tr ops) /\
    conn_rep h' (set_outQueue (m_outBufQueue x ++ [q]) x) d si o so /\
    getBufferLen q = lenZ bs /\ m_pBegin q <> NULL /\ h' !! p_blk (m_pBegin q) = None.
Proof.
  intros [Hin Hout Hap H0] Ho Hne Hlen Hload.
  destruct (temp_buffer h pData bs H0 Hne Hlen Hload) as (h1 & sb & ss & Hw & Hsb & Hsb0 & H01 & Hfr).
  destruct (Hfr _ _ _ Hin) as [Hin1 Hins]. destruct (Hfr _ _ _ Hout) as [Hout1 Houts].
  assert (m_pBegin sb <> NULL) as Hnull by (intros E; by rewrite E in Hsb0).
  set (h2 := delete (p_blk (m_pBegin sb)) h1). exists h2, sb.
  set (x' := set_outQueue _ x).
  assert (0 < lenZ o) as Hlo.
  { pose proof (lenZ_nonneg o). destruct (Z.eq_dec (lenZ o) 0) as [E|]; [|lia]. by apply lenZ_0_inv in E. }
  split_and!.
  - unfold send. st_step (heap_conf _ _ h h1 x tr ops Hw). cbn [snd].
    st_step (get_conf h1 x tr ops). rewrite (rep_len _ _ _ _ Hout), (proj2 (Z.eqb_neq _ _)) by lia.
    rewrite (st_bind_Some _ _ _ true (conf h1 x' tr ops)).
    2: { by st_step (upd_conf (λ y, set_outQueue (m_outBufQueue y ++ [sb]) y) h1 x tr ops). }
    assert (Buffer_delete sb h1 = Some (tt, h2)) as Hd by (unfold Buffer_delete; by rewrite bool_decide_false).
    by st_step (heap_conf _ _ h1 h2 x' tr ops Hd).
  - split; cbn; [by apply buf_rep_delete..|done|unfold h2; by rewrite lookup_delete_ne].
  - by apply (rep_len _ _ _ _ Hsb).
  - done.
  - apply lookup_delete_eq.
Qed.

(** A step of one of the two buffers keeps what is known of the other. *)
Lemma step_in h h' x b d si d' si' o so :
  conn_rep h x d si o so -> buf_step h h' (m_inBuf x) b -> buf_rep h' b d' si' ->
  conn_rep h' (set_inBuf b x) d' si' o so.
Proof.
  intros [Hin Hout Hap H0] Hst Hb. split; cbn; [done| | |].
  - destruct (decide (p_blk (m_pBegin (m_outBuf x)) = 0)) as [E|E].
    + destruct Hout as [-> -> ->|blk pad Hx ? _ _ _]; [by apply rep_null|]. by rewrite Hx in E.
    + destruct (decide (p_blk (m_pBegin (m_inBuf x)) = 0)) as [E'|E'].
      * eapply buf_rep_frame; [done|done|by rewrite E'].
      * eapply buf_rep_frame; [done|done|]. intros E2. by apply (Hap E').
  - intros Hb0 E. destruct Hout as [Ho -> ->|blk pad Hx Hblk0 _ _ Hblk].
    { rewrite Ho in E. by cbn in E. }
    rewrite Hx in E. cbn in E. destruct Hst as ([E2|Hf] & _).
    + destruct (decide (p_blk (m_pBegin (m_inBuf x)) = 0)) as [E'|E'].
      * rewrite E' in E2. by rewrite E2 in Hb0.
      * apply (Hap E'). rewrite Hx. cbn. by rewrite <- E2.
    + rewrite E in Hf. congruence.
  - by apply (buf_step_delete _ _ _ _ _ _ _ _ Hin Hb Hst H0).
Qed.

Lemma step_out h h' x b d si o so o' so' :
  conn_rep h x d si o so -> buf_step h h' (m_outBuf x) b -> buf_rep h' b o' so' ->
  conn_rep h' (set_outBuf b x) d si o' so'.
Proof.
  intros [Hin Hout Hap H0] Hst Hb. split; cbn; [|done| |].
  - destruct (decide (p_blk (m_pBegin (m_inBuf x)) = 0)) as [E|E].
    + destruct Hin as [-> -> ->|blk pad Hx ? _ _ _]; [by apply rep_null|]. by rewrite Hx in E.
    + eapply buf_rep_frame; [done|done|by apply Hap].
  - intros E. eapply step_apart; [done|exact Hin|done|by apply Hap].
  - by apply (buf_step_delete _ _ _ _ _ _ _ _ Hout Hb Hst H0).
Qed.

Lemma taken_all d s n : 0 <= n <= lenZ d -> taken d s n = n.
Proof. intros Hn. unfold taken. pose proof (lenZ_nonneg s). case_tests; lia. Qed.

Lemma remove_in h x d si o so n :
  conn_rep h x d si o so -> 0 <= n <= lenZ d -> lenZ d <= 2 ^ 31 - 1024 ->
  exists h' b si', remove (m_inBuf x) n h = Some ((n, b), h') /\
    conn_rep h' (set_inBuf b x) (dropZ n d) si' o so /\
    left_behind (takeZ n d) (dropZ n d) si si' /\ frame h h' x (set_inBuf b x).
Proof.
  intros Hrep Hn Hlen.
  destruct (remove_spec h (m_inBuf x) d si n (rep_in _ _ _ _ _ _ Hrep) ltac:(lia) Hlen) as
    (h' & b & si' & Hr & Hb & Hst & Hlb).
  rewrite taken_all in * by done.
  exists h', b, si'. split_and!; [done|by eapply step_in|by apply Hlb; lia|by apply frame_in].
Qed.

Lemma remove_out h x d si o so n :
  conn_rep h x d si o so -> 0 <= n <= lenZ o -> lenZ o <= 2 ^ 31 - 1024 ->
  exists h' b so', remove (m_outBuf x) n h = Some ((n, b), h') /\
    conn_rep h' (set_outBuf b x) d si (dropZ n o) so' /\ frame h h' x (set_outBuf b x).
Proof.
  intros Hrep Hn Hlen.
  destruct (remove_spec h (m_outBuf x) o so n (rep_out _ _ _ _ _ _ Hrep) ltac:(lia) Hlen) as
    (h' & b & so' & Hr & Hb & Hst & _).
  rewrite taken_all in * by done.
  exists h', b, so'. split_and!; [done|by eapply step_out|by apply frame_out].
Qed.

(** The bytes received are appended to the input buffer. *)
Lemma recv_write h x d0 si o so d junk :
  conn_rep h x d0 si o so -> m_recvBuf (m_recvIoCtx x) = d ++ junk ->
  lenZ d0 + lenZ d <= 2 ^ 31 - 1024 ->
  exists h' b si', write (m_inBuf x) (SObj (m_recvBuf (m_recvIoCtx x))) (lenZ d) h =
      Some ((lenZ d, b), h') /\
    conn_rep h' (set_inBuf b x) (d0 ++ d) si' o so /\ slack_after (lenZ d) d0 si si' /\
    frame h h' x (set_inBuf b x).
Proof.
  intros Hrep -> Hlen.
  destruct (write_spec h (m_inBuf x) d0 si (SObj (d ++ junk)) d (rep_in _ _ _ _ _ _ Hrep)) as
    (h' & b & si' & Hw & Hb & Hst & Hsl).
  - split; [|done]. cbn. pose proof (lenZ_nonneg d). pose proof (lenZ_nonneg junk).
    rewrite lenZ_app. arith_tests. by rewrite takeZ_app.
  - done.
  - exists h', b, si'. split_and!; [done|by eapply step_in|done|by apply frame_in].
Qed.

Lemma echo_conf h x tr ops sk d si so :
  conn_base sk x -> conn_rep h x d si [] so -> d <> [] -> lenZ d <= 2 ^ 31 - 1024 ->
  exists h' x' tr' si' so', echo c (conf h x tr ops) =
      Some (tt, conf h' x' tr' (ops ++ [req_op c KSend])) /\
    conn_base sk x' /\ conn_rep h' x' [] si' d so' /\ announced x' d /\
    m_nPendingIoCnt x' = u32 (m_nPendingIoCnt x + 1) /\ frame h h' x x'.
Proof.
  intros Hbase Hrep Hne Hlen. pose proof (rep_in _ _ _ _ _ _ Hrep) as Hin.
  destruct (send_conf h x tr ops sk d si so (SMem (getBuffer (m_inBuf x) 0)) d Hbase Hrep Hne Hlen) as
    (h1 & x1 & tr1 & so' & Hsend & Hbase1 & Hrep1 & Hann & Hcnt & _ & Hfr).
  { cbn. destruct (rep_slice _ _ _ _ Hin) as [Hl _]. unfold getBuffer. by rewrite ptr_add_0. }
  pose proof (rep_in _ _ _ _ _ _ Hrep1) as Hin1. pose proof (lenZ_nonneg d).
  destruct (remove_in h1 x1 d si d so' (lenZ d) Hrep1) as (h2 & b & si' & Hrm & Hrep2 & _ & Hfr2); [lia|lia|].
  rewrite dropZ_ge in Hrep2 by lia.
  exists h2, (set_inBuf b x1), tr1, si', so'. split_and!.
  - unfold echo. st_step (get_conf h x tr ops). rewrite (rep_len _ _ _ _ Hin).
    st_step Hsend. st_step (get_conf h1 x1 tr1 (ops ++ [req_op c KSend])).
    rewrite (rep_len _ _ _ _ Hin1).
    st_step (heap_conf _ _ h1 h2 x1 tr1 (ops ++ [req_op c KSend]) Hrm). cbn [snd].
    apply upd_conf.
  - destruct Hbase1 as [[? ?] ? ? ? ?]. by split.
  - done.
  - exact Hann.
  - exact Hcnt.
  - by eapply frame_trans.
Qed.

(** ** Packets *)

Lemma worker_conf notify K n h x tr ops sk :
  conn_base sk x -> 0 < n ->
  worker_turn notify (mkCompletion 1 (req_op c K) n) (conf h x tr ops) =
    ((match K with KRecv => handleRecv notify c n | KSend => handleSend c n end);; mret true)
      (conf h x tr ops).
Proof.
  intros [[Htr Hts] _ _ _ _] Hn. unfold worker_turn. cbn [cp_op cp_ret cp_bytes req_op op_key op_ov].
  rewrite (st_bind_Some get_srv _ (conf h x tr ops) (s_srv s0) (conf h x tr ops)) by done.
  cbv zeta. rewrite (bool_decide_false (KeyClient c = KeyExit)),
    (bool_decide_false (KeyClient c = KeyServer)), andb_false_r by done. cbn [negb andb Z.eqb].
  rewrite (proj2 (Z.eqb_neq n 0)) by lia. destruct K; unfold post_type.
  - rewrite (st_bind_Some _ _ (conf h x tr ops) RECV_EVENT (conf h x tr ops)); [done|].
    st_step (get_conf h x tr ops). by rewrite Htr.
  - rewrite (st_bind_Some _ _ (conf h x tr ops) SEND_EVENT (conf h x tr ops)); [done|].
    st_step (get_conf h x tr ops). by rewrite Hts.
Qed.

Lemma remove_op_app (r : op) l1 l2 : r ∉ l1 -> remove_op r (l1 ++ r :: l2) = Some (l1 ++ l2).
Proof.
  induction l1 as [|r' l1 IH]; cbn; intros Ho.
  - by rewrite bool_decide_true.
  - apply not_elem_of_cons in Ho as [Hne Ho]. rewrite bool_decide_false by done. by rewrite IH.
Qed.

Lemma remove_op_elem (r : op) l :
  r ∈ l -> exists l', remove_op r l = Some l' /\ forall r', r' <> r -> r' ∈ l <-> r' ∈ l'.
Proof.
  intros Hin. apply list_elem_of_split_l in Hin as (l1 & l2 & -> & Hn).
  exists (l1 ++ l2). split; [by apply remove_op_app|].
  intros r' Hne. rewrite !elem_of_app, elem_of_cons.
  split; [intros [?|[?|?]]; auto; done|intros [?|?]; auto].
Qed.

(** The array of the receive, once the data have arrived. *)
Definition received d x : ClientContext :=
  set_recvIo (mkRecvIo (recv_base (m_recvIoCtx x))
    (d ++ dropZ (lenZ d) (m_recvBuf (m_recvIoCtx x)))) x.

Lemma run_recv notify d h x tr ops ops' sk r s' :
  conn_base sk x -> 0 < lenZ d <= IO_BUF_SIZE -> remove_op (req_op c KRecv) ops = Some ops' ->
  handleRecv notify c (lenZ d) (conf h (received d x) tr ops') = Some (r, s') ->
  run_packets notify [recv_packet c d] (conf h x tr ops) = Some (tt, s').
Proof.
  intros Hbase Hd Hops Hrun. cbn [run_packets recv_packet].
  rewrite (st_bind_Some (st_gets s_ops) _ _ ops (conf h x tr ops)) by done.
  rewrite (st_bind_Some _ _ _ ops' (conf h x tr ops)).
  2: { unfold deref, st_reads. cbn [cp_op]. by rewrite Hops. }
  rewrite (st_bind_Some _ _ _ tt (conf h x tr ops)).
  2: { unfold st_assert, packet_ok. cbn [cp_op cp_bytes op_ov req_op]. arith_tests. done. }
  rewrite (st_bind_Some _ _ _ tt (conf h (received d x) tr ops')).
  2: { unfold st_modify, deliver. cbn [cp_op op_ov req_op]. apply (upd_conf (received d) h x tr ops'). }
  rewrite (st_bind_Some _ _ _ true s'); [done|].
  rewrite (worker_conf notify KRecv _ _ _ _ _ sk); [by st_step Hrun| |lia].
  destruct Hbase as [[? ?] ? ? ? Hr]. split; try done. cbn. unfold IO_BUF_SIZE in *.
  rewrite lenZ_app, lenZ_dropZ; lia.
Qed.

Lemma run_sent notify n h x tr ops ops' sk r s' :
  conn_base sk x -> 0 < n -> remove_op (req_op c KSend) ops = Some ops' ->
  handleSend c n (conf h x tr ops') = Some (r, s') ->
  run_packets notify [sent_packet c n] (conf h x tr ops) = Some (tt, s').
Proof.
  intros Hbase Hn Hops Hrun. cbn [run_packets sent_packet].
  rewrite (st_bind_Some (st_gets s_ops) _ _ ops (conf h x tr ops)) by done.
  rewrite (st_bind_Some _ _ _ ops' (conf h x tr ops)).
  2: { unfold deref, st_reads. cbn [cp_op]. by rewrite Hops. }
  rewrite (st_bind_Some _ _ _ tt (conf h x tr ops)).
  2: { unfold st_assert, packet_ok. cbn [cp_op cp_bytes op_ov req_op]. arith_tests. done. }
  rewrite (st_bind_Some _ _ _ tt (conf h x tr ops')) by done.
  rewrite (st_bind_Some _ _ _ true s'); [done|].
  rewrite (worker_conf notify KSend _ _ _ _ _ sk); [by st_step Hrun|done|done].
Qed.

(** ** The system sends *)

Lemma base_set_out sk x b : conn_base sk x -> conn_base sk (set_outBuf b x).
Proof. intros [[? ?] ? ? ? ?]. by split. Qed.

(** Part of the output buffer has been sent: the rest is announced. *)
Lemma handleSend_part h x tr ops sk d si bs so n :
  conn_base sk x -> conn_rep h x d si bs so -> 0 < n < lenZ bs -> lenZ bs <= 2 ^ 31 - 1024 ->
  exists h' x' tr' so', handleSend c n (conf h x tr ops) =
      Some (false, conf h' x' tr' (ops ++ [req_op c KSend])) /\
    conn_base sk x' /\ conn_rep h' x' d si (dropZ n bs) so' /\ announced x' (dropZ n bs) /\
    m_nPendingIoCnt x' = m_nPendingIoCnt x /\ frame h h' x x'.
Proof.
  intros Hbase Hrep Hn Hlen.
  destruct (remove_out h x d si bs so n Hrep ltac:(lia) Hlen) as (h' & b & so' & Hr & Hrep' & Hfr).
  set (x1 := set_outBuf b x) in *.
  assert (conn_base sk x1) as Hbase1 by (by apply base_set_out).
  assert (getBufferLen b = lenZ bs - n) as Hl.
  { rewrite <- (lenZ_dropZ n bs) by lia. exact (rep_len _ _ _ _ (rep_out _ _ _ _ _ _ Hrep')). }
  destruct (postSend_conf h' x1 tr ops sk Hbase1) as [tr' Hpost].
  exists h', (announce x1), tr', so'. split_and!.
  - unfold handleSend. st_step (get_conf h x tr ops). st_step (heap_conf _ _ h h' x tr ops Hr).
    cbn [snd]. st_step (upd_conf (set_outBuf b) h' x tr ops). fold x1. rewrite Hl.
    rewrite (proj2 (Z.eqb_neq _ _)) by lia.
    rewrite (st_bind_Some _ _ _ tt (conf h' x1 tr ops)) by done.
    st_step (get_conf h' x1 tr ops). change (m_outBuf x1) with b. rewrite Hl.
    rewrite (proj2 (Z.eqb_neq _ _)) by lia.
    rewrite (st_bind_Some _ _ _ tt (conf h' (announce x1) tr' (ops ++ [req_op c KSend]))); [done|].
    revert Hpost. unfold mbind, ST_bind. destruct (set_sendBuf c _) as [[? s1]|]; [|done].
    intros ->. reflexivity.
  - destruct Hbase1 as [[? ?] ? ? ? ?]. by split.
  - by destruct Hrep'.
  - by eapply announce_announced.
  - done.
  - by eapply frame_same; [..|exact Hfr].
Qed.

(** All of it has been sent: the reference is given up. *)
Lemma handleSend_last h x tr ops sk d si bs so :
  conn_base sk x -> conn_rep h x d si bs so -> lenZ bs <= 2 ^ 31 - 1024 -> m_nPendingIoCnt x = 2 ->
  exists h' x' so', handleSend c (lenZ bs) (conf h x tr ops) = Some (false, conf h' x' tr ops) /\
    conn_base sk x' /\ conn_rep h' x' d si [] so' /\ m_nPendingIoCnt x' = 1 /\ frame h h' x x'.
Proof.
  intros Hbase Hrep Hlen Hcnt. pose proof (lenZ_nonneg bs).
  destruct (remove_out h x d si bs so (lenZ bs) Hrep ltac:(lia) Hlen) as (h1 & b & so1 & Hr & Hrep1 & Hfr).
  rewrite dropZ_ge in Hrep1 by lia. set (x1 := set_outBuf b x) in *.
  pose proof (rep_out _ _ _ _ _ _ Hrep1) as Hb1. change (m_outBuf x1) with b in Hb1.
  destruct (clear_spec h1 b [] so1 Hb1) as (h2 & b2 & so2 & Hc & Hb2 & Hst & _ & _).
  pose proof (step_out h1 h2 x1 b2 d si [] so1 [] so2 Hrep1 Hst Hb2) as Hrep2.
  set (x2 := set_outBuf b2 x1) in *. set (x3 := set_pending 1 x2).
  exists h2, x3, so2. split_and!.
  - unfold handleSend. st_step (get_conf h x tr ops). st_step (heap_conf _ _ h h1 x tr ops Hr).
    cbn [snd]. st_step (upd_conf (set_outBuf b) h1 x tr ops). fold x1.
    rewrite (rep_len _ _ _ _ Hb1), lenZ_nil. cbn [Z.eqb].
    rewrite (st_bind_Some _ _ _ tt (conf h2 x3 tr ops)).
    + st_step (get_conf h2 x3 tr ops). change (m_outBuf x3) with b2.
      rewrite (rep_len _ _ _ _ Hb2), lenZ_nil. reflexivity.
    + unfold notifyWriteCompleted. rewrite (st_bind_Some _ _ _ tt (conf h1 x1 tr ops)) by done.
      unfold next_outBuf. st_step (get_conf h1 x1 tr ops).
      st_step (heap_conf _ _ h1 h2 x1 tr ops Hc). st_step (upd_conf (set_outBuf b2) h2 x1 tr ops).
      fold x2. change (m_outBufQueue x1) with (m_outBufQueue x). rewrite (base_queue _ _ Hbase).
      unfold releaseClientContext. rewrite (st_bind_Some _ _ _ 1 (conf h2 x3 tr ops)); [done|].
      unfold exitIoLoop. st_step (get_conf h2 x2 tr ops).
      st_step (upd_conf (λ y, set_pending (u32 (m_nPendingIoCnt y - 1)) y) h2 x2 tr ops).
      change (m_nPendingIoCnt x2) with (m_nPendingIoCnt x). rewrite Hcnt.
      change (set_pending (u32 (2 - 1)) x2) with x3. st_step (get_conf h2 x3 tr ops). reflexivity.
  - destruct Hbase as [[? ?] ? ? ? ?]. by split.
  - by destruct Hrep2.
  - done.
  - eapply (frame_trans _ _ _ _ x1); [exact Hfr|]. eapply frame_same; [..|exact (frame_out h1 h2 x1 b2 Hst)]; done.
Qed.

(** ** Idle and busy connections *)

Variable Q : bytes -> Prop.

(** The requests of the others are those in flight at the start, and their memory is as
    it was. *)
Definition others ops : Prop :=
  forall r, op_key r <> KeyClient c -> filter (.= r) ops = filter (.= r) (s_ops s0).
Definition kept h x : Prop :=
  forall x0, s_ctxs s0 !! c = Some x0 -> frame (s_heap s0) h x0 x.

Lemma others_remove k ops ops' : others ops -> remove_op (req_op c k) ops = Some ops' -> others ops'.
Proof.
  intros Ho H r Hr. rewrite <- (Ho r Hr).
  destruct (remove_op_Some _ _ _ H) as (l1 & l2 & -> & ->). rewrite !filter_app, filter_cons_False; [done|].
  intros <-. by apply Hr.
Qed.

Lemma others_app k ops : others ops -> others (ops ++ [req_op c k]).
Proof.
  intros Ho r Hr. rewrite filter_app, (Ho r Hr), filter_cons_False, filter_nil, app_nil_r; [done|].
  intros <-. by apply Hr.
Qed.

Lemma kept_frame h h' x x' : kept h x -> frame h h' x x' -> kept h' x'.
Proof. intros Hk Hf x0 Hx0. eapply frame_trans; [by apply Hk|done]. Qed.

Lemma kept_same h x x' :
  m_inBuf x = m_inBuf x' -> m_outBuf x = m_outBuf x' -> kept h x -> kept h x'.
Proof. intros Hi Ho Hk x0 Hx0. by eapply frame_same; [..|by apply Hk]. Qed.

(** The bytes [d] have been received and not consumed, nothing is sent, one receive
    is in flight; [Q] holds of what is left in the input buffer's block. *)
Definition waiting (d : bytes) (sk : Z) (s : Sys) : Prop :=
  exists h x tr ops si so, s = conf h x tr ops /\ conn_base sk x /\ conn_rep h x d si [] so /\
    Q si /\ m_nPendingIoCnt x = 1 /\ req_op c KRecv ∈ ops /\ (req_op c KSend ∉ ops) /\ others ops /\
    kept h x.

(** Nothing buffered. *)
Definition idle : Z -> Sys -> Prop := waiting [].

(** The system is sending [bs]. *)
Definition busy (sk : Z) (bs : bytes) (s : Sys) : Prop :=
  exists h x tr ops ops' si so, s = conf h x tr ops /\ conn_base sk x /\
    conn_rep h x [] si bs so /\ Q si /\ announced x bs /\ m_nPendingIoCnt x = 2 /\
    remove_op (req_op c KSend) ops = Some ops' /\ req_op c KRecv ∈ ops' /\ (req_op c KSend ∉ ops') /\
    others ops' /\ kept h x.

(** The first [n] of the bytes the system was told to send, as the memory has
    them when they are sent. *)
Definition sent_bytes (n : Z) : action bytes :=
  x ← get_ctx c;
  st_assert (n <=? (m_wsaBuf (m_sendIoCtx x)).2);;
  st_reads (λ s, load (s_heap s) (wsa_ptr (m_wsaBuf (m_sendIoCtx x)).1) n).

(** The system sends [n] bytes and the server handles it; what has gone out is the
    result. *)
Definition send_turn (notify : client -> action unit) (n : Z) : action bytes :=
  w ← sent_bytes n;
  run_packets notify [sent_packet c n];;
  mret w.

(** The system sends [ns] bytes at a time. *)
Fixpoint drain (notify : client -> action unit) (ns : list Z) : action bytes :=
  match ns with
  | [] => mret []
  | n :: ns =>
      w ← send_turn notify n;
      r ← drain notify ns;
      mret (w ++ r)
  end.

Definition pieces_of (ns : list Z) (n : Z) : Prop :=
  Forall (λ k, 0 < k) ns /\ foldr Z.add 0 ns = n.

Lemma sum_nonneg ns : Forall (λ k, 0 < k) ns -> 0 <= foldr Z.add 0 ns.
Proof. induction 1; cbn; lia. Qed.

Lemma sent_bytes_conf h x tr ops d si bs so n :
  conn_rep h x d si bs so -> announced x bs -> 0 <= n <= lenZ bs ->
  sent_bytes n (conf h x tr ops) = Some (takeZ n bs, conf h x tr ops).
Proof.
  intros Hrep Hann Hn. unfold sent_bytes. st_step (get_conf h x tr ops).
  rewrite (st_bind_Some _ _ _ tt (conf h x tr ops)).
  2: { unfold st_assert. rewrite Hann. cbn [snd]. arith_tests. done. }
  unfold st_reads. cbn [conf s_heap]. rewrite Hann. cbn [fst wsa_ptr].
  destruct (rep_slice _ _ _ _ (rep_out _ _ _ _ _ _ Hrep)) as [Hl _]. cbn in Hl.
  unfold getBuffer. rewrite ptr_add_0. rewrite <- (takeZ_dropZ n bs) in Hl.
  apply load_app in Hl as [Hl _]. rewrite lenZ_takeZ in Hl by lia. by rewrite Hl.
Qed.

(** A part of what is being sent goes out. *)
Lemma send_turn_part notify sk n bs s :
  busy sk bs s -> 0 < n < lenZ bs -> lenZ bs <= 2 ^ 31 - 1024 ->
  exists s', send_turn notify n s = Some (takeZ n bs, s') /\ busy sk (dropZ n bs) s'.
Proof.
  intros (h & x & tr & ops & ops' & si & so & -> & Hbase & Hrep & HQ & Hann & Hcnt & Hops & Hr & Hs & Ho & Hk) Hn Hlen.
  destruct (handleSend_part h x tr ops' sk [] si bs so n Hbase Hrep Hn Hlen) as
    (h' & x' & tr' & so' & Hrun & Hbase' & Hrep' & Hann' & Hcnt' & Hfr).
  exists (conf h' x' tr' (ops' ++ [req_op c KSend])). split.
  - unfold send_turn. st_step (sent_bytes_conf h x tr ops [] si bs so n Hrep Hann ltac:(lia)).
    by st_step (run_sent notify n h x tr ops ops' sk _ _ Hbase (proj1 Hn) Hops Hrun).
  - exists h', x', tr', (ops' ++ [req_op c KSend]), ops', si, so'.
    split_and!; try done; [by rewrite Hcnt'| |by eapply kept_frame].
    rewrite (remove_op_app _ ops' []) by done. by rewrite app_nil_r.
Qed.

(** All of it goes out. *)
Lemma send_turn_last notify sk bs s :
  busy sk bs s -> bs <> [] -> lenZ bs <= 2 ^ 31 - 1024 ->
  exists s', send_turn notify (lenZ bs) s = Some (bs, s') /\ idle sk s'.
Proof.
  intros (h & x & tr & ops & ops' & si & so & -> & Hbase & Hrep & HQ & Hann & Hcnt & Hops & Hr & Hs & Ho & Hk) Hne Hlen.
  assert (0 < lenZ bs) as Hpos.
  { pose proof (lenZ_nonneg bs). destruct (Z.eq_dec (lenZ bs) 0) as [E|]; [|lia]. by apply lenZ_0_inv in E. }
  destruct (handleSend_last h x tr ops' sk [] si bs so Hbase Hrep Hlen Hcnt) as
    (h' & x' & so' & Hrun & Hbase' & Hrep' & Hcnt' & Hfr).
  exists (conf h' x' tr ops'). split.
  - unfold send_turn. st_step (sent_bytes_conf h x tr ops [] si bs so (lenZ bs) Hrep Hann ltac:(lia)).
    st_step (run_sent notify (lenZ bs) h x tr ops ops' sk _ _ Hbase Hpos Hops Hrun).
    by rewrite takeZ_ge by lia.
  - exists h', x', tr, ops', si, so'. split_and!; try done. by eapply kept_frame.
Qed.

Lemma drain_spec notify sk ns : forall bs s,
  busy sk bs s -> bs <> [] -> pieces_of ns (lenZ bs) -> lenZ bs <= 2 ^ 31 - 1024 ->
  exists s', drain notify ns s = Some (bs, s') /\ idle sk s'.
Proof.
  induction ns as [|n ns IH]; intros bs s Hbusy Hne [Hpos Hsum] Hlen.
  { cbn in Hsum. symmetry in Hsum. by apply lenZ_0_inv in Hsum. }
  apply Forall_cons in Hpos as [Hn Hpos]. cbn in Hsum. pose proof (sum_nonneg ns Hpos). cbn [drain].
  destruct (Z.eq_dec n (lenZ bs)) as [->|E].
  - destruct (send_turn_last notify sk bs s Hbusy Hne Hlen) as (s' & Hrun & Hidle). st_step Hrun.
    destruct ns as [|n' ns].
    + exists s'. split; [|done]. unfold mbind, ST_bind. cbn. by rewrite app_nil_r.
    + exfalso. apply Forall_cons in Hpos as [Hn' Hpos]. cbn in Hsum.
      pose proof (sum_nonneg ns Hpos). lia.
  - destruct (send_turn_part notify sk n bs s Hbusy ltac:(lia) Hlen) as (s1 & Hrun & Hbusy1). st_step Hrun.
    destruct (IH (dropZ n bs) s1 Hbusy1) as (s' & Hdr & Hidle).
    + intros E'. apply (f_equal lenZ) in E'. rewrite lenZ_dropZ, lenZ_nil in E' by lia. lia.
    + split; [done|]. rewrite lenZ_dropZ; lia.
    + rewrite lenZ_dropZ; lia.
    + exists s'. split; [|done]. st_step Hdr. by rewrite takeZ_dropZ.
Qed.

(** ** A message is received *)

(** The handler of a receive, up to the call of the callback. *)
Definition after_recv (notify : client -> action unit) : action bool :=
  notify c;;
  result ← postRecv c;
  (if failed result then CloseClient c;; releaseClientContext c else mret tt);;
  mret true.

Lemma handleRecv_head notify d d0 h x tr ops sk si so :
  conn_base sk x -> conn_rep h x d0 si [] so -> 0 < lenZ d <= IO_BUF_SIZE ->
  lenZ d0 + lenZ d <= 2 ^ 31 - 1024 ->
  exists h1 b si1, conn_base sk (set_inBuf b (received d x)) /\
    conn_rep h1 (set_inBuf b (received d x)) (d0 ++ d) si1 [] so /\ slack_after (lenZ d) d0 si si1 /\
    frame h h1 x (set_inBuf b (received d x)) /\
    handleRecv notify c (lenZ d) (conf h (received d x) tr ops) =
      after_recv notify (conf h1 (set_inBuf b (received d x)) tr ops).
Proof.
  intros Hbase Hrep Hd Hlen. unfold IO_BUF_SIZE in Hd.
  assert (conn_rep h (received d x) d0 si [] so) as Hrep0 by (by destruct Hrep).
  destruct (recv_write h (received d x) d0 si [] so d (dropZ (lenZ d) (m_recvBuf (m_recvIoCtx x))))
    as (h1 & b & si1 & Hw & Hrep1 & Hsl & Hfr); [done|done|lia|].
  exists h1, b, si1. split_and!; [|done|done|by eapply frame_same; [..|exact Hfr]|].
  - destruct Hbase as [[? ?] ? ? ? Hr]. split; try done. cbn. unfold IO_BUF_SIZE in *.
    rewrite lenZ_app, lenZ_dropZ; lia.
  - unfold handleRecv. st_step (get_conf h (received d x) tr ops).
    assert (appendToBuffer (received d x) (SObj (m_recvBuf (m_recvIoCtx (received d x)))) (lenZ d) h =
      Some (b, h1)) as Happ by (unfold appendToBuffer; rewrite u32_small by lia; by st_step Hw).
    st_step (heap_conf _ _ h h1 (received d x) tr ops Happ).
    st_step (upd_conf (set_inBuf b) h1 (received d x) tr ops). done.
Qed.

(** When the callback leaves the connection open, the next receive is posted. *)
Lemma handleRecv_conf notify d d0 h x tr ops sk si so :
  conn_base sk x -> conn_rep h x d0 si [] so -> 0 < lenZ d <= IO_BUF_SIZE ->
  lenZ d0 + lenZ d <= 2 ^ 31 - 1024 ->
  exists h1 b si1, conn_base sk (set_inBuf b (received d x)) /\
    conn_rep h1 (set_inBuf b (received d x)) (d0 ++ d) si1 [] so /\ slack_after (lenZ d) d0 si si1 /\
    frame h h1 x (set_inBuf b (received d x)) /\
    forall h2 x2 tr2 ops2,
      notify c (conf h1 (set_inBuf b (received d x)) tr ops) = Some (tt, conf h2 x2 tr2 ops2) ->
      m_socket x2 = sk ->
      exists tr3, handleRecv notify c (lenZ d) (conf h (received d x) tr ops) =
        Some (true, conf h2 (set_recvIo (recv_resetBuffer (m_recvIoCtx x2)) x2) tr3
                      (ops2 ++ [req_op c KRecv])).
Proof.
  intros Hbase Hrep Hd Hlen.
  destruct (handleRecv_head notify d d0 h x tr ops sk si so Hbase Hrep Hd Hlen) as
    (h1 & b & si1 & Hbase1 & Hrep1 & Hsl & Hfr & Hrun).
  exists h1, b, si1. split_and!; [done..|]. intros h2 x2 tr2 ops2 Hnot Hsk.
  destruct (postRecv_conf h2 x2 tr2 ops2) as [tr3 Hpost]; [rewrite Hsk; by destruct Hbase|].
  exists tr3. rewrite Hrun. unfold after_recv. st_step Hnot. st_step Hpost. reflexivity.
Qed.

(** A closed connection takes no more receives. *)
Lemma postRecv_closed h x tr ops :
  m_socket x = INVALID_SOCKET ->
  postRecv c (conf h x tr ops) = Some (PostResultInvalidSocket,
    conf h (set_recvIo (recv_resetBuffer (m_recvIoCtx x)) x) tr ops).
Proof.
  intros Ho. unfold postRecv. st_step (get_conf h x tr ops).
  st_step (upd_conf (λ y, set_recvIo (recv_resetBuffer (m_recvIoCtx y)) y) h x tr ops).
  set (x' := set_recvIo _ x). st_step (get_conf h x' tr ops).
  change (m_socket x') with (m_socket x). by rewrite Ho.
Qed.

Lemma remove_op_ne (r r' : op) l l' :
  remove_op r l = Some l' -> r' <> r -> r' ∉ l -> r' ∉ l'.
Proof.
  intros H Hne Hn. destruct (remove_op_Some _ _ _ H) as (l1 & l2 & -> & ->).
  rewrite elem_of_app, elem_of_cons in Hn. rewrite elem_of_app. tauto.
Qed.

(** A connection becomes busy with what the callback announces. *)
Lemma recv_busy notify d d0 sk s out :
  waiting d0 sk s -> 0 < lenZ d <= IO_BUF_SIZE -> lenZ d0 + lenZ d <= 2 ^ 31 - 1024 ->
  (forall h x tr ops si0 si so, conn_base sk x -> conn_rep h x (d0 ++ d) si [] so -> Q si0 ->
     slack_after (lenZ d) d0 si0 si ->
     exists h' x' tr' si' so', notify c (conf h x tr ops) =
         Some (tt, conf h' x' tr' (ops ++ [req_op c KSend])) /\
       conn_base sk x' /\ conn_rep h' x' [] si' out so' /\ Q si' /\ announced x' out /\
       m_nPendingIoCnt x' = u32 (m_nPendingIoCnt x + 1) /\ frame h h' x x') ->
  exists s', run_packets notify [recv_packet c d] s = Some (tt, s') /\ busy sk out s'.
Proof.
  intros (h & x & tr & ops & si & so & -> & Hbase & Hrep & HQ & Hcnt & Hr & Hs & Ho & Hk) Hd Hlen Hnot.
  destruct (remove_op_elem _ _ Hr) as (ops' & Hops & Hiff).
  pose proof (others_remove KRecv _ _ Ho Hops) as Ho'.
  assert (req_op c KSend ∉ ops') as Hs' by (by eapply remove_op_ne).
  destruct (handleRecv_conf notify d d0 h x tr ops' sk si so Hbase Hrep Hd Hlen) as
    (h1 & b & si1 & Hbase1 & Hrep1 & Hsl & Hfr1 & Hrun).
  destruct (Hnot h1 _ tr ops' si si1 so Hbase1 Hrep1 HQ Hsl) as
    (h2 & x2 & tr2 & si2 & so2 & Hn & Hbase2 & Hrep2 & HQ2 & Hann & Hcnt2 & Hfr2).
  destruct (Hrun _ _ _ _ Hn (base_socket _ _ Hbase2)) as [tr3 Hh].
  eexists. split; [by eapply run_recv|].
  eexists h2, _, tr3, _, (ops' ++ [req_op c KRecv]), si2, so2. split_and!; [done| | |done|exact Hann| | | | |by apply (others_app KRecv)|].
  - destruct Hbase2 as [[? ?] ? ? ? ?]. by split.
  - by destruct Hrep2.
  - cbn. rewrite Hcnt2. cbn. rewrite Hcnt. done.
  - rewrite <- app_assoc. cbn [app]. by apply remove_op_app.
  - rewrite elem_of_app. right. left.
  - rewrite elem_of_app. intros [?|Hx]; [done|]. by apply list_elem_of_singleton in Hx.
  - eapply (kept_same _ x2); [done|done|]. eapply (kept_frame h h2 x x2 Hk). by eapply frame_trans.
Qed.

(** A connection waits for more when the callback does nothing. *)
Lemma recv_waits notify d d0 sk s :
  waiting d0 sk s -> 0 < lenZ d <= IO_BUF_SIZE -> lenZ d0 + lenZ d <= 2 ^ 31 - 1024 ->
  (forall si0 si, Q si0 -> slack_after (lenZ d) d0 si0 si -> Q si) ->
  (forall h x tr ops si so, conn_base sk x -> conn_rep h x (d0 ++ d) si [] so ->
     notify c (conf h x tr ops) = Some (tt, conf h x tr ops)) ->
  exists s', run_packets notify [recv_packet c d] s = Some (tt, s') /\ waiting (d0 ++ d) sk s'.
Proof.
  intros (h & x & tr & ops & si & so & -> & Hbase & Hrep & HQ & Hcnt & Hr & Hs & Ho & Hk) Hd Hlen HQs Hnot.
  destruct (remove_op_elem _ _ Hr) as (ops' & Hops & Hiff).
  pose proof (others_remove KRecv _ _ Ho Hops) as Ho'.
  assert (req_op c KSend ∉ ops') as Hs' by (by eapply remove_op_ne).
  destruct (handleRecv_conf notify d d0 h x tr ops' sk si so Hbase Hrep Hd Hlen) as
    (h1 & b & si1 & Hbase1 & Hrep1 & Hsl & Hfr1 & Hrun).
  destruct (Hrun _ _ _ _ (Hnot h1 _ tr ops' si1 so Hbase1 Hrep1) (base_socket _ _ Hbase1)) as [tr3 Hh].
  eexists. split; [by eapply run_recv|].
  eexists h1, _, tr3, _, si1, so. split_and!; [done| | |by eapply HQs|done| | |by apply (others_app KRecv)|].
  - destruct Hbase1 as [[? ?] ? ? ? ?]. by split.
  - by destruct Hrep1.
  - rewrite elem_of_app. right. left.
  - rewrite elem_of_app. intros [?|Hx]; [done|]. by apply list_elem_of_singleton in Hx.
  - eapply (kept_same _ (set_inBuf b (received d x))); [done|done|]. by eapply (kept_frame h h1 x _ Hk).
Qed.
End serving.

(** ** Conversations *)

Section session.
Context {VM : VirtualMem} {OS : WinOS}.

(** The peer sends a message, which arrives in the given pieces, and reads what comes
    back in pieces of the given sizes; then the next one.  The result is what it has
    read. *)
Fixpoint dialogue (notify : client -> action unit) (c : client) (ms : list (list bytes * list Z))
    : action (list bytes) :=
  match ms with
  | [] => mret []
  | (ds, ns) :: ms =>
      run_packets notify (map (recv_packet c) ds);;
      w ← drain c notify ns;
      ws ← dialogue notify c ms;
      mret (w :: ws)
  end.

(** The messages arrive whole. *)
Definition session (notify : client -> action unit) (c : client) (ms : list (bytes * list Z))
    : action (list bytes) := dialogue notify c (map (λ m, ([m.1], m.2)) ms).

Lemma run_packets_app notify ps qs s s1 :
  run_packets notify ps s = Some (tt, s1) -> run_packets notify (ps ++ qs) s = run_packets notify qs s1.
Proof.
  revert s. induction ps as [|[p data] ps IH]; intros s H; cbn [run_packets app] in *; [by injection H as ->|].
  unfold mbind, ST_bind in *. destruct (st_gets s_ops s) as [[ops s2]|]; [|done].
  destruct (deref _ s2) as [[rest s3]|]; [|done]. destruct (st_assert _ s3) as [[u s4]|]; [|done].
  destruct (st_modify _ s4) as [[u' s5]|]; [|done]. destruct (worker_turn notify p s5) as [[b s6]|]; [|done].
  by apply IH.
Qed.
End session.

(** The connection [c] is at rest: nothing is buffered or being sent, and one
    receive is in flight. *)
Definition at_rest (c : client) (sk : Z) (s : Sys) : Prop := idle s c (λ _, True) sk s.

(** A context just as the constructor and an accept leave it. *)
Definition fresh (c : client) (s : Sys) : bool :=
  match s_ctxs s !! c with
  | Some x =>
      bool_decide (m_postType (recv_base (m_recvIoCtx x)) = RECV_EVENT) &&
      bool_decide (m_postType (m_sendIoCtx x) = SEND_EVENT) &&
      negb (m_socket x =? INVALID_SOCKET) && bool_decide (m_outBufQueue x = []) &&
      (lenZ (m_recvBuf (m_recvIoCtx x)) =? IO_BUF_SIZE) &&
      bool_decide (m_inBuf x = Buffer_new) && bool_decide (m_outBuf x = Buffer_new) &&
      bool_decide (s_heap s !! 0 = None) && (m_nPendingIoCnt x =? 1) &&
      bool_decide (req_op c KRecv ∈ s_ops s) && bool_decide (req_op c KSend ∉ s_ops s)
  | None => false
  end.

Lemma fresh_idle (c : client) (Q : bytes -> Prop) s :
  fresh c s = true -> Q [] -> exists sk, idle s c Q sk s.
Proof.
  unfold fresh. destruct (s_ctxs s !! c) as [x|] eqn:Hx; [|done].
  intros H HQ. repeat match type of H with (_ && _) = true => apply andb_prop in H as [H ?] end.
  repeat match goal with H : bool_decide _ = true |- _ => apply bool_decide_eq_true in H end.
  rewrite negb_true_iff in *. rewrite Z.eqb_neq, Z.eqb_eq in *.
  exists (m_socket x), (s_heap s), x, (s_trace s), (s_ops s), [], []. split_and!; try done.
  - destruct s. unfold conf. cbn in *. by rewrite insert_id.
  - destruct x. cbn in *. subst. split; cbn; [by apply rep_null..|done|done].
  - intros x0. rewrite Hx. intros [= <-]. apply frame_refl.
Qed.

Lemma conf_self s c x : s_ctxs s !! c = Some x -> s = conf s c (s_heap s) x (s_trace s) (s_ops s).
Proof. intros H. destruct s. unfold conf. cbn in *. by rewrite insert_id. Qed.

(** What a conversation with [c] leaves alone. *)
Record untouched (c : client) (s s' : Sys) : Prop := {
  same_server : s_srv s' = s_srv s;
  same_next : s_next s' = s_next s;
  same_ops : forall r, op_key r <> KeyClient c -> filter (.= r) (s_ops s') = filter (.= r) (s_ops s);
  same_others : delete c (s_ctxs s') = delete c (s_ctxs s);
  same_accepts : s_accs s' = s_accs s;
}.

Lemma idle_untouched s0 c Q sk s : idle s0 c Q sk s -> untouched c s0 s.
Proof.
  intros (h & x & tr & ops & si & so & -> & _ & _ & _ & _ & _ & _ & Ho & _). split; try done.
  cbn. apply delete_insert_eq.
Qed.

Lemma waiting_self s0 c (Q : bytes -> Prop) d sk s :
  waiting s0 c Q d sk s -> waiting s c Q d sk s.
Proof.
  intros (h & x & tr & ops & si & so & -> & ? & ? & ? & ? & ? & ? & _).
  exists h, x, tr, ops, si, so. split_and!; try done.
  - unfold conf. cbn. by rewrite insert_insert_eq.
  - intros x0. cbn. rewrite lookup_insert_eq. intros [= <-]. apply frame_refl.
Qed.

Lemma idle_self s0 c (Q : bytes -> Prop) sk s : idle s0 c Q sk s -> idle s c Q sk s.
Proof. apply waiting_self. Qed.

Lemma busy_self s0 c (Q : bytes -> Prop) sk bs s :
  busy s0 c Q sk bs s -> busy s c Q sk bs s.
Proof.
  intros (h & x & tr & ops & ops' & si & so & -> & Hb & Hrep & HQ & Ha & Hc & Hops & Hr & Hs & Ho & _).
  exists h, x, tr, ops, ops', si, so. split_and!; try done.
  - unfold conf. cbn. by rewrite insert_insert_eq.
  - by apply (others_remove _ c KSend ops).
  - intros x0. cbn. rewrite lookup_insert_eq. intros [= <-]. apply frame_refl.
Qed.

(** ** What a callback promises to a conversation

    On a connection at rest that has received [d], it consumes [d] and has the
    system send [reply d]. *)
Class Answers `{VM : VirtualMem} `{OS : WinOS} (notify : client -> action unit) (c : client)
    (Q : bytes -> Prop) (valid : bytes -> Prop) (reply : bytes -> bytes) : Prop := {
  answers_slack : forall n d s s', Q s -> slack_after n d s s' -> Q s';
  answers_reply : forall d, valid d -> reply d <> [] /\ lenZ (reply d) <= 2 ^ 31 - 1024;
  answers_call : forall s0 sk d h x tr ops si so,
    valid d -> conn_base sk x -> conn_rep h x d si [] so -> Q si ->
    exists h' x' tr' si' so',
      notify c (conf s0 c h x tr ops) =
        Some (tt, conf s0 c h' x' tr' (ops ++ [req_op c KSend])) /\
      conn_base sk x' /\ conn_rep h' x' [] si' (reply d) so' /\ Q si' /\
      announced x' (reply d) /\ m_nPendingIoCnt x' = u32 (m_nPendingIoCnt x + 1) /\ frame h h' x x';
}.

(** It does nothing as long as the bytes received are [incomplete]. *)
Class Waits `{VM : VirtualMem} `{OS : WinOS} (notify : client -> action unit) (c : client)
    (incomplete : bytes -> Prop) : Prop :=
  waits_call : forall s0 sk d h x tr ops si so,
    incomplete d -> conn_base sk x -> conn_rep h x d si [] so ->
    notify c (conf s0 c h x tr ops) = Some (tt, conf s0 c h x tr ops).

(** After each of these pieces the bytes received so far are incomplete. *)
Fixpoint awaited (incomplete : bytes -> Prop) (d0 : bytes) (ds : list bytes) : Prop :=
  match ds with
  | [] => True
  | d :: ds => incomplete (d0 ++ d) /\ awaited incomplete (d0 ++ d) ds
  end.

(** A message whose pieces fit the receive buffer and that is complete with the last,
    and the sizes of the pieces its answer is sent in. *)
Record good_message (incomplete valid : bytes -> Prop) (reply : bytes -> bytes)
    (m : list bytes * list Z) : Prop := {
  gm_pieces : exists ds d, m.1 = ds ++ [d] /\ awaited incomplete [] ds;
  gm_sizes : Forall (λ d, 0 < lenZ d <= IO_BUF_SIZE) m.1;
  gm_size : lenZ (concat m.1) <= 2 ^ 31 - 1024;
  gm_valid : valid (concat m.1);
  gm_answer : pieces_of m.2 (lenZ (reply (concat m.1)));
}.

Section conversations.
Context {VM : VirtualMem} {VOk : VirtualMemOk VM} {VG : VirtualMemGrants VM (2 ^ 31)}.
Context {OS : WinOS} {Acc : Accepts OS}.

(** The pieces before the last. *)
Lemma pieces_awaited notify c (Q incomplete : bytes -> Prop) {W : Waits notify c incomplete} s0 sk ds :
  (forall n d s s', Q s -> slack_after n d s s' -> Q s') ->
  forall d0 s, waiting s0 c Q d0 sk s -> awaited incomplete d0 ds ->
  Forall (λ d, 0 < lenZ d <= IO_BUF_SIZE) ds -> lenZ (d0 ++ concat ds) <= 2 ^ 31 - 1024 ->
  exists s', run_packets notify (map (recv_packet c) ds) s = Some (tt, s') /\
    waiting s0 c Q (d0 ++ concat ds) sk s'.
Proof.
  intros HQ. induction ds as [|d ds IH]; intros d0 s Hs Haw Hsz Hlen; cbn [map concat] in *.
  { exists s. by rewrite app_nil_r. }
  destruct Haw as [Hd Haw]. apply Forall_cons in Hsz as [Hsd Hsz].
  pose proof (lenZ_nonneg (concat ds)). rewrite !lenZ_app in Hlen.
  destruct (recv_waits s0 c Q notify d d0 sk s Hs Hsd ltac:(lia)) as (s1 & Hrun & Hs1).
  { by apply HQ. }
  { intros h x tr ops si so Hbase Hrep. by eapply waits_call. }
  destruct (IH (d0 ++ d) s1 Hs1 Haw Hsz) as (s2 & Hrun2 & Hs2); [rewrite !lenZ_app; lia|].
  exists s2. rewrite app_assoc. split; [|done].
  pose proof (run_packets_app notify [recv_packet c d] (map (recv_packet c) ds) s s1 Hrun) as Happ.
  cbn [app] in Happ. by rewrite Happ.
Qed.

Lemma dialogue_spec notify c Q incomplete valid reply
    {A : Answers notify c Q valid reply} {W : Waits notify c incomplete} s0 sk ms :
  forall s, idle s0 c Q sk s -> Forall (good_message incomplete valid reply) ms ->
  exists s', dialogue notify c ms s = Some (map (λ m, reply (concat m.1)) ms, s') /\ idle s0 c Q sk s'.
Proof.
  induction ms as [|[all ns] ms IH]; intros s Hs Hms; [by exists s|].
  apply Forall_cons in Hms as [[(ds & d & Hall & Haw) Hsz Hlen Hv Hns] Hms]. cbn [fst snd] in *. subst all.
  destruct (answers_reply (concat (ds ++ [d])) Hv) as [Hne Hrl].
  rewrite concat_app in *. cbn [concat] in *. rewrite app_nil_r in *. apply Forall_app in Hsz as [Hsz Hd].
  rewrite Forall_singleton in Hd. pose proof (lenZ_nonneg d). rewrite lenZ_app in Hlen.
  destruct (pieces_awaited notify c Q incomplete s0 sk ds answers_slack [] s Hs Haw Hsz) as (s1 & Hrun1 & Hs1);
    [cbn; lia|]. cbn [app] in Hs1.
  destruct (recv_busy s0 c Q notify d (concat ds) sk s1 (reply (concat ds ++ d)) Hs1 Hd ltac:(lia))
    as (s2 & Hrun2 & Hbusy).
  { intros h x tr ops si0 si so Hbase Hrep HQ Hsl. eapply answers_call; [done..|by eapply answers_slack]. }
  destruct (drain_spec s0 c Q notify sk ns _ s2 Hbusy Hne Hns Hrl) as (s3 & Hdr & Hidle).
  destruct (IH s3 Hidle Hms) as (s4 & Hses & Hidle4).
  exists s4. split; [|done]. cbn [dialogue map]. rewrite map_app. cbn [map].
  pose proof (run_packets_app notify (map (recv_packet c) ds) [recv_packet c d] s s1 Hrun1) as Happ.
  rewrite Hrun2 in Happ. st_step Happ. st_step Hdr. st_step Hses. cbn [fst].
  by rewrite concat_app; cbn [concat]; rewrite app_nil_r.
Qed.

(** Messages that arrive whole need no waiting. *)
Lemma session_spec notify c Q valid reply {A : Answers notify c Q valid reply} s0 sk ms s :
  idle s0 c Q sk s ->
  Forall (λ m, valid m.1 /\ 0 < lenZ m.1 <= IO_BUF_SIZE /\ pieces_of m.2 (lenZ (reply m.1))) ms ->
  exists s', session notify c ms s = Some (map (λ m, reply m.1) ms, s') /\ idle s0 c Q sk s'.
Proof.
  intros Hs Hms. assert (Waits notify c (λ _, False)) as W by (by intros ?).
  destruct (dialogue_spec notify c Q (λ _, False) valid reply s0 sk (map (λ m, ([m.1], m.2)) ms) s Hs)
    as (s' & Hrun & Hidle).
  { apply Forall_fmap. eapply Forall_impl; [exact Hms|]. intros [d ns] (Hv & Hd & Hp). cbn [fst snd] in *.
    unfold IO_BUF_SIZE in *.
    split; cbn [fst snd concat]; rewrite ?app_nil_r; [by exists [], d|by constructor|lia|done|done]. }
  exists s'. split; [|done]. unfold session. rewrite Hrun. do 2 f_equal. rewrite map_map.
  apply map_ext. intros m. cbn. by rewrite app_nil_r.
Qed.

#[export] Instance echo_answers c :
  Answers echo c (λ _, True) (λ d, 0 < lenZ d <= IO_BUF_SIZE) (λ d, d).
Proof.
  assert (forall d : bytes, 0 < lenZ d <= IO_BUF_SIZE -> d <> [] /\ lenZ d <= 2 ^ 31 - 1024) as Hok.
  { unfold IO_BUF_SIZE. intros d Hd. split; [intros ->; rewrite lenZ_nil in Hd; lia|lia]. }
  split; [done|done|]. intros s0 sk d h x tr ops si so [Hne Hlen]%Hok Hbase Hrep _.
  destruct (echo_conf s0 c h x tr ops sk d si so Hbase Hrep Hne Hlen)
    as (h' & x' & tr' & si' & so' & ? & ? & ? & ? & ? & ?).
  by exists h', x', tr', si', so'.
Qed.
End conversations.

#[export] Instance demo_accepts : Accepts demo_os.
Proof. by split. Qed.

(** The demonstration server, once a connection has been accepted. *)
Definition demo_accepted (max : Z) : option (bool * Sys) :=
  demo_run (VM := bump_mem) (OS := demo_os) demo_notify max [accept_packet 1].

Lemma demo_fresh : holds_after (λ _ s, fresh 11 s) (demo_accepted 2) = true.
Proof. vm_compute. reflexivity. Qed.

(** ** Properties *)

(** C5: The echo server is faithful to a peer that waits for its answers.  On a connection
    at rest, whatever messages the peer sends, each of 1 to 8192 bytes that arrive
    together, the next one only when the last echo has been sent completely and read (see
    [pipelined_echo_faults] for one that does not wait), and in whatever pieces the system
    sends the answers, the handlers, which run one at a time, do not fault, the peer reads
    exactly its messages in order, and the connection is at rest again, with the server,
    the accepts and every other connection as they were. *)
Theorem echo_session `{!VirtualMemOk VM} `{!VirtualMemGrants VM (2 ^ 31)} `{!Accepts OS}
    (c : client) (sk : Z) (s : Sys) (ms : list (bytes * list Z)) :
  at_rest c sk s ->
  Forall (λ m, 0 < lenZ m.1 <= IO_BUF_SIZE /\ pieces_of m.2 (lenZ m.1)) ms ->
  exists s', session echo c ms s = Some (map fst ms, s') /\ at_rest c sk s' /\ untouched c s s'.
Proof.
  intros Hs Hms. destruct (session_spec echo c _ _ _ s sk ms s Hs) as (s' & Hrun & Hidle).
  { eapply Forall_impl; [exact Hms|]. intros m [Hm Hp]. exact (conj Hm (conj Hm Hp)). }
  exists s'. split; [exact Hrun|split; [by eapply idle_self|by eapply idle_untouched]].
Qed.

Lemma echo_session_witness :
  exists s sk, at_rest 11 sk s /\ exists s',
    session (VM := bump_mem) (OS := demo_os) demo_notify 11 [(lit "hi", [2]); (lit "there", [3; 1; 1])] s =
      Some ([lit "hi"; lit "there"], s') /\
    at_rest 11 sk s' /\ untouched 11 s s'.
Proof.
  destruct (holds_after_inv _ _ demo_fresh) as (b & s & _ & Hs).
  destruct (fresh_idle 11 (λ _, True) s Hs I) as [sk Hidle].
  exists s, sk. split; [exact Hidle|].
  apply (echo_session (VM := bump_mem) (OS := demo_os) 11 sk s
    [(lit "hi", [2]); (lit "there", [3; 1; 1])] Hidle).
  repeat constructor; by vm_compute.
Defined.

(** What is queued is not the answer but the address of freed memory.
    Whenever [send] is called while the last answer is still on its way, it
    returns true, posts nothing and appends to the queue a buffer that claims the
    length of the data, over a block that no longer exists: reading it faults. *)
Theorem queued_send_dangles `{!VirtualMemOk VM} `{!VirtualMemGrants VM (2 ^ 31)} `{OS : WinOS}
    (c : client) (s : Sys) (x : ClientContext) (d si o so : bytes) (pData : src) (bs : bytes) :
  s_ctxs s !! c = Some x -> conn_rep (s_heap s) x d si o so -> o <> [] ->
  bs <> [] -> lenZ bs <= 2 ^ 31 - 1024 -> load_src (s_heap s) pData (lenZ bs) = Some bs ->
  exists s' qb, send c pData (lenZ bs) s = Some (true, s') /\ s_ops s' = s_ops s /\
    s_ctxs s' !! c = Some (set_outQueue (m_outBufQueue x ++ [qb]) x) /\
    getBufferLen qb = lenZ bs /\ load (s_heap s') (getBuffer qb 0) (getBufferLen qb) = None.
Proof.
  intros Hx Hrep Ho Hne Hlen Hload.
  pose proof (conf_self s c x Hx) as Es.
  destruct (send_busy s c (s_heap s) x (s_trace s) (s_ops s) d si o so pData bs Hrep Ho Hne Hlen Hload)
    as (h' & qb & Hsend & _ & Hl & Hn & Hgone).
  rewrite <- Es in Hsend. eexists _, qb. split_and!; [exact Hsend|done|apply lookup_insert_eq|done|].
  cbn. rewrite Hl. unfold load, getBuffer. rewrite ptr_add_0, Hgone.
  rewrite (proj2 (Z.eqb_neq _ _)); [done|]. intros E. by apply lenZ_0_inv in E.
Qed.

(** A connection of the demonstration server whose answer is on its way. *)
Lemma demo_busy : exists s sk, busy s 11 (λ _, True) sk (lit "hi") s.
Proof.
  destruct (holds_after_inv _ _ demo_fresh) as (b & s & _ & Hs).
  destruct (fresh_idle 11 (λ _, True) s Hs I) as [sk Hidle].
  destruct (recv_busy (VM := bump_mem) (OS := demo_os) s 11 (λ _, True)
    (echo (VM := bump_mem) (OS := demo_os)) (lit "hi") [] sk s (lit "hi"))
    as (s' & _ & Hbusy); [done|done|done| |].
  - intros. eapply (@answers_call _ _ _ _ _ _ _ (echo_answers (VM := bump_mem) (OS := demo_os) 11));
      by eauto.
  - exists s', sk. by eapply busy_self.
Qed.

Lemma queued_send_dangles_witness :
  exists s x s' qb, send (VM := bump_mem) (OS := demo_os) 11 (SObj (lit "more")) 4 s = Some (true, s') /\
    s_ops s' = s_ops s /\
    s_ctxs s' !! 11 = Some (set_outQueue (m_outBufQueue x ++ [qb]) x) /\
    getBufferLen qb = 4 /\ load (s_heap s') (getBuffer qb 0) (getBufferLen qb) = None.
Proof.
  destruct demo_busy as (s & sk & h & x & tr & ops & ops' & si & so & Es & Hbase & Hrep & _).
  exists s, x. rewrite Es.
  apply (queued_send_dangles (VM := bump_mem) (OS := demo_os) 11 _ x [] si (lit "hi") so
    (SObj (lit "more")) (lit "more")); [apply lookup_insert_eq|exact Hrep|done|done|by vm_compute|done].
Defined.

(** A peer that does not wait for the answer kills the server.  The echo
    server receives "hi", receives "more" before the echo of "hi" has been sent,
    and when it has been sent, [handleSend] reads the queued buffer: the process
    faults. *)
Theorem pipelined_echo_faults :
  holds_after (λ _ s, (in_flight 11 s =? 2) &&
      match run_packets (VM := bump_mem) (OS := demo_os) demo_notify [sent_packet 11 2] s with
      | None => true | Some _ => false end)
    (demo_run (VM := bump_mem) (OS := demo_os) demo_notify 2
      [accept_packet 1; recv_packet 11 (lit "hi"); recv_packet 11 (lit "more")]) = true.
Proof. vm_compute. reflexivity. Qed.
