(* ===== verification/HttpServer.v ===== *)
(** * [HttpServer] (WinHttpServer/HttpServer.h, HttpServer.cpp)

    The callback that answers a package: it decodes the bytes in the input
    buffer, again and again as long as a request was complete, and sends what the
    codec has written.  The codec is made once, over the buffer as it is at the
    start; its slice is not adjusted when the bytes are removed from the buffer,
    so that the next turn of the loop reads what [remove] left behind. *)
From S2P Require Import Prelude Heap CLib Slice Buffer HttpMessage Codec Os ClientContext.
From S2P Require Import IocpServer ServerInv ServerSafe ServerRuns Serving.

Abbreviation codec_in := Codec.m_inBuf.
Abbreviation codec_out := Codec.m_outBuf.
Abbreviation ctx_in := ClientContext.m_inBuf.
Abbreviation ctx_out := ClientContext.m_outBuf.
Abbreviation set_ctx_in := ClientContext.set_inBuf.
Abbreviation set_ctx_out := ClientContext.set_outBuf.

Section http.
Context {A : Arch} {VM : VirtualMem} {OS : WinOS}.

(** What the removal of all of the input buffer's bytes does. *)
Definition remove_all (c : client) : action unit :=
  x ← get_ctx c;
  r ← on_heap (remove (ctx_in x) (getBufferLen (ctx_in x)));
  upd_ctx c (set_ctx_in r.2).

(** What is done with a result of the decoder that is not 0. *)
Definition answer (c : client) (codec : HttpCodec) : action unit :=
  let resMsg := responseMessage codec in
  send c (SObj (resMsg ++ [NUL])) (u32 (lenZ resMsg));;
  remove_all c.

(** The [while] loop, at most [fuel] turns of it; [false] when these are not
    enough. *)
Fixpoint http_loop (fuel : nat) (c : client) (codec : HttpCodec) : action bool :=
  match fuel with
  | O => mret false
  | S fuel =>
      d ← st_reads (λ s, tryDecode (s_heap s) codec);
      let ret : Z := d.1 in
      let codec : HttpCodec := d.2 in
      (if ret =? 0 then mret tt else answer c codec);;
      (if ret <? 0 then CloseClient c;; releaseClientContext c else mret tt);;
      if 0 <? ret then http_loop fuel c codec else mret true
  end.

(** The codec's members without an initialiser hold [hl0] and [st0]. *)
Definition http_codec (hl0 st0 : Z) (x : ClientContext) : HttpCodec :=
  HttpCodec_new (getBuffer (ctx_in x) 0) (getBufferLen (ctx_in x)) hl0 st0.

(** The callback, with so many turns of its loop; running out of them is a
    fault here, so a theorem that it returns shows they were enough. *)
Definition notifyPackageReceived (fuel : nat) (hl0 st0 : Z) (c : client) : action unit :=
  x ← get_ctx c;
  b ← http_loop fuel c (http_codec hl0 st0 x);
  st_assert b.
End http.

(** ** The memory the decoder reads *)

(** The first [n] bytes of a buffer's block, data or not. *)
Lemma block_slice h b d s n :
  buf_rep h b d s -> 0 <= n <= lenZ d + lenZ s ->
  slice_is h (Slice_sized (getBuffer b 0) n) (takeZ n (d ++ s)).
Proof.
  intros Hrep Hn. unfold getBuffer. rewrite ptr_add_0.
  assert (lenZ (takeZ n (d ++ s)) = n) as Hl by (apply lenZ_takeZ; len_lia).
  split.
  - rewrite Hl. destruct Hrep as [-> -> ->|blk pad -> Hb _ _ Hblk].
    + change (lenZ [] + lenZ []) with 0 in Hn. by replace n with 0 by lia.
    + apply (load_block h blk [] (takeZ n (d ++ s)) (dropZ n (d ++ s) ++ pad)); [|done|done].
      by rewrite Hblk, (app_assoc (takeZ _ _)), takeZ_dropZ, <- app_assoc.
  - by rewrite Hl.
Qed.

Lemma no_CR_no_end l : CR ∉ l -> strstr l CRLF2 = None.
Proof.
  intros Hl. destruct (strstr l CRLF2) as [i|] eqn:E; [|done].
  destruct (strstr_Some _ _ _ E) as (a & b & -> & _). exfalso. apply Hl.
  rewrite elem_of_app. right. left.
Qed.

Lemma NULs_no_CR (l : bytes) : Forall (.= NUL) l -> CR ∉ l.
Proof. intros Hl Hin. by apply (proj1 (Forall_forall _ _) Hl) in Hin. Qed.

Lemma NULs_takeZ n (l : bytes) : Forall (.= NUL) l -> Forall (.= NUL) (takeZ n l).
Proof. apply Forall_take. Qed.

Lemma NULs_dropZ n (l : bytes) : Forall (.= NUL) l -> Forall (.= NUL) (dropZ n l).
Proof. apply Forall_drop. Qed.

Lemma NULs_zeros n : Forall (.= NUL) (zeros n).
Proof. unfold zeros. apply Forall_replicate. done. Qed.

Lemma NULs_slack_after n d s s' :
  Forall (.= NUL) s -> slack_after n d s s' -> Forall (.= NUL) s'.
Proof. intros Hs [->| ->]; [by apply NULs_dropZ|apply NULs_zeros]. Qed.

(** Data of at most half the block leave nothing but zeros behind. *)
Lemma NULs_left d s :
  Forall (.= NUL) s -> lenZ d <= lenZ s -> Forall (.= NUL) (s ++ dropZ (lenZ s) (d ++ s)).
Proof.
  intros Hs Hd. apply Forall_app. split; [done|].
  replace (dropZ (lenZ s) (d ++ s)) with (dropZ (lenZ s - lenZ d) s); [by apply NULs_dropZ|].
  replace (lenZ s) with (lenZ d + (lenZ s - lenZ d)) at 2 by lia.
  rewrite <- dropZ_dropZ by len_lia. by rewrite dropZ_app.
Qed.

Lemma half_block h b d s :
  buf_rep h b d s -> 0 < lenZ d <= 512 -> lenZ d <= lenZ s.
Proof.
  intros [_ -> ->|blk pad _ _ Hsz [k Hk] _] Hd; [rewrite lenZ_nil in Hd; lia|].
  pose proof (lenZ_nonneg s). nia.
Qed.

(** ** The callback on a connection at rest *)

Lemma print_pos q body : 0 < lenZ (Text.print q ++ body).
Proof.
  unfold Text.print. pose proof (lenZ_nonneg (Text.head q)). pose proof (lenZ_nonneg body).
  rewrite !lenZ_app. change (lenZ CRLF2) with 4. lia.
Qed.

Section serving.
Context {A : Arch} {VM : VirtualMem} {VOk : VirtualMemOk VM} {VG : VirtualMemGrants VM (2 ^ 31)}.
Context {OS : WinOS} {Acc : Accepts OS}.
Context (s0 : Sys) (c : client).
Implicit Types (h : heap) (x : ClientContext) (tr : history) (ops : list op) (d o bs : bytes).
Implicit Types (codec : HttpCodec) (q : Text.request).

Lemma base_set_in sk x b : conn_base sk x -> conn_base sk (set_ctx_in b x).
Proof. intros [[? ?] ? ? ? ?]. by split. Qed.

Lemma load_c_str h bs : load_src h (SObj (bs ++ [NUL])) (lenZ bs) = Some bs.
Proof. cbn. pose proof (lenZ_nonneg bs). rewrite lenZ_app. change (lenZ [NUL]) with 1. arith_tests.
  by rewrite takeZ_app. Qed.

Lemma remove_all_conf h x tr ops d si o so :
  conn_rep h x d si o so -> 0 < lenZ d <= 2 ^ 31 - 1024 ->
  exists h' b, remove_all c (conf s0 c h x tr ops) = Some (tt, conf s0 c h' (set_ctx_in b x) tr ops) /\
    conn_rep h' (set_ctx_in b x) [] (si ++ dropZ (lenZ si) (d ++ si)) o so /\
    m_pBegin b = m_pBegin (ctx_in x) /\ frame h h' x (set_ctx_in b x).
Proof.
  intros Hrep Hd. pose proof (rep_in _ _ _ _ _ _ Hrep) as Hin.
  destruct (remove_everything h (ctx_in x) d si Hin Hd) as (h' & b & Hr & Hb & Hst & Hp).
  exists h', b. split_and!; [|by eapply step_in|done|by apply frame_in]. unfold remove_all.
  st_step (get_conf s0 c h x tr ops). rewrite (rep_len _ _ _ _ Hin).
  st_step (heap_conf s0 c _ _ h h' x tr ops Hr). apply upd_conf.
Qed.

(** The first answer: the output buffer is empty. *)
Lemma answer_conf h x tr ops sk d si so codec bs :
  conn_base sk x -> conn_rep h x d si [] so -> 0 < lenZ d <= 2 ^ 31 - 1024 ->
  codec_out codec = bs -> bs <> [] -> lenZ bs <= 2 ^ 31 - 1024 ->
  exists h' x' tr' so', answer c codec (conf s0 c h x tr ops) =
      Some (tt, conf s0 c h' x' tr' (ops ++ [req_op c KSend])) /\
    conn_base sk x' /\ conn_rep h' x' [] (si ++ dropZ (lenZ si) (d ++ si)) bs so' /\
    announced x' bs /\ m_nPendingIoCnt x' = u32 (m_nPendingIoCnt x + 1) /\
    m_pBegin (ctx_in x') = m_pBegin (ctx_in x) /\ frame h h' x x'.
Proof.
  intros Hbase Hrep Hd Hbs Hne Hlen. pose proof (lenZ_nonneg bs).
  destruct (send_conf s0 c h x tr ops sk d si so (SObj (bs ++ [NUL])) bs Hbase Hrep Hne Hlen
    (load_c_str h bs)) as (h1 & x1 & tr1 & so' & Hsend & Hbase1 & Hrep1 & Hann & Hcnt & Hin & Hfr).
  destruct (remove_all_conf h1 x1 tr1 (ops ++ [req_op c KSend]) d si bs so' Hrep1 Hd) as
    (h2 & b & Hrm & Hrep2 & Hp & Hfr2).
  exists h2, (set_ctx_in b x1), tr1, so'. split_and!; [|by apply base_set_in|done|done|done| |by eapply frame_trans].
  - unfold answer, responseMessage. rewrite Hbs, u32_small by lia. st_step Hsend. exact Hrm.
  - cbn. by rewrite Hp, Hin.
Qed.

(** A turn of the loop in which a request is complete. *)
Lemma turn_served fuel codec h x tr ops q body s' :
  slice_is h (codec_in codec) (Text.print q ++ body) -> agrees q codec -> served q body ->
  lenZ (Text.print q ++ body) < 2 ^ 31 ->
  (forall codec', codec_out codec' = hello_response ->
     answer c codec' (conf s0 c h x tr ops) = Some (tt, s')) ->
  exists codec', codec_in codec' = codec_in codec /\ agrees q codec' /\
    http_loop (S fuel) c codec (conf s0 c h x tr ops) = http_loop fuel c codec' s'.
Proof.
  intros Hs Hag Hserved Hl Hans.
  destruct (decode_served h q body codec Hs Hag Hserved Hl) as (codec' & Hdec & Hin & Hout & Hag').
  exists codec'. split_and!; [done..|]. cbn [http_loop].
  pose proof (print_pos q body).
  rewrite (st_bind_Some _ _ _ (lenZ (Text.print q ++ body), codec') (conf s0 c h x tr ops)).
  2: { unfold st_reads. cbn [conf s_heap]. by rewrite Hdec. }
  cbv zeta. cbn [fst snd]. rewrite (proj2 (Z.eqb_neq _ 0)), (proj2 (Z.ltb_ge _ 0)),
    (proj2 (Z.ltb_lt 0 _)) by lia.
  st_step (Hans codec' Hout). done.
Qed.

(** The turn after a short request: there is nothing but zeros to read. *)
Lemma turn_zeros fuel codec h x tr ops l :
  slice_is h (codec_in codec) l -> lenZ l < 2 ^ 32 -> Forall (.= NUL) l ->
  http_loop (S fuel) c codec (conf s0 c h x tr ops) = Some (true, conf s0 c h x tr ops).
Proof.
  intros Hs Hl Hz. cbn [http_loop].
  rewrite (st_bind_Some _ _ _ (0, codec) (conf s0 c h x tr ops)); [done|].
  unfold st_reads. cbn [conf s_heap].
  by rewrite (decode_no_end h l codec Hs Hl (no_CR_no_end l (NULs_no_CR l Hz))).
Qed.

(** ** A block that is full *)

(** What is sent while the last answer is on its way is queued, and nothing is
    left to remove. *)
Lemma answer_busy h x tr ops si o so codec bs :
  conn_rep h x [] si o so -> 0 < lenZ si -> o <> [] ->
  codec_out codec = bs -> bs <> [] -> lenZ bs <= 2 ^ 31 - 1024 ->
  exists h' qb, answer c codec (conf s0 c h x tr ops) =
      Some (tt, conf s0 c h' (set_outQueue (m_outBufQueue x ++ [qb]) x) tr ops) /\
    conn_rep h' (set_outQueue (m_outBufQueue x ++ [qb]) x) [] si o so.
Proof.
  intros Hrep Hsi Ho Hbs Hne Hlen. pose proof (lenZ_nonneg bs).
  destruct (send_busy s0 c h x tr ops [] si o so (SObj (bs ++ [NUL])) bs Hrep Ho Hne Hlen
    (load_c_str h bs)) as (h1 & qb & Hsend & Hrep1 & _).
  set (x1 := set_outQueue _ x) in *. pose proof (rep_in _ _ _ _ _ _ Hrep1) as Hin1.
  exists h1, qb. split; [|done]. unfold answer, responseMessage. rewrite Hbs, u32_small by lia.
  st_step Hsend. unfold remove_all. st_step (get_conf s0 c h1 x1 tr ops).
  rewrite (rep_len _ _ _ _ Hin1), lenZ_nil.
  st_step (heap_conf s0 c _ _ h1 h1 x1 tr ops (remove_nothing h1 _ si Hin1 Hsi)). cbn [snd].
  rewrite upd_conf. by destruct x.
Qed.

(** The request is still in the block: every turn reads it again. *)
Lemma loop_again fuel : forall codec h x tr ops q body o so,
  conn_rep h x [] (Text.print q ++ body) o so -> o <> [] -> served q body ->
  lenZ (Text.print q ++ body) < 2 ^ 31 ->
  codec_in codec = Slice_sized (getBuffer (ctx_in x) 0) (lenZ (Text.print q ++ body)) ->
  agrees q codec ->
  exists h' qs, http_loop fuel c codec (conf s0 c h x tr ops) =
      Some (false, conf s0 c h' (set_outQueue (m_outBufQueue x ++ qs) x) tr ops) /\
    length qs = fuel.
Proof.
  induction fuel as [|fuel IH]; intros codec h x tr ops q body o so Hrep Ho Hserved Hl Hin Hag.
  { exists h, []. split; [|done]. cbn [http_loop]. rewrite app_nil_r. by destruct x. }
  pose proof (print_pos q body) as Hpos. set (d := Text.print q ++ body) in *.
  destruct (answer_busy h x tr ops d o so (Codec.set_outBuf hello_response codec) hello_response
    Hrep Hpos Ho eq_refl ltac:(done) ltac:(by vm_compute)) as (h1 & qb & Hans & Hrep1).
  set (x1 := set_outQueue _ x) in *.
  destruct (turn_served fuel codec h x tr ops q body (conf s0 c h1 x1 tr ops)) as
    (codec' & Hin' & Hag' & ->); [|done..| |].
  - rewrite Hin. fold d.
    pose proof (block_slice h _ [] d (lenZ d) (rep_in _ _ _ _ _ _ Hrep)) as Hs.
    cbn [app] in Hs. rewrite takeZ_ge in Hs by lia. apply Hs. rewrite lenZ_nil. lia.
  - intros codec1 Hout. unfold answer, responseMessage in *. by rewrite Hout.
  - destruct (IH codec' h1 x1 tr ops q body o so) as (h2 & qs & -> & Hlen); [done..| |done|].
    { rewrite Hin', Hin. done. }
    exists h2, (qb :: qs). split; [|by cbn; rewrite Hlen]. cbn. by rewrite <- app_assoc.
Qed.
End serving.

(** A request short enough that removing it leaves no byte of it behind. *)
Definition short_request (d : bytes) : Prop :=
  exists q body, d = Text.print q ++ body /\ served q body /\ lenZ d <= 512.

(** The beginning of such a request, up to some byte of the header or of the body it
    announces. *)
Definition short_part (d : bytes) : Prop :=
  exists q body more, d ++ more = Text.print q ++ body /\ served q body /\
    lenZ (d ++ more) <= 512 /\ lenZ d < lenZ (Text.print q) + Codec.announced q.

Section answers.
Context {A : Arch} {VM : VirtualMem} {VOk : VirtualMemOk VM} {VG : VirtualMemGrants VM (2 ^ 31)}.
Context {OS : WinOS} {Acc : Accepts OS}.

#[export] Instance http_answers fuel hl0 st0 c :
  Answers (notifyPackageReceived (S (S fuel)) hl0 st0) c (Forall (.= NUL)) short_request
    (λ _, hello_response).
Proof.
  split; [by apply NULs_slack_after|by intros d _|].
  intros s0 sk d h x tr ops si so (q & body & Hd & Hserved & Hlen) Hbase Hrep HQ1.
  pose proof (print_pos q body) as Hpos. rewrite <- Hd in Hpos.
  pose proof (rep_in _ _ _ _ _ _ Hrep) as Hin.
  pose proof (half_block h _ d si Hin ltac:(lia)) as Hhalf.
  set (codec := http_codec hl0 st0 x).
  assert (slice_is h (codec_in codec) d) as Hs.
  { pose proof (block_slice h _ d si (lenZ d) Hin ltac:(len_lia)) as Hs.
    rewrite takeZ_app in Hs by done. unfold codec, http_codec.
    by rewrite (rep_len _ _ _ _ Hin). }
  destruct (answer_conf s0 c h x tr ops sk d si so (Codec.set_outBuf hello_response codec) hello_response
    Hbase Hrep ltac:(lia) eq_refl ltac:(done) ltac:(by vm_compute)) as
    (h' & x' & tr' & so' & Hans & Hbase' & Hrep' & Hann & Hcnt & Hp & Hfr).
  set (si' := si ++ dropZ (lenZ si) (d ++ si)) in *.
  assert (Forall (.= NUL) si') as HQ' by (by apply NULs_left).
  destruct (turn_served s0 c (S fuel) codec h x tr ops q body
    (conf s0 c h' x' tr' (ops ++ [req_op c KSend]))) as (codec' & Hin' & _ & Hturn);
    [by rewrite <- Hd|by apply agrees_new|done|rewrite <- Hd; lia| |].
  { intros codec1 Hout. unfold answer, responseMessage in *. by rewrite Hout. }
  exists h', x', tr', si', so'. split_and!; try done.
  unfold notifyPackageReceived. st_step (get_conf s0 c h x tr ops). fold codec.
  rewrite (st_bind_Some _ _ _ true (conf s0 c h' x' tr' (ops ++ [req_op c KSend]))); [done|].
  rewrite Hturn. apply (turn_zeros _ _ _ _ _ _ _ _ (takeZ (lenZ d) si')).
  - rewrite Hin'. unfold codec, http_codec. cbn [Codec.m_inBuf HttpCodec_new].
    rewrite (rep_len _ _ _ _ Hin).
    pose proof (block_slice h' _ [] si' (lenZ d) (rep_in _ _ _ _ _ _ Hrep')) as Hs'.
    unfold getBuffer in *. rewrite Hp in Hs'. apply Hs'. rewrite lenZ_nil. unfold si'. len_lia.
  - rewrite lenZ_takeZ; unfold si'; len_lia.
  - by apply NULs_takeZ.
Qed.

(** A part of a request is left in the buffer. *)
#[export] Instance http_waits fuel hl0 st0 c :
  Waits (notifyPackageReceived (S fuel) hl0 st0) c short_part.
Proof.
  intros s0 sk d h x tr ops si so (q & body & more & Hd & Hserved & Hlen & Hlt) Hbase Hrep.
  pose proof (rep_in _ _ _ _ _ _ Hrep) as Hin. pose proof (lenZ_nonneg si).
  set (codec := http_codec hl0 st0 x).
  assert (slice_is h (codec_in codec) d) as Hs.
  { pose proof (block_slice h _ d si (lenZ d) Hin ltac:(len_lia)) as Hs.
    rewrite takeZ_app in Hs by done. unfold codec, http_codec. by rewrite (rep_len _ _ _ _ Hin). }
  destruct (decode_waits h q body d more codec Hd Hs) as [codec' Hdec];
    [by apply agrees_new|done|done|rewrite <- Hd; lia|].
  unfold notifyPackageReceived. st_step (get_conf s0 c h x tr ops). fold codec.
  rewrite (st_bind_Some _ _ _ true (conf s0 c h x tr ops)); [done|]. cbn [http_loop].
  rewrite (st_bind_Some _ _ _ (0, codec') (conf s0 c h x tr ops)); [done|].
  unfold st_reads. cbn [conf s_heap]. by rewrite Hdec.
Qed.
End answers.

(** ** A full block, from its arrival on *)

(** The callback, cut after so many turns, which must not have been enough. *)
Definition still_running `{Arch} `{VirtualMem} `{WinOS} (fuel : nat) (hl0 st0 : Z) (c : client)
    : action unit :=
  x ← get_ctx c;
  b ← http_loop fuel c (http_codec hl0 st0 x);
  st_assert (negb b).

Section full_block.
Context {A : Arch} {VM : VirtualMem} {VOk : VirtualMemOk VM} {VG : VirtualMemGrants VM (2 ^ 31)}.
Context {OS : WinOS} {Acc : Accepts OS}.

Lemma full_slack n s :
  0 <= n < 2 ^ 31 -> (1024 | n) -> slack_after n [] [] s -> s = [].
Proof.
  intros Hn Hdiv [->| ->]; [unfold dropZ; by rewrite drop_nil|].
  rewrite lenZ_nil, Z.add_0_r, round1024_mult by (done || lia).
  unfold zeros. by replace (n - 0 - n) with 0 by lia.
Qed.

Lemma full_block_runs fuel hl0 st0 s0 c h x tr ops sk so q body :
  conn_base sk x -> conn_rep h x (Text.print q ++ body) [] [] so -> served q body ->
  lenZ (Text.print q ++ body) <= IO_BUF_SIZE -> m_outBufQueue x = [] ->
  exists h' x' tr', still_running (S fuel) hl0 st0 c (conf s0 c h x tr ops) =
      Some (tt, conf s0 c h' x' tr' (ops ++ [req_op c KSend])) /\
    m_socket x' = sk /\ length (m_outBufQueue x') = fuel.
Proof.
  intros Hbase Hrep Hserved Hlen Hq. unfold IO_BUF_SIZE in Hlen.
  pose proof (print_pos q body) as Hpos. set (d := Text.print q ++ body) in *.
  set (codec := http_codec hl0 st0 x). pose proof (rep_in _ _ _ _ _ _ Hrep) as Hin.
  destruct (answer_conf s0 c h x tr ops sk d [] so (Codec.set_outBuf hello_response codec)
    hello_response Hbase Hrep ltac:(lia) eq_refl ltac:(done) ltac:(by vm_compute)) as
    (h1 & x1 & tr1 & so1 & Hans & Hbase1 & Hrep1 & _ & _ & Hp & _).
  rewrite lenZ_nil, dropZ_0, !app_nil_r in Hrep1. cbn [app] in Hrep1.
  destruct (turn_served s0 c fuel codec h x tr ops q body
    (conf s0 c h1 x1 tr1 (ops ++ [req_op c KSend]))) as (codec' & Hin' & Hag' & Hturn);
    [|by apply agrees_new|done|fold d; lia| |].
  { pose proof (block_slice h _ d [] (lenZ d) Hin) as Hs. rewrite takeZ_app in Hs by done.
    unfold codec, http_codec. rewrite (rep_len _ _ _ _ Hin). apply Hs. len_lia. }
  { intros codec1 Hout. unfold answer, responseMessage in *. by rewrite Hout. }
  destruct (loop_again s0 c fuel codec' h1 x1 tr1 (ops ++ [req_op c KSend]) q body hello_response
    so1 Hrep1 ltac:(done) Hserved ltac:(fold d; lia)) as (h2 & qs & Hloop & Hqs).
  { rewrite Hin'. unfold codec, http_codec. cbn [Codec.m_inBuf HttpCodec_new].
    rewrite (rep_len _ _ _ _ Hin). unfold getBuffer. by rewrite Hp. }
  { done. }
  exists h2, (set_outQueue (m_outBufQueue x1 ++ qs) x1), tr1. split_and!.
  - unfold still_running. st_step (get_conf s0 c h x tr ops). fold codec.
    rewrite (st_bind_Some _ _ _ _ _ (eq_trans Hturn Hloop)). done.
  - apply (base_socket _ _ Hbase1).
  - cbn. by rewrite (base_queue _ _ Hbase1).
Qed.
End full_block.

(** ** A request that is refused *)

Section refused.
Context {A : Arch} {VM : VirtualMem} {VOk : VirtualMemOk VM} {VG : VirtualMemGrants VM (2 ^ 31)}.
Context {OS : WinOS} {Acc : Accepts OS}.
Context (c : client).
Implicit Types (h : heap) (x : ClientContext) (tr : history) (ops : list op).

(** The answer to a request that is refused is empty, but it is posted. *)
Lemma send_empty s0 h x tr ops sk d si so str :
  conn_base sk x -> conn_rep h x d si [] so ->
  exists h' x' tr' so', send c (SObj str) 0 (conf s0 c h x tr ops) =
      Some (true, conf s0 c h' x' tr' (ops ++ [req_op c KSend])) /\
    conn_rep h' x' d si [] so' /\ announced x' [] /\
    m_nPendingIoCnt x' = u32 (m_nPendingIoCnt x + 1).
Proof.
  intros Hbase Hrep. set (x1 := set_pending (u32 (m_nPendingIoCnt x + 1)) x).
  pose proof (rep_out _ _ _ _ _ _ Hrep) as Hout.
  destruct (copy_nothing h (ctx_out x) so Hout) as (h2 & b & so' & Hc & Hb & Hst).
  assert (conn_rep h x1 d si [] so) as Hrep1 by (by destruct Hrep).
  pose proof (step_out h h2 x1 b d si [] so [] so' Hrep1 Hst Hb) as Hrep2.
  set (x2 := set_ctx_out b x1) in *.
  assert (conn_base sk x2) as Hbase2 by (by apply set_out_base).
  destruct (postSend_conf s0 c h2 x2 tr ops sk Hbase2) as [tr' Hpost].
  exists h2, (announce x2), tr', so'. split_and!.
  - unfold send. st_step (heap_conf s0 c _ _ h h x tr ops (write_nothing h str)). cbn [snd].
    st_step (get_conf s0 c h x tr ops). rewrite (rep_len _ _ _ _ Hout), lenZ_nil. cbn [Z.eqb].
    rewrite (st_bind_Some _ _ _ true (conf s0 c h2 (announce x2) tr' (ops ++ [req_op c KSend])));
      [done|].
    unfold enterIoLoop. rewrite (st_bind_Some _ _ _ tt (conf s0 c h x1 tr ops)).
    2: { st_step (get_conf s0 c h x tr ops). apply upd_conf. }
    st_step (heap_conf s0 c _ _ h h2 x1 tr ops Hc).
    st_step (upd_conf s0 c (set_ctx_out b) h2 x1 tr ops). fold x2. revert Hpost.
    unfold mbind, ST_bind. destruct (set_sendBuf c _) as [[? s1]|]; [|done]. intros ->. reflexivity.
  - by destruct Hrep2.
  - by eapply announce_announced.
  - done.
Qed.

(** Two servers with the same lists of clients. *)
Definition same_lists (v w : IocpServer) : Prop :=
  m_connectedClientList v = m_connectedClientList w /\ m_freeClientList v = m_freeClientList w.

Lemma CloseClient_conf s0 h x tr ops :
  exists v tr', CloseClient c (conf s0 c h x tr ops) =
      Some (tt, conf (sys_srv v s0) c h (set_socket INVALID_SOCKET x) tr' ops) /\
    same_lists v (s_srv s0).
Proof.
  unfold CloseClient. st_step (get_conf s0 c h x tr ops).
  st_step (upd_conf s0 c (set_socket INVALID_SOCKET) h x tr ops).
  destruct (m_socket x =? INVALID_SOCKET); [by exists (s_srv s0), tr|].
  unfold Net_setLinger, sys_call, notifyDisconnected, mbind, ST_bind. cbn -[u32].
  destruct (negb (os_answer _ (SetLinger _) =? 0)); [by eexists (s_srv s0), _|]. cbn -[u32].
  destruct (_ && _); [by eexists (s_srv s0), _|]. cbn -[u32].
  by eexists (srv_connCnt _ (s_srv s0)), _.
Qed.

Lemma release_conf s0 h x tr ops :
  0 < s32 (u32 (m_nPendingIoCnt x - 1)) ->
  releaseClientContext c (conf s0 c h x tr ops) =
    Some (tt, conf s0 c h (set_pending (u32 (m_nPendingIoCnt x - 1)) x) tr ops).
Proof.
  intros Hn. unfold releaseClientContext, exitIoLoop. set (x' := set_pending _ x).
  rewrite (st_bind_Some _ _ _ (s32 (m_nPendingIoCnt x')) (conf s0 c h x' tr ops)).
  { change (m_nPendingIoCnt x') with (u32 (m_nPendingIoCnt x - 1)).
    by rewrite (proj2 (Z.leb_gt _ 0)) by lia. }
  st_step (get_conf s0 c h x tr ops).
  st_step (upd_conf s0 c (λ y, set_pending (u32 (m_nPendingIoCnt y - 1)) y) h x tr ops).
  fold x'. by st_step (get_conf s0 c h x' tr ops).
Qed.

(** The last reference. *)
Lemma release_last_conf s0 h x tr ops :
  m_nPendingIoCnt x = 1 -> c ∈ m_connectedClientList (s_srv s0) ->
  exists v, releaseClientContext c (conf s0 c h x tr ops) =
      Some (tt, conf (sys_srv v s0) c h (set_pending 0 x) tr ops) /\
    m_connectedClientList v = filter (.≠ c) (m_connectedClientList (s_srv s0)) /\
    m_freeClientList v = m_freeClientList (s_srv s0) ++ [c].
Proof.
  intros Hn Hin. unfold releaseClientContext, exitIoLoop. set (x' := set_pending 0 x).
  eexists. split; [|split].
  - rewrite (st_bind_Some _ _ _ 0 (conf s0 c h x' tr ops)).
    + cbn [Z.leb Z.compare]. unfold removeClient.
      rewrite (st_bind_Some get_srv _ (conf s0 c h x' tr ops) (s_srv s0) (conf s0 c h x' tr ops)) by done.
      rewrite bool_decide_true by done. reflexivity.
    + st_step (get_conf s0 c h x tr ops).
      st_step (upd_conf s0 c (λ y, set_pending (u32 (m_nPendingIoCnt y - 1)) y) h x tr ops).
      rewrite Hn. change (set_pending (u32 (1 - 1)) x) with x'. by st_step (get_conf s0 c h x' tr ops).
  - done.
  - done.
Qed.

(** The callback on a request that is refused: the connection is closed, and one
    of the two references is given up. *)
Lemma refused_call fuel hl0 st0 s0 h x tr ops sk si so q body st :
  conn_base sk x -> conn_rep h x (Text.print q ++ body) si [] so ->
  Text.wf q -> verdict q = Some st -> lenZ (Text.print q ++ body) <= IO_BUF_SIZE ->
  m_nPendingIoCnt x = 1 ->
  exists v h' x' tr', notifyPackageReceived (S fuel) hl0 st0 c (conf s0 c h x tr ops) =
      Some (tt, conf (sys_srv v s0) c h' x' tr' (ops ++ [req_op c KSend])) /\
    same_lists v (s_srv s0) /\ m_socket x' = INVALID_SOCKET /\ m_nPendingIoCnt x' = 1 /\
    (m_wsaBuf (m_sendIoCtx x')).2 = 0.
Proof.
  intros Hbase Hrep Hwf Hv Hlen Hcnt. unfold IO_BUF_SIZE in Hlen.
  pose proof (print_pos q body) as Hpos. set (d := Text.print q ++ body) in *.
  pose proof (rep_in _ _ _ _ _ _ Hrep) as Hin. set (codec := http_codec hl0 st0 x).
  destruct (decode_refused h q body codec st) as (codec' & Hdec & Hout);
    [|by apply agrees_new|done|done|fold d; lia|].
  { pose proof (block_slice h _ d si (lenZ d) Hin ltac:(len_lia)) as Hs.
    rewrite takeZ_app in Hs by done. unfold codec, http_codec. by rewrite (rep_len _ _ _ _ Hin). }
  destruct (send_empty s0 h x tr ops sk d si so ([] ++ [NUL]) Hbase Hrep) as
    (h1 & x1 & tr1 & so1 & Hsend & Hrep1 & Hann & Hcnt1).
  destruct (remove_all_conf s0 c h1 x1 tr1 (ops ++ [req_op c KSend]) d si [] so1 Hrep1) as
    (h2 & b & Hrm & _); [lia|].
  set (x2 := set_ctx_in b x1) in *.
  destruct (CloseClient_conf s0 h2 x2 tr1 (ops ++ [req_op c KSend])) as (v & tr2 & Hclose & Hv2).
  assert (m_nPendingIoCnt (set_socket INVALID_SOCKET x2) = 2) as Hcnt2.
  { change (m_nPendingIoCnt x1 = 2). by rewrite Hcnt1, Hcnt. }
  pose proof (release_conf (sys_srv v s0) h2 (set_socket INVALID_SOCKET x2) tr2
    (ops ++ [req_op c KSend])) as Hrel. rewrite Hcnt2 in Hrel. specialize (Hrel ltac:(done)).
  set (x3 := set_pending _ _) in *.
  set (s' := conf (sys_srv v s0) c h2 x3 tr2 (ops ++ [req_op c KSend])) in *.
  exists v, h2, x3, tr2. split_and!; [|exact Hv2|..].
  - unfold notifyPackageReceived. st_step (get_conf s0 c h x tr ops). fold codec.
    rewrite (st_bind_Some _ _ _ true s'); [done|]. cbn [http_loop].
    rewrite (st_bind_Some _ _ _ (-1, codec') (conf s0 c h x tr ops)).
    2: { unfold st_reads. cbn [conf s_heap]. by rewrite Hdec. }
    cbv zeta. cbn [fst snd Z.eqb Z.ltb Z.compare].
    rewrite (st_bind_Some _ _ _ tt (conf s0 c h2 x2 tr1 (ops ++ [req_op c KSend]))).
    2: { unfold answer, responseMessage. rewrite Hout. cbn [codec http_codec HttpCodec_new Codec.m_outBuf].
         change (u32 (lenZ [])) with 0. by st_step Hsend. }
    rewrite (st_bind_Some _ _ _ tt s'); [reflexivity|]. st_step Hclose. exact Hrel.
  - done.
  - done.
  - cbn. by rewrite Hann.
Qed.
End refused.

(** ** Properties *)

(** The connection is at rest, and the memory behind its input buffer is zero,
    as that of a new context is. *)
Definition clean (c : client) (sk : Z) (s : Sys) : Prop := idle s c (Forall (.= NUL)) sk s.

(** A short request that arrives in these pieces, none of them empty, and is complete
    with the last. *)
Definition short_arrival (ds : list bytes) : Prop :=
  exists q body parts last, ds = parts ++ [last] /\ concat ds = Text.print q ++ body /\
    served q body /\ lenZ (concat ds) <= 512 /\ Forall (λ d, d <> []) ds /\
    lenZ (concat parts) < lenZ (Text.print q) + Codec.announced q.

Lemma short_awaited q body ds : forall d0 more,
  (d0 ++ concat ds) ++ more = Text.print q ++ body -> served q body ->
  lenZ ((d0 ++ concat ds) ++ more) <= 512 -> lenZ (d0 ++ concat ds) < lenZ (Text.print q) + Codec.announced q ->
  awaited short_part d0 ds.
Proof.
  induction ds as [|d ds IH]; intros d0 more E Hserved Hlen Hlt; cbn [concat awaited] in *; [done|].
  rewrite app_assoc in E, Hlen, Hlt. split.
  - exists q, body, (concat ds ++ more). rewrite app_assoc. split_and!; [done..|].
    rewrite lenZ_app in Hlt. pose proof (lenZ_nonneg (concat ds)). lia.
  - by apply (IH (d0 ++ d) more).
Qed.

Lemma piece_size (ds : list bytes) d : d ∈ ds -> lenZ d <= lenZ (concat ds).
Proof.
  intros (l1 & l2 & ->)%list_elem_of_split. rewrite concat_app. cbn [concat].
  pose proof (lenZ_nonneg (concat l1)). pose proof (lenZ_nonneg (concat l2)). len_lia.
Qed.

Lemma short_good ds ns :
  short_arrival ds -> pieces_of ns (lenZ hello_response) ->
  good_message short_part short_request (λ _, hello_response) (ds, ns).
Proof.
  intros (q & body & parts & last & Eds & Econc & Hserved & Hlen & Hne & Hlt) Hns.
  split; cbn [fst snd]; [| |lia|by exists q, body|done].
  - exists parts, last. split; [done|]. subst ds. rewrite concat_app in Econc, Hlen.
    by apply (short_awaited q body parts [] (concat [last])).
  - apply Forall_forall. intros d Hd. pose proof (piece_size ds d Hd).
    apply (proj1 (Forall_forall _ _) Hne) in Hd. pose proof (lenZ_nonneg d).
    assert (lenZ d <> 0) by (by intros ?%lenZ_0_inv). unfold IO_BUF_SIZE. lia.
Qed.

(** C6: The HTTP server keeps the connection of a peer that waits for its answers alive, and
    answers every request once.  On a connection at rest with nothing left over in its
    input block, whatever acceptable GET requests of at most 512 bytes arrive, each in any
    pieces, but the next one only when the answer to the last has been sent completely and
    read, and in whatever pieces the answers are sent, the handlers, which run one at a
    time, do not fault, the callback waits until the header and the body it announces are
    there, its loop ends in its second turn, the peer reads the fixed response once for
    each request, and the connection is at rest again; the server and the other
    connections are as they were. *)
Theorem http_session `{!Arch} `{!VirtualMemOk VM} `{!VirtualMemGrants VM (2 ^ 31)} `{!Accepts OS}
    (fuel : nat) (hl0 st0 : Z) (c : client) (sk : Z) (s : Sys) (ms : list (list bytes * list Z)) :
  clean c sk s -> (2 <= fuel)%nat ->
  Forall (λ m, short_arrival m.1 /\ pieces_of m.2 (lenZ hello_response)) ms ->
  exists s', dialogue (notifyPackageReceived fuel hl0 st0) c ms s =
      Some (map (λ _, hello_response) ms, s') /\
    clean c sk s' /\ untouched c s s'.
Proof.
  intros Hs Hfuel Hms. destruct fuel as [|[|fuel]]; [lia..|].
  destruct (dialogue_spec (notifyPackageReceived (S (S fuel)) hl0 st0) c _ short_part short_request
    (λ _, hello_response) s sk ms s Hs) as (s' & Hrun & Hidle).
  { eapply Forall_impl; [exact Hms|]. intros [ds ns] [Hds Hp]. by apply short_good. }
  exists s'. split; [exact Hrun|split; [by eapply idle_self|by eapply idle_untouched]].
Qed.

Definition demo_url (n : nat) : Text.request :=
  Text.mkReq (lit "GET") (lit "/" ++ replicate n Byte.x61) (lit "HTTP/1.1")
    [(lit "Host", lit "here")].
Abbreviation demo_short := (Text.print (demo_url 5) ++ []).

Lemma demo_served n : (n <= 1000)%nat -> served (demo_url n) [].
Proof.
  intros _. assert (verdict (demo_url n) = None) as Hv by reflexivity.
  split; [|done|done|by vm_compute]. split_and!; try by apply (bool_decide_unpack _).
  split; [done|]. apply Forall_app. split; [by apply (bool_decide_unpack _)|].
  apply Forall_replicate. done.
Qed.

(** A request in one piece, and one whose end of the header is cut. *)
Lemma demo_whole : short_arrival [demo_short].
Proof.
  exists (demo_url 5), [], [], demo_short. split_and!; [done..|apply demo_served; lia|by vm_compute| |by vm_compute].
  by repeat constructor.
Qed.

Definition demo_parts : list bytes := [takeZ 7 demo_short; takeZ 26 (dropZ 7 demo_short); dropZ 33 demo_short].

Lemma demo_cut : short_arrival demo_parts.
Proof.
  exists (demo_url 5), [], [takeZ 7 demo_short; takeZ 26 (dropZ 7 demo_short)], (dropZ 33 demo_short).
  split_and!; [done|by vm_compute|apply demo_served; lia|by vm_compute| |by vm_compute].
  by repeat constructor; apply (bool_decide_unpack _); vm_compute.
Qed.

Lemma http_session_witness :
  exists s sk, clean 11 sk s /\ exists s',
    dialogue (VM := bump_mem) (OS := demo_os)
        (notifyPackageReceived (A := X64) (VM := bump_mem) (OS := demo_os) 2 0 0) 11
        [([demo_short], [66]); (demo_parts, [60; 6])] s =
      Some ([hello_response; hello_response], s') /\
    clean 11 sk s' /\ untouched 11 s s'.
Proof.
  destruct (holds_after_inv _ _ demo_fresh) as (b & s & _ & Hs).
  destruct (fresh_idle 11 (Forall (.= NUL)) s Hs (Forall_nil_2 _)) as [sk Hidle].
  exists s, sk. split; [exact Hidle|].
  apply (http_session (H := X64) (VM := bump_mem) (OS := demo_os) 2 0 0 11 sk s
    [([demo_short], [66]); (demo_parts, [60; 6])] Hidle (le_n _)).
  apply Forall_cons; split; [split; [apply demo_whole|by repeat constructor]|].
  apply Forall_cons; split; [split; [apply demo_cut|by repeat constructor]|].
  apply Forall_nil_2.
Defined.

(** C32: A request that fills the input block is answered without end.  On a new
    connection, when the first receive brings a complete and acceptable GET of
    exactly 1024 bytes (or another multiple, up to 8192), the removal of the
    bytes leaves them where they were, and the codec reads them again: after any
    number of turns the loop has not ended, and each turn but the first has put
    another response in the queue. *)
Theorem full_block_never_ends `{!Arch} `{!VirtualMemOk VM} `{!VirtualMemGrants VM (2 ^ 31)}
    `{!Accepts OS} (fuel : nat) (hl0 st0 : Z) (c : client) (s : Sys) (q : Text.request)
    (body : bytes) :
  fresh c s = true -> served q body -> lenZ (Text.print q ++ body) <= IO_BUF_SIZE ->
  (1024 | lenZ (Text.print q ++ body)) ->
  exists s' x', run_packets (still_running (S fuel) hl0 st0)
      [recv_packet c (Text.print q ++ body)] s = Some (tt, s') /\
    s_ctxs s' !! c = Some x' /\ length (m_outBufQueue x') = fuel.
Proof.
  intros Hs Hserved Hlen Hdiv. pose proof (print_pos q body) as Hpos.
  destruct (fresh_idle c (.= []) s Hs eq_refl) as
    (sk & h & x & tr & ops & si & so & Es & Hbase & Hrep & -> & _ & Hr & _).
  destruct (remove_op_elem _ _ Hr) as (ops' & Hops & _).
  destruct (handleRecv_conf s c (still_running (S fuel) hl0 st0) (Text.print q ++ body) [] h x tr ops'
    sk [] so Hbase Hrep ltac:(lia) ltac:(unfold IO_BUF_SIZE in *; change (lenZ []) with 0; lia)) as (h1 & b & si1 & Hbase1 & Hrep1 & Hsl & _ & Hrun).
  apply full_slack in Hsl as ->; [|unfold IO_BUF_SIZE in *; lia|done].
  destruct (full_block_runs fuel hl0 st0 s c h1 _ tr ops' sk so q body Hbase1 Hrep1 Hserved Hlen
    (base_queue _ _ Hbase1)) as (h2 & x2 & tr2 & Hcall & Hsk & Hq).
  destruct (Hrun _ _ _ _ Hcall Hsk) as [tr3 Hh].
  pose proof (run_recv s c _ _ h x tr ops ops' sk _ _ Hbase (conj Hpos Hlen) Hops Hh) as Hpk.
  rewrite <- Es in Hpk. eexists _, _. split_and!.
  - exact Hpk.
  - cbn. apply lookup_insert_eq.
  - exact Hq.
Qed.

Lemma full_block_never_ends_witness :
  exists s s' x', fresh 11 s = true /\
    run_packets (VM := bump_mem) (OS := demo_os)
      (still_running (H := X64) (H0 := bump_mem) (H1 := demo_os) 100 0 0)
      [recv_packet 11 (Text.print (demo_url 994) ++ [])] s = Some (tt, s') /\
    s_ctxs s' !! 11 = Some x' /\ length (m_outBufQueue x') = 99%nat.
Proof.
  destruct (holds_after_inv _ _ demo_fresh) as (b & s & _ & Hs).
  edestruct (full_block_never_ends (H := X64) (VM := bump_mem) (OS := demo_os) 99 0 0 11 s
    (demo_url 994) [] Hs (demo_served 994 ltac:(lia))) as (s' & x' & H).
  - by vm_compute.
  - exists 1. by vm_compute.
  - exists s, s', x'. by split.
Defined.

(** C31: A refused request makes the server free a context that is in use.  On a
    connection at rest that receives a well-formed request which fails a check,
    no response is sent: an empty send is posted, and then the callback and the
    handler that called it both close the connection and give up a reference.
    The context is in the free list, with count 0, while its send is in flight. *)
Theorem refused_freed_in_flight `{!Arch} `{!VirtualMemOk VM} `{!VirtualMemGrants VM (2 ^ 31)}
    `{!Accepts OS} (fuel : nat) (hl0 st0 : Z) (c : client) (sk : Z) (s : Sys) (q : Text.request)
    (body : bytes) (st : statusType) :
  at_rest c sk s -> c ∈ m_connectedClientList (s_srv s) ->
  Text.wf q -> verdict q = Some st -> lenZ (Text.print q ++ body) <= IO_BUF_SIZE ->
  exists s' x', run_packets (notifyPackageReceived (S fuel) hl0 st0)
      [recv_packet c (Text.print q ++ body)] s = Some (tt, s') /\
    s_ctxs s' !! c = Some x' /\ m_nPendingIoCnt x' = 0 /\ (m_wsaBuf (m_sendIoCtx x')).2 = 0 /\
    c ∈ m_freeClientList (s_srv s') /\ (c ∉ m_connectedClientList (s_srv s')) /\
    req_op c KSend ∈ s_ops s'.
Proof.
  intros (h & x & tr & ops & si & so & Es & Hbase & Hrep & _ & Hcnt & Hr & _) Hin Hwf Hv Hlen.
  pose proof (print_pos q body) as Hpos. set (d := Text.print q ++ body) in *.
  destruct (remove_op_elem _ _ Hr) as (ops' & Hops & _).
  set (notify := notifyPackageReceived (S fuel) hl0 st0).
  destruct (handleRecv_head s c notify d [] h x tr ops' sk si so Hbase Hrep (conj Hpos Hlen)
    ltac:(unfold IO_BUF_SIZE in *; change (lenZ []) with 0; lia)) as
    (h1 & b & si1 & Hbase1 & Hrep1 & _ & _ & Hrun).
  destruct (refused_call c fuel hl0 st0 s h1 _ tr ops' sk si1 so q body st Hbase1 Hrep1 Hwf Hv Hlen
    Hcnt) as (v & h2 & x2 & tr2 & Hcall & [Hv1 Hv2] & Hsock & Hcnt2 & Hw).
  set (s1 := sys_srv v s) in *. set (ops2 := ops' ++ [req_op c KSend]) in *.
  pose proof (postRecv_closed s1 c h2 x2 tr2 ops2 Hsock) as Hpost. set (x3 := set_recvIo _ x2) in *.
  destruct (CloseClient_conf c s1 h2 x3 tr2 ops2) as (v2 & tr3 & Hclose & [Hw1 Hw2]).
  set (x4 := set_socket INVALID_SOCKET x3) in *. set (s2 := sys_srv v2 s1) in *.
  destruct (release_last_conf c s2 h2 x4 tr3 ops2 Hcnt2) as (v3 & Hrel & Hl1 & Hl2).
  { cbn. rewrite Hw1. cbn. by rewrite Hv1. }
  set (s3 := conf (sys_srv v3 s2) c h2 (set_pending 0 x4) tr3 ops2) in *.
  assert (run_packets notify [recv_packet c d] s = Some (tt, s3)) as Hpk.
  { pose proof (run_recv s c notify d h x tr ops ops' sk true s3 Hbase (conj Hpos Hlen) Hops) as Hpk.
    rewrite <- Es in Hpk. apply Hpk. rewrite Hrun. unfold after_recv. st_step Hcall. st_step Hpost.
    rewrite (st_bind_Some _ _ _ tt s3); [reflexivity|]. change (failed PostResultInvalidSocket) with true. cbv iota. st_step Hclose. exact Hrel. }
  eexists _, _. split_and!; [exact Hpk|apply lookup_insert_eq|done|exact Hw| | |].
  - cbn. rewrite Hl2. apply elem_of_app. right. left.
  - cbn. rewrite Hl1. rewrite list_elem_of_filter. by intros [? _].
  - cbn. unfold ops2. apply elem_of_app. right. left.
Qed.

Definition demo_put : Text.request := demo_req (lit "PUT") [].

Lemma demo_connected :
  holds_after (λ _ s, fresh 11 s && bool_decide (11 ∈ m_connectedClientList (s_srv s)))
    (demo_accepted 2) = true.
Proof. vm_compute. reflexivity. Qed.

Lemma refused_freed_in_flight_witness :
  exists s sk, at_rest 11 sk s /\ exists s' x',
    run_packets (VM := bump_mem) (OS := demo_os)
      (notifyPackageReceived (A := X64) (VM := bump_mem) (OS := demo_os) 1 0 0)
      [recv_packet 11 (Text.print demo_put ++ [])] s = Some (tt, s') /\
    s_ctxs s' !! 11 = Some x' /\ m_nPendingIoCnt x' = 0 /\ (m_wsaBuf (m_sendIoCtx x')).2 = 0 /\
    11 ∈ m_freeClientList (s_srv s') /\ (11 ∉ m_connectedClientList (s_srv s')) /\
    req_op 11 KSend ∈ s_ops s'.
Proof.
  destruct (holds_after_inv _ _ demo_connected) as
    (b & s & _ & [Hs Hc%bool_decide_eq_true]%andb_true_iff).
  destruct (fresh_idle 11 (λ _, True) s Hs I) as [sk Hidle]. exists s, sk. split; [exact Hidle|].
  apply (refused_freed_in_flight (H := X64) (VM := bump_mem) (OS := demo_os) 0 0 0 11 sk s demo_put []
    not_implemented Hidle Hc); [by apply (bool_decide_unpack _)|done|by vm_compute].
Defined.
