(* ===== verification/Connections.v ===== *)
(** * The life of a connection's context

    What [handleAccept] does on each of its branches, from which state a new
    connection starts, and what a context that is used again brings with it from
    the connection before. *)
From S2P Require Import Prelude Heap CLib Slice Buffer HttpMessage Codec Os ClientContext.
From S2P Require Import IocpServer ServerInv ServerSafe ServerRuns Serving HttpServer.

(** The system gives a socket whenever it is asked for one, and lets every accept be
    posted. *)
Class Listens (OS : WinOS) : Prop := {
  socket_ok : forall h, os_answer h WSASocket <> INVALID_SOCKET;
  acceptex_ok : forall h ls sock a, accepted (os_answer h (AcceptEx ls sock a)) = true;
}.

Section actions.
Context {VM : VirtualMem} {OS : WinOS}.
Implicit Types (s : Sys) (a : acceptor) (c : client).

Lemma get_acc_eq a x s : s_accs s !! a = Some x -> get_acc a s = Some (x, s).
Proof. intros H. unfold get_acc, st_reads. by rewrite H. Qed.

Lemma get_ctx_eq c x s : s_ctxs s !! c = Some x -> get_ctx c s = Some (x, s).
Proof. intros H. unfold get_ctx, st_reads. by rewrite H. Qed.

Lemma listen_socket_eq l s :
  m_pListenCtx (s_srv s) = Some l -> listen_socket s = Some (l_socket l, s).
Proof. intros H. unfold listen_socket, get_srv, deref, st_gets, mbind, ST_bind, st_reads. by rewrite H. Qed.

(** The state with another record of the calls, other acceptors and other
    requests in flight. *)
Definition io_state s (accs : gmap acceptor AcceptIoContext) (tr : history) (ops : list op) : Sys :=
  mkSys (s_srv s) (s_ctxs s) accs (s_heap s) tr ops (s_next s) (s_exit s).

Definition accept_op a : op := mkOp KeyServer (OvAccept a).

Lemma alter_is_Some {V} (g : V -> V) a (m : gmap Z V) k :
  is_Some (alter g a m !! k) <-> is_Some (m !! k).
Proof.
  destruct (decide (a = k)) as [->|Hne]; [|by rewrite lookup_alter_ne].
  rewrite lookup_alter_eq. apply fmap_is_Some.
Qed.

(** What posting the accept [a] again, with result [b], makes of the contexts. *)
Record reposted a (x : AcceptIoContext) (accs0 : gmap acceptor AcceptIoContext) (b : bool)
    (accs : gmap acceptor AcceptIoContext) : Prop := {
  rp_others : forall k, k <> a -> accs !! k = accs0 !! k;
  rp_socket : b = true ->
    exists x', accs !! a = Some x' /\ m_acceptSocket x' <> INVALID_SOCKET /\ acc_base x' = acc_base x;
  rp_ok : Listens OS -> b = true;
}.

(** Another accept is posted, unless the system refuses the socket or the
    request. *)
Lemma postAccept_eq a x l s :
  s_accs s !! a = Some x -> m_pListenCtx (s_srv s) = Some l -> m_lpfnAcceptEx (s_srv s) = true ->
  exists b accs tr, postAccept a s =
      Some (b, io_state s accs (tr ++ s_trace s)
                 (s_ops s ++ if (b : bool) then [accept_op a] else [])) /\
    (forall k, is_Some (accs !! k) <-> is_Some (s_accs s !! k)) /\ reposted a x (s_accs s) b accs.
Proof.
  intros Hx Hl Hf. unfold postAccept. st_step (get_acc_eq a x s Hx).
  unfold upd_acc, Net_WSASocket, sys_call, mbind, ST_bind. cbn.
  set (sock := os_answer (s_trace s) WSASocket). set (accs1 := alter _ _ (alter _ _ _)).
  assert (forall k, is_Some (accs1 !! k) <-> is_Some (s_accs s !! k)) as Hk.
  { intros k. unfold accs1. by rewrite !alter_is_Some. }
  assert (forall k, k <> a -> accs1 !! k = s_accs s !! k) as Ho.
  { intros k Hne. unfold accs1. by rewrite !lookup_alter_ne. }
  assert (exists x', accs1 !! a = Some x' /\ m_acceptSocket x' = sock /\ acc_base x' = acc_base x) as Hs.
  { unfold accs1. rewrite !lookup_alter_eq, Hx. by eexists. }
  destruct (sock =? INVALID_SOCKET) eqn:Hsock.
  { exists false, accs1, [(WSASocket, sock)]. rewrite app_nil_r. split; [reflexivity|]. split; [done|].
    split; [done|done|]. intros HL. apply Z.eqb_eq in Hsock. by destruct (socket_ok (s_trace s)). }
  apply Z.eqb_neq in Hsock.
  unfold listen_socket, get_srv, deref, st_gets, st_reads, st_assert, sys_post, sys_call, mbind, ST_bind.
  cbn. rewrite Hl. cbn. rewrite Hf. cbn.
  assert (exists x', accs1 !! a = Some x' /\ m_acceptSocket x' <> INVALID_SOCKET /\ acc_base x' = acc_base x) as Hs'.
  { destruct Hs as (x' & ? & Hx' & ?). exists x'. by rewrite Hx'. }
  destruct (accepted _) eqn:Ea.
  - eexists true, accs1, [_; _]. cbn. rewrite Ea. split; [reflexivity|]. split; [done|]. by split.
  - eexists false, accs1, [_; _]. cbn. rewrite Ea, app_nil_r. split; [reflexivity|]. split; [done|].
    split; [done|done|]. intros HL. by rewrite acceptex_ok in Ea.
Qed.

(** After a call. *)
Definition called (k : call) s : Sys := sys_trace ((k, os_answer (s_trace s) k) :: s_trace s) s.

(** From [s] to [s'] a socket is asked for and, if there is one, an accept with it on the
    listening socket, which is in flight when the system takes it. *)
Definition asked_next a (l : ListenContext) s s' : Prop :=
  let sock := os_answer (s_trace s) WSASocket in
  let s1 := called WSASocket s in
  if sock =? INVALID_SOCKET then s_trace s' = s_trace s1 /\ s_ops s' = s_ops s
  else
    let k := AcceptEx (l_socket l) sock a in
    s_trace s' = s_trace (called k s1) /\
    s_ops s' = s_ops s ++ (if accepted (os_answer (s_trace s1) k) then [accept_op a] else []) /\
    exists y, s_accs s' !! a = Some y /\ m_acceptSocket y = sock.

Lemma postAccept_asks a x l s :
  s_accs s !! a = Some x -> m_pListenCtx (s_srv s) = Some l -> m_lpfnAcceptEx (s_srv s) = true ->
  exists b s', postAccept a s = Some (b, s') /\ s_srv s' = s_srv s /\ s_ctxs s' = s_ctxs s /\
    s_heap s' = s_heap s /\ asked_next a l s s'.
Proof.
  intros Hx Hl Hf. unfold postAccept, asked_next, called. st_step (get_acc_eq a x s Hx).
  unfold upd_acc, Net_WSASocket, sys_call, mbind, ST_bind. cbn.
  destruct (os_answer (s_trace s) WSASocket =? INVALID_SOCKET); [by eexists _, _; split_and!|].
  unfold listen_socket, get_srv, deref, st_gets, st_reads, st_assert, sys_post, sys_call, mbind, ST_bind.
  cbn. rewrite Hl. cbn. rewrite Hf. cbn. destruct (accepted _) eqn:Ea; (eexists _, _; split; [reflexivity|]);
    cbn; rewrite ?app_nil_r; (split_and!; [done..|]); rewrite !lookup_alter_eq, Hx; by eexists.
Qed.
End actions.

(** The accept [a] has a context [x], and the server a listener [l] and the
    pointer of [AcceptEx]. *)
Record can_accept (a : acceptor) (s : Sys) (x : AcceptIoContext) (l : ListenContext) : Prop := {
  ca_context : s_accs s !! a = Some x;
  ca_listener : m_pListenCtx (s_srv s) = Some l;
  ca_pointer : m_lpfnAcceptEx (s_srv s) = true;
}.

(** The system lets a socket be associated with the completion port. *)
Class Associates (OS : WinOS) : Prop := {
  associate_ok : forall h s k, os_answer h (Associate s k) <> 0;
}.

Section accepting.
Context {VM : VirtualMem} {OS : WinOS} {Acc : Accepts OS} {Ass : Associates OS}.
Implicit Types (s : Sys) (a : acceptor) (c : client) (h : heap) (tr : history) (ops : list op).

(** [handleAccept] once there is a context for the connection. *)
Definition accept_tail a c : action bool :=
  y ← get_ctx c;
  port ← sys_call (Associate (m_socket y) (KeyClient c));
  if port =? 0 then mret false
  else
    enterIoLoop c;;
    postAccept a;;
    notifyNewConnection c;;
    addClient c;;
    result ← postRecv c;
    (if failed result then CloseClient c;; releaseClientContext c else mret tt);;
    mret true.

Lemma accept_tail_conf s a c h x tr ops xa l :
  s_accs s !! a = Some xa -> m_pListenCtx (s_srv s) = Some l -> m_lpfnAcceptEx (s_srv s) = true ->
  m_socket x <> INVALID_SOCKET -> m_nPendingIoCnt x = 0 ->
  exists accs tr' addr b, accept_tail a c (conf s c h x tr ops) =
    Some (true, conf (sys_srv (srv_connected (m_connectedClientList (s_srv s) ++ [c]) (s_srv s))
                        (sys_accs accs s)) c h
                  (set_recvIo (recv_resetBuffer (m_recvIoCtx x)) (set_addr addr (set_pending 1 x))) tr'
                  ((ops ++ if (b : bool) then [accept_op a] else []) ++ [req_op c KRecv])) /\
    reposted a xa (s_accs s) b accs.
Proof.
  intros Ha Hl Hf Hs Hn. unfold accept_tail. st_step (get_conf s c h x tr ops).
  rewrite (st_bind_Some _ _ _ (os_answer tr (Associate (m_socket x) (KeyClient c)))
    (conf s c h x ((Associate (m_socket x) (KeyClient c),
                    os_answer tr (Associate (m_socket x) (KeyClient c))) :: tr) ops)) by done.
  rewrite (proj2 (Z.eqb_neq _ _) (associate_ok _ _ _)). set (tr1 := _ :: tr).
  set (x1 := set_pending 1 x). rewrite (st_bind_Some _ _ _ tt (conf s c h x1 tr1 ops)).
  2: { unfold enterIoLoop. st_step (get_conf s c h x tr1 ops). rewrite upd_conf, Hn. done. }
  destruct (postAccept_eq a xa l (conf s c h x1 tr1 ops)) as (b & accs & tr2 & Hpost & _ & Hrep); [done..|].
  st_step Hpost. set (s1 := sys_accs accs s). set (ops1 := s_ops _ ++ _).
  change (io_state _ accs _ ops1) with (conf s1 c h x1 (tr2 ++ tr1) ops1). set (tr3 := tr2 ++ tr1).
  set (addr := os_answer tr3 (Getpeername (m_socket x1))). set (x2 := set_addr addr x1).
  set (tr4 := (Getpeername (m_socket x1), addr) :: tr3).
  rewrite (st_bind_Some _ _ _ tt (conf s1 c h x2 tr4 ops1)).
  2: { unfold notifyNewConnection. st_step (get_conf s1 c h x1 tr3 ops1).
       rewrite (st_bind_Some _ _ _ addr (conf s1 c h x1 tr4 ops1)) by done. apply upd_conf. }
  set (s2 := sys_srv (srv_connected (m_connectedClientList (s_srv s) ++ [c]) (s_srv s)) s1). rewrite (st_bind_Some _ _ _ tt (conf s2 c h x2 tr4 ops1)) by done.
  destruct (postRecv_conf s2 c h x2 tr4 ops1 Hs) as [tr5 Hrecv]. st_step Hrecv.
  exists accs, tr5, addr, b. split; [reflexivity|exact Hrep].
Qed.

(** The state in which [handleAccept] allocates the context. *)
Definition counted s (x : AcceptIoContext) (l : ListenContext) : Sys :=
  let k := UpdateAcceptContext (l_socket l) (m_acceptSocket x) in
  sys_srv (srv_connCnt (u32 (m_nConnClientCnt (s_srv s) + 1)) (s_srv s))
    (sys_trace ((k, os_answer (s_trace s) k) :: s_trace s) s).

Lemma handleAccept_counted s a n x l :
  s_accs s !! a = Some x -> m_pListenCtx (s_srv s) = Some l ->
  m_nConnClientCnt (s_srv s) < m_nMaxConnClientCnt (s_srv s) ->
  handleAccept a n s =
    (c ← allocateClientContext (m_acceptSocket x); accept_tail a c) (counted s x l).
Proof.
  intros Hx Hl Hcap. unfold handleAccept. st_step (get_acc_eq a x s Hx).
  st_step (listen_socket_eq l s Hl).
  set (k := UpdateAcceptContext (l_socket l) (m_acceptSocket x)).
  set (s2 := sys_trace ((k, os_answer (s_trace s) k) :: s_trace s) s).
  rewrite (st_bind_Some _ _ s (os_answer (s_trace s) k =? 0) s2) by done.
  rewrite (st_bind_Some get_srv _ s2 (s_srv s) s2) by done.
  rewrite (proj2 (Z.leb_gt _ _) Hcap). by rewrite (st_bind_Some (upd_srv _) _ s2 tt (counted s x l)).
Qed.
End accepting.

(** ** Where the context comes from *)

Section allocation.
Context {VM : VirtualMem} {OS : WinOS}.
Implicit Types (s : Sys) (c : client) (h : heap) (tr : history) (ops : list op).

(** What [reset] makes of a context. *)
Definition reset_at tr (x : ClientContext) : ClientContext :=
  set_heartbeat (u32 (os_answer tr GetTickCount)) (set_addr 0 x).

Lemma reset_conf s c h x tr ops :
  m_nPendingIoCnt x = 0 -> m_outBufQueue x = [] ->
  reset c (conf s c h x tr ops) =
    Some (tt, conf s c h (reset_at tr x) ((GetTickCount, os_answer tr GetTickCount) :: tr) ops).
Proof.
  intros Hn Hq. unfold reset. st_step (get_conf s c h x tr ops). rewrite Hn, Hq.
  do 2 rewrite (st_bind_Some (st_assert _) _ _ tt (conf s c h x tr ops)) by done.
  st_step (upd_conf s c (set_addr 0) h x tr ops).
  rewrite (st_bind_Some (sys_call _) _ _ (os_answer tr GetTickCount)
    (conf s c h (set_addr 0 x) ((GetTickCount, os_answer tr GetTickCount) :: tr) ops)) by done.
  apply (upd_conf s c (set_heartbeat _) h (set_addr 0 x)).
Qed.

Lemma allocate_new s sock :
  m_freeClientList (s_srv s) = [] ->
  allocateClientContext sock s =
    Some (s_next s, conf (sys_next (s_next s + 1) s) (s_next s) (s_heap s)
      (reset_at (s_trace s) (ClientContext_new sock 0))
      ((GetTickCount, os_answer (s_trace s) GetTickCount) :: s_trace s) (s_ops s)).
Proof.
  intros Hf. unfold allocateClientContext.
  rewrite (st_bind_Some get_srv _ s (s_srv s) s) by done. rewrite Hf.
  rewrite (st_bind_Some _ _ s (s_next s) (conf (sys_next (s_next s + 1) s) (s_next s) (s_heap s)
    (ClientContext_new sock 0) (s_trace s) (s_ops s))) by done.
  by rewrite (st_bind_Some _ _ _ _ _ (reset_conf _ _ _ (ClientContext_new sock 0) _ _ eq_refl eq_refl)).
Qed.

(** The first context of the free list gets the new socket. *)
Lemma take_free s sock c fs x :
  m_freeClientList (s_srv s) = c :: fs -> s_ctxs s !! c = Some x ->
  allocateClientContext sock s =
    (reset c;; mret c) (conf (sys_srv (srv_freeList fs (s_srv s)) s) c (s_heap s)
                          (set_socket sock x) (s_trace s) (s_ops s)).
Proof.
  intros Hf Hx. unfold allocateClientContext.
  rewrite (st_bind_Some get_srv _ s (s_srv s) s) by done. rewrite Hf.
  set (s1 := sys_srv (srv_freeList fs (s_srv s)) s).
  rewrite (st_bind_Some _ _ s c (conf s1 c (s_heap s) (set_socket sock x) (s_trace s) (s_ops s)));
    [done|].
  rewrite (st_bind_Some (upd_srv _) _ s tt s1) by done.
  pose proof (conf_self s1 c x Hx) as E1. cbn [s1 s_heap s_trace s_ops sys_srv] in E1.
  rewrite E1 at 1. st_step (get_conf s1 c (s_heap s) x (s_trace s) (s_ops s)).
  by st_step (upd_conf s1 c (set_socket sock) (s_heap s) x (s_trace s) (s_ops s)).
Qed.

(** The first context of the free list is used again. *)
Lemma allocate_reuse s sock c fs x :
  m_freeClientList (s_srv s) = c :: fs -> s_ctxs s !! c = Some x ->
  m_nPendingIoCnt x = 0 -> m_outBufQueue x = [] ->
  allocateClientContext sock s =
    Some (c, conf (sys_srv (srv_freeList fs (s_srv s)) s) c (s_heap s)
      (reset_at (s_trace s) (set_socket sock x))
      ((GetTickCount, os_answer (s_trace s) GetTickCount) :: s_trace s) (s_ops s)).
Proof.
  intros Hf Hx Hn Hq. set (s1 := sys_srv (srv_freeList fs (s_srv s)) s).
  rewrite (take_free s sock c fs x Hf Hx). fold s1.
  by rewrite (st_bind_Some _ _ _ _ _ (reset_conf s1 c _ (set_socket sock x) _ _ Hn Hq)).
Qed.

(** A context with something queued cannot be used again. *)
Lemma allocate_queued s sock c fs x :
  m_freeClientList (s_srv s) = c :: fs -> s_ctxs s !! c = Some x ->
  m_outBufQueue x <> [] -> allocateClientContext sock s = None.
Proof.
  intros Hf Hx Hq. set (s1 := sys_srv (srv_freeList fs (s_srv s)) s).
  rewrite (take_free s sock c fs x Hf Hx). fold s1.
  unfold reset. set (x1 := set_socket sock x).
  unfold mbind, ST_bind. rewrite get_conf. change (m_outBufQueue x1) with (m_outBufQueue x).
  unfold st_assert. destruct (0 =? m_nPendingIoCnt x1); [|done].
  by destruct (m_outBufQueue x).
Qed.
End allocation.

(** ** States of the demonstration server *)

#[export] Instance demo_associates : Associates demo_os.
Proof. by split. Qed.

(** The accept [a] can be handled; [full] says whether the server is full. *)
Definition accept_ready (a : acceptor) (full : bool) (s : Sys) : bool :=
  match s_accs s !! a, m_pListenCtx (s_srv s) with
  | Some x, Some _ =>
      m_lpfnAcceptEx (s_srv s) && negb (m_acceptSocket x =? INVALID_SOCKET) &&
      Bool.eqb full (m_nMaxConnClientCnt (s_srv s) <=? m_nConnClientCnt (s_srv s))
  | _, _ => false
  end.

Lemma accept_ready_inv a full s :
  accept_ready a full s = true ->
  exists x l, can_accept a s x l /\ m_acceptSocket x <> INVALID_SOCKET /\
    (if full then m_nMaxConnClientCnt (s_srv s) <= m_nConnClientCnt (s_srv s)
     else m_nConnClientCnt (s_srv s) < m_nMaxConnClientCnt (s_srv s)).
Proof.
  unfold accept_ready. destruct (s_accs s !! a) as [x|] eqn:Hx; [|done].
  destruct (m_pListenCtx (s_srv s)) as [l|] eqn:Hl; [|done].
  intros [[Hp Hs%negb_true_iff%Z.eqb_neq]%andb_true_iff Hc%Bool.eqb_prop]%andb_true_iff.
  exists x, l. split; [by split|]. split; [done|].
  destruct full; symmetry in Hc; by apply Z.leb_le || apply Z.leb_gt.
Qed.

(** The context [c] is the first of the free list, with or without something
    queued. *)
Definition free_ready (c : client) (queued : bool) (s : Sys) : bool :=
  match m_freeClientList (s_srv s), s_ctxs s !! c with
  | c' :: _, Some y => (c' =? c) && (m_nPendingIoCnt y =? 0) &&
      Bool.eqb queued (negb (bool_decide (m_outBufQueue y = [])))
  | _, _ => false
  end.

Lemma free_ready_inv c queued s :
  free_ready c queued s = true ->
  exists fs y, m_freeClientList (s_srv s) = c :: fs /\ s_ctxs s !! c = Some y /\
    m_nPendingIoCnt y = 0 /\
    (if queued then m_outBufQueue y <> [] else m_outBufQueue y = []).
Proof.
  unfold free_ready. destruct (m_freeClientList (s_srv s)) as [|c' fs]; [done|].
  destruct (s_ctxs s !! c) as [y|]; [|done].
  intros [[->%Z.eqb_eq Hn%Z.eqb_eq]%andb_true_iff Hq%Bool.eqb_prop]%andb_true_iff.
  exists fs, y. split_and!; [done..|].
  destruct queued; symmetry in Hq; [apply negb_true_iff in Hq|apply negb_false_iff in Hq];
    [by apply bool_decide_eq_false in Hq|by apply bool_decide_eq_true in Hq].
Qed.

(** ** Properties *)

(** C33: A full server turns the connection away and asks for the next one.  When the count
    has reached the maximum, [handleAccept] closes the socket that was accepted and posts
    its accept again: it takes a new socket, and with it calls [AcceptEx] on the listening
    socket, which is the only request in flight that is new, when the system takes it; the
    server, the contexts and the memory are unchanged, and there are no other calls. *)
Theorem full_server_refuses `{OS : WinOS} (a : acceptor) (n : Z) (s : Sys)
    (x : AcceptIoContext) (l : ListenContext) :
  can_accept a s x l ->
  m_nMaxConnClientCnt (s_srv s) <= m_nConnClientCnt (s_srv s) ->
  exists s', handleAccept a n s = Some (true, s') /\
    s_srv s' = s_srv s /\ s_ctxs s' = s_ctxs s /\ s_heap s' = s_heap s /\
    asked_next a l (called (Closesocket (m_acceptSocket x))
      (called (UpdateAcceptContext (l_socket l) (m_acceptSocket x)) s)) s'.
Proof.
  intros [Hx Hl Hf] Hfull. unfold handleAccept. st_step (get_acc_eq a x s Hx).
  st_step (listen_socket_eq l s Hl).
  unfold Net_updateAcceptContext, sys_call, get_srv, st_gets, upd_acc, mbind, ST_bind. cbn.
  rewrite (proj2 (Z.leb_le _ _)) by done. cbn.
  set (s1 := sys_accs _ _).
  destruct (postAccept_asks a (mkAcceptIo (acc_base x) INVALID_SOCKET (m_accpetBuf x)) l s1) as
    (b & s' & Hpost & Hsrv & Hctx & Hheap & Hask); [|done|done|].
  { cbn. by rewrite lookup_alter_eq, Hx. }
  rewrite Hpost. exists s'. by split_and!.
Qed.

Lemma demo_full :
  holds_after (λ _ s, accept_ready 2 true s)
    (demo_run (VM := bump_mem) (OS := demo_os) demo_notify 1 [accept_packet 1]) = true.
Proof. vm_compute. reflexivity. Qed.

Lemma full_server_refuses_witness :
  exists s x s', handleAccept (OS := demo_os) 2 0 s = Some (true, s') /\
    s_srv s' = s_srv s /\ s_ctxs s' = s_ctxs s /\ s_heap s' = s_heap s /\
    exists l, asked_next (OS := demo_os) 2 l (called (OS := demo_os) (Closesocket (m_acceptSocket x))
      (called (OS := demo_os) (UpdateAcceptContext (l_socket l) (m_acceptSocket x)) s)) s'.
Proof.
  destruct (holds_after_inv _ _ demo_full) as (b & s & _ & Hs).
  destruct (accept_ready_inv _ _ _ Hs) as (x & l & Ha & _ & Hfull).
  exists s, x. destruct (full_server_refuses (OS := demo_os) 2 0 s x l Ha Hfull) as (s' & H1 & H2 & H3 & H4 & H5).
  exists s'. split_and!; [done..|by exists l].
Defined.

(** C29: A new connection starts from a clean state.  Below the maximum and with
    no context to use again, [handleAccept] makes a context that is connected
    and counted, with empty buffers, one receive in flight and one reference, in
    the state from which the conversations start; the other contexts and the
    memory are unchanged. *)
Theorem new_connection_fresh `{OS : WinOS} `{!Accepts OS} `{!Associates OS}
    (a : acceptor) (n : Z) (s : Sys) (x : AcceptIoContext) (l : ListenContext) :
  can_accept a s x l ->
  m_nConnClientCnt (s_srv s) < m_nMaxConnClientCnt (s_srv s) ->
  m_freeClientList (s_srv s) = [] -> m_acceptSocket x <> INVALID_SOCKET ->
  s_heap s !! 0 = None -> req_op (s_next s) KSend ∉ s_ops s ->
  exists s', handleAccept a n s = Some (true, s') /\ fresh (s_next s) s' = true /\
    m_connectedClientList (s_srv s') = m_connectedClientList (s_srv s) ++ [s_next s] /\
    m_nConnClientCnt (s_srv s') = u32 (m_nConnClientCnt (s_srv s) + 1) /\
    delete (s_next s) (s_ctxs s') = delete (s_next s) (s_ctxs s) /\ s_heap s' = s_heap s.
Proof.
  intros [Hx Hl Hf] Hcap Hfree Hsock H0 Hsend.
  rewrite (handleAccept_counted s a n x l Hx Hl Hcap).
  st_step (allocate_new (counted s x l) (m_acceptSocket x) Hfree).
  change (s_next (counted s x l)) with (s_next s).
  match goal with |- context [accept_tail _ _ (conf ?s1 _ ?h ?y ?tr ?ops)] =>
    destruct (accept_tail_conf s1 a (s_next s) h y tr ops x l Hx Hl Hf Hsock eq_refl)
      as (accs & tr' & addr & b & -> & _) end.
  eexists. split; [reflexivity|]. split_and!; [|done|done|apply delete_insert_eq|done].
  unfold fresh. cbn -[Z.eqb IO_BUF_SIZE]. rewrite lookup_insert_eq. cbn -[Z.eqb IO_BUF_SIZE].
  rewrite (proj2 (Z.eqb_neq _ _) Hsock), lenZ_zeros by done.
  rewrite !bool_decide_true; try done.
  - rewrite !not_elem_of_app. split_and!; [done|destruct b|];
      rewrite ?list_elem_of_singleton; by try intros ?%elem_of_nil.
  - rewrite elem_of_app. right. left.
Qed.

Lemma demo_booted :
  holds_after (λ _ s, accept_ready 1 false s && bool_decide (m_freeClientList (s_srv s) = []) &&
      bool_decide (s_heap s !! 0 = None) && bool_decide (req_op (s_next s) KSend ∉ s_ops s))
    (demo_run (VM := bump_mem) (OS := demo_os) demo_notify 2 []) = true.
Proof. vm_compute. reflexivity. Qed.

Lemma new_connection_fresh_witness :
  exists s s', handleAccept (OS := demo_os) 1 0 s = Some (true, s') /\
    fresh (s_next s) s' = true /\
    m_connectedClientList (s_srv s') = m_connectedClientList (s_srv s) ++ [s_next s] /\
    m_nConnClientCnt (s_srv s') = u32 (m_nConnClientCnt (s_srv s) + 1) /\
    delete (s_next s) (s_ctxs s') = delete (s_next s) (s_ctxs s) /\ s_heap s' = s_heap s.
Proof.
  destruct (holds_after_inv _ _ demo_booted) as
    (b & s & _ & [[[Hs Hfree%bool_decide_eq_true]%andb_true_iff H0%bool_decide_eq_true]%andb_true_iff
      Hsend%bool_decide_eq_true]%andb_true_iff).
  destruct (accept_ready_inv _ _ _ Hs) as (x & l & Ha & Hsock & Hcap).
  exists s. by apply (new_connection_fresh (OS := demo_os) 1 0 s x l).
Defined.

(** A context that is used again is not cleared: the new connection gets the
    input and output buffers of the one before, with what they hold.  The bytes
    the former peer had sent and the server had not consumed are taken for the
    beginning of what the new peer sends. *)
Theorem reused_context_keeps_input `{OS : WinOS} `{!Accepts OS} `{!Associates OS}
    (a : acceptor) (n : Z) (s : Sys) (x : AcceptIoContext) (l : ListenContext) (c : client)
    (fs : list client) (y : ClientContext) :
  can_accept a s x l ->
  m_nConnClientCnt (s_srv s) < m_nMaxConnClientCnt (s_srv s) ->
  m_freeClientList (s_srv s) = c :: fs -> s_ctxs s !! c = Some y ->
  m_nPendingIoCnt y = 0 -> m_outBufQueue y = [] -> m_acceptSocket x <> INVALID_SOCKET ->
  exists s' y', handleAccept a n s = Some (true, s') /\ s_ctxs s' !! c = Some y' /\
    m_socket y' = m_acceptSocket x /\ m_nPendingIoCnt y' = 1 /\
    m_inBuf y' = m_inBuf y /\ m_outBuf y' = m_outBuf y /\ s_heap s' = s_heap s /\
    m_freeClientList (s_srv s') = fs /\
    m_connectedClientList (s_srv s') = m_connectedClientList (s_srv s) ++ [c].
Proof.
  intros [Hx Hl Hf] Hcap Hfree Hy Hn Hq Hsock.
  rewrite (handleAccept_counted s a n x l Hx Hl Hcap).
  st_step (allocate_reuse (counted s x l) (m_acceptSocket x) c fs y Hfree Hy Hn Hq).
  match goal with |- context [accept_tail _ _ (conf ?s1 _ ?h ?z ?tr ?ops)] =>
    destruct (accept_tail_conf s1 a c h z tr ops x l Hx Hl Hf Hsock Hn)
      as (accs & tr' & addr & b & -> & _) end.
  eexists _, _. split; [reflexivity|]. split; [apply lookup_insert_eq|]. done.
Qed.

Lemma demo_freed :
  holds_after (λ _ s, accept_ready 2 false s && free_ready 11 false s)
    (demo_run (VM := bump_mem) (OS := demo_os) demo_notify 2
      [accept_packet 1; failed_packet 11 KRecv]) = true.
Proof. vm_compute. reflexivity. Qed.

Lemma reused_context_keeps_input_witness :
  exists s x y fs s' y', handleAccept (OS := demo_os) 2 0 s = Some (true, s') /\
    s_ctxs s' !! 11 = Some y' /\
    m_socket y' = m_acceptSocket x /\ m_nPendingIoCnt y' = 1 /\
    m_inBuf y' = m_inBuf y /\ m_outBuf y' = m_outBuf y /\ s_heap s' = s_heap s /\
    m_freeClientList (s_srv s') = fs /\
    m_connectedClientList (s_srv s') = m_connectedClientList (s_srv s) ++ [11].
Proof.
  destruct (holds_after_inv _ _ demo_freed) as (b & s & _ & [Hs Hfree]%andb_true_iff).
  destruct (accept_ready_inv _ _ _ Hs) as (x & l & Ha & Hsock & Hcap).
  destruct (free_ready_inv _ _ _ Hfree) as (fs & y & Hfl & Hy & Hn & Hq).
  exists s, x, y, fs.
  by apply (reused_context_keeps_input (OS := demo_os) 2 0 s x l 11 fs y).
Defined.

(** A connection that ended with answers still queued stops the server: when
    its context is the next to be used again, the [assert] in [reset] fails and
    [handleAccept] does not return. *)
Theorem queued_context_aborts_accept `{OS : WinOS}
    (a : acceptor) (n : Z) (s : Sys) (x : AcceptIoContext) (l : ListenContext) (c : client)
    (fs : list client) (y : ClientContext) :
  can_accept a s x l ->
  m_nConnClientCnt (s_srv s) < m_nMaxConnClientCnt (s_srv s) ->
  m_freeClientList (s_srv s) = c :: fs -> s_ctxs s !! c = Some y -> m_outBufQueue y <> [] ->
  handleAccept a n s = None.
Proof.
  intros [Hx Hl _] Hcap Hfree Hy Hq. rewrite (handleAccept_counted s a n x l Hx Hl Hcap).
  unfold mbind, ST_bind. by rewrite (allocate_queued (counted s x l) _ c fs y Hfree Hy Hq).
Qed.

Lemma demo_queued :
  holds_after (λ _ s, accept_ready 2 false s && free_ready 11 true s)
    (demo_run (VM := bump_mem) (OS := demo_os) demo_notify 2
      [accept_packet 1; recv_packet 11 (lit "hi"); recv_packet 11 (lit "more");
       failed_packet 11 KRecv; failed_packet 11 KSend]) = true.
Proof. vm_compute. reflexivity. Qed.

Lemma queued_context_aborts_accept_witness :
  exists s, free_ready 11 true s = true /\
    handleAccept (OS := demo_os) 2 0 s = None.
Proof.
  destruct (holds_after_inv _ _ demo_queued) as (b & s & _ & [Hs Hfree]%andb_true_iff).
  destruct (accept_ready_inv _ _ _ Hs) as (x & l & Ha & Hsock & Hcap).
  destruct (free_ready_inv _ _ _ Hfree) as (fs & y & Hfl & Hy & Hn & Hq).
  exists s. split; [done|].
  by apply (queued_context_aborts_accept (OS := demo_os) 2 0 s x l 11 fs y).
Defined.

(** The HTTP callback of the demonstration server. *)
Definition demo_http : client -> action unit :=
  notifyPackageReceived (A := X64) (VM := bump_mem) (OS := demo_os) 4 0 0.

(** One peer's bytes complete another peer's request.  The HTTP server gets
    the beginning of a request on one connection, which is then closed; the next
    connection uses the same context, sends nothing but the end of a header, and
    is answered: a response is being sent on it. *)
Theorem leftover_input_served :
  holds_after (λ _ s, bool_decide (m_connectedClientList (s_srv s) = [11]) &&
      bool_decide (req_op 11 KSend ∈ s_ops s) &&
      match s_ctxs s !! 11 with
      | Some x => bool_decide (load (s_heap s) (getBuffer (m_outBuf x) 0) (getBufferLen (m_outBuf x)) =
                               Some hello_response)
      | None => false
      end)
    (demo_run (VM := bump_mem) (OS := demo_os) demo_http 2
      [accept_packet 1; recv_packet 11 (lit "GET / HTTP/1.1" ++ [CR; LF] ++ lit "Host: a");
       failed_packet 11 KRecv; accept_packet 2; recv_packet 11 CRLF2]) = true.
Proof. vm_compute. reflexivity. Qed.

(** The send that outlives a refused connection closes the next one.  After
    a refused request the context is used again for a new connection; when the
    packet of the old send arrives, [handleClose] closes the new connection,
    whose receive is still in flight, and its context is in the free list
    again. *)
Theorem stale_send_closes_connection :
  holds_after (λ _ s, bool_decide (is_open s 11) &&
      bool_decide (m_connectedClientList (s_srv s) = [11]) &&
      holds_after (λ _ s', negb (bool_decide (is_open s' 11)) &&
          bool_decide (m_freeClientList (s_srv s') = [11]) &&
          bool_decide (req_op 11 KRecv ∈ s_ops s'))
        (run_packets (VM := bump_mem) (OS := demo_os) demo_http [sent_packet 11 0] s))
    (demo_run (VM := bump_mem) (OS := demo_os) demo_http 2
      [accept_packet 1; recv_packet 11 (Text.print demo_put); accept_packet 2]) = true.
Proof. vm_compute. reflexivity. Qed.
