(* ===== verification/Lifecycle.v ===== *)
(** * Starting and stopping the server

    What a [start] that returns true has set up, and what [shutdown] does. *)
From S2P Require Import Prelude Heap CLib Slice Buffer Os ClientContext IocpServer.
From S2P Require Import ServerInv ServerSafe ServerRuns Serving HttpServer Connections.

(** ** Actions that keep a part of the state *)

Section keeps.
Context {OS : WinOS} {T : Type}.
Variable f : Sys -> T.

Definition keeps {A} (m : action A) : Prop := forall s a s', m s = Some (a, s') -> f s' = f s.

Lemma keeps_ret {A} (x : A) : keeps (mret x).
Proof. by intros s a s' [= _ <-]. Qed.

Lemma keeps_bind {A B} (m : action A) (k : A -> action B) :
  keeps m -> (forall x, keeps (k x)) -> keeps (m ≫= k).
Proof. intros Hm Hk s b s' H. st_inv H. by rewrite (Hk _ _ _ _ H), (Hm _ _ _ E). Qed.

Lemma keeps_if {A} (b : bool) (m1 m2 : action A) : keeps m1 -> keeps m2 -> keeps (if b then m1 else m2).
Proof. by destruct b. Qed.

Lemma keeps_gets {A} (g : Sys -> A) : keeps (st_gets g).
Proof. by intros s a s' [= _ <-]. Qed.

Lemma keeps_reads {A} (g : Sys -> option A) : keeps (st_reads g).
Proof. intros s a s'. unfold st_reads. destruct (g s); [|done]. by intros [= _ <-]. Qed.

Lemma keeps_assert b : keeps (st_assert b).
Proof. intros s a s'. unfold st_assert. destruct b; [|done]. by intros [= _ <-]. Qed.

Lemma keeps_modify g : (forall s, f (g s) = f s) -> keeps (st_modify g).
Proof. by intros Hg s a s' [= _ <-]. Qed.

Lemma keeps_triple {A} (m : action A) v : keeps m -> triple (λ s, f s = v) m (λ _ s, f s = v).
Proof. intros Hm s a s' <- H. by eapply Hm. Qed.
End keeps.

Ltac keeps_auto :=
  repeat first
    [ apply keeps_ret | apply keeps_gets | apply keeps_reads | apply keeps_assert
    | apply keeps_modify; done | apply keeps_bind; [|intros ?] | apply keeps_if
    | lazymatch goal with |- keeps _ (match ?x with _ => _ end) => destruct x end ].

(** Step over an action and the test that would make the run return early. *)
Ltac step_true H :=
  st_inv H;
  lazymatch type of H with
  | (if ?b then _ else _) _ = _ => let T := fresh "T" in destruct b eqn:T; [done|]
  end.

(** ** [start] *)

Section starting.
Context {OS : WinOS}.

(** What the steps of [start] before the accepts leave alone. *)
Definition unserved (s : Sys) :=
  (s_ops s, s_ctxs s, m_acceptIoCtxList (s_srv s), m_connectedClientList (s_srv s),
   m_freeClientList (s_srv s), m_nConnClientCnt (s_srv s)).

Lemma keeps_call k : keeps unserved (sys_call k).
Proof. by intros s a s' [= _ <-]. Qed.

Lemma keeps_listen port : keeps unserved (createListenClient port).
Proof.
  unfold createListenClient, ListenContext_new, associateWithCompletionPort, getAcceptExPtr,
    getAcceptExSockaddrs, Net_WSASocket, Net_bind, Net_listen, listen_socket, get_srv, upd_srv, deref.
  keeps_auto; apply keeps_call.
Qed.

Lemma keeps_workers n : keeps unserved (start_workers n).
Proof.
  induction n as [|n IH]; cbn [start_workers]; unfold upd_srv; keeps_auto; [apply keeps_call|done].
Qed.

(** A listener that can accept. *)
Definition listening (s : Sys) : Prop :=
  is_Some (m_pListenCtx (s_srv s)) /\ m_lpfnAcceptEx (s_srv s) = true.

Lemma listen_socket_inv s z s' :
  listen_socket s = Some (z, s') -> s' = s /\ is_Some (m_pListenCtx (s_srv s)).
Proof.
  unfold listen_socket, get_srv, deref, st_gets, st_reads, mbind, ST_bind, mret, ST_ret.
  destruct (m_pListenCtx (s_srv s)); [|done]. intros [= _ <-]. eauto.
Qed.

Lemma getAcceptExPtr_true s s' : getAcceptExPtr s = Some (true, s') -> listening s'.
Proof.
  intros H. unfold getAcceptExPtr in H. st_inv H. apply listen_socket_inv in E as [-> Hl].
  st_inv H. injection E as <- <-. destruct (_ =? 0).
  - by injection H as <-.
  - st_inv H. injection H as ?. done.
Qed.

Lemma keeps_listening_addrs : keeps (λ s, (m_pListenCtx (s_srv s), m_lpfnAcceptEx (s_srv s))) getAcceptExSockaddrs.
Proof.
  unfold getAcceptExSockaddrs, listen_socket, get_srv, upd_srv, deref. keeps_auto;
    by intros s a s' [= _ <-].
Qed.

Lemma createListenClient_true port s s' : createListenClient port s = Some (true, s') -> listening s'.
Proof.
  intros H. unfold createListenClient in H. do 3 st_inv H. step_true H. step_true H. step_true H.
  step_true H. step_true H. step_true H. injection H as <-.
  apply negb_false_iff in T3 as ->. match goal with H : getAcceptExPtr _ = _ |- _ =>
    apply getAcceptExPtr_true in H as [Hl Hf] end.
  match goal with H : getAcceptExSockaddrs _ = _ |- _ =>
    apply keeps_listening_addrs in H as [= E8 E9] end.
  unfold listening. by rewrite E8, E9.
Qed.
End starting.

(** ** The accepts *)

Section accepts.
Context {OS : WinOS}.
Implicit Types (s : Sys) (l : list acceptor).

(** A context whose accept was posted with a socket of its own. *)
Definition posted (s : Sys) (a : acceptor) : Prop :=
  exists x, s_accs s !! a = Some x /\ m_acceptSocket x <> INVALID_SOCKET /\
    m_postType (acc_base x) = ACCEPT_EVENT.

(** The accepts in [l] are posted, and nothing else is in flight. *)
Record accepting l s : Prop := {
  acc_listening : listening s;
  acc_list : m_acceptIoCtxList (s_srv s) = l;
  acc_ops : s_ops s = map accept_op l;
  acc_present : forall a, a ∈ l -> posted s a;
  acc_next : forall a, a ∈ l -> a < s_next s;
  acc_nodup : NoDup l;
}.

(** One round of [initAcceptIoContext]. *)
Lemma post_accepts_true n : forall l s s',
  accepting l s -> post_accepts n s = Some (true, s') ->
  exists l', length l' = (n + length l)%nat /\ accepting l' s' /\
    s_ctxs s' = s_ctxs s /\ m_connectedClientList (s_srv s') = m_connectedClientList (s_srv s) /\
    m_freeClientList (s_srv s') = m_freeClientList (s_srv s) /\
    m_nConnClientCnt (s_srv s') = m_nConnClientCnt (s_srv s).
Proof.
  induction n as [|n IH]; intros l s s' Hacc H; cbn [post_accepts] in H.
  { injection H as <-. by exists l. }
  destruct Hacc as [[[ls Hls] Hf] Hl Hops Hp Hnx Hnd]. set (a := s_next s) in *.
  rewrite (st_bind_Some _ _ s a
    (sys_next (a + 1) (sys_accs (<[a := AcceptIoContext_new 0]> (s_accs s)) s))) in H by done.
  set (s1 := sys_next _ _) in H.
  rewrite (st_bind_Some _ _ s1 tt (sys_srv (srv_acceptList (l ++ [a]) (s_srv s)) s1)) in H
    by (rewrite <- Hl; done).
  set (s2 := sys_srv _ s1) in H.
  destruct (postAccept_eq a (AcceptIoContext_new 0) ls s2) as (b & accs & tr & Hpost & Hacc & Hrp); [|done..|].
  { cbn. apply lookup_insert_eq. }
  rewrite (st_bind_Some _ _ _ _ _ Hpost) in H. destruct b; [|done]. cbn [negb] in H.
  assert (accepting (l ++ [a]) (io_state s2 accs (tr ++ s_trace s2) (s_ops s2 ++ [accept_op a]))) as Hnew.
  { split; cbn.
    - split; [by exists ls|done].
    - done.
    - by rewrite Hops, map_app.
    - intros k Hk. unfold posted. cbn. destruct (decide (k = a)) as [->|Hne].
      + destruct (rp_socket _ _ _ _ _ Hrp eq_refl) as (x' & ? & ? & Hb). exists x'. by rewrite Hb.
      + rewrite (rp_others _ _ _ _ _ Hrp k Hne). cbn. rewrite lookup_insert_ne by congruence.
        apply Hp. rewrite elem_of_app, list_elem_of_singleton in Hk. by destruct Hk.
    - intros k Hk. rewrite elem_of_app, list_elem_of_singleton in Hk. fold a.
      destruct Hk as [Hk| ->]; [specialize (Hnx k Hk)|]; lia.
    - apply NoDup_app. split; [done|]. split; [|apply NoDup_singleton].
      intros k Hk ->%list_elem_of_singleton. specialize (Hnx a Hk). lia. }
  destruct (IH _ _ _ Hnew H) as (l' & Hlen & Hacc' & Hrest). exists l'.
  split; [rewrite Hlen, length_app; cbn; lia|]. done.
Qed.
End accepts.

Section started.
Context {OS : WinOS}.
Implicit Types (s : Sys).

Lemma start_workers_true n : forall s s',
  start_workers n s = Some (true, s') ->
  m_nWorkerCnt (s_srv s') = m_nWorkerCnt (s_srv s) + Z.of_nat n /\
  lenZ (m_hWorkerThreads (s_srv s')) = lenZ (m_hWorkerThreads (s_srv s)) + Z.of_nat n.
Proof.
  induction n as [|n IH]; intros s s' H; cbn [start_workers] in H; [injection H as <-; lia|].
  step_true H. injection E as <- <-. do 2 st_inv H. injection E as <- <-. injection E0 as <- <-.
  apply IH in H as [-> ->]. cbn. rewrite lenZ_app. change (lenZ [_]) with 1. lia.
Qed.

(** The parts that the workers leave alone. *)
Lemma keeps_listening_workers n :
  keeps (λ s, (m_pListenCtx (s_srv s), m_lpfnAcceptEx (s_srv s))) (start_workers n).
Proof.
  induction n as [|n IH]; cbn [start_workers]; unfold upd_srv; keeps_auto; [|done].
  by intros s a s' [= _ <-].
Qed.

Lemma keeps_workers_listen port :
  keeps (λ s, (m_nWorkerCnt (s_srv s), m_hWorkerThreads (s_srv s), s_next s)) (createListenClient port).
Proof.
  unfold createListenClient, ListenContext_new, associateWithCompletionPort, getAcceptExPtr,
    getAcceptExSockaddrs, Net_WSASocket, Net_bind, Net_listen, listen_socket, get_srv, upd_srv, deref.
  keeps_auto; by intros s a s' [= _ <-].
Qed.

Lemma keeps_workers_accepts n :
  keeps (λ s, (m_nWorkerCnt (s_srv s), m_hWorkerThreads (s_srv s))) (post_accepts n).
Proof.
  induction n as [|n IH]; cbn [post_accepts]; unfold new_acceptor, upd_srv; keeps_auto;
    first [exact IH|by intros ? ? ? [= _ <-]].
Qed.

(** What [start] never touches. *)
Definition untouched_by_start s := (s_heap s, m_bIsShutdown (s_srv s), m_nMaxConnClientCnt (s_srv s)).

Lemma keeps_start : keeps untouched_by_start (IocpServer_init;; start).
Proof.
  assert (forall n, keeps untouched_by_start (start_workers n)) as Hw.
  { induction n as [|n IH]; cbn [start_workers]; unfold upd_srv; keeps_auto; [|done].
    by intros s b s' [= _ <-]. }
  assert (forall n, keeps untouched_by_start (post_accepts n)) as Hp.
  { induction n as [|n IH]; cbn [post_accepts]; unfold new_acceptor, postAccept, get_acc, upd_acc,
      Net_WSASocket, listen_socket, get_srv, deref, sys_post, upd_srv; keeps_auto;
      first [exact IH|by intros s b s' [= _ <-]]. }
  unfold IocpServer_init, start, Net_init, createIocpWorker, initAcceptIoContext, createListenClient,
    ListenContext_new, associateWithCompletionPort, getAcceptExPtr, getAcceptExSockaddrs,
    Net_WSASocket, Net_bind, Net_listen, listen_socket, get_srv, upd_srv, deref.
  keeps_auto; first [apply Hw|apply Hp|by intros s b s' [= _ <-]].
Qed.

(** The state in which [start] leaves the server when it succeeds. *)
Lemma started_state port max s :
  started port max s ->
  exists l, length l = 10%nat /\ accepting l s /\
    s_ctxs s = ∅ /\ m_connectedClientList (s_srv s) = [] /\
    m_freeClientList (s_srv s) = [] /\ m_nConnClientCnt (s_srv s) = 0 /\
    exists h, m_nWorkerCnt (s_srv s) = Z.max 0 (os_answer h CpuCount) /\
      lenZ (m_hWorkerThreads (s_srv s)) = m_nWorkerCnt (s_srv s).
Proof.
  intros H. unfold started, boot in H.
  st_inv H. injection E as <- <-. unfold start in H. step_true H. st_inv H. do 3 step_true H.
  injection E as <- <-. injection E0 as <- <-. injection H as <-.
  apply negb_false_iff in T, T0, T1, T2. subst.
  pose proof (keeps_listen _ _ _ _ E1) as U1. pose proof (keeps_workers_listen _ _ _ _ E1) as W1.
  apply createListenClient_true in E1 as Hls.
  st_inv E2. injection E as <- <-.
  pose proof (keeps_workers _ _ _ _ E2) as U2. pose proof (keeps_listening_workers _ _ _ _ E2) as L2.
  destruct (start_workers_true _ _ _ E2) as [W2 W2'].
  pose proof (keeps_workers_accepts _ _ _ _ E3) as W3.
  injection U1 as U1a U1b U1c U1d U1e U1f. injection W1 as W1a W1b _.
  injection U2 as U2a U2b U2c U2d U2e U2f. injection L2 as L2a L2b. injection W3 as W3a W3b.
  cbn [s_srv sys_trace] in W2, W2'. clear T E1 E2. assert (accepting [] s3) as Hacc.
  { split; [unfold listening in *; by rewrite L2a, L2b|by rewrite U2c|by rewrite U2a| | |constructor];
      by intros a ?%elem_of_nil. }
  destruct (post_accepts_true _ _ _ _ Hacc E3) as (l & Hlen & Hl & C1 & C2 & C3 & C4).
  exists l. split_and!; [done|done| | | | |].
  { by rewrite C1, U2b. }
  { by rewrite C2, U2d. }
  { by rewrite C3, U2e. }
  { by rewrite C4, U2f. }
  exists (s_trace s2). rewrite W3a, W3b, W2, W2', W1a, W1b. change (lenZ []) with 0. lia.
Qed.
End started.

(** ** Properties *)

(** C28: A server that has started is ready.  When [start] returns true, exactly
    ten accepts are in flight, each with a context of its own, and nothing else
    is; there is no connection and none is counted; and there is one worker
    thread for each processor the system reported. *)
Theorem started_accepting `{OS : WinOS} (port max : Z) (s : Sys) :
  started port max s ->
  exists l, length l = 10%nat /\ NoDup l /\ m_acceptIoCtxList (s_srv s) = l /\
    s_ops s = map accept_op l /\ (forall a, a ∈ l -> is_Some (s_accs s !! a)) /\
    listening s /\ s_ctxs s = ∅ /\ m_connectedClientList (s_srv s) = [] /\
    m_freeClientList (s_srv s) = [] /\ m_nConnClientCnt (s_srv s) = 0 /\
    exists h, m_nWorkerCnt (s_srv s) = Z.max 0 (os_answer h CpuCount) /\
      lenZ (m_hWorkerThreads (s_srv s)) = m_nWorkerCnt (s_srv s).
Proof.
  intros H. destruct (started_state port max s H) as (l & Hlen & [A1 A2 A3 A4 _ A6] & Hrest).
  exists l. split_and!; try done; [|apply Hrest..].
  intros a Ha. destruct (A4 a Ha) as (x & Hx & _). by exists x.
Qed.

Lemma demo_started : holds_after (λ ok _, ok) (boot (OS := demo_os) 5001 2) = true.
Proof. vm_compute. reflexivity. Qed.

Lemma started_accepting_witness :
  exists s l, started (OS := demo_os) 5001 2 s /\ length l = 10%nat /\ NoDup l /\
    m_acceptIoCtxList (s_srv s) = l /\
    s_ops s = map accept_op l /\ (forall a, a ∈ l -> is_Some (s_accs s !! a)) /\
    listening s /\ s_ctxs s = ∅ /\ m_connectedClientList (s_srv s) = [] /\
    m_freeClientList (s_srv s) = [] /\ m_nConnClientCnt (s_srv s) = 0 /\
    exists h, m_nWorkerCnt (s_srv s) = Z.max 0 (os_answer (WinOS := demo_os) h CpuCount) /\
      lenZ (m_hWorkerThreads (s_srv s)) = m_nWorkerCnt (s_srv s).
Proof.
  destruct (holds_after_inv (λ ok _, ok) (boot (OS := demo_os) 5001 2)) as (ok & s & E & ->);
    [exact demo_started|].
  destruct (started_accepting (OS := demo_os) 5001 2 s E) as (l & H).
  exact (ex_intro _ s (ex_intro _ l (conj E H))).
Defined.

(** The listener has been closed and forgotten, and so have the accepts. *)
Record listener_closed (l : ListenContext) (s : Sys) : Prop := {
  lc_accepts : m_acceptIoCtxList (s_srv s) = [];
  lc_listener : m_pListenCtx (s_srv s) = Some (mkListen INVALID_SOCKET (l_port l));
  lc_socket : exists r, (Closesocket (l_socket l), r) ∈ s_trace s;
}.

Section stopping.
Context {OS : WinOS}.
Implicit Types (s : Sys).

(** The accepts whose request cannot be cancelled stay in memory. *)
Lemma shutdown_accepts_total l : forall s,
  (forall a, a ∈ l -> is_Some (s_accs s !! a)) -> NoDup l ->
  exists accs tr, shutdown_accepts l s = Some (tt, io_state s accs (tr ++ s_trace s) (s_ops s)).
Proof.
  induction l as [|a l IH]; intros s Hp Hnd; cbn [shutdown_accepts].
  { exists (s_accs s), []. by destruct s. }
  apply NoDup_cons in Hnd as [Ha Hnd]. destruct (Hp a) as [x Hx]; [left|].
  st_step (get_acc_eq a x s Hx). set (k := CancelIoEx (m_acceptSocket x) (OvAccept a)).
  set (s1 := sys_trace ((k, os_answer (s_trace s) k) :: s_trace s) s).
  rewrite (st_bind_Some (sys_call k) _ s (os_answer (s_trace s) k) s1) by done.
  destruct (negb _).
  - rewrite (st_bind_Some _ _ s1 tt s1) by done.
    destruct (IH s1) as (accs & tr & ->); [intros b Hb; apply Hp; by right|done|].
    exists accs, (tr ++ [(k, os_answer (s_trace s) k)]). by rewrite <- app_assoc.
  - set (k2 := Closesocket (m_acceptSocket x)).
    set (s2 := sys_accs (delete a (s_accs s1))
                 (sys_trace ((k2, os_answer (s_trace s1) k2) :: s_trace s1) s1)).
    rewrite (st_bind_Some _ _ s1 tt s2) by done.
    destruct (IH s2) as (accs & tr & ->); [|done|].
    2: { exists accs, (tr ++ [(k2, os_answer (s_trace s1) k2); (k, os_answer (s_trace s) k)]).
         by rewrite <- app_assoc. }
    intros b Hb. cbn. rewrite lookup_delete_ne by (intros ->; done). apply Hp. by right.
Qed.
End stopping.

(** [shutdown] never reports success.  On a server whose accepts are all
    there it runs to its end or stops at its first call, and the result is false
    in both cases.  When the listening socket's requests can be cancelled, it
    sets the flag that makes the workers drop further accepts, closes and forgets
    the listening socket and empties the list of accepts; connections, memory
    and the requests in flight are left alone. *)
Theorem shutdown_returns_false `{OS : WinOS} (s : Sys) (l : ListenContext) (r : Z) :
  m_pListenCtx (s_srv s) = Some l -> NoDup (m_acceptIoCtxList (s_srv s)) ->
  (forall a, a ∈ m_acceptIoCtxList (s_srv s) -> is_Some (s_accs s !! a)) ->
  os_answer (s_trace s) (CancelIoEx (l_socket l) OvNull) = r ->
  exists s', shutdown s = Some (false, s') /\ m_bIsShutdown (s_srv s') = true /\
    s_ctxs s' = s_ctxs s /\ s_heap s' = s_heap s /\ s_ops s' = s_ops s /\
    (r = 0 -> listener_closed l s').
Proof.
  intros Hl Hnd Hp Hr. unfold shutdown.
  set (s1 := sys_srv (srv_shutdown true (s_srv s)) s).
  rewrite (st_bind_Some (upd_srv _) _ s tt s1) by done.
  st_step (listen_socket_eq l s1 Hl). set (k := CancelIoEx (l_socket l) OvNull) in *.
  set (s2 := sys_trace ((k, r) :: s_trace s) s1).
  rewrite (st_bind_Some (sys_call k) _ s1 r s2) by (unfold sys_call; cbn; by rewrite Hr).
  destruct (Z.eqb_spec r 0) as [Er|Er]; cbn [negb].
  2: { exists s2. by split_and!. }
  set (k2 := Closesocket (l_socket l)).
  set (s3 := sys_trace ((k2, os_answer (s_trace s2) k2) :: s_trace s2) s2).
  rewrite (st_bind_Some (sys_call k2) _ s2 (os_answer (s_trace s2) k2) s3) by done.
  set (s4 := sys_srv (srv_listenCtx (Some (mkListen INVALID_SOCKET (l_port l))) (s_srv s1)) s3).
  rewrite (st_bind_Some (upd_srv _) _ s3 tt s4).
  2: { unfold upd_srv, st_modify. cbn. by rewrite Hl. }
  rewrite (st_bind_Some get_srv _ s4 (s_srv s4) s4) by done.
  destruct (shutdown_accepts_total (m_acceptIoCtxList (s_srv s)) s4 Hp Hnd) as (accs & tr & Hrun).
  change (m_acceptIoCtxList (s_srv s4)) with (m_acceptIoCtxList (s_srv s)). st_step Hrun.
  eexists. split; [reflexivity|]. split_and!; [done..|]. intros _. split; [done..|].
  eexists. cbn. apply elem_of_app. right. left.
Qed.

Lemma demo_up :
  holds_after (λ _ s, bool_decide (is_Some (m_pListenCtx (s_srv s))) &&
      bool_decide (NoDup (m_acceptIoCtxList (s_srv s))) &&
      bool_decide (Forall (λ a, is_Some (s_accs s !! a)) (m_acceptIoCtxList (s_srv s))))
    (boot (OS := demo_os) 5001 2) = true.
Proof. vm_compute. reflexivity. Qed.

Lemma shutdown_returns_false_witness :
  exists s l s', m_pListenCtx (s_srv s) = Some l /\
    shutdown (OS := demo_os) s = Some (false, s') /\ m_bIsShutdown (s_srv s') = true /\
    s_ctxs s' = s_ctxs s /\ s_heap s' = s_heap s /\ s_ops s' = s_ops s /\
    (os_answer (WinOS := demo_os) (s_trace s) (CancelIoEx (l_socket l) OvNull) = 0 ->
       listener_closed l s').
Proof.
  destruct (holds_after_inv _ _ demo_up) as
    (b & s & _ & [[[l Hl]%bool_decide_eq_true Hnd%bool_decide_eq_true]%andb_true_iff
      Hp%bool_decide_eq_true]%andb_true_iff).
  destruct (shutdown_returns_false (OS := demo_os) s l _ Hl Hnd
    (proj1 (Forall_forall _ _) Hp) eq_refl) as (s' & H).
  exact (ex_intro _ s (ex_intro _ l (ex_intro _ s' (conj Hl H)))).
Defined.
