(* ===== verification/Moves.v ===== *)
(** * Connections side by side

    The work on one connection leaves the others as they are: their contexts, the
    blocks their buffers own and their requests.  A connection is described by what
    it has received and not consumed, or by what it is sending ([cstate]), and that
    description survives whatever is done to another. *)
From S2P Require Import Prelude Heap CLib Slice Buffer Os ClientContext IocpServer.
From S2P Require Import ServerInv ServerSafe ServerRuns Serving.

(** From [s] to [s'] only the context of [c], its blocks of memory and its requests have
    changed. *)
Definition moved (c : client) (s s' : Sys) : Prop :=
  exists h x tr ops, s' = conf s c h x tr ops /\ others s c ops /\ kept s c h x /\ h !! 0 = None.

Lemma waiting_moved s c Q d sk s' : waiting s c Q d sk s' -> moved c s s'.
Proof.
  intros (h & x & tr & ops & si & so & -> & _ & Hrep & _ & _ & _ & _ & Ho & Hk).
  exists h, x, tr, ops. split_and!; try done. by destruct Hrep.
Qed.

Lemma busy_moved s c Q sk bs s' : busy s c Q sk bs s' -> moved c s s'.
Proof.
  intros (h & x & tr & ops & ops' & si & so & -> & _ & Hrep & _ & _ & _ & Hops & _ & _ & Ho & Hk).
  exists h, x, tr, ops. split_and!; try done; [|by destruct Hrep].
  intros r Hr. rewrite <- (Ho r Hr). destruct (remove_op_Some _ _ _ Hops) as (l1 & l2 & -> & ->).
  rewrite !filter_app, filter_cons_False; [done|]. intros <-. by apply Hr.
Qed.

(** What a connection has received and not consumed, or what it is sending. *)
Inductive cstate :=
  | Waiting (d : bytes)
  | Sending (bs : bytes).

Definition in_of (st : cstate) : bytes := match st with Waiting d => d | Sending _ => [] end.
Definition out_of (st : cstate) : bytes := match st with Waiting _ => [] | Sending bs => bs end.
Definition refs_of (st : cstate) : Z := match st with Waiting _ => 1 | Sending _ => 2 end.
Definition sends_of (c : client) (st : cstate) : list op :=
  match st with Waiting _ => [] | Sending _ => [req_op c KSend] end.

Record at_state (c : client) (Q : bytes -> Prop) (st : cstate) (s : Sys) (x : ClientContext) : Prop := {
  as_ctx : s_ctxs s !! c = Some x;
  as_base : exists sk, conn_base sk x;
  as_rep : exists si so, conn_rep (s_heap s) x (in_of st) si (out_of st) so /\ Q si;
  as_count : m_nPendingIoCnt x = refs_of st;
  as_recv : req_op c KRecv ∈ s_ops s;
  as_sends : filter (.= req_op c KSend) (s_ops s) = sends_of c st;
  as_announced : match st with Waiting _ => True | Sending bs => announced x bs end;
}.

Lemma filter_eq_nil (r : op) l : filter (.= r) l = [] <-> r ∉ l.
Proof.
  assert (forall r', r' ∈ filter (.= r) l <-> r' = r /\ r' ∈ l) as Hf
    by (intros; apply (list_elem_of_filter (.= r))).
  split.
  - intros H Hin. rewrite H in Hf. by apply (not_elem_of_nil r), Hf.
  - intros H. destruct (filter (.= r) l) as [|r' l'] eqn:E; [done|].
    destruct (proj1 (Hf r')) as [-> ?]; [left|done].
Qed.

Lemma kept_self s c x : s_ctxs s !! c = Some x -> kept s c (s_heap s) x.
Proof. intros Hx x0. rewrite Hx. intros [= <-]. apply frame_refl. Qed.

Lemma at_state_waiting c Q d s x :
  at_state c Q (Waiting d) s x -> exists sk, waiting s c Q d sk s.
Proof.
  intros [Hx [sk Hb] (si & so & Hrep & HQ) Hc Hr Hs _]. exists sk, (s_heap s), x, (s_trace s), (s_ops s), si, so.
  split_and!; try done; [by apply conf_self|by apply filter_eq_nil|by apply kept_self].
Qed.

Lemma at_state_busy c Q bs s x :
  at_state c Q (Sending bs) s x -> exists sk, busy s c Q sk bs s.
Proof.
  intros [Hx [sk Hb] (si & so & Hrep & HQ) Hc Hr Hs Ha].
  assert (req_op c KSend ∈ s_ops s) as Hin.
  { destruct (decide (req_op c KSend ∈ s_ops s)) as [|Hn]; [done|].
    apply filter_eq_nil in Hn. rewrite Hn in Hs. done. }
  apply list_elem_of_split_l in Hin as (l1 & l2 & E & Hn).
  exists sk, (s_heap s), x, (s_trace s), (s_ops s), (l1 ++ l2), si, so.
  assert (remove_op (req_op c KSend) (s_ops s) = Some (l1 ++ l2)) as Hrm by (rewrite E; by apply remove_op_app).
  split_and!; try done; [by apply conf_self|..|by apply kept_self].
  - rewrite E, elem_of_app, elem_of_cons in Hr. rewrite elem_of_app. destruct Hr as [?|[?|?]]; [by left|done|by right].
  - rewrite E, filter_app, (proj2 (filter_eq_nil _ l1) Hn), filter_cons_True in Hs by done.
    cbn [app] in Hs. injection Hs as Hs. apply filter_eq_nil in Hs. rewrite elem_of_app. tauto.
  - by apply (others_remove _ c KSend (s_ops s)).
Qed.

Lemma waiting_at_state c Q d sk s : waiting s c Q d sk s -> exists x, at_state c Q (Waiting d) s x.
Proof.
  intros (h & x & tr & ops & si & so & E & Hb & Hrep & HQ & Hc & Hr & Hs & _). exists x.
  rewrite E. split; cbn; try done; [apply lookup_insert_eq|by exists sk|by exists si, so|by apply filter_eq_nil].
Qed.

Lemma busy_at_state c Q sk bs s : busy s c Q sk bs s -> exists x, at_state c Q (Sending bs) s x.
Proof.
  intros (h & x & tr & ops & ops' & si & so & E & Hb & Hrep & HQ & Ha & Hc & Hops & Hr & Hs & _). exists x.
  rewrite E. destruct (remove_op_Some _ _ _ Hops) as (l1 & l2 & -> & ->).
  rewrite elem_of_app in Hs, Hr. split; cbn; try done; [apply lookup_insert_eq|by exists sk|by exists si, so|..].
  - rewrite elem_of_app, elem_of_cons. tauto.
  - rewrite filter_app, filter_cons_True, !(proj2 (filter_eq_nil _ _)) by tauto. done.
Qed.

(** Two contexts have no block in common. *)
Definition sep (x y : ClientContext) : Prop := apart (m_inBuf x) y /\ apart (m_outBuf x) y.

Lemma sep_sym x y : sep x y -> sep y x.
Proof.
  unfold sep, apart. intros [H1 H2]. split; intros H; (split; intros E; rewrite E in H; symmetry in E);
    first [destruct (H1 H)|destruct (H2 H)]; congruence.
Qed.

Lemma at_state_moved c1 c2 Q st s s' x1 x2 :
  c1 <> c2 -> at_state c1 Q st s x1 -> s_ctxs s !! c2 = Some x2 -> sep x1 x2 -> moved c2 s s' ->
  at_state c1 Q st s' x1 /\ forall x2', s_ctxs s' !! c2 = Some x2' -> sep x1 x2'.
Proof.
  intros Hne [Hx Hb (si & so & [Hin Hout Hap H0] & HQ) Hc Hr Hs Ha] Hx2 [Hs1 Hs2]
    (h & x & tr & ops & -> & Ho & Hk & Hh0).
  destruct (Hk x2 Hx2 _ _ _ Hin Hs1) as [Hin' Hs1']. destruct (Hk x2 Hx2 _ _ _ Hout Hs2) as [Hout' Hs2'].
  split; [|intros x2'; cbn; rewrite lookup_insert_eq; by intros [= <-]].
  split; cbn; try done.
  - by rewrite lookup_insert_ne.
  - exists si, so. done.
  - assert (req_op c1 KRecv ∈ filter (.= req_op c1 KRecv) ops) as Hf.
    { rewrite Ho by (intros [= ?]; done). by apply list_elem_of_filter. }
    by apply list_elem_of_filter in Hf as [_ ?].
  - rewrite Ho by (intros [= ?]; done). done.
Qed.

