(* ===== verification/Program.v ===== *)
(** * The program (WinHttpServer/main.cpp)

    [main] starts an [HttpServer] and then sleeps; all that follows is the work of
    its worker threads.  This file puts the parts together: from the start of the
    program, through the acceptance of connections, to the answers their peers
    read. *)
From S2P Require Import Prelude Heap CLib Slice Buffer HttpMessage Codec Os ClientContext.
From S2P Require Import IocpServer ServerInv ServerSafe ServerRuns Serving HttpServer Connections Lifecycle Moves.

(** The constructor hands its arguments to the one of [IocpServer]; the second is 10000
    unless it is given. *)
Definition HttpServer_new (listenPort maxConnectionCount : Z) : Sys :=
  Sys_new listenPort maxConnectionCount.
Definition maxConnections : Z := 10000.

(** [Some r]: [main] returns [r]; [None]: it sleeps, turn after turn. *)
Definition main `{OS : WinOS} : action (option Z) :=
  IocpServer_init;;
  ret ← start;
  mret (if ret : bool then None else Some 0).

(** Visitors come one after the other: the system has accepted a connection with the
    context [a], the server makes a context for it, and the peer holds its dialogue.
    Each stays connected while the next ones come. *)
Fixpoint visits `{VM : VirtualMem} `{OS : WinOS} (notify : client -> action unit)
    (vs : list (acceptor * list (list bytes * list Z))) : action (list (list bytes)) :=
  match vs with
  | [] => mret []
  | (a, ms) :: vs =>
      c ← st_gets s_next;
      run_packets notify [accept_packet a];;
      ws ← dialogue notify c ms;
      rs ← visits notify vs;
      mret (ws :: rs)
  end.

(** ** The server between visits *)

(** The accepts in [l] are posted and [n] connections have been made, none of which was
    closed. *)
Record in_service (l : list acceptor) (n : Z) (s : Sys) : Prop := {
  is_listening : listening s;
  is_posted : forall a, a ∈ l -> posted s a /\ accept_op a ∈ s_ops s;
  is_free : m_freeClientList (s_srv s) = [];
  is_count : m_nConnClientCnt (s_srv s) = n;
  is_connected : lenZ (m_connectedClientList (s_srv s)) = n;
  is_max : m_nMaxConnClientCnt (s_srv s) = maxConnections;
  is_up : m_bIsShutdown (s_srv s) = false;
  is_null : s_heap s !! 0 = None;
  is_new : forall c k, s_next s <= c -> req_op c k ∉ s_ops s;
}.

(** A program that has started is in service. *)
Lemma main_in_service `{OS : WinOS} port s :
  main (HttpServer_new port maxConnections) = Some (None, s) ->
  in_service (m_acceptIoCtxList (s_srv s)) 0 s.
Proof.
  intros H. assert (started port maxConnections s) as Hst.
  { unfold started, boot. unfold main, mbind, ST_bind, HttpServer_new in *.
    destruct (IocpServer_init _) as [[[] s1]|]; [|done]. by destruct (start s1) as [[[] s2]|]; [injection H as ->| |]. }
  destruct (started_state _ _ _ Hst) as (l & _ & [A1 A2 A3 A4 _ _] & _ & C1 & C2 & C3 & _).
  pose proof (keeps_start _ _ _ Hst) as [= K1 K2 K3]. rewrite A2.
  split; [done| |done|done|by rewrite C1|by rewrite K3|done|by rewrite K1|].
  - intros a Ha. split; [by apply A4|]. rewrite A3. apply list_elem_of_fmap. by exists a.
  - intros c k _. rewrite A3. intros (a & Ha & _)%list_elem_of_fmap. done.
Qed.

Section visits.
Context {A : Arch} {VM : VirtualMem} {VOk : VirtualMemOk VM} {VG : VirtualMemGrants VM (2 ^ 31)}.
Context {OS : WinOS} {Acc : Accepts OS} {Ass : Associates OS} {Lis : Listens OS}.

(** The packet of an accept, as far as the handler. *)
Lemma run_accept notify a s l1 l2 r s' :
  posted s a -> s_ops s = l1 ++ accept_op a :: l2 -> (accept_op a ∉ l1) -> m_bIsShutdown (s_srv s) = false ->
  handleAccept a 0 (sys_ops (l1 ++ l2) s) = Some (r, s') ->
  run_packets notify [accept_packet a] s = Some (tt, s').
Proof.
  intros (x & Hx & _ & Ht) Hops Hn Hup Hrun. cbn [run_packets accept_packet].
  rewrite (st_bind_Some (st_gets s_ops) _ _ (s_ops s) s) by done.
  rewrite (st_bind_Some _ _ _ (l1 ++ l2) s).
  2: { unfold deref, st_reads. cbn [cp_op]. by rewrite Hops, remove_op_app. }
  rewrite (st_bind_Some _ _ _ tt s) by done. set (s1 := sys_ops (l1 ++ l2) s) in *.
  rewrite (st_bind_Some _ _ _ tt s1) by done. rewrite (st_bind_Some _ _ _ true s'); [done|].
  unfold worker_turn. rewrite (st_bind_Some get_srv _ s1 (s_srv s1) s1) by done. cbv zeta.
  cbn [cp_op op_key op_ov]. rewrite (bool_decide_false (KeyServer = KeyExit)) by done.
  rewrite (bool_decide_true (KeyServer = KeyServer)) by done.
  change (m_bIsShutdown (s_srv s1)) with (m_bIsShutdown (s_srv s)). rewrite Hup. cbn [negb andb].
  rewrite (st_bind_Some _ _ s1 ACCEPT_EVENT s1).
  2: { cbn [post_type]. st_step (get_acc_eq a x s1 Hx). by rewrite Ht. }
  rewrite (st_bind_Some _ _ s1 a s1) by done. by st_step Hrun.
Qed.

(** What the acceptance of a connection leaves to the others. *)
Record entered (s s' : Sys) : Prop := {
  en_fresh : fresh (s_next s) s' = true;
  en_next : s_next s' = s_next s + 1;
  en_heap : s_heap s' = s_heap s;
  en_others : forall c, c <> s_next s -> s_ctxs s' !! c = s_ctxs s !! c;
  en_ops : forall c k, c <> s_next s ->
    filter (.= req_op c k) (s_ops s') = filter (.= req_op c k) (s_ops s);
}.

(** A connection is accepted. *)
Lemma visitor_enters notify l n a s :
  in_service l n s -> a ∈ l -> 0 <= n < maxConnections ->
  exists s', run_packets notify [accept_packet a] s = Some (tt, s') /\
    in_service l (n + 1) s' /\ entered s s'.
Proof.
  intros [[[lc Hlc] Hp] Hacc Hfree Hcnt Hcon Hmax Hup H0 Hnew] Ha Hn.
  destruct (Hacc a Ha) as [Hposted Hop]. pose proof Hposted as (x & Hx & Hsock & Htype).
  apply list_elem_of_split_l in Hop as (l1 & l2 & Hops & Hn1).
  set (s0 := sys_ops (l1 ++ l2) s). set (c := s_next s).
  assert (handleAccept a 0 s0 = (c ← allocateClientContext (m_acceptSocket x); accept_tail a c) (counted s0 x lc))
    as Hh by (apply handleAccept_counted; [done|done|cbn; lia]).
  pose proof (allocate_new (counted s0 x lc) (m_acceptSocket x) Hfree) as Hal.
  rewrite (st_bind_Some _ _ _ _ _ Hal) in Hh. change (s_next (counted s0 x lc)) with c in Hh.
  match type of Hh with _ = accept_tail _ _ (conf ?s1 _ ?h ?y ?tr ?ops) =>
    destruct (accept_tail_conf s1 a c h y tr ops x lc Hx Hlc Hp Hsock eq_refl)
      as (accs & tr' & addr & b & Htail & Hrp) end.
  rewrite Htail in Hh. assert (b = true) as -> by (by apply (rp_ok _ _ _ _ _ Hrp)). cbn iota in Hh.
  pose proof (run_accept notify a s l1 l2 _ _ Hposted Hops Hn1 Hup Hh) as Hrun.
  assert (forall o, o ∈ s_ops s -> o ∈ ((l1 ++ l2) ++ [accept_op a]) ++ [req_op c KRecv]) as Hkeep.
  { intros o. rewrite Hops, !elem_of_app, !elem_of_cons. tauto. }
  assert (forall k c', c <= c' -> req_op c' k ∉ (l1 ++ l2) ++ [accept_op a]) as Hnone.
  { intros k c' Hc Hin. apply (Hnew c' k Hc). rewrite Hops.
    revert Hin. rewrite !elem_of_app, !elem_of_cons. pose proof (not_elem_of_nil (req_op c' k)). tauto. }
  eexists. split; [exact Hrun|]. split; [|split; [|done|done|..]].
  - split; cbn -[u32]; try done.
    + intros k Hk. destruct (Hacc k Hk) as [(y & Hy & Hys & Hyt) Hko]. split; [|by apply Hkeep].
      destruct (decide (k = a)) as [->|Hne].
      * destruct (rp_socket _ _ _ _ _ Hrp eq_refl) as (x' & ? & ? & Hb). exists x'. by rewrite Hb.
      * exists y. cbn. by rewrite (rp_others _ _ _ _ _ Hrp k Hne).
    + rewrite Hcnt. unfold maxConnections in Hn. rewrite u32_small by lia. done.
    + rewrite lenZ_app, Hcon. done.
    + intros c' k Hc. rewrite elem_of_app, list_elem_of_singleton. intros [Hin|[= Hcc _]].
      * apply (Hnone k c'); [lia|done].
      * lia.
  - unfold fresh. cbn -[Z.eqb IO_BUF_SIZE]. rewrite lookup_insert_eq. cbn -[Z.eqb IO_BUF_SIZE].
    rewrite (proj2 (Z.eqb_neq _ _) Hsock), lenZ_zeros by done.
    rewrite !bool_decide_true; try done.
    + rewrite elem_of_app, list_elem_of_singleton. intros [Hin|?]; [|done]. by apply (Hnone KSend c) in Hin; [|lia].
    + rewrite elem_of_app. right. left.
  - intros c' Hc'. cbn. by rewrite lookup_insert_ne by (intros ?; done).
  - intros c' k Hc'. cbn. rewrite Hops, !filter_app, !filter_cons_False, !filter_nil, !app_nil_r; [done|..];
      intros [= ?]; done.
Qed.

(** What is done to a connection leaves the server in service. *)
Lemma in_service_after l n s c s' :
  in_service l n s -> c < s_next s -> moved c s s' -> in_service l n s'.
Proof.
  intros [Hl Hacc Hfree Hcnt Hcon Hmax Hup H0 Hnew] Hc (h & x & tr & ops & -> & Ho & _ & Hh).
  split; try done.
  - intros a Ha. destruct (Hacc a Ha) as [Hp Hop]. split; [exact Hp|].
    assert (accept_op a ∈ filter (.= accept_op a) ops) as Hf.
    { rewrite Ho by done. by apply list_elem_of_filter. }
    by apply list_elem_of_filter in Hf as [_ ?].
  - intros c' k Hc'. apply filter_eq_nil. cbn in *. rewrite Ho by (intros [= ->]; lia).
    by apply filter_eq_nil, Hnew.
Qed.

(** One visitor after the other, for any callback that answers. *)
Lemma visits_spec notify (Q incomplete valid : bytes -> Prop) (reply : bytes -> bytes)
    {Ans : forall c, Answers notify c Q valid reply} {W : forall c, Waits notify c incomplete} l vs :
  Q [] -> forall n s, in_service l n s -> 0 <= n -> n + lenZ vs <= maxConnections ->
  Forall (λ v, v.1 ∈ l /\ Forall (good_message incomplete valid reply) v.2) vs ->
  exists s', visits notify vs s = Some (map (λ v, map (λ m, reply (concat m.1)) v.2) vs, s') /\
    in_service l (n + lenZ vs) s'.
Proof.
  intros HQ. induction vs as [|[a ms] vs IH]; intros n s Hs Hn Hlen Hvs.
  { exists s. by rewrite Z.add_0_r. }
  apply Forall_cons in Hvs as [[Ha Hms] Hvs]. rewrite lenZ_cons in Hlen. pose proof (lenZ_nonneg vs). cbn [fst snd] in *.
  destruct (visitor_enters notify l n a s Hs Ha) as (s1 & Hrun & Hs1 & [Hf Hnx _ _ _]); [lia|].
  destruct (fresh_idle (s_next s) Q s1 Hf HQ) as [sk Hidle].
  destruct (dialogue_spec notify (s_next s) Q incomplete valid reply s1 sk ms s1 Hidle Hms) as (s2 & Hd & Hidle2).
  pose proof (in_service_after l (n + 1) s1 (s_next s) s2 Hs1 ltac:(lia) (waiting_moved _ _ _ _ _ _ Hidle2)) as Hs2.
  destruct (IH (n + 1) s2 Hs2) as (s3 & Hv & Hs3); [lia|lia|done|].
  exists s3. rewrite lenZ_cons. replace (n + (1 + lenZ vs)) with (n + 1 + lenZ vs) by lia. split; [|done].
  cbn [visits map]. rewrite (st_bind_Some _ _ s (s_next s) s) by done.
  st_step Hrun. st_step Hd. st_step Hv. reflexivity.
Qed.
End visits.

(** ** Properties *)

(** When [main] has started the server, up to 10000 visitors come one
    after the other, each through any of the accepts that were posted, and send any
    short GET requests, each in any pieces, to which the answers are sent in any
    pieces.  No call faults, every visitor reads the fixed response once for each of its
    requests, nobody is turned away or closed, and in the end the server is in service
    still: it counts exactly the visitors, and all its accepts are posted again. *)
Theorem program_serves `{!Arch} `{!VirtualMemOk VM} `{!VirtualMemGrants VM (2 ^ 31)}
    `{!Accepts OS} `{!Associates OS} `{!Listens OS} (fuel : nat) (hl0 st0 : Z) (s : Sys)
    (vs : list (acceptor * list (list bytes * list Z))) :
  main (HttpServer_new 5001 maxConnections) = Some (None, s) -> (2 <= fuel)%nat ->
  lenZ vs <= maxConnections ->
  Forall (λ v, v.1 ∈ m_acceptIoCtxList (s_srv s) /\
    Forall (λ m, short_arrival m.1 /\ pieces_of m.2 (lenZ hello_response)) v.2) vs ->
  exists s', visits (notifyPackageReceived fuel hl0 st0) vs s =
      Some (map (λ v, map (λ _, hello_response) v.2) vs, s') /\
    in_service (m_acceptIoCtxList (s_srv s)) (lenZ vs) s'.
Proof.
  intros Hmain Hfuel Hlen Hvs. destruct fuel as [|[|fuel]]; [lia..|].
  apply main_in_service in Hmain.
  apply (visits_spec (notifyPackageReceived (S (S fuel)) hl0 st0) (Forall (.= NUL)) short_part short_request
    (λ _, hello_response) _ vs (Forall_nil_2 _) 0 s Hmain); [lia|done|].
  eapply Forall_impl; [exact Hvs|]. intros [a ms] [Ha Hms]. split; [done|].
  eapply Forall_impl; [exact Hms|]. intros [ds ns] [Hds Hp]. by apply short_good.
Qed.

#[export] Instance demo_listens : Listens demo_os.
Proof.
  split; [|done]. intros h. cbn. pose proof (lenZ_nonneg h). unfold INVALID_SOCKET. lia.
Qed.

Lemma demo_main :
  holds_after (λ r s, match r with None => bool_decide (1 ∈ m_acceptIoCtxList (s_srv s)) &&
                                            bool_decide (3 ∈ m_acceptIoCtxList (s_srv s))
                                 | Some _ => false end)
    (main (OS := demo_os) (HttpServer_new 5001 maxConnections)) = true.
Proof. vm_compute. reflexivity. Qed.

Abbreviation served_turn ds ns := (short_arrival ds /\ pieces_of ns (lenZ hello_response)).

Lemma demo_turn1 : served_turn [demo_short] [66].
Proof. split; [apply demo_whole|by repeat constructor]. Qed.

Lemma demo_turn2 : served_turn demo_parts [60; 6].
Proof. split; [apply demo_cut|by repeat constructor]. Qed.

Lemma program_serves_witness :
  exists s s', main (OS := demo_os) (HttpServer_new 5001 maxConnections) = Some (None, s) /\
    visits (VM := bump_mem) (OS := demo_os)
        (notifyPackageReceived (A := X64) (VM := bump_mem) (OS := demo_os) 2 0 0)
        [(1, [([demo_short], [66])]); (1, []); (3, [(demo_parts, [60; 6]); ([demo_short], [66])])] s =
      Some ([[hello_response]; []; [hello_response; hello_response]], s') /\
    in_service (m_acceptIoCtxList (s_srv s)) 3 s'.
Proof.
  destruct (holds_after_inv _ _ demo_main) as (r & s & Hmain & H).
  destruct r as [r|]; [exfalso; exact (Bool.diff_false_true H)|].
  apply andb_true_iff in H as [H1%bool_decide_eq_true H3%bool_decide_eq_true].
  destruct (program_serves (H := X64) (VM := bump_mem) (OS := demo_os) 2 0 0 s
    [(1, [([demo_short], [66])]); (1, []); (3, [(demo_parts, [60; 6]); ([demo_short], [66])])] Hmain)
    as (s' & Hrun & Hs'); [lia|by vm_compute| |].
  - apply Forall_cons_2; [split; [exact H1|apply Forall_cons_2; [exact demo_turn1|apply Forall_nil_2]]|].
    apply Forall_cons_2; [split; [exact H1|apply Forall_nil_2]|].
    apply Forall_cons_2; [split; [exact H3|]|apply Forall_nil_2].
    apply Forall_cons_2; [exact demo_turn2|]. apply Forall_cons_2; [exact demo_turn1|apply Forall_nil_2].
  - exists s, s'. split; [exact Hmain|]. split; [exact Hrun|exact Hs'].
Defined.
