(* ===== verification/Service.v ===== *)
(** * The service the program offers

    What the server promises, without its contexts, buffers, requests and memory: each
    connection either holds bytes it has not been able to make a message of, or is
    sending an answer.  The program refines it: whatever connections the service allows
    to come, and in whatever order their peers' bytes and the pieces of their answers
    then follow one another, the server does the same and sends the same. *)
From S2P Require Import Prelude Heap CLib Slice Buffer HttpMessage Codec Os ClientContext.
From S2P Require Import IocpServer ServerInv ServerSafe ServerRuns Serving HttpServer Connections Lifecycle Moves Program.

(** ** The specification *)

(** The connections, and the name the next one gets. *)
Record service := mkService {
  sv_conns : gmap client cstate;
  sv_next : client;
}.

(** A connection is made with an accept; bytes arrive; bytes go out. *)
Inductive event :=
  | Visits (a : acceptor)
  | Arrives (c : client) (d : bytes)
  | Goes (c : client) (n : Z).

(** What goes out to whom. *)
Abbreviation output := (list (client * bytes)).

Definition becomes (c : client) (st : cstate) (σ : service) : service :=
  mkService (<[c := st]> (sv_conns σ)) (sv_next σ).

(** [d] fits the receive buffer, and with what is there already the input buffer. *)
Definition fits (d0 d : bytes) : Prop := 0 < lenZ d <= IO_BUF_SIZE /\ lenZ d0 + lenZ d <= 2 ^ 31 - 1024.

Section spec.
Context (incomplete valid : bytes -> Prop) (reply : bytes -> bytes) (l : list acceptor).
Implicit Types (σ : service) (c : client) (d bs : bytes) (out : output).

Inductive step : service -> event -> output -> service -> Prop :=
  | step_visit σ a :
      a ∈ l -> Z.of_nat (base.size (sv_conns σ)) < maxConnections -> sv_conns σ !! sv_next σ = None ->
      step σ (Visits a) [] (mkService (<[sv_next σ := Waiting []]> (sv_conns σ)) (sv_next σ + 1))
  | step_part σ c d0 d :
      sv_conns σ !! c = Some (Waiting d0) -> fits d0 d -> incomplete (d0 ++ d) ->
      step σ (Arrives c d) [] (becomes c (Waiting (d0 ++ d)) σ)
  | step_message σ c d0 d :
      sv_conns σ !! c = Some (Waiting d0) -> fits d0 d -> valid (d0 ++ d) ->
      step σ (Arrives c d) [] (becomes c (Sending (reply (d0 ++ d))) σ)
  | step_piece σ c bs n :
      sv_conns σ !! c = Some (Sending bs) -> 0 < n < lenZ bs ->
      step σ (Goes c n) [(c, takeZ n bs)] (becomes c (Sending (dropZ n bs)) σ)
  | step_last σ c bs :
      sv_conns σ !! c = Some (Sending bs) ->
      step σ (Goes c (lenZ bs)) [(c, bs)] (becomes c (Waiting []) σ).

Inductive steps : service -> list event -> output -> service -> Prop :=
  | steps_nil σ : steps σ [] [] σ
  | steps_cons σ e out σ1 es outs σ2 :
      step σ e out σ1 -> steps σ1 es outs σ2 -> steps σ (e :: es) (out ++ outs) σ2.

(** The bytes that have arrived from [c], and those that have gone to it. *)
Fixpoint arrived c (es : list event) : bytes :=
  match es with
  | [] => []
  | Arrives c' d :: es => (if bool_decide (c' = c) then d else []) ++ arrived c es
  | _ :: es => arrived c es
  end.

Definition read_by c out : bytes := concat (map snd (filter (λ p, p.1 = c) out)).

Definition in_at σ c : bytes := from_option in_of [] (sv_conns σ !! c).
Definition out_at σ c : bytes := from_option out_of [] (sv_conns σ !! c).

Lemma read_by_app c out1 out2 : read_by c (out1 ++ out2) = read_by c out1 ++ read_by c out2.
Proof. unfold read_by. by rewrite filter_app, map_app, concat_app. Qed.

(** What one event contributes to the bytes of [c]. *)
Lemma step_stream σ e out σ' c :
  step σ e out σ' -> exists ms, Forall valid ms /\
    in_at σ c ++ arrived c [e] = concat ms ++ in_at σ' c /\
    out_at σ c ++ concat (map reply ms) = read_by c out ++ out_at σ' c.
Proof.
  unfold in_at, out_at, read_by. intros H. destruct H as [σ a _ _ Hn|σ c' d0 d Hc|σ c' d0 d Hc _ Hv|σ c' bs n Hc Hn|σ c' bs Hc];
    cbn [arrived becomes sv_conns filter list_filter map concat app].
  - exists []. split; [done|]. cbn. rewrite !app_nil_r. destruct (decide (c = sv_next σ)) as [->|Hne].
    + by rewrite lookup_insert_eq, Hn.
    + by rewrite lookup_insert_ne by done.
  - exists []. split; [done|]. cbn. rewrite !app_nil_r. destruct (decide (c' = c)) as [->|Hne].
    + rewrite lookup_insert_eq, Hc, bool_decide_true by done. done.
    + rewrite lookup_insert_ne, bool_decide_false, app_nil_r by done. done.
  - destruct (decide (c' = c)) as [->|Hne].
    + exists [d0 ++ d]. split; [by constructor|]. rewrite lookup_insert_eq, Hc, bool_decide_true by done.
      cbn. by rewrite !app_nil_r.
    + exists []. split; [done|]. rewrite lookup_insert_ne, bool_decide_false by done. cbn. by rewrite !app_nil_r.
  - exists []. split; [done|]. cbn. rewrite !app_nil_r. destruct (decide (c' = c)) as [->|Hne].
    + rewrite lookup_insert_eq, Hc. cbn. rewrite app_nil_r. by rewrite takeZ_dropZ.
    + by rewrite lookup_insert_ne by done.
  - exists []. split; [done|]. cbn. rewrite !app_nil_r. destruct (decide (c' = c)) as [->|Hne].
    + rewrite lookup_insert_eq, Hc. cbn. by rewrite !app_nil_r.
    + by rewrite lookup_insert_ne by done.
Qed.

(** What has arrived from [c] is a sequence of messages, and perhaps the beginning of
    another; what has gone to it and what is still to go are their answers. *)
Lemma steps_stream σ es out σ' c :
  steps σ es out σ' -> exists ms, Forall valid ms /\
    in_at σ c ++ arrived c es = concat ms ++ in_at σ' c /\
    out_at σ c ++ concat (map reply ms) = read_by c out ++ out_at σ' c.
Proof.
  induction 1 as [σ|σ e out σ1 es outs σ2 Hstep _ IH].
  { exists []. cbn. by rewrite !app_nil_r. }
  destruct (step_stream σ e out σ1 c Hstep) as (ms1 & Hv1 & Hi1 & Ho1).
  destruct IH as (ms2 & Hv2 & Hi2 & Ho2). exists (ms1 ++ ms2). split; [by apply Forall_app|].
  rewrite map_app, !concat_app, read_by_app. split.
  - assert (arrived c (e :: es) = arrived c [e] ++ arrived c es) as ->.
    { destruct e; [done| |done]. cbn. by rewrite app_nil_r. }
    by rewrite app_assoc, Hi1, <- !app_assoc, Hi2.
  - by rewrite app_assoc, Ho1, <- !app_assoc, Ho2.
Qed.
End spec.

(** ** The server does what the service allows *)

Section refinement.
Context {A : Arch} {VM : VirtualMem} {VOk : VirtualMemOk VM} {VG : VirtualMemGrants VM (2 ^ 31)}.
Context {OS : WinOS} {Acc : Accepts OS} {Ass : Associates OS} {Lis : Listens OS}.
Context (notify : client -> action unit) (Q incomplete valid : bytes -> Prop) (reply : bytes -> bytes).
Context {Ans : forall c, Answers notify c Q valid reply} {W : forall c, Waits notify c incomplete}.
Context (HQ : Q []) (l : list acceptor).
Implicit Types (σ : service) (s : Sys).

(** The packets of an event, and what the system finds in memory when it sends. *)
Definition perform1 (e : event) : action output :=
  match e with
  | Visits a => run_packets notify [accept_packet a];; mret []
  | Arrives c d => run_packets notify [recv_packet c d];; mret []
  | Goes c n => w ← send_turn c notify n; mret [(c, w)]
  end.

Fixpoint perform (es : list event) : action output :=
  match es with
  | [] => mret []
  | e :: es => o ← perform1 e; os ← perform es; mret (o ++ os)
  end.

(** What is being sent is an answer, or the rest of one. *)
Definition sendable (st : cstate) : Prop :=
  match st with Waiting _ => True | Sending bs => bs <> [] /\ lenZ bs <= 2 ^ 31 - 1024 end.

(** The server is in the state [σ] of the service: every connection is as [σ] says, and no
    two have a block of memory in common. *)
Record serving σ s : Prop := {
  sv_service : in_service l (Z.of_nat (base.size (sv_conns σ))) s;
  sv_upcoming : sv_next σ = s_next s;
  sv_each : forall c st, sv_conns σ !! c = Some st -> c < sv_next σ /\ sendable st /\ exists x, at_state c Q st s x;
  sv_apart : forall c1 c2 st1 st2 x1 x2, c1 <> c2 -> sv_conns σ !! c1 = Some st1 -> sv_conns σ !! c2 = Some st2 ->
    s_ctxs s !! c1 = Some x1 -> s_ctxs s !! c2 = Some x2 -> sep x1 x2;
}.

(** Something is done to one connection. *)
Lemma serving_moved σ s c st st' s' :
  serving σ s -> sv_conns σ !! c = Some st -> moved c s s' -> sendable st' ->
  (exists x', at_state c Q st' s' x') -> serving (becomes c st' σ) s'.
Proof.
  intros [Hserv Hnext Heach Hap] Hc Hm Hok [x' Hx']. destruct (Heach c st Hc) as (Hlt & _ & x & Hx).
  assert (forall c1 st1 x1, c1 <> c -> sv_conns σ !! c1 = Some st1 -> s_ctxs s !! c1 = Some x1 ->
    at_state c1 Q st1 s' x1 /\ sep x1 x') as Hmv.
  { intros c1 st1 x1 Hne Hc1 Hx1. destruct (Heach c1 st1 Hc1) as (_ & _ & x1' & Hat).
    pose proof (as_ctx _ _ _ _ _ Hat) as E. rewrite Hx1 in E. injection E as <-.
    destruct (at_state_moved c1 c Q st1 s s' x1 x Hne Hat (as_ctx _ _ _ _ _ Hx)) as [Hat' Hsep];
      [by eapply Hap, as_ctx|done|]. split; [done|]. by eapply Hsep, as_ctx. }
  assert (forall c1 st1 x1, c1 <> c -> sv_conns σ !! c1 = Some st1 -> s_ctxs s' !! c1 = Some x1 ->
    s_ctxs s !! c1 = Some x1) as Hback.
  { intros c1 st1 x1 Hne _. destruct Hm as (h & y & tr & ops & -> & _). cbn. by rewrite lookup_insert_ne. }
  split; cbn [becomes sv_conns sv_next].
  - rewrite map_size_insert_Some by eauto. by eapply in_service_after; [|rewrite <- Hnext|].
  - rewrite Hnext. by destruct Hm as (h & y & tr & ops & -> & _).
  - intros c1 st1 Hc1. destruct (decide (c1 = c)) as [->|Hne].
    + rewrite lookup_insert_eq in Hc1. injection Hc1 as <-. split_and!; [done..|by exists x'].
    + rewrite lookup_insert_ne in Hc1 by done. destruct (Heach c1 st1 Hc1) as (? & ? & x1 & Hx1).
      split_and!; [done..|]. exists x1. eapply Hmv; [done..|by eapply as_ctx].
  - intros c1 c2 st1 st2 x1 x2 Hne Hc1 Hc2 Hx1 Hx2. pose proof (as_ctx _ _ _ _ _ Hx') as Ec.
    destruct (decide (c1 = c)) as [->|Hne1]; [|destruct (decide (c2 = c)) as [->|Hne2]].
    + rewrite lookup_insert_ne in Hc2 by done. rewrite Ec in Hx1. injection Hx1 as <-.
      apply sep_sym. eapply Hmv; eauto.
    + rewrite lookup_insert_ne in Hc1 by done. rewrite Ec in Hx2. injection Hx2 as <-. eapply Hmv; eauto.
    + rewrite lookup_insert_ne in Hc1, Hc2 by done. eapply (Hap c1 c2); eauto.
Qed.

(** A new connection. *)
Lemma serving_visit σ s a :
  serving σ s -> a ∈ l -> Z.of_nat (base.size (sv_conns σ)) < maxConnections -> sv_conns σ !! sv_next σ = None ->
  exists s', run_packets notify [accept_packet a] s = Some (tt, s') /\
    serving (mkService (<[sv_next σ := Waiting []]> (sv_conns σ)) (sv_next σ + 1)) s'.
Proof.
  intros [Hserv Hnext Heach Hap] Ha Hmax Hnew.
  destruct (visitor_enters notify l _ a s Hserv Ha) as (s' & Hrun & Hserv' & [Hf Hnx Hh Hoth Hops]); [lia|].
  exists s'. split; [done|]. destruct (fresh_idle (s_next s) Q s' Hf HQ) as [sk Hidle].
  destruct (waiting_at_state _ _ _ _ _ Hidle) as [x Hx]. rewrite Hnext in *.
  assert (m_inBuf x = Buffer_new /\ m_outBuf x = Buffer_new) as [Hib Hob].
  { unfold fresh in Hf. rewrite (as_ctx _ _ _ _ _ Hx) in Hf.
    repeat match type of Hf with (_ && _) = true => apply andb_prop in Hf as [Hf ?] end.
    by repeat match goal with H : bool_decide _ = true |- _ => apply bool_decide_eq_true in H end. }
  assert (forall y, sep x y) as Hsep by (intros y; unfold sep, apart; rewrite Hib, Hob; by split; intros []).
  split; cbn [sv_conns sv_next].
  - rewrite map_size_insert_None by done. by replace (Z.of_nat (S _)) with (Z.of_nat (base.size (sv_conns σ)) + 1) by lia.
  - done.
  - intros c st. destruct (decide (c = s_next s)) as [->|Hne].
    + rewrite lookup_insert_eq. intros [= <-]. split_and!; [lia|done|by exists x].
    + rewrite lookup_insert_ne by done. intros Hc. destruct (Heach c st Hc) as (? & ? & y & [E ? ? ? Hr Hs ?]).
      split_and!; [lia|done|]. exists y. split; try done; [by rewrite Hoth|by rewrite Hh| |by rewrite Hops].
      assert (req_op c KRecv ∈ filter (.= req_op c KRecv) (s_ops s')) as Hin.
      { rewrite Hops by done. by apply list_elem_of_filter. }
      by apply list_elem_of_filter in Hin as [_ ?].
  - intros c1 c2 st1 st2 x1 x2 Hne Hc1 Hc2 Hx1 Hx2. pose proof (as_ctx _ _ _ _ _ Hx) as Ec.
    destruct (decide (c1 = s_next s)) as [->|Hne1]; [|destruct (decide (c2 = s_next s)) as [->|Hne2]].
    + rewrite Ec in Hx1. injection Hx1 as <-. apply Hsep.
    + rewrite Ec in Hx2. injection Hx2 as <-. apply sep_sym, Hsep.
    + rewrite lookup_insert_ne in Hc1, Hc2 by done. rewrite Hoth in Hx1, Hx2 by done. eapply (Hap c1 c2); eauto.
Qed.
(** One event. *)
Lemma step_simulated σ e out σ' s :
  step incomplete valid reply l σ e out σ' -> serving σ s ->
  exists s', perform1 e s = Some (out, s') /\ serving σ' s'.
Proof.
  intros Hst Hs. destruct Hst as [σ a Ha Hmax Hnew|σ c d0 d Hc [Hd Hlen] Hi|σ c d0 d Hc [Hd Hlen] Hv|σ c bs n Hc Hn|σ c bs Hc];
    cbn [perform1].
  { destruct (serving_visit σ s a Hs Ha Hmax Hnew) as (s' & Hrun & Hs'). exists s'. split; [by st_step Hrun|done]. }
  all: destruct (sv_each _ _ Hs _ _ Hc) as (_ & Hok & x & Hx).
  - destruct (at_state_waiting _ _ _ _ _ Hx) as [sk Hw].
    destruct (recv_waits s c Q notify d d0 sk s Hw Hd Hlen) as (s' & Hrun & Hw').
    { intros si0 si. apply (answers_slack (Answers := Ans c)). }
    { intros h y tr ops si so Hb Hrep. by eapply waits_call. }
    exists s'. split; [by st_step Hrun|]. eapply serving_moved; [done..|by eapply waiting_moved|done|].
    eapply waiting_at_state, waiting_self, Hw'.
  - destruct (at_state_waiting _ _ _ _ _ Hx) as [sk Hw].
    destruct (recv_busy s c Q notify d d0 sk s (reply (d0 ++ d)) Hw Hd Hlen) as (s' & Hrun & Hb').
    { intros h y tr ops si0 si so Hb Hrep HQ0 Hsl. eapply answers_call; [done..|by eapply (answers_slack (Answers := Ans c))]. }
    exists s'. split; [by st_step Hrun|]. eapply serving_moved; [done..|by eapply busy_moved|by apply (answers_reply (Answers := Ans c))|].
    eapply busy_at_state, busy_self, Hb'.
  - destruct (at_state_busy _ _ _ _ _ Hx) as [sk Hb]. destruct Hok as [Hne Hlen].
    destruct (send_turn_part s c Q notify sk n bs s Hb Hn Hlen) as (s' & Hrun & Hb').
    exists s'. split; [by st_step Hrun|]. eapply serving_moved; [done..|by eapply busy_moved| |].
    + split; [|rewrite lenZ_dropZ; lia]. intros E. apply (f_equal lenZ) in E.
      rewrite lenZ_dropZ, lenZ_nil in E by lia. lia.
    + eapply busy_at_state, busy_self, Hb'.
  - destruct (at_state_busy _ _ _ _ _ Hx) as [sk Hb]. destruct Hok as [Hne Hlen].
    destruct (send_turn_last s c Q notify sk bs s Hb Hne Hlen) as (s' & Hrun & Hw').
    exists s'. split; [by st_step Hrun|]. eapply serving_moved; [done..|by eapply waiting_moved|done|].
    eapply waiting_at_state, waiting_self, Hw'.
Qed.

Lemma steps_simulated σ es out σ' :
  steps incomplete valid reply l σ es out σ' -> forall s, serving σ s ->
  exists s', perform es s = Some (out, s') /\ serving σ' s'.
Proof.
  induction 1 as [σ|σ e out σ1 es outs σ2 Hstep _ IH]; intros s Hs; [by exists s|].
  destruct (step_simulated σ e out σ1 s Hstep Hs) as (s1 & Hrun & Hs1).
  destruct (IH s1 Hs1) as (s2 & Hruns & Hs2). exists s2. split; [|done].
  cbn [perform]. st_step Hrun. by st_step Hruns.
Qed.
End refinement.

(** The service when the program has started. *)
Definition nobody (s : Sys) : service := mkService ∅ (s_next s).

Lemma main_serving `{OS : WinOS} (Q : bytes -> Prop) port s :
  main (HttpServer_new port maxConnections) = Some (None, s) ->
  serving Q (m_acceptIoCtxList (s_srv s)) (nobody s) s.
Proof.
  intros H%main_in_service. split; [exact H|done|..]; cbn; intros *; rewrite lookup_empty; done.
Qed.

(** ** Properties *)

(** The service of the HTTP server: short GET requests, one fixed answer. *)
Abbreviation http_steps l := (steps short_part short_request (λ _, hello_response) l).

(** C1: The program refines the service it offers, under these conditions: the callback is
    the program's own, and handlers run one at a time; each peer sends acceptable GET
    requests of at most 512 bytes, the next one only when it has read the whole answer to
    the last (a peer that does not wait can make a call fault, as [pipelined_echo_faults]
    shows of the echo callback); the system has memory and takes the requests that are
    posted ([Accepts], [Associates], [Listens]).  Then, from the start of the program on,
    when up to 10000 connections are made through any of the accepts that were posted, and
    the bytes of each request arrive, and those of the answers go out, in any pieces, with
    any interleaving of the connections, no call faults; the server sends to each peer
    exactly what the service says, which is the fixed response once for every request that
    has arrived, and it ends in the state the service is in: every connection holds, or
    is sending, what it should, in memory of its own. *)
Theorem program_refines_service `{!Arch} `{!VirtualMemOk VM} `{!VirtualMemGrants VM (2 ^ 31)}
    `{!Accepts OS} `{!Associates OS} `{!Listens OS} (fuel : nat) (hl0 st0 : Z) (s : Sys)
    (es : list event) (out : output) (σ : service) :
  main (HttpServer_new 5001 maxConnections) = Some (None, s) -> (2 <= fuel)%nat ->
  http_steps (m_acceptIoCtxList (s_srv s)) (nobody s) es out σ ->
  exists s', perform (notifyPackageReceived fuel hl0 st0) es s = Some (out, s') /\
    serving (Forall (.= NUL)) (m_acceptIoCtxList (s_srv s)) σ s' /\
    forall c, exists ms, Forall short_request ms /\ arrived c es = concat ms ++ in_at σ c /\
      concat (map (λ _, hello_response) ms) = read_by c out ++ out_at σ c.
Proof.
  intros Hmain Hfuel Hsteps. destruct fuel as [|[|fuel]]; [lia..|].
  destruct (steps_simulated (notifyPackageReceived (S (S fuel)) hl0 st0) (Forall (.= NUL)) short_part
    short_request (λ _, hello_response) (Forall_nil_2 _) _ _ _ _ _ Hsteps s (main_serving _ 5001 s Hmain))
    as (s' & Hrun & Hs'). exists s'. split_and!; [done..|]. intros c.
  destruct (steps_stream _ _ _ _ _ _ _ _ c Hsteps) as (ms & Hv & Hi & Ho). exists ms.
  unfold in_at, out_at in Hi, Ho. unfold nobody in Hi, Ho. cbn [sv_conns] in Hi, Ho.
  rewrite lookup_empty in Hi, Ho. done.
Qed.

(** Two visitors whose packets alternate: the request of the first comes in two pieces,
    the answer to the second leaves in two. *)
Definition demo_events (c : client) : list event :=
  [Visits 1; Visits 3; Arrives c (takeZ 7 demo_short); Arrives (c + 1) demo_short; Goes (c + 1) 10;
   Arrives c (dropZ 7 demo_short); Goes c 66; Goes (c + 1) 56].
Definition demo_output (c : client) : output :=
  [(c + 1, takeZ 10 hello_response); (c, hello_response); (c + 1, dropZ 10 hello_response)].

Lemma steps_next incomplete valid reply l σ e out1 σ1 es outs σ2 out :
  step incomplete valid reply l σ e out1 σ1 -> steps incomplete valid reply l σ1 es outs σ2 ->
  out1 ++ outs = out -> steps incomplete valid reply l σ (e :: es) out σ2.
Proof. intros H1 H2 <-. by eapply steps_cons. Qed.

Lemma demo_short_request : short_request demo_short.
Proof. exists (demo_url 5), []. split_and!; [done|apply demo_served; lia|by vm_compute]. Qed.

Lemma demo_short_part : short_part (takeZ 7 demo_short).
Proof.
  exists (demo_url 5), [], (dropZ 7 demo_short).
  split_and!; [by vm_compute|apply demo_served; lia|by vm_compute|by vm_compute].
Qed.

(** Goals of these shapes, for the names [c] and [c + 1]. *)
Ltac demo_lookup :=
  cbn [becomes sv_conns sv_next]; repeat (rewrite lookup_insert_ne by lia);
  first [apply lookup_insert_eq|apply lookup_empty].
Tactic Notation "demo_step" uconstr(r) := eapply steps_next; [eapply r; [demo_lookup|..]|..].

Lemma demo_steps l c : 1 ∈ l -> 3 ∈ l ->
  exists σ, http_steps l (mkService ∅ c) (demo_events c) (demo_output c) σ.
Proof.
  intros H1 H3. eexists. set (p := takeZ 7 demo_short).
  assert (short_request (p ++ dropZ 7 demo_short)) as Hwhole.
  { unfold p. rewrite takeZ_dropZ. exact demo_short_request. }
  eapply steps_next; [by apply step_visit|eapply steps_next; [apply step_visit; [done| |demo_lookup]|..]|].
  { cbn [sv_conns sv_next]. rewrite map_size_insert_None by apply lookup_empty. by rewrite map_size_empty. }
  demo_step (step_part _ _ _ _ _ c []);
    [by vm_compute|exact demo_short_part| |].
  demo_step (step_message _ _ _ _ _ (c + 1) []);
    [by vm_compute|exact demo_short_request| |].
  demo_step (step_piece _ _ _ _ _ (c + 1)); [by vm_compute| |].
  demo_step (step_message _ _ _ _ _ c); [by vm_compute|exact Hwhole| |].
  eapply steps_next; [apply (step_last _ _ _ _ _ c hello_response); demo_lookup| |].
  eapply steps_next; [apply (step_last _ _ _ _ _ (c + 1) (dropZ 10 hello_response)); demo_lookup|apply steps_nil|].
  all: reflexivity.
Qed.

Lemma program_refines_service_witness :
  exists s s' σ, main (OS := demo_os) (HttpServer_new 5001 maxConnections) = Some (None, s) /\
    perform (VM := bump_mem) (OS := demo_os)
        (notifyPackageReceived (A := X64) (VM := bump_mem) (OS := demo_os) 2 0 0)
        (demo_events (s_next s)) s = Some (demo_output (s_next s), s') /\
    serving (Forall (.= NUL)) (m_acceptIoCtxList (s_srv s)) σ s' /\
    forall c, exists ms, Forall short_request ms /\
      arrived c (demo_events (s_next s)) = concat ms ++ in_at σ c /\
      concat (map (λ _, hello_response) ms) = read_by c (demo_output (s_next s)) ++ out_at σ c.
Proof.
  destruct (holds_after_inv _ _ demo_main) as (r & s & Hmain & H).
  destruct r as [r|]; [exfalso; exact (Bool.diff_false_true H)|].
  apply andb_true_iff in H as [H1%bool_decide_eq_true H3%bool_decide_eq_true].
  destruct (demo_steps _ (s_next s) H1 H3) as [σ Hsteps].
  destruct (program_refines_service (H := X64) (VM := bump_mem) (OS := demo_os) 2 0 0 s _ _ σ Hmain
    (le_n _) Hsteps) as (s' & Hrun).
  exists s, s', σ. split; [exact Hmain|exact Hrun].
Defined.
