(* ===== verification/Timer.v ===== *)
(** * The heartbeat timer (WinHttpServer/Timer.h, Timer.cpp)

    Once a second a thread looks at the connected clients, oldest first, and
    posts a packet that makes a worker close the connection for every client
    whose time of the last heartbeat is more than ten seconds ago; it stops at
    the first client that is younger. *)
From Stdlib Require Import Sorting.Sorted.
From S2P Require Import Prelude Heap CLib Slice Buffer Os ClientContext IocpServer.
From S2P Require Import ServerInv ServerSafe ServerRuns Serving HttpServer Connections.

Section timer.
Context {OS : WinOS}.
Implicit Types (s : Sys) (c : client).

Definition HEARTBEAT_TIMEOUT : Z := 10 * 1000.

(** [curTime - m_nLastHeartbeatTime > timeout], on [DWORD]s. *)
Definition expired (curTime : Z) (x : ClientContext) : bool :=
  HEARTBEAT_TIMEOUT <? u32 (curTime - m_nLastHeartbeatTime x).

Definition close_op c : op := mkOp (KeyClient c) OvNull.

(** [PostQueuedCompletionStatus(port, 0, client, NULL)]; whether it succeeded. *)
Definition postClose c : action bool :=
  r ← sys_call (PostQueued (KeyClient c));
  if r =? 0 then st_modify (λ s, sys_ops (s_ops s ++ [close_op c]) s);; mret true
  else mret false.

(** The [for] loop over the connected clients. *)
Fixpoint heartbeat_scan (curTime : Z) (l : list client) : action unit :=
  match l with
  | [] => mret tt
  | c :: l =>
      x ← get_ctx c;
      if expired curTime x then
        ok ← postClose c;
        if negb ok then mret tt else heartbeat_scan curTime l
      else mret tt
  end.

Definition heartbeat_tick : action unit :=
  t ← sys_call GetTickCount;
  srv ← get_srv;
  heartbeat_scan (u32 t) (m_connectedClientList srv).

(** The [while] loop, [n] ticks of it: what the function returns, if it does. *)
Fixpoint heartbeat_loop (n : nat) (hTimer : Z) : action (option Z) :=
  match n with
  | O => mret None
  | S n =>
      w ← sys_call (WaitTimer hTimer);
      if negb (w =? 0) then mret (Some 1)
      else
        heartbeat_tick;;
        r ← sys_call (SetTimer hTimer);
        if negb (r =? 0) then mret (Some 2) else heartbeat_loop n hTimer
  end.

Definition checkHeartbeatWorker (n : nat) : action (option Z) :=
  hTimer ← sys_call CreateTimer;
  if hTimer =? 0 then mret (Some 1)
  else
    r ← sys_call (SetTimer hTimer);
    if negb (r =? 0) then mret (Some 2) else heartbeat_loop n hTimer.
End timer.

(** ** What a tick posts *)

(** The system takes the packets that are posted. *)
Class Posts (OS : WinOS) : Prop := {
  posts_ok : forall h k, os_answer h (PostQueued k) = 0;
}.

Section ticks.
Context {OS : WinOS} {Pst : Posts OS}.
Implicit Types (s : Sys) (c : client).

(** The clients in front of the first one that has not expired. *)
Fixpoint oldest (s : Sys) (curTime : Z) (l : list client) : list client :=
  match l with
  | [] => []
  | c :: l =>
      match s_ctxs s !! c with
      | Some x => if expired curTime x then c :: oldest s curTime l else []
      | None => []
      end
  end.

(** The same state with more calls and more packets. *)
Definition posted_state s (tr : history) (ops : list op) : Sys :=
  mkSys (s_srv s) (s_ctxs s) (s_accs s) (s_heap s) (tr ++ s_trace s) (s_ops s ++ ops)
    (s_next s) (s_exit s).

Lemma posted_state_app s tr1 ops1 tr2 ops2 :
  posted_state (posted_state s tr1 ops1) tr2 ops2 = posted_state s (tr2 ++ tr1) (ops1 ++ ops2).
Proof. unfold posted_state. cbn. by rewrite <- !app_assoc. Qed.

Lemma oldest_ext s s' t l : s_ctxs s' = s_ctxs s -> oldest s' t l = oldest s t l.
Proof. intros E. induction l as [|c l IH]; [done|]. cbn. by rewrite E, IH. Qed.

Lemma heartbeat_scan_spec t l : forall s,
  (forall c, c ∈ l -> is_Some (s_ctxs s !! c)) ->
  exists tr, heartbeat_scan t l s = Some (tt, posted_state s tr (map close_op (oldest s t l))).
Proof.
  induction l as [|c l IH]; intros s Hp; cbn [heartbeat_scan oldest].
  { exists []. unfold posted_state. rewrite app_nil_r. by destruct s. }
  destruct (Hp c) as [x Hx]; [left|]. st_step (get_ctx_eq c x s Hx). rewrite Hx.
  destruct (expired t x).
  2: { exists []. unfold posted_state. rewrite app_nil_r. by destruct s. }
  set (k := PostQueued (KeyClient c)). set (s1 := posted_state s [(k, 0)] [close_op c]).
  assert (postClose c s = Some (true, s1)) as Hpost.
  { unfold postClose, sys_call, mbind, ST_bind. cbn. by rewrite !posts_ok. }
  st_step Hpost. cbn [negb]. destruct (IH s1) as [tr ->]; [intros c' Hc; apply Hp; by right|].
  unfold s1. rewrite posted_state_app, (oldest_ext s) by done. cbn. by eexists.
Qed.
End ticks.

#[export] Instance demo_posts : Posts demo_os.
Proof. by split. Qed.

(** The first client is not younger than the second. *)
Definition older (s : Sys) (curTime : Z) (c1 c2 : client) : Prop :=
  forall x1 x2, s_ctxs s !! c1 = Some x1 -> s_ctxs s !! c2 = Some x2 ->
    expired curTime x2 = true -> expired curTime x1 = true.

Lemma oldest_all s t l :
  StronglySorted (older s t) l -> (forall c, c ∈ l -> is_Some (s_ctxs s !! c)) ->
  forall c x, c ∈ l -> s_ctxs s !! c = Some x -> expired t x = true -> c ∈ oldest s t l.
Proof.
  induction 1 as [|c0 l Hs IH Hall]; intros Hp c x Hc Hx He; [by apply elem_of_nil in Hc|].
  cbn. destruct (Hp c0) as [x0 Hx0]; [left|]. rewrite Hx0.
  apply elem_of_cons in Hc as [->|Hc].
  - rewrite Hx in Hx0. injection Hx0 as <-. rewrite He. left.
  - assert (expired t x0 = true) as ->.
    { by apply (proj1 (Forall_forall _ _) Hall c Hc x0 x). }
    right. apply (IH ltac:(intros c' Hc'; apply Hp; by right) c x Hc Hx He).
Qed.

Lemma oldest_expired s t l c :
  c ∈ oldest s t l -> c ∈ l /\ exists x, s_ctxs s !! c = Some x /\ expired t x = true.
Proof.
  induction l as [|c0 l IH]; cbn; [by intros ?%elem_of_nil|].
  destruct (s_ctxs s !! c0) as [x|] eqn:Hx; [|by intros ?%elem_of_nil].
  destruct (expired t x) eqn:He; [|by intros ?%elem_of_nil].
  intros [->|Hc]%elem_of_cons; [split; [left|eauto]|]. destruct (IH Hc). split; [by right|done].
Qed.

(** The packet of the timer. *)
Definition close_packet (c : client) : completion * bytes := (mkCompletion 1 (close_op c) 0, []).

Lemma close_turn `{VirtualMem} `{OS : WinOS} notify s0 c h x tr ops ops' :
  remove_op (close_op c) ops = Some ops' ->
  run_packets notify [close_packet c] (conf s0 c h x tr ops) =
    (handleClose c;; mret tt) (conf s0 c h x tr ops').
Proof.
  intros Hops. cbn [run_packets close_packet].
  rewrite (st_bind_Some (st_gets s_ops) _ _ ops (conf s0 c h x tr ops)) by done.
  rewrite (st_bind_Some _ _ _ ops' (conf s0 c h x tr ops)).
  2: { unfold deref, st_reads. cbn [cp_op]. by rewrite Hops. }
  rewrite (st_bind_Some _ _ _ tt (conf s0 c h x tr ops)) by done.
  rewrite (st_bind_Some _ _ _ tt (conf s0 c h x tr ops')) by done.
  unfold worker_turn. cbn [cp_op cp_ret cp_bytes close_op op_key op_ov].
  unfold get_srv, st_gets. unfold mbind at 1, ST_bind at 1. unfold mbind at 1, ST_bind at 1.
  rewrite (bool_decide_false (KeyClient c = KeyExit)),
    (bool_decide_false (KeyClient c = KeyServer)), andb_false_r by done. cbn [negb andb Z.eqb].
  unfold as_client, mbind, ST_bind, mret, ST_ret. by destruct (handleClose c _) as [[? ?]|].
Qed.

(** ** Properties *)

(** A tick of the heartbeat timer closes those who have been silent for ten
    seconds.  It posts one close packet for each client in front of the first
    one whose last heartbeat is at most ten seconds ago, and nothing else; only
    expired clients get one, and when the list is ordered by age every expired
    client does.  The server, the contexts and the memory are left alone. *)
Theorem heartbeat_tick_posts `{OS : WinOS} `{!Posts OS} (s : Sys) (t : Z) :
  t = u32 (os_answer (s_trace s) GetTickCount) ->
  (forall c, c ∈ m_connectedClientList (s_srv s) -> is_Some (s_ctxs s !! c)) ->
  exists s' l, heartbeat_tick s = Some (tt, s') /\ s_ops s' = s_ops s ++ map close_op l /\
    s_srv s' = s_srv s /\ s_ctxs s' = s_ctxs s /\ s_heap s' = s_heap s /\
    (forall c, c ∈ l -> c ∈ m_connectedClientList (s_srv s) /\
       exists x, s_ctxs s !! c = Some x /\ expired t x = true) /\
    (StronglySorted (older s t) (m_connectedClientList (s_srv s)) ->
     forall c x, c ∈ m_connectedClientList (s_srv s) -> s_ctxs s !! c = Some x ->
       expired t x = true -> c ∈ l).
Proof.
  intros -> Hp. set (r := os_answer (s_trace s) GetTickCount).
  set (s1 := sys_trace ((GetTickCount, r) :: s_trace s) s).
  destruct (heartbeat_scan_spec (u32 r) (m_connectedClientList (s_srv s)) s1 Hp) as [tr Hrun].
  rewrite (oldest_ext s s1) in Hrun by done. set (l := oldest s (u32 r) _) in *.
  exists (posted_state s1 tr (map close_op l)), l. split; [|split; [|split_and!]]; [|done..| |].
  - unfold heartbeat_tick. rewrite (st_bind_Some (sys_call _) _ s r s1) by done.
    by rewrite (st_bind_Some get_srv _ s1 (s_srv s) s1).
  - intros c. apply oldest_expired.
  - intros Hs. by apply oldest_all.
Qed.

(** The demonstration server with one idle connection whose heartbeat is older
    than the system's clock says by more than ten seconds: the clock has
    wrapped. *)
Definition demo_idle (hb : Z) : option (bool * Sys) :=
  match demo_accepted 2 with
  | Some (b, s) => Some (b, sys_ctxs (alter (set_heartbeat hb) 11 (s_ctxs s)) s)
  | None => None
  end.

Lemma demo_expired :
  holds_after (λ _ s, fresh 11 s && bool_decide (m_connectedClientList (s_srv s) = [11]) &&
      match s_ctxs s !! 11 with Some x => expired 1000 x | None => false end)
    (demo_idle 4294950000) = true.
Proof. vm_compute. reflexivity. Qed.

Lemma heartbeat_tick_posts_witness :
  exists s s' l, heartbeat_tick (OS := demo_os) s = Some (tt, s') /\
    s_ops s' = s_ops s ++ map close_op l /\
    s_srv s' = s_srv s /\ s_ctxs s' = s_ctxs s /\ s_heap s' = s_heap s /\
    (forall c, c ∈ l -> c ∈ m_connectedClientList (s_srv s) /\
       exists x, s_ctxs s !! c = Some x /\ expired 1000 x = true) /\
    (StronglySorted (older s 1000) (m_connectedClientList (s_srv s)) ->
     forall c x, c ∈ m_connectedClientList (s_srv s) -> s_ctxs s !! c = Some x ->
       expired 1000 x = true -> c ∈ l).
Proof.
  destruct (holds_after_inv _ _ demo_expired) as
    (b & s & _ & [[_ Hl%bool_decide_eq_true]%andb_true_iff Hx]%andb_true_iff).
  exists s. apply (heartbeat_tick_posts (OS := demo_os) s 1000); [reflexivity|].
  rewrite Hl. intros c ->%list_elem_of_singleton.
  destruct (s_ctxs s !! 11) as [x|]; [by exists x|done].
Defined.

(** The timer frees a context that is in use.  The packet it posts is not
    counted in [m_nPendingIoCnt], but handling it gives up a reference: when the
    longest silent client is an idle connection, after the tick and the handling
    of the packet its context is in the free list with count 0 while its receive
    is in flight. *)
Theorem heartbeat_frees_in_flight `{VM : VirtualMem} `{OS : WinOS} `{!Posts OS}
    (notify : client -> action unit) (c : client) (sk : Z) (s : Sys) (rest : list client)
    (x : ClientContext) :
  at_rest c sk s -> m_connectedClientList (s_srv s) = c :: rest ->
  (forall c', c' ∈ rest -> is_Some (s_ctxs s !! c')) ->
  s_ctxs s !! c = Some x -> expired (u32 (os_answer (s_trace s) GetTickCount)) x = true ->
  exists s1 s2 x2, heartbeat_tick s = Some (tt, s1) /\
    run_packets notify [close_packet c] s1 = Some (tt, s2) /\
    s_ctxs s2 !! c = Some x2 /\ m_nPendingIoCnt x2 = 0 /\
    c ∈ m_freeClientList (s_srv s2) /\ req_op c KRecv ∈ s_ops s2.
Proof.
  intros (h & y & tr & ops & si & so & Es & _ & _ & _ & Hcnt & Hr & _) Hl Hrest Hx He.
  assert (x = y) as <-. { rewrite Es in Hx. cbn in Hx. rewrite lookup_insert_eq in Hx. congruence. }
  set (r := os_answer (s_trace s) GetTickCount) in *.
  set (s1 := sys_trace ((GetTickCount, r) :: s_trace s) s).
  destruct (heartbeat_scan_spec (u32 r) (c :: rest) s1) as [tr1 Hrun].
  { intros c' [->|Hc']%elem_of_cons; [by exists x|by apply Hrest]. }
  set (l := map close_op _) in Hrun. assert (exists l', l = close_op c :: l') as [l' Hl'].
  { unfold l. cbn. rewrite Hx, He. by eexists. }
  clearbody l. subst l.
  set (s2 := posted_state s1 tr1 _) in Hrun.
  assert (s_ctxs s2 !! c = Some x) as Hx2 by done.
  pose proof (conf_self s2 c x Hx2) as Es2.
  destruct (remove_op_elem (close_op c) (s_ops s2)) as (ops' & Hops & Hiff).
  { cbn. apply elem_of_app. right. left. }
  destruct (CloseClient_conf c s2 (s_heap s2) x (s_trace s2) ops') as (v & tr2 & Hclose & [Hv1 Hv2]).
  destruct (release_last_conf c (sys_srv v s2) (s_heap s2) (set_socket INVALID_SOCKET x) tr2 ops' Hcnt)
    as (v2 & Hrel & _ & Hfree).
  { cbn. rewrite Hv1. cbn. rewrite Hl. left. }
  set (s3 := conf (sys_srv v2 _) _ _ _ _ _) in Hrel.
  exists s2, s3, (set_pending 0 (set_socket INVALID_SOCKET x)). split_and!; [| |apply lookup_insert_eq|done| |].
  - unfold heartbeat_tick. rewrite (st_bind_Some (sys_call _) _ s r s1) by done.
    rewrite (st_bind_Some get_srv _ s1 (s_srv s) s1) by done. by rewrite Hl.
  - rewrite Es2 at 1. rewrite (close_turn _ _ _ _ _ _ _ _ Hops). unfold handleClose.
    unfold mbind, ST_bind. rewrite Hclose, Hrel. reflexivity.
  - cbn. rewrite Hfree. apply elem_of_app. right. left.
  - cbn. apply Hiff; [done|]. cbn. apply elem_of_app. left. rewrite Es. done.
Qed.

Lemma heartbeat_frees_in_flight_witness :
  exists s s1 s2 x2, fresh 11 s = true /\ heartbeat_tick (OS := demo_os) s = Some (tt, s1) /\
    run_packets (VM := bump_mem) (OS := demo_os) demo_notify [close_packet 11] s1 = Some (tt, s2) /\
    s_ctxs s2 !! 11 = Some x2 /\ m_nPendingIoCnt x2 = 0 /\
    11 ∈ m_freeClientList (s_srv s2) /\ req_op 11 KRecv ∈ s_ops s2.
Proof.
  destruct (holds_after_inv _ _ demo_expired) as
    (b & s & _ & [[Hs Hl%bool_decide_eq_true]%andb_true_iff Hx]%andb_true_iff).
  destruct (fresh_idle 11 (λ _, True) s Hs I) as [sk Hidle].
  destruct (s_ctxs s !! 11) as [x|] eqn:Ex; [|done].
  destruct (heartbeat_frees_in_flight (VM := bump_mem) (OS := demo_os) demo_notify 11 sk s [] x
    Hidle Hl) as (s1 & s2 & x2 & H); [by intros c ?%elem_of_nil|done|exact Hx|].
  exists s, s1, s2, x2. by split.
Defined.
