(* ===== verification/Mempool.v ===== *)
(** * The object pool (WinHttpServer/Mempool.h)

    Objects are named by their addresses; [new T()] returns the next one.  The
    pool hands out the object at the front of a queue and takes objects back at
    the end; when the queue is empty it makes [m_nAllocSize] new ones. *)
From S2P Require Import Prelude.

Abbreviation obj := Z.

Record Mempool := mkPool {
  m_nAllocSize : Z;
  m_mempool : list obj;
}.

(** The pool, the next address and the objects that have been deleted. *)
Record PoolState := mkPoolState {
  ps_pool : Mempool;
  ps_next : obj;
  ps_deleted : list obj;
}.

Abbreviation pool_action := (ST PoolState).

Definition set_queue (q : list obj) (s : PoolState) : PoolState :=
  mkPoolState (mkPool (m_nAllocSize (ps_pool s)) q) (ps_next s) (ps_deleted s).

Definition new_obj : pool_action obj := λ s,
  Some (ps_next s, mkPoolState (ps_pool s) (ps_next s + 1) (ps_deleted s)).

Definition push (o : obj) : pool_action unit :=
  st_modify (λ s, set_queue (m_mempool (ps_pool s) ++ [o]) s).

(** The loop of [alloc], [n] objects to go. *)
Fixpoint alloc_loop (n : nat) : pool_action unit :=
  match n with
  | O => mret tt
  | S n => o ← new_obj; push o;; alloc_loop n
  end.

Definition alloc : pool_action unit :=
  p ← st_gets ps_pool; alloc_loop (Z.to_nat (m_nAllocSize p)).

(** [front] of an empty [std::queue] is undefined: a fault. *)
Definition pop : pool_action obj :=
  p ← st_gets ps_pool;
  (match m_mempool p with [] => alloc | _ :: _ => mret tt end);;
  p ← st_gets ps_pool;
  match m_mempool p with
  | [] => st_fault
  | o :: q => st_modify (set_queue q);; mret o
  end.

(** The loop of [free]: everything in the queue is deleted. *)
Definition free : pool_action unit :=
  st_modify (λ s, mkPoolState (mkPool (m_nAllocSize (ps_pool s)) []) (ps_next s)
                    (ps_deleted s ++ m_mempool (ps_pool s))).

(** The constructor, over memory whose next address is [next]. *)
Definition Mempool_new (next : obj) : option (unit * PoolState) :=
  alloc (mkPoolState (mkPool 50 []) next []).
Definition Mempool_delete : pool_action unit := free.

(** ** A client of the pool *)

(** It takes an object, or gives back the [i]th of those it holds. *)
Inductive pool_op := OpPop | OpPush (i : nat).

Fixpoint run_pool (os : list pool_op) (held : list obj) : pool_action (list obj) :=
  match os with
  | [] => mret held
  | OpPop :: os => o ← pop; run_pool os (held ++ [o])
  | OpPush i :: os =>
      match held !! i with
      | Some o => push o;; run_pool os (delete i held)
      | None => run_pool os held
      end
  end.

(** ** Nothing is lost and nothing is handed out twice *)

(** The objects made since address [first]. *)
Definition made (first : obj) (s : PoolState) : list obj := seqZ first (ps_next s - first).

Record pool_inv (first : obj) (held : list obj) (s : PoolState) : Prop := {
  pool_size : m_nAllocSize (ps_pool s) = 50;
  pool_first : first <= ps_next s;
  pool_all : m_mempool (ps_pool s) ++ held ≡ₚ made first s;
  pool_deleted : ps_deleted s = [];
}.

Lemma alloc_loop_spec n : forall first held s,
  pool_inv first held s ->
  exists s', alloc_loop n s = Some (tt, s') /\ pool_inv first held s' /\
    length (m_mempool (ps_pool s')) = (n + length (m_mempool (ps_pool s)))%nat.
Proof.
  induction n as [|n IH]; intros first held s Hi; cbn [alloc_loop]; [by exists s|].
  destruct Hi as [H1 H2 H3 H4]. destruct s as [[k q] nx del]. cbn in *.
  destruct (IH first held (mkPoolState (mkPool k (q ++ [nx])) (nx + 1) del)) as (s' & Hrun & Hi' & Hlen).
  - split; cbn; [done|lia| |done]. unfold made in *. cbn in *.
    replace (nx + 1 - first) with (nx - first + 1) by lia.
    rewrite seqZ_app by lia. rewrite <- H3. replace (first + (nx - first)) with nx by lia.
    change (seqZ nx 1) with [nx]. rewrite <- app_assoc, (Permutation_app_comm [nx] held).
    by rewrite app_assoc.
  - exists s'. split_and!; [exact Hrun|done|]. rewrite Hlen. cbn. rewrite length_app. cbn. lia.
Qed.

Lemma pop_spec first held s :
  pool_inv first held s ->
  exists o s', pop s = Some (o, s') /\ pool_inv first (held ++ [o]) s'.
Proof.
  intros Hi. unfold pop.
  rewrite (st_bind_Some (st_gets ps_pool) _ s (ps_pool s) s) by done.
  assert (exists s1, (match m_mempool (ps_pool s) with [] => alloc | _ :: _ => mret tt end) s =
      Some (tt, s1) /\ pool_inv first held s1 /\ m_mempool (ps_pool s1) <> []) as (s1 & Hrun & Hi1 & Hne).
  { destruct (m_mempool (ps_pool s)) as [|o q] eqn:Eq; [|by exists s; rewrite Eq].
    unfold alloc. rewrite (st_bind_Some (st_gets ps_pool) _ s (ps_pool s) s) by done.
    rewrite (pool_size _ _ _ Hi). destruct (alloc_loop_spec (Z.to_nat 50) first held s Hi) as
      (s1 & -> & Hi1 & Hlen).
    exists s1. split_and!; [done..|]. intros E. rewrite E, Eq in Hlen. done. }
  st_step Hrun. rewrite (st_bind_Some (st_gets ps_pool) _ s1 (ps_pool s1) s1) by done.
  destruct Hi1 as [H1 H2 H3 H4]. destruct (m_mempool (ps_pool s1)) as [|o q]; [done|].
  exists o, (set_queue q s1). split; [done|]. split; cbn; [done|done| |done].
  rewrite app_assoc, <- (Permutation_cons_append (q ++ held)). exact H3.
Qed.

Lemma push_spec first held i o s :
  pool_inv first held s -> held !! i = Some o ->
  exists s', push o s = Some (tt, s') /\ pool_inv first (delete i held) s'.
Proof.
  intros [H1 H2 H3 H4] Ho. eexists. split; [reflexivity|]. split; cbn; [done|done| |done].
  unfold made in *. cbn. rewrite <- H3, <- app_assoc. cbn. apply Permutation_app_head.
  symmetry. by apply delete_Permutation.
Qed.

Lemma run_pool_spec os : forall first held s,
  pool_inv first held s ->
  exists held' s', run_pool os held s = Some (held', s') /\ pool_inv first held' s'.
Proof.
  induction os as [|[|i] os IH]; intros first held s Hi; cbn [run_pool]; [by exists held, s| |].
  - destruct (pop_spec first held s Hi) as (o & s1 & Hpop & Hi1). st_step Hpop. by apply IH.
  - destruct (held !! i) as [o|] eqn:Ho; [|by apply IH].
    destruct (push_spec first held i o s Hi Ho) as (s1 & Hpush & Hi1). st_step Hpush. by apply IH.
Qed.

Lemma Mempool_new_spec next :
  exists s, Mempool_new next = Some (tt, s) /\ pool_inv next [] s.
Proof.
  set (s0 := mkPoolState (mkPool 50 []) next []).
  destruct (alloc_loop_spec (Z.to_nat 50) next [] s0) as (s & H & Hi & _).
  - split; cbn; [done|lia| |done]. unfold made. cbn. by rewrite Z.sub_diag.
  - exists s. split; [|done]. unfold Mempool_new, alloc. fold s0.
    by rewrite (st_bind_Some (st_gets ps_pool) _ s0 (ps_pool s0) s0).
Qed.

(** ** Properties *)

(** C40: The pool neither loses an object nor hands one out twice.  Whatever
    objects a client, on one thread, takes and gives back of those it holds, in any
    order, no call faults; at every
    point the objects in the queue and those the client holds are exactly the
    objects made so far, each once; and destroying the pool deletes exactly those
    that have been given back. *)
Theorem Mempool_conserves (next : obj) (os : list pool_op) :
  exists s0 held s, Mempool_new next = Some (tt, s0) /\ run_pool os [] s0 = Some (held, s) /\
    NoDup (m_mempool (ps_pool s) ++ held) /\
    m_mempool (ps_pool s) ++ held ≡ₚ seqZ next (ps_next s - next) /\
    exists s', Mempool_delete s = Some (tt, s') /\ ps_deleted s' = m_mempool (ps_pool s) /\
      (forall o, o ∈ held -> o ∉ ps_deleted s').
Proof.
  destruct (Mempool_new_spec next) as (s0 & Hnew & Hi0).
  destruct (run_pool_spec os next [] s0 Hi0) as (held & s & Hrun & [_ _ Hall Hdel]).
  assert (NoDup (m_mempool (ps_pool s) ++ held)) as Hnd by (rewrite Hall; apply NoDup_seqZ).
  exists s0, held, s. split_and!; [done..|]. eexists. split; [reflexivity|]. cbn. rewrite Hdel.
  split; [done|]. intros o Ho Hd. apply NoDup_app in Hnd as (_ & Hdis & _). by apply (Hdis o Hd).
Qed.
