(* ===== verification/CStr.v ===== *)
(** * C strings inside an array

    The samples under [src/Linux] keep their data in a [char] array and call the
    functions of [string.h] on positions of it.  Here an array is its bytes, a
    position is an index, and a function that runs off the array, because no NUL
    stops it, has no result. *)
From S2P Require Import Prelude CLib.

Implicit Types (b l s : bytes) (p : Z).

(** ** Cells *)

Definition get b p : option byte := if 0 <=? p then b !! Z.to_nat p else None.

Definition put b p (c : byte) : option bytes :=
  if (0 <=? p) && (p <? lenZ b) then Some (takeZ p b ++ c :: dropZ (p + 1) b) else None.

(** Several cells at once. *)
Definition fill b p s : option bytes :=
  if (0 <=? p) && (p + lenZ s <=? lenZ b)
  then Some (takeZ p b ++ s ++ dropZ (p + lenZ s) b) else None.

Lemma get_app a c l p : p = lenZ a -> get (a ++ c :: l) p = Some c.
Proof.
  intros ->. unfold get, lenZ. arith_tests. rewrite Nat2Z.id.
  by rewrite list_lookup_middle.
Qed.

Lemma put_app a c d l p : p = lenZ a -> put (a ++ c :: l) p d = Some (a ++ d :: l).
Proof.
  intros ->. unfold put. arith_tests. rewrite takeZ_app by done.
  change (c :: l) with ([c] ++ l). rewrite app_assoc, dropZ_app; [done|len_lia].
Qed.

Lemma fill_app a m l s p :
  p = lenZ a -> lenZ s = lenZ m -> fill (a ++ m ++ l) p s = Some (a ++ s ++ l).
Proof.
  intros -> Hs. unfold fill. arith_tests. rewrite takeZ_app by done.
  rewrite (app_assoc a m l), dropZ_app; [done|len_lia].
Qed.

(** ** Scanning *)

(** The first position from [p] on whose byte satisfies [f]. *)
Definition scan (f : byte -> bool) b p : option Z :=
  if (0 <=? p) && (p <=? lenZ b) then
    let '(s, r) := span (λ c, negb (f c)) (dropZ p b) in
    match r with [] => None | _ :: _ => Some (p + lenZ s) end
  else None.

Lemma scan_app f a s c l p :
  p = lenZ a -> Forall (λ c, f c = false) s -> f c = true ->
  scan f (a ++ s ++ c :: l) p = Some (p + lenZ s).
Proof.
  intros -> Hs Hc. unfold scan. arith_tests. rewrite dropZ_app by done.
  rewrite span_exact; [done| |by rewrite Hc].
  eapply Forall_impl; [exact Hs|]. intros x Hx. cbn in Hx. by rewrite Hx.
Qed.

Definition is_nul (c : byte) : bool := bool_decide (c = NUL).
Definition one_of (set : bytes) (c : byte) : bool := bool_decide (c ∈ set).

(** ** string.h *)

(** The C string at [p]. *)
Definition cstring b p : option bytes :=
  e ← scan is_nul b p; Some (takeZ (e - p) (dropZ p b)).

(** [Some None] is the null pointer. *)
Definition strpbrk_at b p (accept : bytes) : option (option Z) :=
  e ← scan (λ c, is_nul c || one_of accept c) b p;
  c ← get b e;
  Some (if is_nul c then None else Some e).

Definition strchr_at b p (c : byte) : option (option Z) := strpbrk_at b p [c].

(** [strspn], for a set without the NUL. *)
Definition strspn_at b p (accept : bytes) : option Z :=
  e ← scan (λ c, negb (one_of accept c)) b p; Some (e - p).

(** [strcasecmp] and [strncasecmp] with a literal [k] on the right, the latter
    for its whole length: they read as far as the two agree. *)
Fixpoint strcasecmp_at b p (k : bytes) : option Z :=
  c ← get b p;
  match k with
  | [] => Some (if is_nul c then 0 else 1)
  | d :: k =>
      let u := byte_val (tolower c) in let v := byte_val (tolower d) in
      if u =? v then strcasecmp_at b (p + 1) k else Some (if u <? v then -1 else 1)
  end.

Fixpoint strncasecmp_at b p (k : bytes) : option Z :=
  match k with
  | [] => Some 0
  | d :: k =>
      c ← get b p;
      let u := byte_val (tolower c) in let v := byte_val (tolower d) in
      if u =? v then strncasecmp_at b (p + 1) k else Some (if u <? v then -1 else 1)
  end.

(** ** What they compute on a string that is terminated *)

Lemma tolower_nul c : byte_val (tolower c) = 0 -> c = NUL.
Proof. intros H. apply byte_val_inj. destruct c; vm_compute in H |- *; done. Qed.

Section terminated.
Context (b a s l : bytes) (p : Z).
Context (Hb : b = a ++ s ++ NUL :: l) (Hp : p = lenZ a) (Hs : NUL ∉ s).

Lemma not_nul : Forall (λ c, is_nul c = false) s.
Proof.
  apply Forall_forall. intros x Hx. apply bool_decide_eq_false. by intros ->.
Qed.

Lemma cstring_eq : cstring b p = Some s.
Proof.
  unfold cstring. rewrite Hb, scan_app; [|done|apply not_nul|done]. cbn [mbind option_bind].
  rewrite Hp, dropZ_app by done. f_equal. apply takeZ_app. lia.
Qed.

Lemma strpbrk_none accept :
  Forall (λ c, one_of accept c = false) s -> strpbrk_at b p accept = Some None.
Proof.
  intros Hn. unfold strpbrk_at. rewrite Hb, scan_app; [|done| |done].
  - cbn [mbind option_bind]. rewrite app_assoc, get_app; [done|len_lia].
  - pose proof not_nul as H0. rewrite Forall_forall in *. intros x Hx.
    rewrite H0, Hn by done. done.
Qed.

Lemma strspn_eq accept :
  NUL ∉ accept ->
  strspn_at b p accept = Some (lenZ (take_while (one_of accept) s)).
Proof.
  intros H0. unfold strspn_at.
  pose proof (span_app (one_of accept) s) as E.
  pose proof (take_while_all (one_of accept) s) as F.
  pose proof (drop_while_head (one_of accept) s) as D.
  set (x := take_while _ s) in *. destruct (drop_while (one_of accept) s) as [|c r].
  - rewrite app_nil_r in E. rewrite Hb, <- E, scan_app; [|done| |].
    + cbn [mbind option_bind]. f_equal. lia.
    + eapply Forall_impl; [exact F|]. intros y Hy. cbn in Hy. by rewrite Hy.
    + unfold one_of. by rewrite bool_decide_false.
  - rewrite Hb, <- E, <- app_assoc. cbn [app]. rewrite scan_app; [|done| |].
    + cbn [mbind option_bind]. f_equal. lia.
    + eapply Forall_impl; [exact F|]. intros y Hy. cbn in Hy. by rewrite Hy.
    + by rewrite (D c r eq_refl).
Qed.
End terminated.

(** A byte of [accept] is found. *)
Lemma strpbrk_some a s c l accept p :
  p = lenZ a -> NUL ∉ s -> Forall (λ c, one_of accept c = false) s ->
  c <> NUL -> one_of accept c = true ->
  strpbrk_at (a ++ s ++ c :: l) p accept = Some (Some (p + lenZ s)).
Proof.
  intros Hp H0 Hs Hc Hin. unfold strpbrk_at. rewrite scan_app; [|done| |].
  - cbn [mbind option_bind]. rewrite app_assoc, get_app; [|len_lia].
    cbn [mbind option_bind]. unfold is_nul. by rewrite bool_decide_false.
  - pose proof (not_nul s H0) as Hn. rewrite Forall_forall in *. intros x Hx.
    rewrite Hn, Hs by done. done.
  - by rewrite Hin, orb_true_r.
Qed.

Lemma strcasecmp_at_eq a s l k p :
  p = lenZ a -> NUL ∉ s -> NUL ∉ k ->
  strcasecmp_at (a ++ s ++ NUL :: l) p k = Some (strcasecmp s k).
Proof.
  revert a s p. induction k as [|d k IH]; intros a [|c s] p Hp H0 Hk; cbn [strcasecmp_at app];
    rewrite get_app by done; cbn [mbind option_bind]; [done| | |].
  - unfold is_nul. rewrite bool_decide_false; [done|]. intros ->. apply H0. left.
  - destruct (Z.eqb_spec (byte_val (tolower NUL)) (byte_val (tolower d))) as [E|E].
    + change (byte_val (tolower NUL)) with 0 in E. symmetry in E. apply tolower_nul in E as ->.
      exfalso. apply Hk. left.
    + rewrite (proj2 (Z.ltb_lt _ _)); [done|].
      change (byte_val (tolower NUL)) with 0 in *. pose proof (byte_val_range (tolower d)). lia.
  - cbn [strcasecmp]. destruct (_ =? _); [|done].
    rewrite (cons_middle c), app_assoc. apply IH; [len_lia| |]; set_solver.
Qed.

Lemma strcasecmp_prefix c s d k :
  strcasecmp (c :: s) (d :: k) =
    (let u := byte_val (tolower c) in let v := byte_val (tolower d) in
     if u =? v then strcasecmp s k else if u <? v then -1 else 1).
Proof. done. Qed.

Lemma strncasecmp_at_eq a s l k p :
  p = lenZ a -> NUL ∉ s -> NUL ∉ k ->
  strncasecmp_at (a ++ s ++ NUL :: l) p k = Some (strncasecmp s k (length k)).
Proof.
  unfold strncasecmp.
  revert a s p. induction k as [|d k IH]; intros a s p Hp H0 Hk; cbn [strncasecmp_at]; [done|].
  destruct s as [|c s]; cbn [app length take]; rewrite get_app by done; cbn [mbind option_bind].
  - destruct (Z.eqb_spec (byte_val (tolower NUL)) (byte_val (tolower d))) as [E|E].
    + change (byte_val (tolower NUL)) with 0 in E. symmetry in E. apply tolower_nul in E as ->.
      exfalso. apply Hk. left.
    + rewrite (proj2 (Z.ltb_lt _ _)); [done|].
      change (byte_val (tolower NUL)) with 0 in *. pose proof (byte_val_range (tolower d)). lia.
  - cbn [strcasecmp]. destruct (_ =? _); [|done].
    rewrite (cons_middle c), app_assoc. apply IH; [len_lia| |]; set_solver.
Qed.

(** [strcasecmp] is 0 exactly when the strings agree up to case. *)
Definition same_nocase (s k : bytes) : Prop := map tolower s = map tolower k.

Lemma strcasecmp_0 s k : strcasecmp s k = 0 <-> same_nocase s k.
Proof.
  unfold same_nocase. revert k. induction s as [|c s IH]; intros [|d k]; try done.
  cbn [strcasecmp map]. destruct (Z.eqb_spec (byte_val (tolower c)) (byte_val (tolower d))) as [E|E].
  - apply byte_val_inj in E. rewrite IH, E. split; [by intros ->|by intros [= ?]].
  - split; [by destruct (_ <? _)|]. intros [= H _]. congruence.
Qed.

(** [strpbrk] on a terminated string finds the end of the longest prefix without
    a byte of [accept]. *)
Lemma strpbrk_at_eq a s l accept p :
  p = lenZ a -> NUL ∉ s ->
  strpbrk_at (a ++ s ++ NUL :: l) p accept =
    Some (match drop_while (λ c, negb (one_of accept c)) s with
          | [] => None
          | _ :: _ => Some (p + lenZ (take_while (λ c, negb (one_of accept c)) s))
          end).
Proof.
  intros Hp H0.
  pose proof (span_app (λ c, negb (one_of accept c)) s) as E.
  pose proof (take_while_all (λ c, negb (one_of accept c)) s) as F.
  pose proof (drop_while_head (λ c, negb (one_of accept c)) s) as D.
  assert (Forall (λ c, one_of accept c = false) (take_while (λ c, negb (one_of accept c)) s)) as F'.
  { eapply Forall_impl; [exact F|]. intros x Hx. by apply negb_true_iff in Hx. }
  set (x := take_while _ s) in *. clearbody x.
  destruct (drop_while _ s) as [|c r].
  - rewrite app_nil_r in E. subst x. by eapply strpbrk_none.
  - specialize (D c r eq_refl). apply negb_false_iff in D. subst s.
    rewrite <- app_assoc. cbn [app].
    apply strpbrk_some; [done|set_solver|done|set_solver|done].
Qed.
