(* ===== verification/Interact.v ===== *)
(** * Programs that talk to the system

    The samples under [src/Linux] are loops around system calls, some of which
    never end.  They are interaction trees: a call is an event, and the system is
    whatever answers it.  A [protocol] says, over a state of its own, when a call
    may be made and what its answers mean; a program is [safe] when every call it
    makes is allowed, whatever the answers, and [total] when it also returns. *)
From S2P Require Import Prelude.
From ITree Require Export ITree.

#[export] Instance itree_ret E : MRet (itree E) := λ A a, Ret a.
#[export] Instance itree_bind E : MBind (itree E) := λ A B f t, ITree.bind t f.

Definition syscall {E : Type -> Type} {A} (e : E A) : itree E A := ITree.trigger e.

(** A loop: [inl] goes round again with a new state, [inr] leaves. *)
Definition loop {E : Type -> Type} {I R} (body : I -> itree E (I + R)) (i : I) : itree E R :=
  ITree.iter body i.

Lemma observe_bind {E : Type -> Type} {A B} (t : itree E A) (k : A -> itree E B) :
  observe (t ≫= k) = match observe t with
                     | RetF r => observe (k r)
                     | TauF u => TauF (u ≫= k)
                     | VisF e h => VisF e (λ a, h a ≫= k)
                     end.
Proof. unfold mbind, itree_bind, ITree.bind, observe. cbn. unfold observe. by destruct (_observe t). Qed.

Lemma observe_bind_cong {E : Type -> Type} {A B} (t u : itree E A) (k : A -> itree E B) :
  observe t = observe u -> observe (t ≫= k) = observe (u ≫= k).
Proof. intros H. by rewrite !observe_bind, H. Qed.

(** ** Protocols *)

Record protocol (E : Type -> Type) (S : Type) := Protocol {
  allowed : S -> forall A, E A -> Prop;
  answers : S -> forall A (e : E A), A -> S -> Prop;
}.
Arguments Protocol {E S}.
Arguments allowed {E S} _ _ {A} _.
Arguments answers {E S} _ _ {A} _ _ _.

Section logic.
Context {E : Type -> Type} {S : Type} (P : protocol E S).

(** [n] steps of the tree are as they should be, and if it returns within them
    [Q] holds. *)
Fixpoint safe_for {R} (n : nat) (Q : R -> S -> Prop) (s : S) (t : itree E R) : Prop :=
  match n with
  | O => True
  | Datatypes.S n =>
      match observe t with
      | RetF r => Q r s
      | TauF u => safe_for n Q s u
      | VisF e k =>
          allowed P s e /\ forall a s', answers P s e a s' -> safe_for n Q s' (k a)
      end
  end.

Definition safe {R} (Q : R -> S -> Prop) (s : S) (t : itree E R) : Prop :=
  forall n, safe_for n Q s t.

(** The same, and the tree returns. *)
Inductive total {R} (Q : R -> S -> Prop) (s : S) (t : itree E R) : Prop :=
  | total_return r : observe t = RetF r -> Q r s -> total Q s t
  | total_silent u : observe t = TauF u -> total Q s u -> total Q s t
  | total_call A (e : E A) k :
      observe t = VisF e k -> allowed P s e ->
      (forall a s', answers P s e a s' -> total Q s' (k a)) -> total Q s t.

Lemma total_safe {R} (Q : R -> S -> Prop) s t : total Q s t -> safe Q s t.
Proof.
  intros H n. revert s t H. induction n as [|n IH]; intros s t H; [done|].
  cbn. destruct H as [r Ho HQ|u Ho Hu|A e k Ho Ha Hk]; rewrite Ho; [done|by apply IH|].
  split; [done|]. intros a s' Hs'. by apply IH, Hk.
Qed.

Lemma safe_for_le {R} (Q : R -> S -> Prop) n m s t : (m <= n)%nat -> safe_for n Q s t -> safe_for m Q s t.
Proof.
  revert m s t. induction n as [|n IH]; intros [|m] s t Hm H; try done; [lia|].
  cbn in *. destruct (observe t) as [r|u|A e k]; [done|apply IH; [lia|done]|].
  destruct H as [Ha Hk]. split; [done|]. intros a s' Hs'. apply IH; [lia|]. by apply Hk.
Qed.

(** Only what a tree does counts. *)
Lemma safe_observe {R} (Q : R -> S -> Prop) s (t u : itree E R) :
  observe u = observe t -> safe Q s t -> safe Q s u.
Proof. intros H Ht [|n]; [done|]. specialize (Ht (Datatypes.S n)). cbn in *. by rewrite H. Qed.

Lemma total_observe {R} (Q : R -> S -> Prop) s (t u : itree E R) :
  observe u = observe t -> total Q s t -> total Q s u.
Proof.
  intros H Ht. destruct Ht as [r Ho HQ|v Ho Hv|A e k Ho Ha Hk]; rewrite <- H in Ho.
  - by eapply total_return.
  - by eapply total_silent.
  - by eapply total_call.
Qed.

(** ** Rules for [safe] *)

Lemma safe_ret {R} (Q : R -> S -> Prop) s r : Q r s -> safe Q s (mret r).
Proof. by intros H [|n]. Qed.

Lemma safe_for_bind {R T} (Q : R -> S -> Prop) (Q' : T -> S -> Prop) (k : R -> itree E T) n : forall s t,
  safe_for n Q s t ->
  (forall m r s', (m <= n)%nat -> Q r s' -> safe_for m Q' s' (k r)) ->
  safe_for n Q' s (t ≫= k).
Proof.
  induction n as [|n IH]; intros s t H Hk; [done|]. cbn [safe_for] in *. rewrite observe_bind.
  destruct (observe t) as [r|u|A e h].
  - exact (Hk _ r s (le_n _) H).
  - apply IH; [done|]. intros m r s' Hm. apply Hk. lia.
  - destruct H as [Ha H]. split; [done|]. intros a s' Hs'. apply IH; [by apply H|].
    intros m r s'' Hm. apply Hk. lia.
Qed.

Lemma safe_bind {R T} (Q : R -> S -> Prop) (Q' : T -> S -> Prop) (k : R -> itree E T) s t :
  safe Q s t -> (forall r s', Q r s' -> safe Q' s' (k r)) -> safe Q' s (t ≫= k).
Proof.
  intros H Hk n. eapply safe_for_bind; [apply H|]. intros m r s' _ HQ. by apply Hk.
Qed.

Lemma safe_conseq {R} (Q Q' : R -> S -> Prop) s t :
  safe Q s t -> (forall r s', Q r s' -> Q' r s') -> safe Q' s t.
Proof.
  intros H HQ n. specialize (H n). revert s t H. induction n as [|n IH]; intros s t H; [done|].
  cbn in *. destruct (observe t) as [r|u|A e k]; [by apply HQ|by apply IH|].
  destruct H as [Ha Hk]. split; [done|]. intros a s' Hs'. by apply IH, Hk.
Qed.

Lemma safe_call {R A} (Q : R -> S -> Prop) s (e : E A) (k : A -> itree E R) :
  allowed P s e -> (forall a s', answers P s e a s' -> safe Q s' (k a)) ->
  safe Q s (syscall e ≫= k).
Proof.
  intros Ha Hk. eapply safe_bind with (Q := λ a s', answers P s e a s'); [|done].
  intros [|[|n]]; cbn; try done; split; done.
Qed.

Lemma safe_ret_bind {R T} (Q : T -> S -> Prop) s (r : R) (k : R -> itree E T) :
  safe Q s (k r) -> safe Q s (mret r ≫= k).
Proof.
  intros H. eapply (safe_bind (λ r' s', r' = r /\ s' = s)); [by apply safe_ret|].
  by intros r' s' [-> ->].
Qed.

Lemma safe_loop {I R} (Inv : I -> S -> Prop) (Q : R -> S -> Prop) (body : I -> itree E (I + R)) :
  (forall i s, Inv i s ->
     safe (λ r s', match r with inl i => Inv i s' | inr r => Q r s' end) s (body i)) ->
  forall i s, Inv i s -> safe Q s (loop body i).
Proof.
  intros Hbody i s Hi n. revert i s Hi.
  induction n as [n IH] using lt_wf_ind; intros i s Hi.
  enough (safe_for n Q s (body i ≫= λ lr, match lr with inl i => Tau (loop body i) | inr r => Ret r end)) as H.
  { destruct n as [|n]; [done|]. exact H. }
  eapply safe_for_bind; [apply (Hbody i s Hi n)|].
  intros m [j|r] s' Hm Hr; (destruct m as [|m]; [done|]); cbn; [|done].
  apply IH; [lia|done].
Qed.

(** ** Rules for [total] *)

Lemma total_ret {R} (Q : R -> S -> Prop) s r : Q r s -> total Q s (mret r).
Proof. by apply total_return. Qed.

Lemma total_bind {R T} (Q : R -> S -> Prop) (Q' : T -> S -> Prop) (k : R -> itree E T) s t :
  total Q s t -> (forall r s', Q r s' -> total Q' s' (k r)) -> total Q' s (t ≫= k).
Proof.
  intros H Hk. induction H as [s t r Ho HQ|s t u Ho _ IH|s t A e h Ho Ha _ IH].
  - assert (observe (t ≫= k) = observe (k r)) as E1.
    { by rewrite observe_bind, Ho. }
    destruct (Hk r s HQ) as [r' Ho' HQ'|u Ho' Hu|A e h Ho' Ha Hh]; rewrite <- E1 in Ho'.
    + by eapply total_return.
    + by eapply total_silent.
    + by eapply total_call.
  - eapply total_silent; [|exact IH]. by rewrite observe_bind, Ho.
  - eapply total_call; [|exact Ha|exact IH]. by rewrite observe_bind, Ho.
Qed.

Lemma total_conseq {R} (Q Q' : R -> S -> Prop) s t :
  total Q s t -> (forall r s', Q r s' -> Q' r s') -> total Q' s t.
Proof.
  intros H HQ. induction H as [s t r Ho Hr|s t u Ho _ IH|s t A e h Ho Ha _ IH].
  - eapply total_return; [done|by apply HQ].
  - by eapply total_silent.
  - by eapply total_call.
Qed.

Lemma total_call_bind {R A} (Q : R -> S -> Prop) s (e : E A) (k : A -> itree E R) :
  allowed P s e -> (forall a s', answers P s e a s' -> total Q s' (k a)) ->
  total Q s (syscall e ≫= k).
Proof.
  intros Ha Hk. eapply total_bind with (Q := λ a s', answers P s e a s'); [|done].
  eapply total_call; [reflexivity|done|]. intros a s' Hs'. by eapply total_return.
Qed.

Lemma total_ret_bind {R T} (Q : T -> S -> Prop) s (r : R) (k : R -> itree E T) :
  total Q s (k r) -> total Q s (mret r ≫= k).
Proof.
  intros H. eapply (total_bind (λ r' s', r' = r /\ s' = s)); [by apply total_ret|].
  by intros r' s' [-> ->].
Qed.

(** A loop ends when a measure goes down. *)
Lemma total_loop {I R} (Inv : I -> S -> Prop) (m : I -> S -> nat) (Q : R -> S -> Prop)
    (body : I -> itree E (I + R)) :
  (forall i s, Inv i s ->
     total (λ r s', match r with
                    | inl j => Inv j s' /\ (m j s' < m i s)%nat
                    | inr r => Q r s'
                    end) s (body i)) ->
  forall i s, Inv i s -> total Q s (loop body i).
Proof.
  intros Hbody i s. remember (m i s) as n eqn:Hn. revert i s Hn.
  induction n as [n IH] using lt_wf_ind; intros i s -> Hi.
  enough (total Q s (body i ≫= λ lr, match lr with inl i => Tau (loop body i) | inr r => Ret r end)) as H.
  { destruct H as [r Ho HQ|u Ho Hu|A e h Ho Ha Hh];
      [by eapply total_return|by eapply total_silent|by eapply total_call]. }
  eapply total_bind; [apply (Hbody i s Hi)|].
  intros [j|r] s' Hr; [|by apply total_ret].
  destruct Hr as [Hj Hlt]. eapply total_silent; [reflexivity|]. by eapply IH.
Qed.
End logic.

(** The systems among those of [P] whose answers satisfy [sc]. *)
Definition narrow {E S} (P : protocol E S) (sc : forall A, S -> E A -> A -> Prop) : protocol E S :=
  Protocol (λ s A e, allowed P s e) (λ s A e a s', answers P s e a s' /\ sc A s e a).

(** A program that ends with a call. *)
Lemma safe_last {E : Type -> Type} {S A} (P : protocol E S) (Q : A -> S -> Prop) s (e : E A) :
  allowed P s e -> (forall a s', answers P s e a s' -> Q a s') -> safe P Q s (syscall e).
Proof. intros Ha HQ [|[|n]]; cbn; try done; split; auto. Qed.

Lemma total_last {E : Type -> Type} {S A} (P : protocol E S) (Q : A -> S -> Prop) s (e : E A) :
  allowed P s e -> (forall a s', answers P s e a s' -> Q a s') -> total P Q s (syscall e).
Proof.
  intros Ha HQ. eapply total_call; [reflexivity|done|]. intros a s' Hs'.
  eapply total_return; [reflexivity|]. by apply HQ.
Qed.

(** ** Running a tree against a system that is a function of its own state *)

Section run.
Context {E : Type -> Type} {W : Type} (sys : forall A, E A -> W -> option (A * W)).

(** [None] when the fuel is used up or the system stops answering. *)
Fixpoint run {R} (fuel : nat) (t : itree E R) (w : W) : option (R * W) :=
  match fuel with
  | O => None
  | Datatypes.S fuel =>
      match observe t with
      | RetF r => Some (r, w)
      | TauF u => run fuel u w
      | VisF e k => match sys _ e w with Some (a, w) => run fuel (k a) w | None => None end
      end
  end.

(** What a total program returns, a run with enough fuel returns, provided the
    system keeps to the protocol and always answers. *)
Lemma run_total {S R} (P : protocol E S) (abs : W -> S) (Q : R -> S -> Prop) s t w :
  (forall A (e : E A) w, allowed P (abs w) e ->
     exists a w', sys A e w = Some (a, w') /\ answers P (abs w) e a (abs w')) ->
  abs w = s -> total P Q s t ->
  exists fuel r w', run fuel t w = Some (r, w') /\ Q r (abs w').
Proof.
  intros Hsys Hw H. revert w Hw.
  induction H as [s t r Ho HQ|s t u Ho _ IH|s t A e h Ho Ha _ IH]; intros w <-.
  - exists 1%nat, r, w. cbn. by rewrite Ho.
  - destruct (IH w eq_refl) as (fuel & r & w' & Hr & HQ). exists (Datatypes.S fuel), r, w'.
    cbn. by rewrite Ho.
  - destruct (Hsys A e w Ha) as (a & w1 & Hs & Hans).
    destruct (IH a (abs w1) Hans w1 eq_refl) as (fuel & r & w' & Hr & HQ).
    exists (Datatypes.S fuel), r, w'. cbn. by rewrite Ho, Hs.
Qed.
End run.
