(* ===== verification/Posix.v ===== *)
(** * The system calls of the Linux samples

    A call whose failure the programs examine answers with what it returns and
    the value of [errno] after it; other answers are what the call returns, -1
    for failure.  [Abort] is the end of the process: a failed [assert] or an
    access outside an array; [Exit] is [exit], as [err] and [errx] call it. *)
From S2P Require Import Prelude CLib Interact.

(** ** Values *)

(** [sockaddr_in]: both fields as the integers stored in memory. *)
Record sockaddr := mkAddr { sin_addr : Z; sin_port : Z }.

(** [htons] and [htonl] on a little-endian machine. *)
Definition htons (p : Z) : Z :=
  Z.lor (Z.shiftl (Z.land p 255) 8) (Z.land (Z.shiftr p 8) 255).
Definition htonl (a : Z) : Z :=
  Z.lor (Z.shiftl (htons (Z.land a 65535)) 16) (htons (Z.land (Z.shiftr a 16) 65535)).

Example htons_ex : (htons 80, htonl 1, htonl 127) = (20480, 16777216, 2130706432).
Proof. vm_compute. reflexivity. Qed.

Definition EINTR : Z := 4.
Definition EALREADY : Z := 114.
Definition EISCONN : Z := 106.
Definition EINPROGRESS : Z := 115.
Definition O_NONBLOCK : Z := 2048.
Definition POLLOUT : Z := 4.
Definition POLLERR : Z := 8.
Definition FD_SETSIZE : Z := 1024.

(** A set of descriptors. *)
Abbreviation fd_set := (gset Z).

(** What [select] leaves in the sets and in the time. *)
Record selected := mkSelected { sel_ret : Z; sel_rd : fd_set; sel_wr : fd_set; sel_left : Z }.

(** What [getaddrinfo] finds: the family and the address, as far as the program
    looks into it. *)
Record addrinfo := mkAddrinfo { ai_family : Z; ai_addr : sockaddr }.
Definition AF_INET : Z := 2.
Definition AF_INET6 : Z := 10.

(** What a client prints about a socket. *)
Inductive report := ConnectedOK (fd : Z) | ConnectFailed (fd error : Z) | TimedOut (fd : Z).

(** ** Calls *)

Variant posixE : Type -> Type :=
  | Socket : posixE Z
  | Bind (fd : Z) (a : sockaddr) : posixE Z
  | Listen (fd backlog : Z) : posixE Z
  | Accept (fd : Z) : posixE Z
  | Recv (fd n : Z) : posixE (option bytes)
  | Send (fd : Z) (bs : bytes) : posixE Z
  | Close (fd : Z) : posixE unit
  | Getfl (fd : Z) : posixE Z
  | Setfl (fd flags : Z) : posixE Z
  | Connect (fd : Z) (a : sockaddr) : posixE (Z * Z)
  | Select (nfds : Z) (rd wr : fd_set) (usecs : Z) : posixE selected
  | SockError (fd : Z) : posixE (Z * Z)
  | Poll (fd events ms : Z) : posixE (Z * Z)
  | Getaddrinfo (name port : bytes) : posixE (Z * list addrinfo)
  | Getnameinfo (a : sockaddr) : posixE Z
  | Report (r : report) : posixE unit
  | Sleep (secs : Z) : posixE unit
  | Abort : posixE Empty_set
  | Exit (code : Z) : posixE Empty_set.

Abbreviation prog := (itree posixE).

Definition never {A} (v : Empty_set) : prog A := match v with end.
Definition abort {A} : prog A := syscall Abort ≫= never.
Definition exit {A} (code : Z) : prog A := syscall (Exit code) ≫= never.
Definition check (b : bool) : prog unit := if b then mret tt else abort.

(** [FD_SET] and [FD_ISSET]: outside the set's array for a descriptor that is
    not below [FD_SETSIZE]. *)
Definition fd_ok (fd : Z) : bool := (0 <=? fd) && (fd <? FD_SETSIZE).
Definition FD_SET (fd : Z) (s : fd_set) : prog fd_set := check (fd_ok fd);; mret ({[fd]} ∪ s).
Definition FD_CLR (fd : Z) (s : fd_set) : prog fd_set := check (fd_ok fd);; mret (s ∖ {[fd]}).
Definition FD_ISSET (fd : Z) (s : fd_set) : prog bool := check (fd_ok fd);; mret (bool_decide (fd ∈ s)).

(** A computation on arrays, which has no result when it leaves them. *)
Definition local {S A} (m : ST S A) (s : S) : prog (A * S) :=
  match m s with Some r => mret r | None => abort end.

(** A test that is passed. *)
Lemma observe_check {A} b (k : unit -> prog A) : b = true -> observe (check b ≫= k) = observe (k tt).
Proof. by intros ->. Qed.

Lemma observe_FD_SET {A} fd s (k : fd_set -> prog A) :
  fd_ok fd = true -> observe (FD_SET fd s ≫= k) = observe (k ({[fd]} ∪ s)).
Proof. intros H. unfold FD_SET. rewrite H. by rewrite !observe_bind. Qed.

Lemma observe_FD_CLR {A} fd s (k : fd_set -> prog A) :
  fd_ok fd = true -> observe (FD_CLR fd s ≫= k) = observe (k (s ∖ {[fd]})).
Proof. intros H. unfold FD_CLR. rewrite H. by rewrite !observe_bind. Qed.

Lemma observe_FD_ISSET {A} fd s (k : bool -> prog A) :
  fd_ok fd = true -> observe (FD_ISSET fd s ≫= k) = observe (k (bool_decide (fd ∈ s))).
Proof. intros H. unfold FD_ISSET. rewrite H. by rewrite !observe_bind. Qed.

Section rules.
Context {S : Type} (P : protocol posixE S).

Lemma safe_abort {A} (Q : A -> S -> Prop) s : allowed P s Abort -> safe P Q s abort.
Proof. intros H. apply safe_call; [done|]. intros []. Qed.

Lemma safe_check (Q : unit -> S -> Prop) s b :
  (b = true -> Q tt s) -> (b = false -> allowed P s Abort) -> safe P Q s (check b).
Proof.
  intros H1 H2. destruct b; [by apply safe_ret, H1|]. by apply safe_abort, H2.
Qed.

Lemma total_abort {A} (Q : A -> S -> Prop) s : allowed P s Abort -> total P Q s abort.
Proof. intros H. apply total_call_bind; [done|]. intros []. Qed.

Lemma total_exit {A} (Q : A -> S -> Prop) s c : allowed P s (Exit c) -> total P Q s (exit c).
Proof. intros H. apply total_call_bind; [done|]. intros []. Qed.

Lemma total_check {R} (Q : R -> S -> Prop) s b (k : unit -> prog R) :
  (b = true -> total P Q s (k tt)) -> (b = false -> allowed P s Abort) ->
  total P Q s (check b ≫= k).
Proof.
  intros H1 H2. destruct b.
  - eapply (total_bind _ (λ _ s', s' = s)); [by apply total_ret|]. intros [] s' ->. by apply H1.
  - eapply (total_bind _ (λ _ _, False)); [by apply total_abort, H2|]. done.
Qed.
End rules.
