(* ===== verification/HttpParse.v ===== *)
(** * The request parser of http_parse.cpp
      (src/Linux/LinuxHighPerformanceServerPrograming/http_parse.cpp)

    A line parser and a request parser, two nested state machines over one array
    that grows as data arrive.  The functions run on the array, the indices they
    are given by reference and what they print; [None] is an access outside the
    array. *)
From S2P Require Import Prelude CLib CStr.

Definition BUFFER_SIZE : Z := 4096.

Inductive CHECK_STATE := CHECK_STATE_REQUESTLINE | CHECK_STATE_HEADER.

Inductive LINE_STATUS := LINE_OK | LINE_BAD | LINE_OPEN.

Inductive HTTP_CODE :=
  | NO_REQUEST | GET_REQUEST | BAD_REQUEST | FORBIDDEN_REQUEST | INTERNAL_ERROR | CLOSED_REQUEST.

#[export] Instance CHECK_STATE_eq_dec : EqDecision CHECK_STATE.
Proof. solve_decision. Defined.
#[export] Instance LINE_STATUS_eq_dec : EqDecision LINE_STATUS.
Proof. solve_decision. Defined.
#[export] Instance HTTP_CODE_eq_dec : EqDecision HTTP_CODE.
Proof. solve_decision. Defined.

(** ** The state: the locals of [main] that the parsers are given, and the lines
    printed so far. *)
Record Parser := mkParser {
  buffer : bytes;
  checked_index : Z;
  read_index : Z;
  start_line : Z;
  checkstate : CHECK_STATE;
  printed : list bytes;
}.

Definition set_buffer (b : bytes) (p : Parser) : Parser :=
  mkParser b (checked_index p) (read_index p) (start_line p) (checkstate p) (printed p).
Definition set_checked (i : Z) (p : Parser) : Parser :=
  mkParser (buffer p) i (read_index p) (start_line p) (checkstate p) (printed p).
Definition set_read (i : Z) (p : Parser) : Parser :=
  mkParser (buffer p) (checked_index p) i (start_line p) (checkstate p) (printed p).
Definition set_start (i : Z) (p : Parser) : Parser :=
  mkParser (buffer p) (checked_index p) (read_index p) i (checkstate p) (printed p).
Definition set_checkstate (c : CHECK_STATE) (p : Parser) : Parser :=
  mkParser (buffer p) (checked_index p) (read_index p) (start_line p) c (printed p).

(** The state before the first [recv]. *)
Definition Parser_new : Parser :=
  mkParser (replicate (Z.to_nat BUFFER_SIZE) NUL) 0 0 0 CHECK_STATE_REQUESTLINE [].

Abbreviation parse := (ST Parser).

Definition char_at (i : Z) : parse byte := st_reads (λ p, get (buffer p) i).
Definition put_char (i : Z) (c : byte) : parse unit :=
  λ p, match put (buffer p) i c with Some b => Some (tt, set_buffer b p) | None => None end.
Definition print (l : bytes) : parse unit :=
  st_modify (λ p, mkParser (buffer p) (checked_index p) (read_index p) (start_line p)
                    (checkstate p) (printed p ++ [l])).

Definition BLANKS : bytes := [SP; TAB].

(** ** parse_line *)

(** The loop, with fuel: what is left to check, and one turn for the test that
    ends it. *)
Fixpoint parse_line_loop (fuel : nat) : parse LINE_STATUS :=
  match fuel with
  | O => st_fault
  | S fuel =>
      ci ← st_gets checked_index;
      ri ← st_gets read_index;
      if negb (ci <? ri) then mret LINE_OPEN
      else
        temp ← char_at ci;
        if bool_decide (temp = CR) then
          if ci + 1 =? ri then mret LINE_OPEN
          else
            next ← char_at (ci + 1);
            if bool_decide (next = LF) then
              put_char ci NUL;; put_char (ci + 1) NUL;;
              st_modify (set_checked (ci + 2));;
              mret LINE_OK
            else mret LINE_BAD
        else
          after_cr ← (if bool_decide (temp = LF) && (1 <? ci) then
                        prev ← char_at (ci - 1); mret (bool_decide (prev = CR))
                      else mret false);
          if (after_cr : bool) then
            put_char (ci - 1) NUL;; put_char ci NUL;;
            st_modify (set_checked (ci + 1));;
            mret LINE_OK
          else
            st_modify (set_checked (ci + 1));;
            parse_line_loop fuel
  end.

Definition parse_line : parse LINE_STATUS :=
  n ← st_gets (λ p, read_index p - checked_index p);
  parse_line_loop (S (Z.to_nat n)).

(** ** parse_requestline *)

Definition at_buffer {A} (f : bytes -> option A) : parse A := st_reads (λ p, f (buffer p)).

(** From the version on: the target must be a path, or a URL that has one. *)
Definition parse_url (url : Z) : parse HTTP_CODE :=
  r ← at_buffer (λ b, strncasecmp_at b url (lit "http://"));
  url ← (if r =? 0 then at_buffer (λ b, strchr_at b (url + 7) Byte.x2f)
         else mret (Some url));
  match url with
  | None => mret BAD_REQUEST
  | Some url =>
      c ← char_at url;
      if negb (bool_decide (c = Byte.x2f)) then mret BAD_REQUEST
      else
        s ← at_buffer (λ b, cstring b url);
        print (lit "The request URL is: " ++ s ++ [LF]);;
        st_modify (set_checkstate CHECK_STATE_HEADER);;
        mret NO_REQUEST
  end.

(** From the target on. *)
Definition parse_target (url : Z) : parse HTTP_CODE :=
  n ← at_buffer (λ b, strspn_at b url BLANKS);
  let url := url + n in
  version ← at_buffer (λ b, strpbrk_at b url BLANKS);
  match version with
  | None => mret BAD_REQUEST
  | Some version =>
      put_char version NUL;;
      let version := version + 1 in
      n ← at_buffer (λ b, strspn_at b version BLANKS);
      let version := version + n in
      r ← at_buffer (λ b, strcasecmp_at b version (lit "HTTP/1.1"));
      if negb (r =? 0) then mret BAD_REQUEST
      else
        parse_url url
  end.

Definition parse_requestline (temp : Z) : parse HTTP_CODE :=
  url ← at_buffer (λ b, strpbrk_at b temp BLANKS);
  match url with
  | None => mret BAD_REQUEST
  | Some url =>
      put_char url NUL;;
      let url := url + 1 in
      let method := temp in
      r ← at_buffer (λ b, strcasecmp_at b method (lit "GET"));
      if negb (r =? 0) then mret BAD_REQUEST
      else
        print (lit "The request method is GET" ++ [LF]);;
        parse_target url
  end.

(** ** parse_headers *)

Definition parse_headers (temp : Z) : parse HTTP_CODE :=
  c ← char_at temp;
  if bool_decide (c = NUL) then mret GET_REQUEST
  else
    r ← at_buffer (λ b, strncasecmp_at b temp (lit "Host:"));
    if r =? 0 then
      let temp := temp + 5 in
      n ← at_buffer (λ b, strspn_at b temp BLANKS);
      let temp := temp + n in
      s ← at_buffer (λ b, cstring b temp);
      print (lit "the request host is: " ++ s ++ [LF]);;
      mret NO_REQUEST
    else
      print (lit "I can not handle this header" ++ [LF]);;
      mret NO_REQUEST.

(** ** parse_content *)

(** Its loop, with fuel: every turn but the last consumes a line.  The switch's
    default is the one case no [CHECK_STATE] reaches. *)
Fixpoint parse_content_loop (fuel : nat) : parse HTTP_CODE :=
  match fuel with
  | O => st_fault
  | S fuel =>
      linestatus ← parse_line;
      match linestatus with
      | LINE_OK =>
          temp ← st_gets start_line;
          ci ← st_gets checked_index;
          st_modify (set_start ci);;
          cs ← st_gets checkstate;
          match cs with
          | CHECK_STATE_REQUESTLINE =>
              retcode ← parse_requestline temp;
              if bool_decide (retcode = BAD_REQUEST) then mret BAD_REQUEST
              else parse_content_loop fuel
          | CHECK_STATE_HEADER =>
              retcode ← parse_headers temp;
              if bool_decide (retcode = BAD_REQUEST) then mret BAD_REQUEST
              else if bool_decide (retcode = GET_REQUEST) then mret GET_REQUEST
              else parse_content_loop fuel
          end
      | LINE_OPEN => mret NO_REQUEST
      | LINE_BAD => mret BAD_REQUEST
      end
  end.

Definition parse_content : parse HTTP_CODE :=
  n ← st_gets (λ p, read_index p - start_line p);
  parse_content_loop (S (Z.to_nat n)).

(** [recv] put [bs] into the array; then the data are parsed. *)
Definition received (bs : bytes) : parse unit :=
  λ p, match fill (buffer p) (read_index p) bs with
       | Some b => Some (tt, set_read (read_index p + lenZ bs) (set_buffer b p))
       | None => None
       end.

(** ** What it means: a reference on byte strings

    The data are cut at CR LF, and then judged line by line. *)

(** The complete lines of [cur ++ d], when [cur] has no CR, and how they end: a
    CR without LF is an error. *)
Fixpoint lines (cur d : bytes) : list bytes * LINE_STATUS :=
  match d with
  | [] => ([], LINE_OPEN)
  | c :: d =>
      if bool_decide (c = CR) then
        match d with
        | [] => ([], LINE_OPEN)
        | e :: d =>
            if bool_decide (e = LF)
            then let '(ls, st) := lines [] d in (cur :: ls, st) else ([], LINE_BAD)
        end
      else lines (cur ++ [c]) d
  end.

Definition blank (c : byte) : bool := one_of BLANKS c.
Definition not_blank (c : byte) : bool := negb (blank c).

Definition msg_get : bytes := lit "The request method is GET" ++ [LF].
Definition msg_url (u : bytes) : bytes := lit "The request URL is: " ++ u ++ [LF].
Definition msg_host (h : bytes) : bytes := lit "the request host is: " ++ h ++ [LF].
Definition msg_other : bytes := lit "I can not handle this header" ++ [LF].

(** The path of a request target: the target, or what follows the host in an
    absolute one. *)
Definition path (t : bytes) : option bytes :=
  u ← (if strncasecmp t (lit "http://") 7 =? 0 then strchr (drop 7 t) Byte.x2f else Some t);
  match u with
  | c :: _ => if bool_decide (c = Byte.x2f) then Some u else None
  | [] => None
  end.

(** What follows the method: skipped blanks, the target, and the version. *)
Definition request_target (s : bytes) : list bytes * bool :=
  match span not_blank (drop_while blank s) with
  | (_, []) => ([], false)
  | (t, _ :: r) =>
      if negb (strcasecmp (drop_while blank r) (lit "HTTP/1.1") =? 0) then ([], false)
      else match path t with None => ([], false) | Some u => ([msg_url u], true) end
  end.

(** What a request line prints and whether it is accepted. *)
Definition request_line (s : bytes) : list bytes * bool :=
  match span not_blank s with
  | (_, []) => ([], false)
  | (m, _ :: r) =>
      if negb (strcasecmp m (lit "GET") =? 0) then ([], false)
      else let '(out, ok) := request_target r in (msg_get :: out, ok)
  end.

Definition header_line (s : bytes) : bytes :=
  if strncasecmp s (lit "Host:") 5 =? 0 then msg_host (drop_while blank (drop 5 s))
  else msg_other.

(** The verdict on lines that end with [st]. *)
Fixpoint judge (cs : CHECK_STATE) (ls : list bytes) (st : LINE_STATUS) : HTTP_CODE * list bytes :=
  match ls with
  | [] => (if bool_decide (st = LINE_BAD) then BAD_REQUEST else NO_REQUEST, [])
  | l :: ls =>
      match cs with
      | CHECK_STATE_REQUESTLINE =>
          let '(out, ok) := request_line (cstr l) in
          if (ok : bool) then
            let '(code, outs) := judge CHECK_STATE_HEADER ls st in (code, out ++ outs)
          else (BAD_REQUEST, out)
      | CHECK_STATE_HEADER =>
          match cstr l with
          | [] => (GET_REQUEST, [])
          | s => let '(code, outs) := judge CHECK_STATE_HEADER ls st in
                 (code, header_line s :: outs)
          end
      end
  end.

Definition verdict (d : bytes) : HTTP_CODE * list bytes :=
  let '(ls, st) := lines [] d in judge CHECK_STATE_REQUESTLINE ls st.

(** ** The parsers on a line that is terminated *)

(** [p] with another array and more output. *)
Definition outcome (p : Parser) (b : bytes) (cs : CHECK_STATE) (out : list bytes) : Parser :=
  mkParser b (checked_index p) (read_index p) (start_line p) cs (printed p ++ out).

Lemma at_buffer_eq {A} (f : bytes -> option A) p b x :
  buffer p = b -> f b = Some x -> at_buffer f p = Some (x, p).
Proof. intros Hb H. unfold at_buffer, st_reads. by rewrite Hb, H. Qed.

Lemma char_at_eq i p a c l :
  buffer p = a ++ c :: l -> i = lenZ a -> char_at i p = Some (c, p).
Proof. intros Hb Hi. unfold char_at, st_reads. by rewrite Hb, get_app. Qed.

Lemma put_char_eq i d p a c l :
  buffer p = a ++ c :: l -> i = lenZ a ->
  put_char i d p = Some (tt, set_buffer (a ++ d :: l) p).
Proof. intros Hb Hi. unfold put_char. by rewrite Hb, (put_app _ _ d _ _ Hi). Qed.

(** Step over a read of the array, given its shape and what is read. *)
Ltac buf_step Hb H :=
  match goal with
  | |- context [((at_buffer ?f) ≫= _) ?p] =>
      rewrite (st_bind_Some (at_buffer f) _ p _ p (at_buffer_eq f p _ _ Hb H)); cbv beta iota
  end.

(** Facts about literals. *)
Ltac by_compute := refine (bool_decide_unpack _ _); vm_compute; exact I.

(** The pieces of an array put together again. *)
Ltac shape := cbn [buffer set_buffer outcome]; repeat (rewrite <- ?app_assoc; cbn [app]); done.

Lemma take_while_as f (s : bytes) : exists x, take_while f s = x /\ Forall (λ c, f c = true) x.
Proof. eexists. split; [done|]. apply take_while_all. Qed.

(** A string cut in two by [span]. *)
Lemma span_cut f (s : bytes) : exists x y, span f s = (x, y) /\ s = x ++ y /\
  take_while f s = x /\ drop_while f s = y.
Proof.
  exists (take_while f s), (drop_while f s). rewrite span_eq, span_app. done.
Qed.

Lemma not_nul_app (x y : bytes) : (NUL ∉ (x ++ y)) <-> (NUL ∉ x) /\ (NUL ∉ y).
Proof. rewrite elem_of_app. tauto. Qed.

Lemma parse_url_eq p a t l url :
  buffer p = a ++ t ++ NUL :: l -> url = lenZ a -> NUL ∉ t ->
  parse_url url p =
    match path t with
    | None => Some (BAD_REQUEST, p)
    | Some u => Some (NO_REQUEST, outcome p (buffer p) CHECK_STATE_HEADER [msg_url u])
    end.
Proof.
  intros Hb Hu H0. unfold parse_url, path.
  buf_step Hb (strncasecmp_at_eq a t l (lit "http://") url Hu H0 ltac:(by_compute)).
  change (length (lit "http://")) with 7%nat.
  assert (forall a' u, buffer p = a' ++ u ++ NUL :: l -> NUL ∉ u ->
    (c ← char_at (lenZ a');
     if negb (bool_decide (c = Byte.x2f)) then mret BAD_REQUEST
     else s ← at_buffer (λ b, cstring b (lenZ a'));
          print (lit "The request URL is: " ++ s ++ [LF]);;
          st_modify (set_checkstate CHECK_STATE_HEADER);; mret NO_REQUEST) p =
    match (match u with c :: _ => if bool_decide (c = Byte.x2f) then Some u else None
                   | [] => None end) with
    | None => Some (BAD_REQUEST, p)
    | Some u => Some (NO_REQUEST, outcome p (buffer p) CHECK_STATE_HEADER [msg_url u])
    end) as Hlast.
  { intros a' [|c u] Hb' Hn; cbn [app] in Hb'; st_step (char_at_eq _ _ _ _ _ Hb' eq_refl); [done|].
    destruct (bool_decide_reflect (c = Byte.x2f)); [|done]. cbn [negb].
    by buf_step Hb' (cstring_eq _ a' (c :: u) l _ eq_refl eq_refl Hn). }
  destruct (strncasecmp t (lit "http://") 7 =? 0) eqn:E.
  - assert (t = take 7 t ++ drop 7 t) as Ht by (by rewrite take_drop).
    assert (lenZ (take 7 t) = 7) as H7.
    { apply Z.eqb_eq, strcasecmp_0, (f_equal length) in E. rewrite !length_map in E.
      unfold lenZ. rewrite E. done. }
    set (u := drop 7 t) in *. rewrite Ht in Hb, H0. apply not_nul_app in H0 as [_ H0].
    assert (buffer p = (a ++ take 7 t) ++ u ++ NUL :: l) as Hb1 by (rewrite Hb; shape).
    unfold strchr_at, strchr, strpbrk.
    buf_step Hb1 (strpbrk_at_eq (a ++ take 7 t) u l [Byte.x2f] (url + 7) ltac:(len_lia) H0).
    destruct (span_cut (λ c, negb (one_of [Byte.x2f] c)) u) as (x & y & _ & Hxy & Ex & Ey).
    change (λ c, negb (bool_decide (c ∈ [Byte.x2f]))) with (λ c, negb (one_of [Byte.x2f] c)).
    rewrite Ex, Ey. destruct y as [|c y]; [done|]. cbn [mbind option_bind].
    replace (url + 7 + lenZ x) with (lenZ ((a ++ take 7 t) ++ x)) by len_lia.
    apply (Hlast ((a ++ take 7 t) ++ x) (c :: y)); [rewrite Hb1, Hxy; shape|].
    rewrite Hxy in H0. by apply not_nul_app in H0 as [_ H0].
  - subst url. by apply (Hlast a t).
Qed.

Lemma not_nul_cons c (y : bytes) : (NUL ∉ (c :: y)) <-> (NUL <> c) /\ (NUL ∉ y).
Proof. rewrite not_elem_of_cons. done. Qed.

Lemma parse_target_eq p a s l url :
  buffer p = a ++ s ++ NUL :: l -> url = lenZ a -> NUL ∉ s ->
  exists s', lenZ s' = lenZ s /\
    parse_target url p =
      Some (if (request_target s).2 then NO_REQUEST else BAD_REQUEST,
            outcome p (a ++ s' ++ NUL :: l)
              (if (request_target s).2 then CHECK_STATE_HEADER else checkstate p)
              (request_target s).1).
Proof.
  intros Hb Hu H0. unfold parse_target, request_target.
  buf_step Hb (strspn_eq _ a s l url eq_refl Hu BLANKS ltac:(by_compute)).
  destruct (span_cut blank s) as (w & x & _ & Hs & Ew & Ex). rewrite Ex.
  change (one_of BLANKS) with blank. rewrite Ew.
  rewrite Hs in Hb, H0. apply not_nul_app in H0 as [_ Hx0].
  assert (buffer p = (a ++ w) ++ x ++ NUL :: l) as Hb1 by (rewrite Hb; shape).
  buf_step Hb1 (strpbrk_at_eq (a ++ w) x l BLANKS (url + lenZ w) ltac:(len_lia) Hx0).
  change (λ c, negb (one_of BLANKS c)) with not_blank.
  destruct (span_cut not_blank x) as (t & y & Et & Hx & Et' & Ey). rewrite Et, Et', Ey.
  destruct y as [|c y].
  { exists s. split; [done|]. cbn [fst snd]. unfold outcome. rewrite app_nil_r.
    rewrite Hs at 1. rewrite <- app_assoc in Hb. rewrite <- app_assoc, <- Hb. by destruct p. }
  rewrite Hx in Hb1, Hx0. apply not_nul_app in Hx0 as [Ht0 [_ Hy0]%not_nul_cons].
  assert (buffer p = ((a ++ w) ++ t) ++ c :: (y ++ NUL :: l)) as Hb2 by (rewrite Hb1; shape).
  st_step (put_char_eq (url + lenZ w + lenZ t) NUL p _ _ _ Hb2 ltac:(len_lia)).
  set (p1 := set_buffer _ p).
  set (a2 := a ++ w ++ t ++ [NUL]).
  assert (buffer p1 = a2 ++ y ++ NUL :: l) as Hb3 by (unfold p1, a2; shape).
  assert (url + lenZ w + lenZ t + 1 = lenZ a2) as Hv by (unfold a2; len_lia).
  rewrite Hv. clear Hv.
  buf_step Hb3 (strspn_eq _ a2 y l (lenZ a2) eq_refl eq_refl BLANKS ltac:(by_compute)).
  destruct (span_cut blank y) as (w' & v & _ & Hy & Ew' & Ev). rewrite Ev.
  change (one_of BLANKS) with blank. rewrite Ew'.
  rewrite Hy in Hb3, Hy0. apply not_nul_app in Hy0 as [_ Hv0].
  assert (buffer p1 = (a2 ++ w') ++ v ++ NUL :: l) as Hb4 by (rewrite Hb3; shape).
  buf_step Hb4 (strcasecmp_at_eq (a2 ++ w') v l (lit "HTTP/1.1") (lenZ a2 + lenZ w')
    ltac:(len_lia) Hv0 ltac:(by_compute)).
  assert (a2 ++ y ++ NUL :: l = a ++ (w ++ t ++ NUL :: y) ++ NUL :: l) as Ea by (unfold a2; shape).
  exists (w ++ t ++ NUL :: y). split; [rewrite Hs, Hx; len_lia|].
  assert (buffer p1 = a ++ (w ++ t ++ NUL :: y) ++ NUL :: l) as Hb5
    by (rewrite Hb3, <- Ea, Hy; shape).
  destruct (strcasecmp v (lit "HTTP/1.1") =? 0); cbn [negb fst snd].
  - assert (buffer p1 = (a ++ w) ++ t ++ NUL :: (y ++ NUL :: l)) as Hb6 by (rewrite Hb5; shape).
    rewrite (parse_url_eq p1 (a ++ w) t (y ++ NUL :: l)); [|done|len_lia|done].
    rewrite Hb5. destruct (path t); cbn [fst snd]; [done|].
    unfold outcome. rewrite app_nil_r, <- Hb5. by destruct p.
  - unfold outcome. rewrite app_nil_r, <- Hb5. by destruct p.
Qed.

(** The whole line. *)
Lemma parse_requestline_eq p a s l temp :
  buffer p = a ++ s ++ NUL :: l -> temp = lenZ a -> NUL ∉ s ->
  exists s', lenZ s' = lenZ s /\
    parse_requestline temp p =
      Some (if (request_line s).2 then NO_REQUEST else BAD_REQUEST,
            outcome p (a ++ s' ++ NUL :: l)
              (if (request_line s).2 then CHECK_STATE_HEADER else checkstate p)
              (request_line s).1).
Proof.
  intros Hb Ht H0. unfold parse_requestline, request_line.
  buf_step Hb (strpbrk_at_eq a s l BLANKS temp Ht H0).
  destruct (span_cut not_blank s) as (m & r & Es & Hs & Em & Er).
  change (λ c, negb (one_of BLANKS c)) with not_blank. rewrite Es, Em, Er.
  destruct r as [|c r].
  { exists s. split; [done|]. unfold outcome. rewrite app_nil_r, <- Hb. by destruct p. }
  rewrite Hs in Hb, H0. apply not_nul_app in H0 as [Hm0 [_ Hr0]%not_nul_cons].
  assert (buffer p = (a ++ m) ++ c :: (r ++ NUL :: l)) as Hb1 by (rewrite Hb; shape).
  st_step (put_char_eq (temp + lenZ m) NUL p _ _ _ Hb1 ltac:(len_lia)).
  set (p1 := set_buffer _ p).
  assert (buffer p1 = a ++ m ++ NUL :: (r ++ NUL :: l)) as Hb2 by (unfold p1; shape).
  buf_step Hb2 (strcasecmp_at_eq a m (r ++ NUL :: l) (lit "GET") temp Ht Hm0 ltac:(by_compute)).
  destruct (strcasecmp m (lit "GET") =? 0); cbn [negb].
  2: { exists (m ++ NUL :: r). split; [rewrite Hs; len_lia|].
       unfold p1, outcome, mret, ST_ret, set_buffer. rewrite app_nil_r. do 3 f_equal. shape. }
  st_step (eq_refl : print msg_get p1 = Some (tt, outcome p1 (buffer p1) (checkstate p1) [msg_get])).
  destruct (parse_target_eq (outcome p1 (buffer p1) (checkstate p1) [msg_get]) (a ++ m ++ [NUL]) r l
    (temp + lenZ m + 1)) as (s' & Hs' & Hrun); [rewrite Hb2; shape|len_lia|done|].
  exists (m ++ NUL :: s'). split; [rewrite Hs; len_lia|].
  rewrite Hrun. destruct (request_target r) as [out ok]. cbn [fst snd].
  unfold outcome. cbn [printed checkstate checked_index read_index start_line p1 set_buffer].
  rewrite <- !app_assoc. done.
Qed.

Lemma parse_headers_eq p a s l temp :
  buffer p = a ++ s ++ NUL :: l -> temp = lenZ a -> NUL ∉ s ->
  parse_headers temp p =
    Some (match s with
          | [] => (GET_REQUEST, p)
          | _ => (NO_REQUEST, outcome p (buffer p) (checkstate p) [header_line s])
          end).
Proof.
  intros Hb Ht H0. unfold parse_headers.
  destruct s as [|c s]; [by st_step (char_at_eq _ _ _ _ _ Hb Ht)|].
  st_step (char_at_eq _ _ _ _ _ Hb Ht). rewrite bool_decide_false by (by intros ->; apply H0; left).
  set (k := c :: s) in *. unfold header_line.
  buf_step Hb (strncasecmp_at_eq a k l (lit "Host:") temp Ht H0 ltac:(by_compute)).
  change (length (lit "Host:")) with 5%nat.
  destruct (strncasecmp k (lit "Host:") 5 =? 0) eqn:E; [|done].
  assert (lenZ (take 5 k) = 5) as H5.
  { apply Z.eqb_eq, strcasecmp_0, (f_equal length) in E. rewrite !length_map in E.
    unfold lenZ. rewrite E. done. }
  set (u := drop 5 k) in *. assert (k = take 5 k ++ u) as Hk by (symmetry; apply take_drop).
  rewrite Hk in Hb, H0. apply not_nul_app in H0 as [_ H0].
  assert (buffer p = (a ++ take 5 k) ++ u ++ NUL :: l) as Hb1 by (rewrite Hb; shape).
  buf_step Hb1 (strspn_eq _ (a ++ take 5 k) u l (temp + 5) eq_refl ltac:(len_lia) BLANKS ltac:(by_compute)).
  destruct (span_cut blank u) as (w & x & _ & Hu & Ew & Ex). rewrite Ex.
  change (one_of BLANKS) with blank. rewrite Ew.
  rewrite Hu in Hb1, H0. apply not_nul_app in H0 as [_ Hx0].
  assert (buffer p = ((a ++ take 5 k) ++ w) ++ x ++ NUL :: l) as Hb2 by (rewrite Hb1; shape).
  by buf_step Hb2 (cstring_eq _ ((a ++ take 5 k) ++ w) x l (temp + 5 + lenZ w) eq_refl ltac:(len_lia) Hx0).
Qed.

(** ** Lines *)

(** The first line of [cur ++ d]. *)
Inductive piece := Line (l rest : bytes) | Broken (l : bytes) | Partial (l rest : bytes).

Fixpoint cut (cur d : bytes) : piece :=
  match d with
  | [] => Partial cur []
  | c :: d =>
      if bool_decide (c = CR) then
        match d with
        | [] => Partial cur [CR]
        | e :: d => if bool_decide (e = LF) then Line cur d else Broken cur
        end
      else cut (cur ++ [c]) d
  end.

Lemma lines_cut cur d :
  lines cur d = match cut cur d with
                | Line l rest => let '(ls, st) := lines [] rest in (l :: ls, st)
                | Broken _ => ([], LINE_BAD)
                | Partial _ _ => ([], LINE_OPEN)
                end.
Proof.
  revert cur. induction d as [|c d IH]; intros cur; [done|]. cbn.
  case_bool_decide; [|apply IH]. destruct d as [|e d]; [done|]. by case_bool_decide.
Qed.

(** More data only change a line that is not complete. *)
Lemma cut_more cur d more :
  cut cur (d ++ more) = match cut cur d with
                        | Line l rest => Line l (rest ++ more)
                        | Broken l => Broken l
                        | Partial l rest => cut l (rest ++ more)
                        end.
Proof.
  revert cur. induction d as [|c d IH]; intros cur; [done|]. cbn.
  case_bool_decide as Hc; [|apply IH]. destruct d as [|e d]; cbn.
  - by rewrite bool_decide_true.
  - by case_bool_decide.
Qed.

(** [cut] loses nothing, and a line has no CR. *)
Lemma cut_spec cur d :
  CR ∉ cur ->
  match cut cur d with
  | Line l rest => (CR ∉ l) /\ cur ++ d = l ++ [CR; LF] ++ rest
  | Broken l => (CR ∉ l) /\ exists c k, c <> LF /\ cur ++ d = l ++ CR :: c :: k
  | Partial l rest => (CR ∉ l) /\ cur ++ d = l ++ rest /\ (rest = [] \/ rest = [CR])
  end.
Proof.
  revert cur. induction d as [|c d IH]; intros cur Hcur; cbn; [by eauto|].
  case_bool_decide as Hc; [subst c|].
  - destruct d as [|e d]; [by eauto|]. case_bool_decide as He; [by subst|]. by eauto 10.
  - specialize (IH (cur ++ [c])). rewrite <- app_assoc in IH. apply IH.
    rewrite elem_of_app, list_elem_of_singleton. naive_solver.
Qed.

(** ** The line parser *)

(** The array holds [a], which is done with, then the bytes [cur] of a line that
    were checked, those that were not, and what has not been received yet. *)
Record open_at (p : Parser) (a cur r z : bytes) : Prop := {
  oa_buffer : buffer p = a ++ cur ++ r ++ z;
  oa_start : start_line p = lenZ a;
  oa_checked : checked_index p = lenZ a + lenZ cur;
  oa_read : read_index p = lenZ a + lenZ cur + lenZ r;
  oa_cur : CR ∉ cur;
  oa_last : last a <> Some CR;
}.

(** The byte before the one checked is never a CR, so the case of an LF after a
    CR that was checked earlier does not arise. *)
Lemma before_not_cr p (y l : bytes) :
  buffer p = y ++ l -> checked_index p = lenZ y -> last y <> Some CR ->
  1 < lenZ y ->
  (prev ← char_at (checked_index p - 1); mret (bool_decide (prev = CR))) p = Some (false, p).
Proof.
  intros Hb Hc Hl H1. induction y as [|x y _] using rev_ind; [len_lia|].
  rewrite last_snoc in Hl. rewrite <- app_assoc in Hb. cbn [app] in Hb.
  st_step (char_at_eq (checked_index p - 1) _ _ _ _ Hb ltac:(len_lia)).
  by rewrite bool_decide_false by congruence.
Qed.

Lemma parse_line_loop_eq fuel : forall p a cur r z,
  open_at p a cur r z -> (length r < fuel)%nat ->
  parse_line_loop fuel p =
    Some (match cut cur r with
          | Line l rest =>
              (LINE_OK, set_checked (lenZ a + lenZ l + 2)
                          (set_buffer (a ++ l ++ NUL :: NUL :: rest ++ z) p))
          | Broken l => (LINE_BAD, set_checked (lenZ a + lenZ l) p)
          | Partial l _ => (LINE_OPEN, set_checked (lenZ a + lenZ l) p)
          end).
Proof.
  induction fuel as [|fuel IH]; intros p a cur r z [Hb Hs Hc Hr Hcur Hl] Hf; [lia|].
  cbn [parse_line_loop].
  assert (set_checked (lenZ a + lenZ cur) p = p) as Hid by (rewrite <- Hc; by destruct p).
  st_step (eq_refl : st_gets checked_index p = Some (checked_index p, p)).
  st_step (eq_refl : st_gets read_index p = Some (read_index p, p)).
  assert (buffer p = (a ++ cur) ++ r ++ z) as Hb1 by (rewrite Hb; shape).
  destruct r as [|c r]; cbn [cut app] in *; rewrite Hr, Hc; arith_tests; [by rewrite Hid|].
  st_step (char_at_eq (lenZ a + lenZ cur) _ _ _ _ Hb1 ltac:(by rewrite lenZ_app)).
  destruct (bool_decide_reflect (c = CR)) as [->|Hne].
  - destruct r as [|e r]; cbn [app] in *; arith_tests; [by rewrite Hid|].
    assert (buffer p = ((a ++ cur) ++ [CR]) ++ e :: r ++ z) as Hb2 by (rewrite Hb1; shape).
    st_step (char_at_eq (lenZ a + lenZ cur + 1) _ _ _ _ Hb2 ltac:(len_lia)).
    case_bool_decide as He; [subst e|by rewrite Hid].
    st_step (put_char_eq (lenZ a + lenZ cur) NUL p _ _ _ Hb1 ltac:(len_lia)).
    set (p1 := set_buffer _ p).
    assert (buffer p1 = ((a ++ cur) ++ [NUL]) ++ LF :: r ++ z) as Hb3 by (unfold p1; shape).
    st_step (put_char_eq (lenZ a + lenZ cur + 1) NUL p1 _ _ _ Hb3 ltac:(len_lia)).
    unfold p1, set_buffer, set_checked. cbn. rewrite <- !app_assoc. done.
  - assert ((if bool_decide (c = LF) && (1 <? lenZ a + lenZ cur)
             then prev ← char_at (lenZ a + lenZ cur - 1); mret (bool_decide (prev = CR))
             else mret false) p = Some (false, p)) as Hprev.
    { destruct (bool_decide (c = LF)); [|done]. cbn [andb].
      destruct (Z.ltb_spec 1 (lenZ a + lenZ cur)) as [H1|]; [|done]. rewrite <- Hc.
      apply (before_not_cr p (a ++ cur) (c :: r ++ z)); [done|len_lia| |len_lia].
      rewrite last_app. destruct (last cur) as [x|] eqn:E; [|done].
      intros [= ->]. apply Hcur. apply last_Some_elem_of in E. done. }
    st_step Hprev.
    st_step (eq_refl : st_modify (set_checked (lenZ a + lenZ cur + 1)) p
                       = Some (tt, set_checked (lenZ a + lenZ cur + 1) p)).
    rewrite (IH _ a (cur ++ [c]) r z); [by destruct (cut (cur ++ [c]) r)| |cbn in Hf; lia].
    split; cbn; [rewrite Hb; shape|done|len_lia|rewrite Hr; len_lia| |done].
    rewrite elem_of_app, list_elem_of_singleton. naive_solver.
Qed.

Lemma parse_line_eq p a cur r z :
  open_at p a cur r z ->
  parse_line p =
    Some (match cut cur r with
          | Line l rest =>
              (LINE_OK, set_checked (lenZ a + lenZ l + 2)
                          (set_buffer (a ++ l ++ NUL :: NUL :: rest ++ z) p))
          | Broken l => (LINE_BAD, set_checked (lenZ a + lenZ l) p)
          | Partial l _ => (LINE_OPEN, set_checked (lenZ a + lenZ l) p)
          end).
Proof.
  intros H. unfold parse_line.
  st_step (eq_refl : st_gets (λ p, read_index p - checked_index p) p
                     = Some (read_index p - checked_index p, p)).
  apply parse_line_loop_eq; [done|].
  rewrite (oa_read _ _ _ _ _ H), (oa_checked _ _ _ _ _ H). unfold lenZ. lia.
Qed.

(** ** The request parser *)

(** The verdict on what follows [cur] in the state [cs]. *)
Definition seen (cs : CHECK_STATE) (cur d : bytes) : HTTP_CODE * list bytes :=
  let '(ls, st) := lines cur d in judge cs ls st.

(** [out] was printed before. *)
Definition prepend (out : list bytes) (v : HTTP_CODE * list bytes) : HTTP_CODE * list bytes :=
  (v.1, out ++ v.2).

(** One line and then the rest. *)
Definition after_line (cs : CHECK_STATE) (l rest : bytes) : HTTP_CODE * list bytes :=
  match cs with
  | CHECK_STATE_REQUESTLINE =>
      if (request_line (cstr l)).2
      then prepend (request_line (cstr l)).1 (seen CHECK_STATE_HEADER [] rest)
      else (BAD_REQUEST, (request_line (cstr l)).1)
  | CHECK_STATE_HEADER =>
      match cstr l with
      | [] => (GET_REQUEST, [])
      | s => prepend [header_line s] (seen CHECK_STATE_HEADER [] rest)
      end
  end.

Lemma seen_cut cs cur d :
  seen cs cur d = match cut cur d with
                  | Line l rest => after_line cs l rest
                  | Broken _ => (BAD_REQUEST, [])
                  | Partial _ _ => (NO_REQUEST, [])
                  end.
Proof.
  unfold seen. rewrite lines_cut. destruct (cut cur d) as [l rest|l|l rest]; [|done..].
  unfold after_line, prepend, seen. destruct (lines [] rest) as [ls st]. cbn.
  destruct cs.
  - destruct (request_line (cstr l)) as [out [|]]; [|done]. cbn. by destruct (judge _ ls st).
  - destruct (cstr l); [done|]. by destruct (judge _ ls st).
Qed.

(** A line in the array ends at its own first NUL, or at the one put for its CR. *)
Lemma cstr_cut l : exists j, (NUL ∉ cstr l) /\ lenZ l = lenZ (cstr l) + lenZ j /\
  forall k, l ++ NUL :: k = cstr l ++ NUL :: j ++ k.
Proof.
  assert (NUL ∉ cstr l) as H0.
  { intros Hin. pose proof (take_while_all (λ c, negb (bool_decide (c = NUL))) l) as F.
    rewrite Forall_forall in F. specialize (F _ Hin). by vm_compute in F. }
  pose proof (span_app (λ c, negb (bool_decide (c = NUL))) l) as E. fold (cstr l) in E.
  pose proof (drop_while_head (λ c, negb (bool_decide (c = NUL))) l) as D.
  destruct (drop_while _ l) as [|c r].
  - exists []. rewrite app_nil_r in E. rewrite E in *. split_and!; [done|len_lia|done].
  - specialize (D c r eq_refl). apply negb_false_iff, bool_decide_eq_true in D as ->.
    exists (r ++ [NUL]). split; [done|]. split; [rewrite <- E at 1; len_lia|].
    intros k. rewrite <- E at 1. by rewrite <- !app_assoc.
Qed.

(** What [parse_content] leaves when it stops: the rest of the data are judged
    as if everything had come at once. *)
Definition resumes (p p' : Parser) (a cur r z : bytes) (code : HTTP_CODE) (out : list bytes) : Prop :=
  read_index p' = read_index p /\
  if bool_decide (code = NO_REQUEST) then
    exists a' cur' r', open_at p' a' cur' r' z /\ seen (checkstate p') cur' r' = (NO_REQUEST, []) /\
      forall more, seen (checkstate p) cur (r ++ more) =
                   prepend out (seen (checkstate p') cur' (r' ++ more))
  else forall more, seen (checkstate p) cur (r ++ more) = (code, out).

(** The state with which the loop turns to the next line. *)
Lemma open_next (a l s' j rest z : bytes) p :
  buffer p = a ++ s' ++ NUL :: j ++ NUL :: rest ++ z -> lenZ l = lenZ s' + lenZ j ->
  start_line p = lenZ a + lenZ l + 2 -> checked_index p = lenZ a + lenZ l + 2 ->
  read_index p = lenZ a + lenZ l + 2 + lenZ rest ->
  open_at p (a ++ s' ++ NUL :: j ++ [NUL]) [] rest z.
Proof.
  intros Hb Hlen Hs Hc Hr.
  split; [rewrite Hb; shape|len_lia|len_lia|len_lia|by intros ?%elem_of_nil|].
  by rewrite !app_assoc, app_comm_cons, app_assoc, last_snoc.
Qed.

Lemma prepend_nil v : prepend [] v = v.
Proof. by destruct v. Qed.

Lemma prepend_app o o' v : prepend o (prepend o' v) = prepend (o ++ o') v.
Proof. unfold prepend. cbn. by rewrite app_assoc. Qed.

(** [p'] comes after [p0], which continued [p] with the output [o]. *)
Lemma resumes_after p p0 p' a a0 cur r r0 z code out o :
  read_index p0 = read_index p ->
  (forall more, seen (checkstate p) cur (r ++ more) =
                prepend o (seen (checkstate p0) [] (r0 ++ more))) ->
  resumes p0 p' a0 [] r0 z code out -> resumes p p' a cur r z code (o ++ out).
Proof.
  intros Hr Hp0 [Hr' H]. split; [congruence|]. case_bool_decide.
  - destruct H as (a' & cur' & r' & Ho & Hn & H). exists a', cur', r'. split_and!; [done..|].
    intros more. by rewrite Hp0, H, prepend_app.
  - intros more. by rewrite Hp0, H.
Qed.

(** What the loop does with a complete line. *)
Definition one_line (temp : Z) : parse (option HTTP_CODE) :=
  cs ← st_gets checkstate;
  match cs with
  | CHECK_STATE_REQUESTLINE =>
      retcode ← parse_requestline temp;
      mret (if bool_decide (retcode = BAD_REQUEST) then Some BAD_REQUEST else None)
  | CHECK_STATE_HEADER =>
      retcode ← parse_headers temp;
      mret (if bool_decide (retcode = BAD_REQUEST) then Some BAD_REQUEST
            else if bool_decide (retcode = GET_REQUEST) then Some GET_REQUEST else None)
  end.

Lemma parse_content_turn fuel p p1 p2 :
  parse_line p = Some (LINE_OK, p1) -> p2 = set_start (checked_index p1) p1 ->
  parse_content_loop (S fuel) p =
    (r ← one_line (start_line p1);
     match r with Some code => mret code | None => parse_content_loop fuel end) p2.
Proof.
  intros H ->. cbn [parse_content_loop]. st_step H. unfold one_line.
  set (p2 := set_start _ p1). unfold mbind, ST_bind, st_gets, st_modify. fold p2.
  change (checkstate p1) with (checkstate p2). destruct (checkstate p2).
  - destruct (parse_requestline (start_line p1) p2) as [[code p3]|]; [|done].
    by case_bool_decide.
  - destruct (parse_headers (start_line p1) p2) as [[code p3]|]; [|done].
    by repeat case_bool_decide.
Qed.

Lemma one_line_eq p a l k :
  buffer p = a ++ l ++ NUL :: k ->
  exists s' j p' r out, one_line (lenZ a) p = Some (r, p') /\
    buffer p' = a ++ s' ++ NUL :: j ++ k /\ lenZ l = lenZ s' + lenZ j /\
    start_line p' = start_line p /\ checked_index p' = checked_index p /\
    read_index p' = read_index p /\ printed p' = printed p ++ out /\
    forall rest, after_line (checkstate p) l rest =
      match r with
      | Some code => (code, out)
      | None => prepend out (seen (checkstate p') [] rest)
      end /\ r <> Some NO_REQUEST.
Proof.
  intros Hb. destruct (cstr_cut l) as (j & H0 & Hlen & Hsplit). rewrite Hsplit in Hb.
  unfold one_line. st_step (eq_refl : st_gets checkstate p = Some (checkstate p, p)).
  destruct (checkstate p) eqn:Ecs; unfold after_line.
  - destruct (parse_requestline_eq p a (cstr l) (j ++ k) (lenZ a) Hb eq_refl H0) as (s' & Hs' & Hrun).
    st_step Hrun. exists s', j. destruct (request_line (cstr l)) as [out ok]. cbn [fst snd] in *.
    destruct ok; eexists _, _, out; (split; [reflexivity|]); cbn; split_and!; try done; lia.
  - pose proof (parse_headers_eq p a (cstr l) (j ++ k) (lenZ a) Hb eq_refl H0) as Hrun.
    exists (cstr l), j. destruct (cstr l) as [|c s]; st_step Hrun.
    + eexists _, _, []. split; [reflexivity|]. cbn. rewrite app_nil_r. split_and!; done.
    + eexists _, _, [header_line (c :: s)]. split; [reflexivity|]. cbn. rewrite Ecs.
      split_and!; done.
Qed.

Lemma parse_content_loop_eq fuel : forall p a cur r z,
  open_at p a cur r z -> (length cur + length r < fuel)%nat ->
  exists p' code out, parse_content_loop fuel p = Some (code, p') /\
    printed p' = printed p ++ out /\ resumes p p' a cur r z code out.
Proof.
  induction fuel as [|fuel IH]; intros p a cur r z Ho Hf; [lia|].
  pose proof (parse_line_eq p a cur r z Ho) as Hrun.
  pose proof (cut_spec cur r (oa_cur _ _ _ _ _ Ho)) as Hcut.
  pose proof (seen_cut (checkstate p) cur) as Hseen.
  pose proof (cut_more cur r) as Hmore.
  destruct (cut cur r) as [l rest|l|l rest].
  - destruct Hcut as [Hl Hcr%(f_equal length)]. rewrite !length_app in Hcr. cbn [length] in Hcr.
    rewrite (parse_content_turn _ _ _ _ Hrun eq_refl).
    destruct Ho as [_ Hs _ Hr _ _]. set (p2 := set_start _ _).
    change (start_line (set_checked _ _)) with (start_line p). rewrite Hs.
    destruct (one_line_eq p2 a l (NUL :: rest ++ z) eq_refl) as
      (s' & j & p3 & v & out & Hone & Hb3 & Hlen & Hs3 & Hc3 & Hr3 & Hp3 & Hafter).
    st_step Hone. change (checkstate p2) with (checkstate p) in Hafter.
    destruct v as [code|].
    + exists p3, code, out. split; [done|]. split; [done|]. split; [done|].
      destruct (Hafter []) as [_ Hne]. rewrite bool_decide_false by congruence.
      intros more. rewrite Hseen, Hmore. apply Hafter.
    + assert (open_at p3 (a ++ s' ++ NUL :: j ++ [NUL]) [] rest z) as Ho3.
      { apply (open_next a l); [done|done|done|done|]. rewrite Hr3. cbn. rewrite Hr. unfold lenZ. lia. }
      destruct (IH p3 _ [] rest z Ho3) as (p' & code & out' & Hloop & Hp' & Hres); [cbn; lia|].
      exists p', code, (out ++ out'). split; [done|]. split; [by rewrite Hp', Hp3, app_assoc|].
      eapply resumes_after; [done| |done]. intros more. rewrite Hseen, Hmore. apply Hafter.
  - cbn [parse_content_loop]. st_step Hrun.
    eexists _, BAD_REQUEST, []. split; [reflexivity|]. rewrite app_nil_r.
    do 2 (split; [done|]). intros more. by rewrite Hseen, Hmore.
  - cbn [parse_content_loop]. st_step Hrun. destruct Hcut as (Hl & Hcr & Hrest).
    eexists _, NO_REQUEST, []. split; [reflexivity|]. rewrite app_nil_r.
    do 2 (split; [done|]). exists a, l, rest.
    assert (cut l rest = Partial l rest) as E by (by destruct Hrest as [-> | ->]).
    split_and!.
    + destruct Ho as [Hb Hs Hc Hr _ Hlast]. split; cbn; try done.
      * by rewrite Hb, (app_assoc cur), Hcr, <- app_assoc.
      * rewrite Hr. apply (f_equal lenZ) in Hcr. len_lia.
    + by rewrite seen_cut, E.
    + intros more. by rewrite prepend_nil, !seen_cut, Hmore.
Qed.

(** ** Data that arrive in pieces *)

(** The bytes [d] have been received and give no verdict yet. *)
Definition pending (d : bytes) (p : Parser) : Prop :=
  exists a cur r z, open_at p a cur r z /\ lenZ (buffer p) = BUFFER_SIZE /\
    read_index p = lenZ d /\ verdict d = (NO_REQUEST, printed p) /\
    forall more, verdict (d ++ more) =
                 prepend (printed p) (seen (checkstate p) cur (r ++ more)).

Lemma pending_new : pending [] Parser_new.
Proof.
  exists [], [], [], (replicate (Z.to_nat BUFFER_SIZE) NUL).
  split; [split; try done; by intros ?%elem_of_nil|].
  split; [by apply lenZ_replicate|]. do 2 (split; [done|]). intros more. by rewrite prepend_nil.
Qed.

Lemma received_eq p a cur r z bs :
  open_at p a cur r z -> lenZ bs <= lenZ z ->
  exists p', received bs p = Some (tt, p') /\ open_at p' a cur (r ++ bs) (dropZ (lenZ bs) z) /\
    checkstate p' = checkstate p /\ printed p' = printed p /\
    lenZ (buffer p') = lenZ (buffer p) /\ read_index p' = read_index p + lenZ bs.
Proof.
  intros [Hb Hs Hc Hr Hcur Hl] Hz. pose proof (lenZ_nonneg bs).
  pose proof (takeZ_dropZ (lenZ bs) z) as Ez.
  assert (lenZ (takeZ (lenZ bs) z) = lenZ bs) as Ht by (apply lenZ_takeZ; lia).
  assert (fill (buffer p) (read_index p) bs =
          Some ((a ++ cur ++ r) ++ bs ++ dropZ (lenZ bs) z)) as Hf.
  { rewrite <- (fill_app (a ++ cur ++ r) (takeZ (lenZ bs) z) _ bs (read_index p));
      [|len_lia|done]. rewrite Ez, Hb. f_equal. shape. }
  unfold received. rewrite Hf. eexists. split; [reflexivity|].
  split; [split; cbn; try done|].
  - shape.
  - len_lia.
  - do 2 (split; [done|]). split; [|done]. cbn. rewrite Hb.
    apply (f_equal lenZ) in Ez. len_lia.
Qed.

(** One more piece. *)
Lemma feed_one p d bs :
  pending d p -> lenZ d + lenZ bs <= BUFFER_SIZE ->
  exists p' code, (received bs;; parse_content) p = Some (code, p') /\
    verdict (d ++ bs) = (code, printed p') /\
    if bool_decide (code = NO_REQUEST) then pending (d ++ bs) p'
    else forall more, verdict (d ++ bs ++ more) = (code, printed p').
Proof.
  intros (a & cur & r & z & Ho & Hlen & Hr & _ & Hd) Hsz.
  assert (lenZ bs <= lenZ z) as Hz.
  { rewrite (oa_buffer _ _ _ _ _ Ho), !lenZ_app in Hlen. rewrite (oa_read _ _ _ _ _ Ho) in Hr. lia. }
  destruct (received_eq p a cur r z bs Ho Hz) as (p1 & Hrec & Ho1 & Hcs & Hpr & Hlen1 & Hr1).
  st_step Hrec. unfold parse_content.
  st_step (eq_refl : st_gets (λ p, read_index p - start_line p) p1 = Some (read_index p1 - start_line p1, p1)).
  destruct (parse_content_loop_eq (S (Z.to_nat (read_index p1 - start_line p1))) p1 _ _ _ _ Ho1)
    as (p' & code & out & Hrun & Hout & Hrr & Hres).
  { rewrite (oa_read _ _ _ _ _ Ho1), (oa_start _ _ _ _ _ Ho1). unfold lenZ. lia. }
  exists p', code. split; [done|].
  assert (forall more, verdict (d ++ bs ++ more) =
            prepend (printed p1) (seen (checkstate p1) cur ((r ++ bs) ++ more))) as Hv.
  { intros more. by rewrite Hd, Hpr, Hcs, <- app_assoc. }
  pose proof (Hv []) as Hv0. rewrite !app_nil_r in Hv0.
  case_bool_decide as Hcode.
  - subst code. destruct Hres as (a' & cur' & r' & Ho' & Hnone & Hmore).
    assert (verdict (d ++ bs) = (NO_REQUEST, printed p')) as Hverd.
    { specialize (Hmore []). rewrite !app_nil_r in Hmore. rewrite Hv0, Hmore, Hnone, Hout.
      unfold prepend. cbn. by rewrite app_nil_r. }
    split; [done|]. exists a', cur', r', (dropZ (lenZ bs) z). split; [done|].
    split; [|split; [rewrite Hrr, Hr1, Hr; len_lia|split; [done|]]].
    + rewrite <- Hlen, <- Hlen1, (oa_buffer _ _ _ _ _ Ho'), (oa_buffer _ _ _ _ _ Ho1).
      pose proof (oa_read _ _ _ _ _ Ho'). pose proof (oa_read _ _ _ _ _ Ho1). len_lia.
    + intros more. by rewrite <- app_assoc, Hv, Hmore, prepend_app, Hout.
  - assert (forall more, verdict (d ++ bs ++ more) = (code, printed p')) as H.
    { intros more. rewrite Hv, Hres, Hout. done. }
    split; [|done]. specialize (H []). by rewrite app_nil_r in H.
Qed.

(** The pieces one after the other, until there is a verdict. *)
Fixpoint feed (cs : list bytes) : parse HTTP_CODE :=
  match cs with
  | [] => mret NO_REQUEST
  | c :: cs =>
      code ← (received c;; parse_content);
      if bool_decide (code = NO_REQUEST) then feed cs else mret code
  end.

Lemma feed_eq cs : forall p d,
  pending d p -> lenZ (d ++ concat cs) <= BUFFER_SIZE ->
  exists p' code, feed cs p = Some (code, p') /\ verdict (d ++ concat cs) = (code, printed p').
Proof.
  induction cs as [|c cs IH]; intros p d Hp Hsz.
  - exists p, NO_REQUEST. split; [done|]. destruct Hp as (_ & _ & _ & _ & _ & _ & _ & Hv & _).
    cbn. by rewrite app_nil_r.
  - cbn [concat] in *. cbn [feed].
    destruct (feed_one p d c Hp) as (p1 & code & Hrun & Hv & Hcode).
    { pose proof (lenZ_nonneg (concat cs)). rewrite !lenZ_app in Hsz. lia. }
    st_step Hrun. case_bool_decide as E.
    + rewrite app_assoc. apply IH; [done|]. by rewrite <- app_assoc.
    + exists p1, code. split; [done|]. apply Hcode.
Qed.

(** While there is no verdict the parser waits for more of the same data. *)
Lemma feed_pending cs : forall p d p',
  pending d p -> lenZ (d ++ concat cs) <= BUFFER_SIZE ->
  feed cs p = Some (NO_REQUEST, p') -> pending (d ++ concat cs) p'.
Proof.
  induction cs as [|c cs IH]; intros p d p' Hp Hsz Hf; cbn [concat feed] in *.
  - rewrite app_nil_r. by injection Hf as <-.
  - destruct (feed_one p d c Hp) as (p1 & code & Hrun & Hv & Hcode).
    { pose proof (lenZ_nonneg (concat cs)). rewrite !lenZ_app in Hsz. lia. }
    revert Hf. st_step Hrun. case_bool_decide as E.
    + rewrite app_assoc. apply IH; [done|]. by rewrite <- app_assoc.
    + by intros [= -> ->].
Qed.

(** The indices are in order and inside the array, which keeps its size, all the data
    are in it, and there is no carriage return in the part of the line that was
    checked. *)
Record well_formed (received : Z) (p : Parser) : Prop := {
  wf_start : 0 <= start_line p <= checked_index p;
  wf_checked : checked_index p <= read_index p;
  wf_read : read_index p = received;
  wf_room : received <= BUFFER_SIZE;
  wf_buffer : lenZ (buffer p) = BUFFER_SIZE;
  wf_line : CR ∉ takeZ (checked_index p - start_line p) (dropZ (start_line p) (buffer p));
}.

Lemma pending_well_formed d p : pending d p -> lenZ d <= BUFFER_SIZE -> well_formed (lenZ d) p.
Proof.
  intros (a & cur & r & z & [Hb Hs Hc Hr Hcur _] & Hlen & Hrd & _) Hd.
  pose proof (lenZ_nonneg a). pose proof (lenZ_nonneg cur). pose proof (lenZ_nonneg r).
  split; [lia..|done|]. rewrite Hb, Hc, Hs, dropZ_app by done.
  by rewrite takeZ_app by lia.
Qed.
