(* ===== verification/HttpGrammar.v ===== *)
(** * The requests http_parse.cpp accepts, and that pieces do not matter

    The grammar of the requests that get [GET_REQUEST], and the properties of the
    parser on data received in pieces. *)
From S2P Require Import Prelude CLib CStr HttpParse.

(** ** The request line *)

(** The line [s] asks for the path [u]: GET, the target and HTTP/1.1, separated
    by blanks, the words in any case. *)
Record asks_for (s u : bytes) : Prop := {
  af_parts : exists m b t b' v, s = m ++ b ++ t ++ b' ++ v /\ b <> [] /\ b' <> [] /\
    Forall (λ c, blank c = false) (m ++ t ++ v) /\ Forall (λ c, blank c = true) (b ++ b') /\
    same_nocase m (lit "GET") /\ same_nocase v (lit "HTTP/1.1") /\ path t = Some u;
}.

(** A path begins with a slash, wherever it was found. *)
Lemma path_slash t u : path t = Some u -> exists u', u = Byte.x2f :: u' /\ exists x, t = x ++ u.
Proof.
  unfold path. destruct (strncasecmp t (lit "http://") 7 =? 0).
  - unfold strchr, strpbrk. pose proof (span_app (λ c, negb (bool_decide (c ∈ [Byte.x2f]))) (drop 7 t)) as E.
    destruct (drop_while _ _) as [|c y]; [done|]. cbn [mbind option_bind].
    case_bool_decide as Hc; [|done]. intros [= <-]. subst c. exists y. split; [done|].
    exists (take 7 t ++ take_while (λ c, negb (bool_decide (c ∈ [Byte.x2f]))) (drop 7 t)).
    by rewrite <- app_assoc, E, take_drop.
  - cbn [mbind option_bind]. destruct t as [|c t]; [done|]. case_bool_decide as Hc; [|done].
    intros [= <-]. subst c. exists t. split; [done|]. by exists [].
Qed.

Lemma span_words (x y : bytes) :
  Forall (λ c, blank c = false) x -> match y with [] => True | c :: _ => blank c = true end ->
  span not_blank (x ++ y) = (x, y).
Proof.
  intros Hx Hy. apply span_exact.
  - eapply Forall_impl; [exact Hx|]. intros c Hc. unfold not_blank. cbn in Hc. by rewrite Hc.
  - destruct y as [|c y]; [done|]. unfold not_blank. by rewrite Hy.
Qed.

Lemma drop_blanks (x y : bytes) :
  Forall (λ c, blank c = true) x -> match y with [] => True | c :: _ => blank c = false end ->
  drop_while blank (x ++ y) = y.
Proof. intros Hx Hy. unfold drop_while. by rewrite (span_exact _ _ _ Hx Hy). Qed.

(** A word that is a literal without blanks, in any case, has no blank. *)
Lemma nocase_no_blank s k :
  same_nocase s k -> Forall (λ c, blank c = false) k -> Forall (λ c, blank c = false) s.
Proof.
  unfold same_nocase. revert k. induction s as [|c s IH]; intros [|d k] H Hk; try done.
  injection H as Hc H. inversion Hk as [|? ? Hd Hk']; subst. constructor; [|by eapply IH].
  clear IH H Hk Hk'. unfold blank, one_of in *. apply bool_decide_eq_false in Hd.
  apply bool_decide_eq_false. intros Hin. apply Hd.
  assert (tolower c = c) as Ec.
  { apply elem_of_cons in Hin as [->|[->|[]%elem_of_nil]%elem_of_cons]; done. }
  rewrite Ec in Hc. assert (tolower d = d) as Ed; [|rewrite <- Ed, <- Hc; done].
  revert Hc. apply elem_of_cons in Hin as [->|[->|[]%elem_of_nil]%elem_of_cons];
    destruct d; vm_compute; congruence.
Qed.

Lemma not_blank_all s : Forall (λ c, not_blank c = true) s -> Forall (λ c, blank c = false) s.
Proof. intros H. eapply Forall_impl; [exact H|]. intros c. apply negb_true_iff. Qed.

(** The target and the version are read as the grammar has them. *)
Lemma request_target_iff s u :
  request_target s = ([msg_url u], true) <->
  exists b t b' v, s = b ++ t ++ b' ++ v /\ b' <> [] /\
    Forall (λ c, blank c = false) (t ++ v) /\ Forall (λ c, blank c = true) (b ++ b') /\
    same_nocase v (lit "HTTP/1.1") /\ path t = Some u.
Proof.
  unfold request_target. split.
  - destruct (span_cut blank s) as (b & x & _ & -> & Hb & ->).
    pose proof (take_while_all blank (b ++ x)) as Fb. rewrite Hb in Fb. clear Hb.
    destruct (span_cut not_blank x) as (t & y & -> & -> & Ht & Hy).
    pose proof (take_while_all not_blank (t ++ y)) as Ft. rewrite Ht in Ft.
    destruct y as [|c y]; [done|].
    pose proof (drop_while_head not_blank _ _ _ Hy) as Hc. apply negb_false_iff in Hc.
    destruct (span_cut blank y) as (b' & v & _ & -> & Hb' & ->).
    pose proof (take_while_all blank (b' ++ v)) as Fb'. rewrite Hb' in Fb'.
    destruct (Z.eqb_spec (strcasecmp v (lit "HTTP/1.1")) 0) as [E|]; [|done]. cbn [negb].
    destruct (path t) as [u'|] eqn:Hp; [|done]. intros [= Hu].
    apply strcasecmp_0 in E. exists b, t, (c :: b'), v.
    split; [done|]. split; [done|]. split; [|split; [|split; [done|]]].
    + apply Forall_app. split; [by apply not_blank_all|].
      eapply nocase_no_blank; [exact E|by_compute].
    + apply Forall_app. split; [done|by constructor].
    + rewrite Hp. by apply app_inv_tail in Hu as ->.
  - intros (b & t & b' & v & -> & Hb' & [Ft Fv]%Forall_app & [Fb Fb']%Forall_app & Hv & Hp).
    destruct (path_slash t u Hp) as (u' & -> & y & ->).
    assert (v <> []) as Hvn by (intros ->; by apply (f_equal length) in Hv).
    rewrite drop_blanks; [|done|].
    2: { destruct y as [|c y]; cbn; by apply Forall_cons_1 in Ft as [? _]. }
    rewrite span_words; [|done|].
    2: { destruct b' as [|c b']; [done|]. cbn. by apply Forall_cons_1 in Fb' as [? _]. }
    destruct b' as [|c b']; [done|]. cbn [app]. apply Forall_cons_1 in Fb' as [_ Fb'].
    rewrite drop_blanks; [|done|].
    2: { destruct v as [|d v]; [done|]. by apply Forall_cons_1 in Fv as [? _]. }
    rewrite (proj2 (strcasecmp_0 _ _) Hv). cbn [negb Z.eqb]. by rewrite Hp.
Qed.

(** The request line is accepted exactly when it is in the grammar. *)
Lemma request_line_iff s u :
  request_line s = ([msg_get; msg_url u], true) <-> asks_for s u.
Proof.
  unfold request_line. split.
  - destruct (span_cut not_blank s) as (m & y & -> & -> & Hm & Hy).
    pose proof (take_while_all not_blank (m ++ y)) as Fm. rewrite Hm in Fm.
    destruct y as [|c y]; [done|].
    pose proof (drop_while_head not_blank _ _ _ Hy) as Hc. apply negb_false_iff in Hc.
    destruct (Z.eqb_spec (strcasecmp m (lit "GET")) 0) as [E|]; [|done]. cbn [negb].
    apply strcasecmp_0 in E. destruct (request_target y) as [out ok] eqn:Ht.
    intros [= -> ->]. apply request_target_iff in Ht as
      (b & t & b' & v & -> & Hb' & Ftv & Fb & Hv & Hp).
    split. exists m, (c :: b), t, b', v. do 3 (split; [done|]).
    split; [|split; [by constructor|by split_and!]].
    apply Forall_app. split; [by apply not_blank_all|done].
  - intros [(m & b & t & b' & v & -> & Hb & Hb' & [Fm Ft]%Forall_app & Fb & Hm & Hv & Hp)].
    destruct b as [|c b]; [done|]. cbn [app] in Fb. apply Forall_cons_1 in Fb as [Hc Fb].
    rewrite span_words by done. cbn [app]. rewrite (proj2 (strcasecmp_0 _ _) Hm). cbn [negb Z.eqb].
    rewrite (proj2 (request_target_iff (b ++ t ++ b' ++ v) u)); [done|].
    by exists b, t, b', v.
Qed.

(** An accepted line is of this form. *)
Lemma request_line_ok s : (request_line s).2 = true -> exists u, request_line s = ([msg_get; msg_url u], true).
Proof.
  unfold request_line. destruct (span not_blank s) as [m [|c y]]; [done|].
  destruct (strcasecmp m (lit "GET") =? 0); [|done]. cbn [negb]. unfold request_target.
  destruct (span not_blank (drop_while blank y)) as [t [|d z]]; [done|].
  destruct (strcasecmp _ _ =? 0); [|done]. cbn [negb].
  destruct (path t) as [u|]; [by exists u|done].
Qed.

(** ** Whole requests *)

Definition CRLF : bytes := [CR; LF].
Definition with_ends (ls : list bytes) : bytes := concat (map (λ l, l ++ CRLF) ls).

Lemma lines_line cur l d :
  CR ∉ l -> lines cur (l ++ CRLF ++ d) = let '(ls, st) := lines [] d in ((cur ++ l) :: ls, st).
Proof.
  revert cur. induction l as [|c l IH]; intros cur Hl; cbn [app lines].
  - change (CRLF ++ d) with (CR :: LF :: d). cbn. by rewrite app_nil_r.
  - apply not_elem_of_cons in Hl as [Hc Hl]. rewrite bool_decide_false by congruence.
    rewrite IH by done. by rewrite <- app_assoc.
Qed.

Lemma lines_with_ends ls d :
  Forall (λ l, CR ∉ l) ls ->
  lines [] (with_ends ls ++ d) = let '(ks, st) := lines [] d in (ls ++ ks, st).
Proof.
  unfold with_ends. induction 1 as [|l ls Hl _ IH]; cbn [map concat app].
  - by destruct (lines [] d).
  - rewrite <- !app_assoc, lines_line by done. rewrite IH. by destruct (lines [] d).
Qed.

(** The lines that are found are there. *)
Lemma lines_found n : forall d, (length d <= n)%nat ->
  Forall (λ l, CR ∉ l) (lines [] d).1 /\ exists r, d = with_ends (lines [] d).1 ++ r.
Proof.
  induction n as [|n IH]; intros d Hn.
  - destruct d; [|cbn in Hn; lia]. split; [constructor|by exists []].
  - rewrite lines_cut. pose proof (cut_spec [] d ltac:(by_compute)) as H.
    destruct (cut [] d) as [l rest|l|l rest]; [|by (split; [constructor|exists d])..].
    destruct H as [Hl Hd]. cbn [app] in Hd. subst d.
    destruct (IH rest) as [Hf [r Hr]]; [rewrite length_app in Hn; cbn in Hn; lia|].
    destruct (lines [] rest) as [ls st]. cbn [fst] in *. split; [by constructor|].
    exists r. rewrite Hr at 1. unfold with_ends. cbn [map concat]. by rewrite <- !app_assoc.
Qed.

(** Header lines are those that are not empty as C strings. *)
Definition headers (hs : list bytes) : Prop := Forall (λ h, cstr h <> []) hs.

Lemma judge_headers hs e ls st :
  headers hs -> cstr e = [] ->
  judge CHECK_STATE_HEADER (hs ++ e :: ls) st = (GET_REQUEST, map (λ h, header_line (cstr h)) hs).
Proof.
  intros Hhs He. induction Hhs as [|h hs Hh _ IH]; cbn; [by rewrite He|].
  destruct (cstr h) as [|c s]; [done|]. by rewrite IH.
Qed.

Lemma judge_headers_inv ls st out :
  judge CHECK_STATE_HEADER ls st = (GET_REQUEST, out) ->
  exists hs e ls', ls = hs ++ e :: ls' /\ headers hs /\ cstr e = [] /\
    out = map (λ h, header_line (cstr h)) hs.
Proof.
  revert out. induction ls as [|l ls IH]; intros out; cbn.
  - by destruct (bool_decide (st = LINE_BAD)).
  - destruct (cstr l) as [|c s] eqn:E.
    + intros [= <-]. exists [], l, ls. split_and!; try done. constructor.
    + destruct (judge CHECK_STATE_HEADER ls st) as [code outs] eqn:Ej. intros [= -> <-].
      destruct (IH outs eq_refl) as (hs & e & ls' & -> & Hhs & He & ->).
      exists (l :: hs), e, ls'. split_and!; [done|by constructor; [rewrite E|]|done|].
      cbn. by rewrite E.
Qed.

(** ** Properties *)

(** The data [d] are a request: lines without CR, each ended by CR LF, of which
    the first asks for the path [u], those of [hs] are header lines and the next
    is empty; what follows does not matter. *)
Definition request_for (d u : bytes) (hs : list bytes) : Prop :=
  exists l e rest, d = with_ends (l :: hs ++ [e]) ++ rest /\
    Forall (λ l, CR ∉ l) (l :: hs ++ [e]) /\ asks_for (cstr l) u /\ headers hs /\ cstr e = [].

(** C7: How the data are cut up does not matter.  Received in any pieces, up to
    the size of the buffer, they give the verdict and the output that the
    reference gives for the whole, and the parser never leaves its buffer or
    loops. *)
Theorem pieces_verdict (cs : list bytes) :
  lenZ (concat cs) <= BUFFER_SIZE ->
  exists p', feed cs Parser_new = Some ((verdict (concat cs)).1, p') /\
    printed p' = (verdict (concat cs)).2.
Proof.
  intros H. destruct (feed_eq cs Parser_new [] pending_new H) as (p' & code & Hrun & Hv).
  cbn [app] in Hv. exists p'. by rewrite Hv.
Qed.

Lemma pieces_verdict_witness :
  exists p', feed [lit "GET /a HT"; lit "TP/1.1" ++ [CR]; [LF; CR]; [LF]] Parser_new =
      Some (GET_REQUEST, p') /\
    printed p' = [msg_get; msg_url (lit "/a")].
Proof.
  apply (pieces_verdict [lit "GET /a HT"; lit "TP/1.1" ++ [CR]; [LF; CR]; [LF]]).
  vm_compute. discriminate.
Defined.

(** The reference accepts the requests of the grammar and no others. *)
Lemma verdict_get (d : bytes) (out : list bytes) :
  verdict d = (GET_REQUEST, out) <->
  exists u hs, request_for d u hs /\
    out = msg_get :: msg_url u :: map (λ h, header_line (cstr h)) hs.
Proof.
  unfold verdict. split.
  - intros H. destruct (lines_found (length d) d (le_n _)) as [Hcr [rest Hd]].
    destruct (lines [] d) as [[|l ls] st]; [by destruct st|]. cbn [fst judge] in *.
    destruct (request_line (cstr l)) as [out0 ok] eqn:Hl. destruct ok; [|done].
    destruct (request_line_ok (cstr l)) as [u Hu]; [by rewrite Hl|].
    rewrite Hl in Hu. injection Hu as ->.
    destruct (judge CHECK_STATE_HEADER ls st) as [code outs] eqn:Hj. injection H as -> <-.
    destruct (judge_headers_inv _ _ _ Hj) as (hs & e & ls' & -> & Hhs & He & ->).
    exists u, hs. split; [|done]. exists l, e, (with_ends ls' ++ rest).
    split; [|split; [|split_and!; [by apply request_line_iff|done|done]]].
    + rewrite Hd. unfold with_ends. cbn [map concat]. rewrite !map_app, !concat_app.
      cbn [map concat]. rewrite <- !app_assoc. done.
    + apply Forall_cons in Hcr as [? Hcr]. apply Forall_app in Hcr as [? Hcr].
      apply Forall_cons in Hcr as [? _]. by rewrite Forall_cons, Forall_app, Forall_singleton.
  - intros (u & hs & (l & e & rest & -> & Hcr & Hu & Hhs & He) & ->).
    rewrite lines_with_ends by done. destruct (lines [] rest) as [ks st].
    cbn [app judge]. rewrite (proj2 (request_line_iff _ _) Hu). rewrite <- app_assoc. cbn [app].
    by rewrite judge_headers.
Qed.

(** C8: The parser accepts the requests of the grammar and no others: whatever pieces the
    data are received in, up to the size of the buffer, its verdict is [GET_REQUEST]
    exactly when they begin with a request of the grammar, and what it has printed then is
    the path and the headers of that request. *)
Theorem accepts_requests (cs : list bytes) (out : list bytes) :
  lenZ (concat cs) <= BUFFER_SIZE ->
  (exists p, feed cs Parser_new = Some (GET_REQUEST, p) /\ printed p = out) <->
  exists u hs, request_for (concat cs) u hs /\
    out = msg_get :: msg_url u :: map (λ h, header_line (cstr h)) hs.
Proof.
  intros H. rewrite <- verdict_get. destruct (feed_eq cs Parser_new [] pending_new H) as (p & code & -> & Hv).
  cbn [app] in Hv. rewrite Hv. split.
  - by intros (p' & [= -> ->] & <-).
  - intros [= -> <-]. by exists p.
Qed.

Lemma accepts_requests_witness :
  exists u hs, request_for (concat [lit "GET /a HTTP/1.1" ++ [CR]; LF :: lit "Host: h" ++ [CR; LF; CR; LF]]) u hs /\
    [msg_get; msg_url (lit "/a"); header_line (lit "Host: h")] = msg_get :: msg_url u :: map (λ h, header_line (cstr h)) hs.
Proof.
  apply (accepts_requests [lit "GET /a HTTP/1.1" ++ [CR]; LF :: lit "Host: h" ++ [CR; LF; CR; LF]]); [by vm_compute|].
  eexists. split; vm_compute; reflexivity.
Defined.

Lemma judge_code cs ls st : (judge cs ls st).1 ∈ [NO_REQUEST; GET_REQUEST; BAD_REQUEST].
Proof.
  revert cs. induction ls as [|l ls IH]; intros cs; cbn [judge].
  - case_bool_decide; set_solver.
  - destruct cs.
    + destruct (request_line (cstr l)) as [out []]; [|set_solver].
      specialize (IH CHECK_STATE_HEADER). by destruct (judge CHECK_STATE_HEADER ls st).
    + destruct (cstr l); [set_solver|].
      specialize (IH CHECK_STATE_HEADER). by destruct (judge CHECK_STATE_HEADER ls st).
Qed.

(** C9: The state of the parser between two receives: as long as there is no verdict the
    indices are in order, read_index is the number of bytes received, all of them fit
    into the array, and no carriage return has been checked in the line that is open;
    of the six verdicts only three are ever given. *)
Theorem parser_well_formed (cs : list bytes) :
  lenZ (concat cs) <= BUFFER_SIZE ->
  exists code p, feed cs Parser_new = Some (code, p) /\
    code ∈ [NO_REQUEST; GET_REQUEST; BAD_REQUEST] /\
    (code = NO_REQUEST -> well_formed (lenZ (concat cs)) p).
Proof.
  intros H. destruct (feed_eq cs Parser_new [] pending_new H) as (p & code & Hrun & Hv). cbn [app] in Hv.
  exists code, p. split; [done|]. split.
  - change code with (code, printed p).1. rewrite <- Hv. unfold verdict. destruct (lines _ _). apply judge_code.
  - intros ->. apply pending_well_formed; [|done].
    apply (feed_pending cs Parser_new [] p pending_new H Hrun).
Qed.

Lemma parser_well_formed_witness :
  exists p, feed [lit "GET /a HTTP/1.1" ++ [CR]; LF :: lit "Host"] Parser_new = Some (NO_REQUEST, p) /\
    start_line p = 17 /\ checked_index p = 21 /\ well_formed 21 p.
Proof.
  destruct (parser_well_formed [lit "GET /a HTTP/1.1" ++ [CR]; LF :: lit "Host"]) as (code & p & Hf & _ & Hw);
    [by vm_compute|].
  pose proof Hf as Hf'. vm_compute in Hf'. injection Hf' as <- Hp.
  exists p. split; [exact Hf|]. split; [by rewrite <- Hp|]. split; [by rewrite <- Hp|]. by apply Hw.
Defined.
