(* ===== verification/HttpServe.v ===== *)
(** * The server of http_parse.cpp: [main]

    One connection is accepted and read until the parser has a verdict, which is
    answered with one of two lines. *)
From S2P Require Import Prelude CLib CStr Interact Posix HttpParse.

Section main.
(** [inet_pton] into a zeroed address. *)
Context (inet_pton : bytes -> Z).

(** [szret]. *)
Definition szret0 : bytes := lit "I get a correct result" ++ [LF].
Definition szret1 : bytes := lit "Something wrong" ++ [LF].

(** One turn of the [while (1)] loop. *)
Definition turn (fd : Z) (p : Parser) : prog (Parser + unit) :=
  data_read ← syscall (Recv fd (BUFFER_SIZE - read_index p));
  match data_read with
  | None | Some [] => mret (inr tt)
  | Some bs =>
      r ← local (received bs;; parse_content) p;
      let result : HTTP_CODE := r.1 in
      if bool_decide (result = NO_REQUEST) then mret (inl r.2)
      else if bool_decide (result = GET_REQUEST) then syscall (Send fd szret0);; mret (inr tt)
      else syscall (Send fd szret1);; mret (inr tt)
  end.

Definition serve (fd : Z) : prog unit := loop (turn fd) Parser_new;; syscall (Close fd).

Definition main (argc : Z) (ip port : bytes) : prog Z :=
  if argc <=? 2 then mret 1
  else
    let address := mkAddr (inet_pton ip) (htons (atoi port)) in
    listenfd ← syscall Socket;
    check (0 <=? listenfd);;
    ret ← syscall (Bind listenfd address);
    check (negb (ret =? -1));;
    ret ← syscall (Listen listenfd 5);
    check (negb (ret =? -1));;
    fd ← syscall (Accept listenfd);
    (if fd <? 0 then mret tt else serve fd);;
    syscall (Close listenfd);;
    mret 0.

(** ** The protocol

    The socket is made, bound and listens; a failure before that is the end of
    the process.  On the connection there is one answer at most, the one the
    bytes received call for, and nothing is read after it. *)

Inductive stage := Began | Created | Named | Ready | Broken.

Record conn := mkConn { c_got : bytes; c_over : bool; c_answered : bool }.

Record world := mkWorld { w_stage : stage; w_listen : option Z; w_conn : option (Z * conn) }.

Definition world0 : world := mkWorld Began None None.

(** The answer to a verdict. *)
Definition reply (code : HTTP_CODE) : option bytes :=
  match code with
  | NO_REQUEST => None
  | GET_REQUEST => Some szret0
  | _ => Some szret1
  end.

Definition may (address : sockaddr) (w : world) (A : Type) (e : posixE A) : Prop :=
  match e with
  | Socket => w_stage w = Began
  | Bind fd a => w_stage w = Created /\ w_listen w = Some fd /\ a = address
  | Listen fd _ => w_stage w = Named /\ w_listen w = Some fd
  | Accept fd => w_stage w = Ready /\ w_listen w = Some fd /\ w_conn w = None
  | Recv fd n =>
      exists got, w_conn w = Some (fd, mkConn got false false) /\
        n = BUFFER_SIZE - lenZ got /\ (verdict got).1 = NO_REQUEST
  | Send fd bs =>
      exists got, w_conn w = Some (fd, mkConn got false false) /\
        reply (verdict got).1 = Some bs
  | Close fd =>
      match w_conn w with
      | Some (fd', c) => fd = fd' /\ (c_over c || c_answered c) = true
      | None => w_listen w = Some fd
      end
  | Abort => w_stage w = Broken
  | _ => False
  end.

(** What the system answers: [accept] returns a new descriptor; [recv] returns at
    most the bytes asked for, and none at the end of the connection. *)
Definition does (w : world) (A : Type) (e : posixE A) : A -> world -> Prop :=
  match e in posixE A return A -> world -> Prop with
  | Socket => λ a w', if 0 <=? a then w' = mkWorld Created (Some a) None
                      else w' = mkWorld Broken None None
  | Bind fd _ => λ a w', a = 0 /\ w' = mkWorld Named (Some fd) None \/
                         a = -1 /\ w' = mkWorld Broken (Some fd) None
  | Listen fd _ => λ a w', a = 0 /\ w' = mkWorld Ready (Some fd) None \/
                           a = -1 /\ w' = mkWorld Broken (Some fd) None
  | Accept fd => λ a w', a < 0 /\ w' = w \/
      0 <= a /\ a <> fd /\ w' = mkWorld Ready (Some fd) (Some (a, mkConn [] false false))
  | Recv fd n => λ a w', exists c, w_conn w = Some (fd, c) /\
      match a with
      | None | Some [] => w' = mkWorld (w_stage w) (w_listen w) (Some (fd, mkConn (c_got c) true (c_answered c)))
      | Some bs => lenZ bs <= n /\
          w' = mkWorld (w_stage w) (w_listen w) (Some (fd, mkConn (c_got c ++ bs) (c_over c) (c_answered c)))
      end
  | Send fd bs => λ _ w', exists c, w_conn w = Some (fd, c) /\
      w' = mkWorld (w_stage w) (w_listen w) (Some (fd, mkConn (c_got c) (c_over c) true))
  | Close fd => λ _ w',
      match w_conn w with
      | Some _ => w' = mkWorld (w_stage w) (w_listen w) None
      | None => w' = mkWorld (w_stage w) None None
      end
  | _ => λ _ _, True
  end.

Definition http_protocol (address : sockaddr) : protocol posixE world :=
  Protocol (may address) does.

(** Step over a call. *)
Ltac t_call :=
  eapply total_call_bind;
  [cbn [allowed http_protocol may]
  |intros ? ?; cbn [answers http_protocol does w_stage w_listen w_conn]].

(** Step over an assertion whose condition is known. *)
Ltac step_check :=
  apply total_check;
  [let H := fresh in intros H; try discriminate H; clear H
  |let H := fresh in intros H; try discriminate H; try done].

(** ** The server keeps to it, and ends *)

Section proofs.
Context (address : sockaddr).

(** The state of the loop. *)
Definition reading (fd ls : Z) (p : Parser) (w : world) : Prop :=
  exists got, w = mkWorld Ready (Some ls) (Some (fd, mkConn got false false)) /\ pending got p /\
    lenZ got <= BUFFER_SIZE.

Lemma turn_total fd ls p w :
  reading fd ls p w ->
  total (http_protocol address)
    (λ r w', match r with
             | inl p' => reading fd ls p' w' /\
                 (Z.to_nat (BUFFER_SIZE - read_index p') < Z.to_nat (BUFFER_SIZE - read_index p))%nat
             | inr _ => exists c, w' = mkWorld Ready (Some ls) (Some (fd, c)) /\
                                  (c_over c || c_answered c) = true
             end) w (turn fd p).
Proof.
  intros (got & -> & Hp & Hlen). unfold turn.
  pose proof Hp as (_ & _ & _ & _ & _ & _ & Hr & Hv & _).
  t_call. { exists got. rewrite Hr, Hv. done. }
  intros (c & [= <-] & Ha). destruct a as [[|b bs]|].
  1, 3: apply total_ret; rewrite Ha; eexists; done.
  destruct Ha as [Hn ->]. cbn [c_got c_over c_answered] in *.
  rewrite Hr in Hn. unfold local.
  destruct (feed_one p got (b :: bs) Hp) as (p' & code & Hrun & Hverdict & Hcode); [lia|].
  rewrite Hrun. apply total_ret_bind. cbn [fst snd].
  rewrite lenZ_cons in Hn. pose proof (lenZ_nonneg bs).
  case_bool_decide as Hno.
  { apply total_ret. pose proof Hcode as (_ & _ & _ & _ & _ & _ & Hr' & _).
    rewrite Hr', Hr, !lenZ_app, lenZ_cons. split; [|lia].
    exists (got ++ b :: bs). split; [done|]. split; [done|]. rewrite lenZ_app, lenZ_cons. lia. }
  case_bool_decide as Hget.
  - t_call. { eexists. split; [done|]. by rewrite Hverdict, Hget. }
    intros (c & [= <-] & ->). apply total_ret. by eexists.
  - t_call. { eexists. split; [done|]. rewrite Hverdict. by destruct code. }
    intros (c & [= <-] & ->). apply total_ret. by eexists.
Qed.

Lemma serve_total fd ls w :
  w = mkWorld Ready (Some ls) (Some (fd, mkConn [] false false)) ->
  total (http_protocol address) (λ _ w', w' = mkWorld Ready (Some ls) None) w (serve fd).
Proof.
  intros ->. unfold serve.
  eapply (total_bind _ (λ _ w', exists c, w' = mkWorld Ready (Some ls) (Some (fd, c)) /\
                                  (c_over c || c_answered c) = true)).
  - apply (total_loop _ (reading fd ls) (λ p _, Z.to_nat (BUFFER_SIZE - read_index p))).
    + intros p w Hw. eapply total_conseq; [by apply (turn_total fd ls)|]. by intros [p'|[]] w'.
    + exists []. split; [done|]. split; [apply pending_new|done].
  - intros _ w (c & -> & Hc). apply total_last; [done|]. by intros [] w' ->.
Qed.
End proofs.

(** C10: The server ends, whatever the system and the peer do.  Without the two
    arguments it does nothing; otherwise its calls come in the order the protocol
    asks for, on descriptors that are open and with the address given; it reads no
    more than the buffer has room for, answers at most once, when the bytes
    received have a verdict and with the line for that verdict, and closes the
    connection when it has answered or the peer is gone, and then the listener. *)
Theorem main_serves (argc : Z) (ip port : bytes) :
  total (http_protocol (mkAddr (inet_pton ip) (htons (atoi port))))
    (λ code w, if argc <=? 2 then code = 1 /\ w = world0
               else code = 0 /\ w = mkWorld (w_stage w) None None)
    world0 (main argc ip port).
Proof.
  unfold main. destruct (argc <=? 2); [by apply total_ret|]. set (address := mkAddr _ _).
  t_call; [done|]. rename a into ls. destruct (0 <=? ls); intros ->;
    step_check.
  t_call; [done|]. intros [[-> ->] | [-> ->]]; step_check.
  t_call; [done|]. intros [[-> ->] | [-> ->]]; step_check.
  t_call; [done|]. intros Ha.
  eapply (total_bind _ (λ _ w, w = mkWorld Ready (Some ls) None)).
  - destruct Ha as [[Ha ->] | (Ha & Hne & ->)].
    + rewrite (proj2 (Z.ltb_lt _ _) Ha). by apply total_ret.
    + rewrite (proj2 (Z.ltb_ge _ _) Ha). by apply serve_total.
  - intros _ w ->. t_call; [done|]. intros ->. by apply total_ret.
Qed.
End main.

(** ** Two runs

    The peer sends the pieces one after the other, and then closes. *)
Definition one_peer (A : Type) (e : posixE A) (w : list bytes * list bytes) : option (A * (list bytes * list bytes)) :=
  match e in posixE A return option (A * (list bytes * list bytes)) with
  | Socket => Some (3, w)
  | Bind _ _ | Listen _ _ => Some (0, w)
  | Accept _ => Some (4, w)
  | Recv _ n => if n =? 0 then Some (Some [], w)
                else match w with
                     | (c :: cs, sent) => Some (Some c, (cs, sent))
                     | ([], sent) => Some (Some [], w)
                     end
  | Send _ bs => Some (lenZ bs, (w.1, w.2 ++ [bs]))
  | Close _ => Some (tt, w)
  | _ => None
  end.

Abbreviation sends cs :=
  (option_map (λ r, (r.1, r.2.2)) (run one_peer 100 (main (λ _, 0) 3 (lit "0.0.0.0") (lit "80")) (cs, []))).

Example request_answered :
  sends [lit "GET /a HT"; lit "TP/1.1" ++ [CR]; [LF; CR]; [LF]] = Some (0, [szret0]).
Proof. vm_compute. reflexivity. Qed.

(** A line that fills the buffer is not answered. *)
Example full_buffer_silent : sends [replicate 4096 Byte.x61] = Some (0, []).
Proof. vm_compute. reflexivity. Qed.
