(* ===== verification/Connect.v ===== *)
(** * Connecting without blocking
      (src/Linux/Demo/DemoProject/DemoProject: nonBlockingConnect.cpp and
      2_NonblockConnect.cpp)

    Clients that start a connection, wait for it with [select] or [poll], and
    find out in three ways whether it was made.  What they print is left out. *)
From S2P Require Import Prelude CLib Interact Posix.

(** ** nonBlockingConnect.cpp *)

Section connect.
Context (inet_addr : bytes -> Z).

(** A [short] stored in an unsigned field of 16 bits. *)
Definition u16 (p : Z) : Z := p mod 2 ^ 16.

Definition blockingConnect (ip : bytes) (port : Z) : prog bool :=
  fd ← syscall Socket;
  if fd =? -1 then mret false
  else
    let srvAddr := mkAddr (htonl (u32 (atoi ip))) (u16 port) in
    r ← syscall (Connect fd srvAddr);
    let '(ret, errno) := (r : Z * Z) in
    if ret =? 0 then mret true
    else if negb (errno =? EINTR) then mret false
    else mret false.

(** The loop around [connect], the same in the three functions: [Some b] is
    [return b], [None] goes on after it. *)
Definition connect_loop (fd : Z) (srvAddr : sockaddr) : prog (option bool) :=
  loop (λ _ : unit,
    r ← syscall (Connect fd srvAddr);
    let '(ret, errno) := (r : Z * Z) in
    if ret =? 0 then mret (inr (Some true))
    else if ret =? -1 then
      if errno =? EINTR then mret (inl tt)
      else if negb (errno =? EINPROGRESS) then
        syscall (Close fd);; mret (inr (Some false))
      else mret (inr None)
    else mret (inl tt)) tt.

(** [buf], with its NUL. *)
Definition hello : bytes := lit "hello" ++ [LF; NUL].

(** The loop that sends for ever, the same in the three functions. *)
Definition send_loop (fd : Z) : prog bool :=
  loop (λ _ : unit,
    send_len ← syscall (Send fd hello);
    if send_len =? -1 then mret (inr false)
    else syscall (Sleep 3);; mret (inl tt)) tt.

Definition nonblockingConnect (ip : bytes) (port timeout : Z) : prog bool :=
  fd ← syscall Socket;
  if fd =? -1 then mret false
  else
    flag ← syscall (Getfl fd);
    r ← syscall (Setfl fd (Z.lor flag O_NONBLOCK));
    if r =? -1 then syscall (Close fd);; mret false
    else
      let srvAddr := mkAddr (inet_addr ip) (htons (u16 port)) in
      r ← connect_loop fd srvAddr;
      match r with
      | Some b => mret b
      | None =>
          wfds ← FD_SET fd ∅;
          sel ← syscall (Select (fd + 1) ∅ wfds (timeout * 1000000));
          if sel_ret sel <=? 0 then syscall (Close fd);; mret false
          else
            isset ← FD_ISSET fd (sel_wr sel);
            if (isset : bool) then
              r ← syscall (SockError fd);
              let '(ret, error) := (r : Z * Z) in
              if (ret =? -1) || negb (error =? 0) then mret false
              else send_loop fd
            else syscall (Close fd);; mret false
      end.

(** The loop of [nonblockingConnect_v2]: the set and the time are those the last
    [select] left. *)
Definition select_loop (fd : Z) (srvAddr : sockaddr) (wfds : fd_set) (tv : Z) : prog bool :=
  loop (λ '(wfds, tv),
    sel ← syscall (Select (fd + 1) ∅ wfds tv);
    if sel_ret sel <=? 0 then syscall (Close fd);; mret (inr false)
    else
      isset ← FD_ISSET fd (sel_wr sel);
      if (isset : bool) then
        r ← syscall (Connect fd srvAddr);
        let '(_, errno) := (r : Z * Z) in
        if errno =? EISCONN then b ← send_loop fd; mret (inr b)
        else mret (inl (sel_wr sel, sel_left sel))
      else mret (inl (sel_wr sel, sel_left sel))) (wfds, tv).

Definition nonblockingConnect_v2 (ip : bytes) (port timeout : Z) : prog bool :=
  fd ← syscall Socket;
  if fd =? -1 then mret false
  else
    flag ← syscall (Getfl fd);
    r ← syscall (Setfl fd (Z.lor flag O_NONBLOCK));
    if r =? -1 then syscall (Close fd);; mret false
    else
      let srvAddr := mkAddr (inet_addr ip) (htons (u16 port)) in
      r ← connect_loop fd srvAddr;
      match r with
      | Some b => mret b
      | None =>
          wfds ← FD_SET fd ∅;
          select_loop fd srvAddr wfds (timeout * 1000000)
      end.

Definition nonblockingConnect_v3 (ip : bytes) (port timeout : Z) : prog bool :=
  fd ← syscall Socket;
  if fd =? -1 then mret false
  else
    flag ← syscall (Getfl fd);
    r ← syscall (Setfl fd (Z.lor flag O_NONBLOCK));
    if r =? -1 then mret false
    else
      let srvAddr := mkAddr (inet_addr ip) (htons (u16 port)) in
      r ← connect_loop fd srvAddr;
      match r with
      | Some b => mret b
      | None =>
          r ← syscall (Poll fd (Z.lor POLLOUT POLLERR) (timeout * 1000));
          let '(ret, revents) := (r : Z * Z) in
          if (ret =? 1) && (revents =? POLLOUT) then send_loop fd
          else syscall (Close fd);; mret false
      end.

(** [main]. *)
Definition demo_main : prog Z :=
  nonblockingConnect_v3 (lit "104.18.93.225") 80 3;; mret 0.

(** ** 2_NonblockConnect.cpp *)

(** The loop of at most five waits; [times] as it is tested. *)
Definition wait_loop (cln_sock : Z) (serv_addr : sockaddr) : prog bool :=
  loop (λ times : Z,
    if negb (times <? 5) then mret (inr false)
    else
      readFds ← FD_SET cln_sock ∅;
      writeFds ← FD_SET cln_sock ∅;
      sel ← syscall (Select (cln_sock + 1) readFds writeFds (3 * 1000000));
      if sel_ret sel =? -1 then mret (inr false)
      else if sel_ret sel =? 0 then mret (inl (times + 1))
      else
        r ← FD_ISSET cln_sock (sel_rd sel);
        ready ← (if (r : bool) then mret true else FD_ISSET cln_sock (sel_wr sel));
        if (ready : bool) then
          r ← syscall (Connect cln_sock serv_addr);
          if r.2 =? EISCONN then mret (inr true) else mret (inl (times + 1))
        else mret (inl (times + 1))) 0.

Definition main2 : prog Z :=
  cln_sock ← syscall Socket;
  if cln_sock =? -1 then mret (-1)
  else
    flags ← syscall (Getfl cln_sock);
    r ← syscall (Setfl cln_sock (Z.lor flags O_NONBLOCK));
    if r =? -1 then mret (-1)
    else
      let serv_addr := mkAddr (inet_addr (lit "127.0.0.1")) (htons 9999) in
      r ← syscall (Connect cln_sock serv_addr);
      let '(iconnectRet, errno) := (r : Z * Z) in
      bConnect ← (if iconnectRet =? 0 then mret false
                  else if errno =? EINPROGRESS then wait_loop cln_sock serv_addr
                  else mret false);
      (if (bConnect : bool) then syscall (Close cln_sock) else syscall (Close cln_sock));;
      mret 0.

(** ** The protocol of a client socket

    [Trying] is a connection under way, [Up] one that is made, [Down] one that
    failed. *)
Inductive phase := Idle | Trying | Up | Down.

Record client := mkClient { k_fd : Z; k_nonblock : bool; k_phase : phase }.

Inductive csock := Fresh | Open (k : client) | Gone.

#[export] Instance phase_eq_dec : EqDecision phase.
Proof. solve_decision. Defined.
#[export] Instance client_eq_dec : EqDecision client.
Proof. solve_decision. Defined.
#[export] Instance csock_eq_dec : EqDecision csock.
Proof. solve_decision. Defined.

Definition with_phase (k : client) (ph : phase) : csock := Open (mkClient (k_fd k) (k_nonblock k) ph).

(** The one socket, if it is open and is [fd]. *)
Definition is_open (w : csock) (fd : Z) : Prop :=
  match w with Open k => k_fd k = fd | _ => False end.

(** What may be called: descriptors are used while they are open, the sets that
    are waited for hold no other, [dest] is the address dialled, by a socket that
    does not block if [nb], and data are sent on a connection that is made. *)
Definition may (nb : bool) (dest : sockaddr) (w : csock) (A : Type) (e : posixE A) : Prop :=
  match e with
  | Socket => w = Fresh
  | Getfl fd | Setfl fd _ | SockError fd | Poll fd _ _ | Close fd => is_open w fd
  | Connect fd a => exists k, w = Open k /\ k_fd k = fd /\ k_nonblock k = nb /\ a = dest
  | Select n rd wr _ => exists k, w = Open k /\ rd ⊆ {[k_fd k]} /\ wr ⊆ {[k_fd k]} /\ n = k_fd k + 1
  | Send fd _ => exists k, w = Open k /\ k_fd k = fd /\ k_phase k = Up
  | Sleep _ => True
  | _ => False
  end.

(** The phase after [connect] has answered. *)
Definition connected (r : Z * Z) : phase :=
  if r.1 =? 0 then Up
  else if r.2 =? EISCONN then Up
  else if (r.2 =? EINPROGRESS) || (r.2 =? EALREADY) || (r.2 =? EINTR) then Trying
  else Down.

(** A wait may find that a connection under way was made or failed. *)
Definition settles (ph ph' : phase) : Prop := ph' = ph \/ ph = Trying /\ (ph' = Up \/ ph' = Down).

(** Documented answers.  New descriptors are below [FD_SETSIZE] (the default
    limit of open files); [select] leaves in the set the descriptors that are
    ready, and one that is ready to be written is no longer under way;
    [SO_ERROR] is not 0 when the connection failed; [poll] answers 1 when
    something happened and then reports [POLLERR] for a connection that
    failed. *)
Definition does (w : csock) (A : Type) (e : posixE A) : A -> csock -> Prop :=
  match e in posixE A return A -> csock -> Prop with
  | Socket => λ a w', a = -1 /\ w' = w \/
                      fd_ok a = true /\ w' = Open (mkClient a false Idle)
  | Getfl _ => λ _ w', w' = w
  | Setfl _ fl => λ a w', a = -1 /\ w' = w \/
      a = 0 /\ exists k, w = Open k /\ w' = Open (mkClient (k_fd k) (Z.testbit fl 11) (k_phase k))
  | Connect _ _ => λ r w', (r.1 = 0 \/ r.1 = -1) /\ exists k, w = Open k /\ w' = with_phase k (connected r)
  | Select _ rd wr _ => λ a w', exists k ph, w = Open k /\ w' = with_phase k ph /\
      settles (k_phase k) ph /\
      (0 < sel_ret a -> sel_wr a ⊆ wr /\ sel_rd a ⊆ rd /\ (k_fd k ∈ sel_wr a -> ph <> Trying))
  | SockError _ => λ r w', w' = w /\ exists k, w = Open k /\
      (k_phase k = Down -> r.1 = -1 \/ r.2 <> 0)
  | Poll _ _ _ => λ r w', exists k ph, w = Open k /\ w' = with_phase k ph /\
      settles (k_phase k) ph /\ (r.1 = 1 -> k_phase k = Trying -> ph = Up \/ Z.testbit r.2 3 = true)
  | Send _ _ | Sleep _ => λ _ w', w' = w
  | Close _ => λ _ w', w' = Gone
  | _ => λ _ _, True
  end.

Definition client_protocol (nb : bool) (dest : sockaddr) : protocol posixE csock :=
  Protocol (may nb dest) does.

(** ** The parts of the functions *)

Ltac protocol_cbn :=
  cbn [allowed answers client_protocol may does is_open with_phase k_fd k_nonblock k_phase fst snd].
Ltac s_call := eapply safe_call; [protocol_cbn|intros ? ?; protocol_cbn].
Ltac t_call := eapply total_call_bind; [protocol_cbn|intros ? ?; protocol_cbn].

Section proofs.
Context (dest : sockaddr) (fd : Z) (Hfd : fd_ok fd = true).

Definition at_phase (ph : phase) : csock := Open (mkClient fd true ph).

(** [connect_loop] goes on only with a connection under way. *)
Lemma connect_loop_safe :
  safe (client_protocol true dest)
    (λ r w, match r with
            | Some true => w = at_phase Up
            | Some false => w = Gone
            | None => w = at_phase Trying
            end) (at_phase Idle) (connect_loop fd dest).
Proof.
  apply (safe_loop _ (λ _ w, exists ph, w = at_phase ph)); [|by exists Idle].
  intros [] w [ph ->]. s_call. { by eexists. }
  destruct a as [ret errno]. intros (Hret & k & [= <-] & ->). unfold connected. cbn in *.
  destruct Hret as [-> | ->]; cbn.
  - by apply safe_ret.
  - destruct (Z.eqb_spec errno EINTR) as [->|Hi]; [apply safe_ret; by eexists|].
    destruct (Z.eqb_spec errno EINPROGRESS) as [->|Hp]; cbn [negb].
    + by apply safe_ret.
    + s_call; [done|]. intros ->. by apply safe_ret.
Qed.

Lemma send_loop_safe :
  safe (client_protocol true dest) (λ r w, r = false /\ w = at_phase Up) (at_phase Up) (send_loop fd).
Proof.
  apply (safe_loop _ (λ _ w, w = at_phase Up)); [|done].
  intros [] w ->. s_call. { by eexists. }
  intros ->. destruct (a =? -1); [by apply safe_ret|]. s_call; [done|]. intros ->. by apply safe_ret.
Qed.

(** The set that is waited for. *)
Lemma wait_ok k w : w = Open k -> k_fd k = fd ->
  exists k', w = Open k' /\ (∅ : fd_set) ⊆ {[k_fd k']} /\ {[fd]} ∪ (∅ : fd_set) ⊆ {[k_fd k']} /\
    fd + 1 = k_fd k' + 1.
Proof. intros -> <-. eexists. split; [done|]. set_solver. Qed.

(** The socket is made and does not block. *)
Lemma open_socket {R} (Q : R -> csock -> Prop) fail (k : prog R) flag w :
  w = Open (mkClient fd false Idle) ->
  safe (client_protocol true dest) Q w fail ->
  safe (client_protocol true dest) Q (at_phase Idle) k ->
  safe (client_protocol true dest) Q w
    (r ← syscall (Setfl fd (Z.lor flag O_NONBLOCK)); if r =? -1 then fail else k).
Proof.
  intros -> Hf Hk. s_call; [done|]. intros [[-> ->] | [-> (c & [= <-] & ->)]]; [done|].
  replace (Z.testbit (Z.lor flag O_NONBLOCK) 11) with true by (by rewrite Z.lor_spec, orb_true_r). done.
Qed.
End proofs.

Section functions.
Context (ip : bytes) (port timeout : Z).

Abbreviation dest := (mkAddr (inet_addr ip) (htons (u16 port))).

(** How the three functions leave the socket when they return [b]; [leak] are the
    phases in which it may be left open. *)
Definition leaves (leak : phase -> Prop) (b : bool) (w : csock) : Prop :=
  if b then exists fd, w = at_phase fd Up
  else w = Fresh \/ w = Gone \/ exists k, w = Open k /\ leak (k_phase k).

Lemma nonblockingConnect_safe :
  safe (client_protocol true dest) (leaves (λ ph, ph = Up \/ ph = Down)) Fresh
    (nonblockingConnect ip port timeout).
Proof.
  unfold nonblockingConnect. s_call; [done|]. rename a into fd.
  intros [[-> ->] | [Hfd ->]]; [by apply safe_ret; left|].
  destruct (Z.eqb_spec fd (-1)) as [->|_]; [done|].
  s_call; [done|]. intros ->. apply open_socket; [done|s_call; [done|]; intros ->; apply safe_ret; cbn; auto|].
  eapply safe_bind; [by apply connect_loop_safe|]. intros [[|]|] w ->.
  1, 2: apply safe_ret; cbn; eauto.
  eapply safe_observe; [by apply observe_FD_SET|]. s_call. { by eapply wait_ok. }
  rename a0 into sel. intros (k & ph & [= <-] & -> & Hph & Hsel). cbn in *.
  destruct (Z.leb_spec (sel_ret sel) 0) as [Hr|Hr].
  { s_call; [done|]. intros ->. apply safe_ret. cbn. eauto. }
  destruct (Hsel Hr) as (_ & _ & Hin).
  eapply safe_observe; [by apply observe_FD_ISSET|]. case_bool_decide as Hset.
  2: { s_call; [done|]. intros ->. apply safe_ret. cbn. eauto. }
  specialize (Hin Hset). s_call; [done|]. destruct a0 as [ret error].
  intros (-> & k & [= <-] & Herr). cbn in *.
  assert (ph = Up \/ ph = Down) as Hud by (destruct Hph as [->|[_ ?]]; [done|done]).
  destruct ((ret =? -1) || negb (error =? 0)) eqn:E.
  { apply safe_ret. cbn. right. right. by eexists. }
  apply orb_false_iff in E as [E1%Z.eqb_neq E2%negb_false_iff%Z.eqb_eq].
  destruct Hud as [-> | ->]; [|by destruct (Herr eq_refl)].
  eapply safe_conseq; [by apply send_loop_safe|]. intros r w [-> ->]. cbn. eauto 10.
Qed.

Lemma select_loop_safe fd wfds tv :
  fd_ok fd = true -> wfds ⊆ {[fd]} ->
  safe (client_protocol true dest) (leaves (λ ph, ph = Up)) (at_phase fd Trying)
    (select_loop fd dest wfds tv).
Proof.
  intros Hfd Hw.
  apply (safe_loop _ (λ st w, st.1 ⊆ {[fd]} /\ exists ph, w = at_phase fd ph)); [|split; [done|by eexists]].
  intros [ws t] w [Hws [ph ->]]. cbn [fst] in Hws. s_call. { eexists. split; [done|]. set_solver. }
  intros (k & ph' & [= <-] & -> & Hph & Hsel). cbn in *.
  destruct (Z.leb_spec (sel_ret a) 0) as [Hr|Hr].
  { s_call; [done|]. intros ->. apply safe_ret. cbn. eauto. }
  destruct (Hsel Hr) as (Hsub & _ & _).
  eapply safe_observe; [by apply observe_FD_ISSET|]. case_bool_decide as Hset.
  2: { apply safe_ret. split; [set_solver|by eexists]. }
  s_call. { by eexists. }
  destruct a0 as [ret errno]. intros (Hret & k & [= <-] & ->). unfold connected. cbn in *.
  destruct (Z.eqb_spec errno EISCONN) as [->|Hi].
  2: { apply safe_ret. split; [set_solver|by eexists]. }
  assert ((if ret =? 0 then Up else if EISCONN =? EISCONN then Up else Down) = Up) as E
    by (by destruct (ret =? 0)).
  eapply safe_bind; [|].
  { destruct (ret =? 0); by apply send_loop_safe. }
  intros r w [-> ->]. apply safe_ret. cbn. eauto 10.
Qed.

Lemma nonblockingConnect_v2_safe :
  safe (client_protocol true dest) (leaves (λ ph, ph = Up)) Fresh
    (nonblockingConnect_v2 ip port timeout).
Proof.
  unfold nonblockingConnect_v2. s_call; [done|]. rename a into fd.
  intros [[-> ->] | [Hfd ->]]; [by apply safe_ret; left|].
  destruct (Z.eqb_spec fd (-1)) as [->|_]; [done|].
  s_call; [done|]. intros ->. apply open_socket; [done|s_call; [done|]; intros ->; apply safe_ret; cbn; auto|].
  eapply safe_bind; [by apply connect_loop_safe|]. intros [[|]|] w ->.
  1, 2: apply safe_ret; cbn; eauto.
  eapply safe_observe; [by apply observe_FD_SET|]. apply select_loop_safe; [done|set_solver].
Qed.

Lemma nonblockingConnect_v3_safe :
  safe (client_protocol true dest) (leaves (λ ph, ph = Up \/ ph = Idle)) Fresh
    (nonblockingConnect_v3 ip port timeout).
Proof.
  unfold nonblockingConnect_v3. s_call; [done|]. rename a into fd.
  intros [[-> ->] | [Hfd ->]]; [by apply safe_ret; left|].
  destruct (Z.eqb_spec fd (-1)) as [->|_]; [done|].
  s_call; [done|]. intros ->. apply open_socket; [done|apply safe_ret; cbn; eauto 10|].
  eapply safe_bind; [by apply connect_loop_safe|]. intros [[|]|] w ->.
  1, 2: apply safe_ret; cbn; eauto.
  s_call; [done|]. destruct a0 as [ret revents]. intros (k & ph & [= <-] & -> & Hph & Hpoll). cbn in *.
  destruct ((ret =? 1) && (revents =? POLLOUT)) eqn:E.
  - apply andb_true_iff in E as [->%Z.eqb_eq ->%Z.eqb_eq].
    destruct (Hpoll eq_refl eq_refl) as [->|?]; [|done].
    eapply safe_conseq; [by apply send_loop_safe|]. intros r w [-> ->]. cbn. eauto 10.
  - s_call; [done|]. intros ->. apply safe_ret. cbn. eauto.
Qed.

(** ** What the functions do to a connection that is refused or interrupted *)

(** The connection is refused while the function waits for it. *)
Definition refused (A : Type) (w : csock) (e : posixE A) : A -> Prop :=
  match e in posixE A return A -> Prop with
  | Socket => λ a, a <> -1
  | Setfl _ _ => λ a, a = 0
  | Connect _ _ => λ r, r.1 = -1 /\ r.2 = EINPROGRESS
  | Select _ _ wr _ => λ a, 0 < sel_ret a /\ sel_wr a = wr
  | SockError _ => λ r, r.1 = 0 /\ r.2 <> 0
  | Poll _ _ _ => λ r, r.1 = 1 /\ Z.testbit r.2 3 = true
  | _ => λ _, True
  end.

(** A signal interrupts [connect]; the connection goes on being made, and the
    next call says so, or that it is made. *)
Definition interrupted (A : Type) (w : csock) (e : posixE A) : A -> Prop :=
  match e in posixE A return A -> Prop with
  | Socket => λ a, a <> -1
  | Setfl _ _ => λ a, a = 0
  | Connect _ _ => λ r, r.1 = -1 /\
      match w with
      | Open k => match k_phase k with
                  | Idle => r.2 = EINTR
                  | _ => r.2 = EALREADY \/ r.2 = EISCONN
                  end
      | _ => True
      end
  | _ => λ _, True
  end.

Definition clients (sc : forall A, csock -> posixE A -> A -> Prop) : protocol posixE csock :=
  narrow (client_protocol true dest) sc.

(** The socket is made and does not block, and [connect_loop] starts. *)
Lemma dial_total (sc : forall A, csock -> posixE A -> A -> Prop) {R} (Q : R -> csock -> Prop) (early : prog R) (fail k : Z -> prog R) :
  (forall w a, sc Z w Socket a -> a <> -1) ->
  (forall w fd fl a, sc Z w (Setfl fd fl) a -> a = 0) ->
  (forall fd, fd_ok fd = true -> total (clients sc) Q (at_phase fd Idle) (k fd)) ->
  total (clients sc) Q Fresh
    (fd ← syscall Socket;
     if fd =? -1 then early
     else flag ← syscall (Getfl fd);
          r ← syscall (Setfl fd (Z.lor flag O_NONBLOCK));
          if r =? -1 then fail fd else k fd).
Proof.
  intros Hsock Hset Hk. eapply total_call_bind; [done|]. intros fd w [Hd Hs].
  apply Hsock in Hs. destruct Hd as [[-> _]|[Hfd ->]]; [done|].
  rewrite (proj2 (Z.eqb_neq _ _) Hs).
  eapply total_call_bind; [done|]. intros flag w [-> _].
  eapply total_call_bind; [done|]. intros r w [Hr Hs']. apply Hset in Hs' as ->.
  destruct Hr as [[? _] | (_ & c & [= <-] & ->)]; [done|]. cbn -[Z.testbit].
  replace (Z.testbit (Z.lor flag O_NONBLOCK) 11) with true by (by rewrite Z.lor_spec, orb_true_r).
  by apply Hk.
Qed.

Lemma refused_loop fd :
  total (clients refused) (λ r w, r = None /\ w = at_phase fd Trying) (at_phase fd Idle)
    (connect_loop fd dest).
Proof.
  apply (total_loop _ (λ _ w, w = at_phase fd Idle) (λ _ _, O)); [|done].
  intros [] w ->. eapply total_call_bind. { by eexists. }
  intros [ret errno] w [(_ & k & [= <-] & ->) [E1 E2]]. cbn in E1, E2. subst. by apply total_ret.
Qed.

Lemma interrupted_loop fd :
  total (clients interrupted) (λ r w, r = Some false /\ w = Gone) (at_phase fd Idle)
    (connect_loop fd dest).
Proof.
  apply (total_loop _ (λ _ w, w = at_phase fd Idle \/ w = at_phase fd Trying)
           (λ _ w, match w with Open (mkClient _ _ Idle) => 1 | _ => 0 end)%nat); [|by left].
  intros [] w Hw. eapply total_call_bind. { destruct Hw as [-> | ->]; by eexists. }
  intros [ret errno] w' [(_ & k & Hk & ->) [E1 E2]]. cbn in E1. subst ret.
  destruct Hw as [-> | ->]; injection Hk as <-; cbn in E2.
  - subst errno. apply total_ret. split; [by right|]. cbn. lia.
  - destruct E2 as [-> | ->]; (eapply total_call_bind; [done|]);
      intros [] w' [-> _]; by apply total_ret.
Qed.

(** ** Properties *)

(** C12: The clients send only on a connection that is made, and to the address
    they were given.  Whatever the system answers, the three functions use the
    socket only while it is open, dial from a socket that does not block, wait for
    no other descriptor, and return true only with the connection made. *)
Theorem clients_safe :
  safe (client_protocol true dest) (leaves (λ ph, ph = Up \/ ph = Down)) Fresh
    (nonblockingConnect ip port timeout) /\
  safe (client_protocol true dest) (leaves (λ ph, ph = Up)) Fresh
    (nonblockingConnect_v2 ip port timeout) /\
  safe (client_protocol true dest) (leaves (λ ph, ph = Up \/ ph = Idle)) Fresh
    (nonblockingConnect_v3 ip port timeout).
Proof.
  split_and!; [apply nonblockingConnect_safe|apply nonblockingConnect_v2_safe|
               apply nonblockingConnect_v3_safe].
Qed.

(** A refused connection is reported by both ways of asking for the error, but
    [nonblockingConnect] then returns with its socket open, where
    [nonblockingConnect_v3] closes it. *)
Theorem refused_leaks :
  total (clients refused) (λ b w, b = false /\ exists fd ph, w = at_phase fd ph) Fresh
    (nonblockingConnect ip port timeout) /\
  total (clients refused) (λ b w, b = false /\ w = Gone) Fresh
    (nonblockingConnect_v3 ip port timeout).
Proof.
  split; (apply (dial_total refused); [done..|]); intros fd Hfd;
    (eapply total_bind; [apply refused_loop|]); intros ? w [-> ->].
  - eapply total_observe; [by apply observe_FD_SET|].
    eapply total_call_bind. { by eapply wait_ok. }
    intros sel w [(k & ph & [= <-] & -> & _) [Hr Hw]]. cbn in Hr.
    rewrite (proj2 (Z.leb_gt _ _) Hr).
    eapply total_observe; [by apply observe_FD_ISSET|].
    rewrite Hw, bool_decide_true by set_solver. eapply total_call_bind; [done|].
    intros [ret error] w [[-> _] [E1 E2]]. cbn in E1, E2. subst ret.
    rewrite (proj2 (Z.eqb_neq _ _) E2). apply total_ret. split; [done|]. by eexists _, _.
  - eapply total_call_bind; [done|].
    intros [ret revents] w [(k & ph & [= <-] & -> & _) [E1 E2]]. cbn in E1, E2. subst ret.
    destruct (Z.eqb_spec revents POLLOUT) as [->|_]; [done|]. cbn [andb Z.eqb].
    eapply total_call_bind; [done|]. intros [] w [-> _]. by apply total_ret.
Qed.

(** A connection that a signal interrupts is given up although it is being
    made: all three functions take the answer to their second [connect], which
    says that the connection is under way or made, for an error, close the socket
    and return false. *)
Theorem interrupted_gives_up :
  total (clients interrupted) (λ b w, b = false /\ w = Gone) Fresh
    (nonblockingConnect ip port timeout) /\
  total (clients interrupted) (λ b w, b = false /\ w = Gone) Fresh
    (nonblockingConnect_v2 ip port timeout) /\
  total (clients interrupted) (λ b w, b = false /\ w = Gone) Fresh
    (nonblockingConnect_v3 ip port timeout).
Proof.
  split_and!; (apply (dial_total interrupted); [done..|]); intros fd Hfd;
    (eapply total_bind; [apply interrupted_loop|]); intros ? w [-> ->]; by apply total_ret.
Qed.
End functions.

(** The waits of [main2]: at most five, and the socket stays open. *)
Lemma wait_loop_total fd d :
  fd_ok fd = true ->
  total (client_protocol true d) (λ _ w, exists ph, w = at_phase fd ph) (at_phase fd Trying)
    (wait_loop fd d).
Proof.
  intros Hfd. unfold wait_loop.
  apply (total_loop _ (λ _ w, exists ph, w = at_phase fd ph) (λ times _, Z.to_nat (5 - times)));
    [|by eexists].
  intros times w [ph ->]. destruct (Z.ltb_spec times 5) as [Ht|Ht]; cbn [negb].
  2: { apply total_ret. by eexists. }
  do 2 (eapply total_observe; [by apply observe_FD_SET|]).
  eapply total_call_bind. { eexists. split; [done|]. set_solver. }
  intros sel w (k & ph' & [= <-] & -> & _ & _).
  destruct (sel_ret sel =? -1); [apply total_ret; by eexists|].
  destruct (sel_ret sel =? 0); [apply total_ret; split; [by eexists|lia]|].
  eapply total_observe; [by apply observe_FD_ISSET|].
  assert (forall (b : bool), total (client_protocol true d)
    (λ r w, match r with
            | inl t => (exists ph, w = at_phase fd ph) /\ (Z.to_nat (5 - t) < Z.to_nat (5 - times))%nat
            | inr _ => exists ph, w = at_phase fd ph
            end) (at_phase fd ph')
    (if b then r ← syscall (Connect fd d);
               if r.2 =? EISCONN then mret (inr true) else mret (inl (times + 1))
     else mret (inl (times + 1)))) as Hlast.
  { intros [|]; [|apply total_ret; split; [by eexists|lia]].
    eapply total_call_bind. { by eexists. }
    intros r w (_ & k & [= <-] & ->). destruct (r.2 =? EISCONN); apply total_ret;
      [by eexists|split; [by eexists|lia]]. }
  case_bool_decide.
  - eapply total_observe; [by rewrite observe_bind|]. apply (Hlast true).
  - eapply total_observe; [by apply observe_FD_ISSET|]. apply Hlast.
Qed.

(** The second demonstration ends after at most five waits and closes its
    socket, except when it cannot be made non-blocking. *)
Theorem main2_ends :
  total (client_protocol true (mkAddr (inet_addr (lit "127.0.0.1")) (htons 9999)))
    (λ code w, code = 0 /\ w = Gone \/
               code = -1 /\ (w = Fresh \/ exists k, w = Open k /\ k_nonblock k = false))
    Fresh main2.
Proof.
  unfold main2. set (d := mkAddr _ _). eapply total_call_bind; [done|].
  intros fd w [[-> ->] | [Hfd ->]]; [apply total_ret; auto|].
  destruct (Z.eqb_spec fd (-1)) as [->|_]; [done|].
  eapply total_call_bind; [done|]. intros flags w ->.
  eapply total_call_bind; [done|]. intros r w [[-> ->] | [-> (k & [= <-] & ->)]].
  { apply total_ret. right. eauto. }
  replace (Z.testbit (Z.lor flags O_NONBLOCK) 11) with true by (by rewrite Z.lor_spec, orb_true_r).
  cbn [Z.eqb]. eapply total_call_bind. { by eexists. }
  intros [ret errno] w (Hret & k & [= <-] & ->). cbn in Hret.
  eapply (total_bind _ (λ _ w, exists ph, w = at_phase fd ph)).
  - destruct (Z.eqb_spec ret 0) as [->|Hr]; [apply total_ret; by eexists|].
    destruct (Z.eqb_spec errno EINPROGRESS) as [->|He]; [|apply total_ret; by eexists].
    destruct Hret as [-> | ->]; [done|]. by apply wait_loop_total.
  - intros b w [ph ->].
    eapply (total_bind _ (λ _ w, w = Gone)).
    + destruct b; (apply total_last; [done|]); by intros [] w ->.
    + intros _ w ->. apply total_ret. auto.
Qed.

(** [blockingConnect] returns with its socket open whatever happens, true
    exactly when the connection is made; and it dials the number before the first
    dot of the address, on a port whose bytes are not in network order. *)
Theorem blocking_leaks (ip : bytes) (port : Z) :
  total (client_protocol false (mkAddr (htonl (u32 (atoi ip))) (u16 port)))
    (λ b w, b = false /\ w = Fresh \/
            exists fd r, w = Open (mkClient fd false (connected r)) /\ (b = true <-> r.1 = 0))
    Fresh (blockingConnect ip port) /\
  mkAddr (htonl (u32 (atoi (lit "127.0.0.1")))) (u16 5000) = mkAddr (127 * 2 ^ 24) 5000.
Proof.
  split; [|by vm_compute]. unfold blockingConnect. eapply total_call_bind; [done|].
  intros fd w [[-> ->] | [Hfd ->]]; [apply total_ret; auto|].
  destruct (Z.eqb_spec fd (-1)) as [->|_]; [done|].
  eapply total_call_bind. { by eexists. }
  intros [ret errno] w (Hret & k & [= <-] & ->). cbn in Hret.
  destruct (Z.eqb_spec ret 0) as [->|Hr];
    [|destruct (negb (errno =? EINTR))]; apply total_ret; right; eexists _, (_, _); (split; [done|]); done.
Qed.
End connect.

(** ** Systems that answer like this

    A system that refuses, and one whose first [connect] is interrupted: the
    protocols of the theorems above have answers to every call they allow. *)

(** The connection of [k] when it is refused. *)
Definition fails (k : client) : csock :=
  with_phase k (if bool_decide (k_phase k = Trying) then Down else k_phase k).

Definition refusing (A : Type) (e : posixE A) (w : csock) : option (A * csock) :=
  match e in posixE A return option (A * csock) with
  | Socket => Some (3, Open (mkClient 3 false Idle))
  | Getfl _ => Some (2, w)
  | Setfl _ fl => match w with
                  | Open k => Some (0, Open (mkClient (k_fd k) (Z.testbit fl 11) (k_phase k)))
                  | _ => None
                  end
  | Connect _ _ => match w with Open k => Some ((-1, EINPROGRESS), with_phase k Trying) | _ => None end
  | Select _ rd wr _ => match w with Open k => Some (mkSelected 1 rd wr 0, fails k) | _ => None end
  | SockError _ => Some ((0, 111), w)
  | Poll _ _ _ => match w with Open k => Some ((1, Z.lor POLLOUT POLLERR), fails k) | _ => None end
  | Send _ _ => Some (7, w)
  | Sleep _ => Some (tt, w)
  | Close _ => Some (tt, Gone)
  | _ => None
  end.

Definition interrupting (A : Type) (e : posixE A) (w : csock) : option (A * csock) :=
  match e in posixE A return option (A * csock) with
  | Connect _ _ =>
      match w with
      | Open k => if bool_decide (k_phase k = Idle) then Some ((-1, EINTR), with_phase k Trying)
                  else Some ((-1, EISCONN), with_phase k Up)
      | _ => None
      end
  | e => refusing _ e w
  end.

Lemma fails_settles k : exists ph, fails k = with_phase k ph /\ settles (k_phase k) ph /\ ph <> Trying.
Proof.
  unfold fails. eexists. split; [done|]. case_bool_decide as H; [|by split; [left|]].
  rewrite H. split; [|done]. right. split; [done|by right].
Qed.

Section systems.
Context (inet_addr : bytes -> Z) (ip : bytes) (port : Z).

Lemma refusing_answers A (e : posixE A) w : allowed (clients inet_addr ip port refused) w e ->
  exists a w', refusing A e w = Some (a, w') /\ answers (clients inet_addr ip port refused) w e a w'.
Proof.
  destruct w as [|k|]; destruct e; cbn; intros H; try done;
    try (by eexists _, _); try (by destruct H as (? & ? & _)).
  { eexists _, _. split; [done|]. cbn. eauto. }
  - eexists _, _. split; [done|]. split; [right|done]. split; [done|]. by exists k.
  - eexists _, _. split; [done|]. split; [|done]. split; [by right|]. by exists k.
  - destruct (fails_settles k) as (ph & -> & Hs & Hne). eexists _, _. split; [done|]. split; [|done].
    by exists k, ph.
  - eexists _, _. split; [done|]. split; [|done]. split; [done|]. exists k. split; [done|by right].
  - destruct (fails_settles k) as (ph & -> & Hs & Hne). eexists _, _. split; [done|]. split; [|done].
    exists k, ph. split_and!; [done..|]. by right.
Qed.

Lemma interrupting_answers A (e : posixE A) w : allowed (clients inet_addr ip port interrupted) w e ->
  exists a w', interrupting A e w = Some (a, w') /\
    answers (clients inet_addr ip port interrupted) w e a w'.
Proof.
  intros H. destruct e; try (destruct (refusing_answers _ _ w H) as (v & w' & Ha & [Hd Hr]);
    exists v, w'; split; [exact Ha|]; split; [exact Hd|]; done).
  destruct H as (k & -> & _). cbn. case_bool_decide as Hk.
  - eexists _, _. split; [done|]. rewrite Hk. split; [|done]. split; [by right|]. by exists k.
  - eexists _, _. split; [done|]. split; [|destruct (k_phase k); auto; done].
    split; [by right|]. by exists k.
Qed.

End systems.

Example refused_runs :
  run refusing 30 (nonblockingConnect (λ _, 0) (lit "10.0.0.1") 80 3) Fresh =
    Some (false, at_phase 3 Down) /\
  run refusing 30 (nonblockingConnect_v3 (λ _, 0) (lit "10.0.0.1") 80 3) Fresh = Some (false, Gone).
Proof. by vm_compute. Qed.

Example interrupted_runs :
  run interrupting 30 (nonblockingConnect_v2 (λ _, 0) (lit "10.0.0.1") 80 3) Fresh = Some (false, Gone).
Proof. by vm_compute. Qed.
