(* ===== verification/Nbc.v ===== *)
(** * Connecting to many hosts at once
      (src/Linux/Demo/DemoProject/DemoProject/nbc.cpp)

    A connection is started to every address of every host, and [select] tells
    which of them have been made or have failed.  Of what the program prints the
    outcome for each socket is kept. *)
From S2P Require Import Prelude CLib Interact Posix.

Definition TIMEOUT : Z := 10.
Definition MAX_SOCKETS : Z := 10.

Record host := mkHost { hostname : bytes; h_port : bytes; sockets : list Z; numsock : Z }.

(** [sockets] has ten cells, of which the initialiser names three. *)
Definition host_new (name port : string) : host :=
  mkHost (lit name) (lit port) ([-1; -1; -1] ++ replicate 7 0) 0.

(** The global table, without the entry that ends it. *)
Definition hosts : list host :=
  [host_new "www.devnull.cz" "80"; host_new "www.devnull.cz" "33";
   host_new "mail.kolej.mff.cuni.cz" "999"; host_new "localhost" "22"; host_new "localhost" "7"].

(** [sockets[i]], read and written. *)
Definition get_socket (h : host) (i : Z) : prog Z :=
  match (if 0 <=? i then sockets h !! Z.to_nat i else None) with
  | Some fd => mret fd
  | None => abort
  end.
Definition put_socket (h : host) (i fd : Z) : prog host :=
  check ((0 <=? i) && (i <? lenZ (sockets h)));;
  mret (mkHost (hostname h) (h_port h) (<[Z.to_nat i := fd]> (sockets h)) (numsock h)).
Definition add_numsock (h : host) : host :=
  mkHost (hostname h) (h_port h) (sockets h) (numsock h + 1).

Lemma observe_put_socket {A} h i fd (k : host -> prog A) :
  0 <= i < lenZ (sockets h) ->
  observe (put_socket h i fd ≫= k) =
  observe (k (mkHost (hostname h) (h_port h) (<[Z.to_nat i := fd]> (sockets h)) (numsock h))).
Proof. intros Hi. unfold put_socket. arith_tests. by rewrite !observe_bind. Qed.

Lemma observe_get_socket {A} h i fd (k : Z -> prog A) :
  0 <= i -> sockets h !! Z.to_nat i = Some fd ->
  observe (get_socket h i ≫= k) = observe (k fd).
Proof. intros Hi Hfd. unfold get_socket. arith_tests. by rewrite Hfd. Qed.

(** ** Starting the connections *)

(** The set and the two counters. *)
Record counts := mkCounts { wrfds : fd_set; n_done : Z; num_sockets : Z }.

(** The body of the loop over the addresses of a host. *)
Definition connect_addr (h : host) (i : Z) (res : addrinfo) (s : counts) : prog (host * counts) :=
  if negb (ai_family res =? AF_INET) && negb (ai_family res =? AF_INET6) then mret (h, s)
  else
    error ← syscall (Getnameinfo (ai_addr res));
    if negb (error =? 0) then exit 1
    else
      fd ← syscall Socket;
      h ← put_socket h i fd;
      if fd =? -1 then mret (h, s)
      else
        let h := add_numsock h in
        flags ← syscall (Getfl fd);
        r ← syscall (Setfl fd (Z.lor flags O_NONBLOCK));
        if r =? -1 then exit 1
        else
          r ← syscall (Connect fd (ai_addr res));
          let '(ret, errno) := (r : Z * Z) in
          s ← (if ret =? -1 then
                 if errno =? EINPROGRESS then
                   w ← FD_SET fd (wrfds s); mret (mkCounts w (n_done s) (num_sockets s))
                 else mret (mkCounts (wrfds s) (n_done s + 1) (num_sockets s))
               else mret (mkCounts (wrfds s) (n_done s + 1) (num_sockets s)));
          mret (h, mkCounts (wrfds s) (n_done s) (num_sockets s + 1)).

Fixpoint connect_addrs (h : host) (i : Z) (res : list addrinfo) (s : counts) : prog (host * counts) :=
  match res with
  | [] => mret (h, s)
  | a :: res =>
      r ← connect_addr h i a s;
      connect_addrs r.1 (i + 1) res r.2
  end.

Fixpoint connect_hosts (hs : list host) (s : counts) : prog (list host * counts) :=
  match hs with
  | [] => mret ([], s)
  | h :: hs =>
      r ← syscall (Getaddrinfo (hostname h) (h_port h));
      let '(error, res) := (r : Z * list addrinfo) in
      if negb (error =? 0) then exit 1
      else
        r ← connect_addrs h 0 res s;
        rs ← connect_hosts hs r.2;
        mret (r.1 :: rs.1, rs.2)
  end.

(** ** Waiting for them *)

(** The body of the loop over the sockets of a host, for the socket at [i]; [orig]
    is [wrfds_orig]. *)
Definition check_socket (h : host) (i : Z) (w : fd_set) (orig : fd_set) (n : Z) : prog (fd_set * Z) :=
  fd ← get_socket h i;
  isset ← FD_ISSET fd w;
  if negb (isset : bool) then mret (orig, n)
  else
    r ← syscall (SockError fd);
    let '(ret, optval) := (r : Z * Z) in
    if ret =? -1 then exit 1
    else
      syscall (Report (if optval =? 0 then ConnectedOK fd else ConnectFailed fd optval));;
      orig ← FD_CLR fd orig;
      syscall (Close fd);;
      mret (orig, n + 1).

(** The sockets from [i] on, [k] of them. *)
Fixpoint check_sockets (k : nat) (h : host) (i : Z) (w orig : fd_set) (n : Z) : prog (fd_set * Z) :=
  match k with
  | O => mret (orig, n)
  | S k =>
      r ← check_socket h i w orig n;
      check_sockets k h (i + 1) w r.1 r.2
  end.

Fixpoint check_hosts (hs : list host) (w orig : fd_set) (n : Z) : prog (fd_set * Z) :=
  match hs with
  | [] => mret (orig, n)
  | h :: hs =>
      r ← check_sockets (Z.to_nat (numsock h)) h 0 w orig n;
      check_hosts hs w r.1 r.2
  end.

(** One second, in microseconds. *)
Definition SECOND : Z := 1000000.

(** The variables of the [while] loop; [w_tout] is [tout]. *)
Record waiting := mkWaiting { w_fds : fd_set; w_orig : fd_set; w_n : Z; w_timeouts : Z; w_tout : Z }.

(** One turn of it.  [select] writes to the set and to the time it is given: a turn in which
    it times out goes on with the set it has left, and sets the time again; the others go
    on with the time it has left. *)
Definition wait_turn (hs : list host) (total : Z) (s : waiting) : prog (waiting + fd_set) :=
  if w_n s =? total then mret (inr (w_orig s))
  else
    sel ← syscall (Select FD_SETSIZE ∅ (w_fds s) (w_tout s));
    let error := sel_ret sel in
    if error =? 0 then
      let timeouts := w_timeouts s + 1 in
      if timeouts =? TIMEOUT then mret (inr (w_orig s))
      else mret (inl (mkWaiting (sel_wr sel) (w_orig s) (w_n s) timeouts SECOND))
    else if error =? -1 then exit 1
    else
      r ← check_hosts hs (sel_wr sel) (w_orig s) (w_n s);
      mret (inl (mkWaiting r.1 r.1 r.2 (w_timeouts s) (sel_left sel))).

(** ** The sockets that are left *)

Fixpoint report_sockets (k : nat) (h : host) (i : Z) (orig : fd_set) : prog unit :=
  match k with
  | O => mret tt
  | S k =>
      fd ← get_socket h i;
      isset ← FD_ISSET fd orig;
      (if (isset : bool) then syscall (Report (TimedOut fd)) else mret tt);;
      report_sockets k h (i + 1) orig
  end.

Fixpoint report_hosts (hs : list host) (orig : fd_set) : prog unit :=
  match hs with
  | [] => mret tt
  | h :: hs => report_sockets (Z.to_nat (numsock h)) h 0 orig;; report_hosts hs orig
  end.

Definition nbc_main (hs : list host) : prog Z :=
  r ← connect_hosts hs (mkCounts ∅ 0 0);
  let '(hs, s) := (r : list host * counts) in
  orig ← loop (wait_turn hs (num_sockets s)) (mkWaiting (wrfds s) (wrfds s) (n_done s) 0 SECOND);
  report_hosts hs orig;;
  mret 0.

(** ** The protocol

    The sockets that are open, those whose connection is under way, how many waits
    have ended with nothing, whether a call has failed that ends the program,
    and what was printed. *)
Record net := mkNet {
  n_open : fd_set;
  n_trying : fd_set;
  n_idle : Z;
  n_failed : bool;
  n_told : list report;
}.

Definition net0 : net := mkNet ∅ ∅ 0 false [].

Definition net_failed (w : net) : net := mkNet (n_open w) (n_trying w) (n_idle w) true (n_told w).

(** The outcome of the connection has been printed. *)
Definition settled (fd : Z) (told : list report) : Prop :=
  ConnectedOK fd ∈ told \/ exists e, ConnectFailed fd e ∈ told.

(** [ab] says whether the process may leave its arrays.  The connections that are
    waited for and asked about are under way; a wait takes at most a second, and none
    is begun after ten that ended with nothing; no connection is reported after one that
    ended with nothing, but as timed out; a socket is closed when the outcome has
    been printed. *)
Definition may (ab : bool) (w : net) (A : Type) (e : posixE A) : Prop :=
  match e with
  | Getaddrinfo _ _ | Getnameinfo _ | Socket => True
  | Getfl fd | Setfl fd _ | Connect fd _ => fd ∈ n_open w
  | Select _ rd wr us => rd = ∅ /\ wr ⊆ n_trying w /\ 0 <= us <= 1000000 /\ n_idle w < 10
  | SockError fd => fd ∈ n_trying w
  | Report (ConnectedOK fd) | Report (ConnectFailed fd _) => fd ∈ n_trying w /\ n_idle w = 0
  | Report (TimedOut fd) => fd ∈ n_trying w
  | Close fd => fd ∈ n_open w /\ settled fd (n_told w)
  | Exit _ => n_failed w = true
  | Abort => ab = true
  | _ => False
  end.

(** Documented answers: [socket] returns a descriptor that is not in use, below
    [FD_SETSIZE]; [select] empties the set when it times out, and otherwise
    leaves some of its descriptors in it, and no more time than it was given. *)
Definition does (w : net) (A : Type) (e : posixE A) : A -> net -> Prop :=
  match e in posixE A return A -> net -> Prop with
  | Getaddrinfo _ _ => λ r w', w' = if r.1 =? 0 then w else net_failed w
  | Getnameinfo _ => λ r w', w' = if r =? 0 then w else net_failed w
  | Socket => λ a w', a = -1 /\ w' = w \/
      fd_ok a = true /\ (a ∉ n_open w) /\
      w' = mkNet ({[a]} ∪ n_open w) (n_trying w) (n_idle w) (n_failed w) (n_told w)
  | Setfl _ _ => λ a w', a = 0 /\ w' = w \/ a = -1 /\ w' = net_failed w
  | Connect fd _ => λ r w',
      w' = if (r.1 =? -1) && (r.2 =? EINPROGRESS)
           then mkNet (n_open w) ({[fd]} ∪ n_trying w) (n_idle w) (n_failed w) (n_told w)
           else w
  | Select _ _ wr us => λ a w',
      0 < sel_ret a /\ sel_wr a ⊆ wr /\ sel_wr a <> ∅ /\ 0 <= sel_left a <= us /\ w' = w \/
      sel_ret a = 0 /\ sel_wr a = ∅ /\
        w' = mkNet (n_open w) (n_trying w) (n_idle w + 1) (n_failed w) (n_told w) \/
      sel_ret a = -1 /\ w' = net_failed w
  | SockError _ => λ r w', w' = if r.1 =? -1 then net_failed w else w
  | Close fd => λ _ w',
      w' = mkNet (n_open w ∖ {[fd]}) (n_trying w ∖ {[fd]}) (n_idle w) (n_failed w) (n_told w)
  | Report r => λ _ w', w' = mkNet (n_open w) (n_trying w) (n_idle w) (n_failed w) (n_told w ++ [r])
  | _ => λ _ w', w' = w
  end.

Definition nbc_protocol (ab : bool) : protocol posixE net := Protocol (may ab) does.

(** The systems on which the program's arrays suffice: a name has at most ten
    addresses, all of the two families, and sockets can be made. *)
Definition ordinary (A : Type) (w : net) (e : posixE A) : A -> Prop :=
  match e in posixE A return A -> Prop with
  | Getaddrinfo _ _ => λ r, lenZ r.2 <= MAX_SOCKETS /\
      Forall (λ a, ai_family a = AF_INET \/ ai_family a = AF_INET6) r.2
  | Socket => λ a, a <> -1
  | _ => λ _, True
  end.

Abbreviation ordinary_protocol := (narrow (nbc_protocol false) ordinary).

(** Step over a call. *)
Ltac t_call := eapply total_call_bind; [cbn|intros ? ? [? ?]; cbn in *].

(** ** Starting *)

(** The descriptors a host has in use. *)
Definition in_use (h : host) : list Z := take (Z.to_nat (numsock h)) (sockets h).

(** The host's cells are filled up to [i] and the sockets of [fds] were made. *)
Record filled (h : host) (i : Z) (fds : list Z) : Prop := {
  fi_numsock : numsock h = i;
  fi_nonneg : 0 <= i;
  fi_cells : lenZ (sockets h) = MAX_SOCKETS;
  fi_fds : in_use h = fds;
  fi_len : lenZ fds = i;
}.

(** What the counters say of the sockets [fds] made so far. *)
Record counted (s : counts) (fds : list Z) (w : net) : Prop := {
  co_open : n_open w = list_to_set fds;
  co_trying : n_trying w = wrfds s;
  co_sub : wrfds s ⊆ list_to_set fds;
  co_nodup : NoDup fds;
  co_ok : Forall (λ fd, fd_ok fd = true) fds;
  co_done : n_done s = lenZ fds - Z.of_nat (size (wrfds s));
  co_num : num_sockets s = lenZ fds;
  co_idle : n_idle w = 0;
}.

Lemma filled_put h i fds fd :
  filled h i fds -> i < MAX_SOCKETS ->
  filled (add_numsock (mkHost (hostname h) (h_port h) (<[Z.to_nat i := fd]> (sockets h)) (numsock h)))
    (i + 1) (fds ++ [fd]).
Proof.
  intros [Hn H0 Hc Hf Hl] Hi. unfold in_use in *. split; cbn.
  - lia.
  - lia.
  - unfold lenZ in *. by rewrite length_insert.
  - unfold in_use. cbn. rewrite Hn. replace (Z.to_nat (i + 1)) with (S (Z.to_nat i)) by lia.
    erewrite take_S_r; [|apply list_lookup_insert_eq; unfold lenZ, MAX_SOCKETS in *; lia].
    rewrite take_insert_ge by lia. rewrite <- Hn at 1. by rewrite Hf.
  - unfold lenZ in *. rewrite length_app. cbn. lia.
Qed.

(** A socket that was made, with its connection under way or not. *)
Lemma counted_socket s fds w fd (b : bool) :
  counted s fds w -> fd_ok fd = true -> fd ∉ n_open w ->
  counted (mkCounts (if b then {[fd]} ∪ wrfds s else wrfds s)
             (if b then n_done s else n_done s + 1) (num_sockets s + 1))
    (fds ++ [fd])
    (mkNet ({[fd]} ∪ n_open w) (if b then {[fd]} ∪ n_trying w else n_trying w) (n_idle w)
       (n_failed w) (n_told w)).
Proof.
  intros [Ho Ht Hs Hn Hok Hd Hnum Hi] Hfd Hnew. rewrite Ho in Hnew.
  assert (fd ∉ fds) as Hnin by (by rewrite elem_of_list_to_set in Hnew).
  split; cbn.
  - rewrite Ho, list_to_set_app_L. cbn. set_solver.
  - by rewrite Ht.
  - rewrite list_to_set_app_L. cbn. destruct b; set_solver.
  - apply NoDup_app. split; [done|]. split; [|apply NoDup_singleton].
    intros x Hx Hx'. apply list_elem_of_singleton in Hx' as ->. done.
  - apply Forall_app. split; [done|]. by constructor.
  - rewrite lenZ_app. change (lenZ [fd]) with 1. destruct b; [|lia].
    rewrite size_union, size_singleton by set_solver. lia.
  - rewrite lenZ_app. change (lenZ [fd]) with 1. lia.
  - done.
Qed.

Lemma connect_addr_total h i a s pre fds w :
  filled h i fds -> i < MAX_SOCKETS -> ai_family a = AF_INET \/ ai_family a = AF_INET6 ->
  counted s (pre ++ fds) w ->
  total ordinary_protocol
    (λ r w', exists fd, filled r.1 (i + 1) (fds ++ [fd]) /\ counted r.2 (pre ++ fds ++ [fd]) w')
    w (connect_addr h i a s).
Proof.
  intros Hh Hi Hfam Hc. unfold connect_addr.
  replace (negb (ai_family a =? AF_INET) && negb (ai_family a =? AF_INET6)) with false
    by (by destruct Hfam as [-> | ->]).
  t_call; [done|]. subst. destruct (a0 =? 0); cbn [negb]; [|by apply total_exit].
  t_call; [done|]. rename a1 into fd.
  match goal with H : _ \/ _ |- _ => destruct H as [[-> _]|(Hfd & Hnew & ->)]; [done|] end.
  eapply total_observe; [apply observe_put_socket; rewrite (fi_cells _ _ _ Hh); split; [apply Hh|done]|].
  set (h' := mkHost _ _ _ _). destruct (Z.eqb_spec fd (-1)) as [->|_]; [done|].
  t_call; [set_solver|]. subst.
  t_call; [set_solver|].
  match goal with H : _ \/ _ |- _ => destruct H as [[-> ->] | [-> ->]] end; cbn [Z.eqb];
    [|by apply total_exit].
  t_call; [set_solver|]. subst. destruct a2 as [ret errno]. cbn [fst snd].
  pose proof (filled_put h i fds fd Hh Hi) as Hh'. fold h' in Hh'.
  pose proof (counted_socket s (pre ++ fds) w fd ((ret =? -1) && (errno =? EINPROGRESS)) Hc Hfd Hnew) as Hc'.
  rewrite <- app_assoc in Hc'.
  destruct (ret =? -1); cbn [andb] in *; [destruct (errno =? EINPROGRESS)|].
  - eapply (total_bind _ (λ c w', c = mkCounts ({[fd]} ∪ wrfds s) (n_done s) (num_sockets s) /\
                                  w' = mkNet ({[fd]} ∪ n_open w) ({[fd]} ∪ n_trying w) (n_idle w)
                                         (n_failed w) (n_told w))).
    + eapply total_observe; [by apply observe_FD_SET|]. by apply total_ret.
    + intros c w' [-> ->]. apply total_ret. by exists fd.
  - apply total_ret_bind, total_ret. by exists fd.
  - apply total_ret_bind, total_ret. by exists fd.
Qed.

Lemma connect_addrs_total h i res s pre fds w :
  filled h i fds -> i + lenZ res <= MAX_SOCKETS ->
  Forall (λ a, ai_family a = AF_INET \/ ai_family a = AF_INET6) res ->
  counted s (pre ++ fds) w ->
  total ordinary_protocol
    (λ r w', exists j fds', filled r.1 j fds' /\ counted r.2 (pre ++ fds') w')
    w (connect_addrs h i res s).
Proof.
  intros Hh Hi Hfam. revert h i s fds w Hh Hi.
  induction Hfam as [|a res Ha _ IH]; intros h i s fds w Hh Hi Hc; cbn [connect_addrs].
  - apply total_ret. by exists i, fds.
  - rewrite lenZ_cons in Hi. pose proof (lenZ_nonneg res).
    eapply total_bind; [apply (connect_addr_total h i a s pre fds); [done|lia|done|done]|].
    intros r w' (fd & Hh' & Hc'). eapply IH; [done|lia|done].
Qed.

(** The sockets of all hosts, in order. *)
Definition all_in_use (hs : list host) : list Z := concat (map in_use hs).

Definition fresh_host (h : host) : Prop := numsock h = 0 /\ lenZ (sockets h) = MAX_SOCKETS.

Definition host_ok (h : host) : Prop := 0 <= numsock h <= lenZ (sockets h).

Lemma connect_hosts_total hs : forall s pre w,
  Forall fresh_host hs -> counted s pre w ->
  total ordinary_protocol
    (λ r w', Forall host_ok r.1 /\ counted r.2 (pre ++ all_in_use r.1) w')
    w (connect_hosts hs s).
Proof.
  induction hs as [|h hs IH]; intros s pre w Hhs Hc; cbn [connect_hosts].
  - apply total_ret. cbn. by rewrite app_nil_r.
  - apply Forall_cons in Hhs as [[Hn Hl] Hhs].
    t_call; [done|]. destruct a as [error res]. cbn [fst snd] in *.
    destruct (error =? 0); subst; cbn [negb]; [|by apply total_exit].
    match goal with H : _ /\ Forall _ res |- _ => destruct H as [Hlen Hfam] end.
    assert (filled h 0 []) as Hh by (split; [done|done|done|unfold in_use; by rewrite Hn|done]).
    eapply total_bind; [apply (connect_addrs_total h 0 res s pre []); [done|lia|done|by rewrite app_nil_r]|].
    intros r w' (j & fds & Hh' & Hc'). eapply total_bind; [by apply (IH r.2 (pre ++ fds))|].
    intros rs w'' [Hok Hc'']. apply total_ret. cbn. split.
    + constructor; [|done]. destruct Hh' as [Hj H0 Hcell Hfds Hlen']. unfold host_ok, in_use in *.
      subst fds. rewrite Hj in *. unfold lenZ in Hlen'. rewrite length_take in Hlen'. unfold lenZ in *. lia.
    + unfold all_in_use in *. cbn. by rewrite (fi_fds _ _ _ Hh'), app_assoc.
Qed.

(** ** Waiting *)

(** The sockets of [fds] that [select] has marked. *)
Definition hit (w : fd_set) (fds : list Z) : fd_set := w ∩ list_to_set fds.

(** The state when those have been dealt with. *)
Definition dealt (s : fd_set) (v v' : net) : Prop :=
  exists told, v' = mkNet (n_open v ∖ s) (n_trying v ∖ s) (n_idle v) (n_failed v) told.

Lemma dealt_none v : dealt ∅ v v.
Proof. exists (n_told v). rewrite !difference_empty_L. by destruct v. Qed.

Lemma dealt_trans s1 s2 s v1 v2 v3 :
  dealt s1 v1 v2 -> dealt s2 v2 v3 -> s = s1 ∪ s2 -> dealt s v1 v3.
Proof.
  intros [t1 ->] [t2 ->] ->. exists t2. cbn. by rewrite !difference_difference_l_L.
Qed.

Lemma hit_app w a b : hit w (a ++ b) = hit w a ∪ hit w b.
Proof. unfold hit. rewrite list_to_set_app_L. set_solver. Qed.

Lemma hit_one w fd : hit w [fd] = if bool_decide (fd ∈ w) then {[fd]} else ∅.
Proof. unfold hit. cbn. case_bool_decide; set_solver. Qed.

(** The result for the sockets [fds]: [r] is the set and the count. *)
Definition checked (w : fd_set) (fds : list Z) (orig : fd_set) (n : Z) (v : net)
    (r : fd_set * Z) (v' : net) : Prop :=
  r = (orig ∖ hit w fds, n + Z.of_nat (size (hit w fds))) /\ dealt (hit w fds) v v'.

Lemma checked_nil w orig n v : checked w [] orig n v (orig, n) v.
Proof.
  unfold checked. assert (hit w [] = ∅) as -> by (unfold hit; set_solver).
  rewrite difference_empty_L, size_empty, Z.add_0_r. split; [done|apply dealt_none].
Qed.

Lemma checked_app w a b orig n v r v1 r' v2 :
  NoDup (a ++ b) -> checked w a orig n v r v1 -> checked w b r.1 r.2 v1 r' v2 ->
  checked w (a ++ b) orig n v r' v2.
Proof.
  intros Hn [-> H1] [-> H2]. cbn in *. split.
  - rewrite hit_app, difference_difference_l_L, size_union; [f_equal; lia|].
    apply NoDup_app in Hn as (_ & Hd & _). unfold hit. intros x Hx Hx'.
    apply elem_of_intersection in Hx as [_ Hx%elem_of_list_to_set].
    apply elem_of_intersection in Hx' as [_ Hx'%elem_of_list_to_set]. by apply (Hd x).
  - eapply dealt_trans; [done|done|apply hit_app].
Qed.

(** The marked sockets are under way. *)
Definition under_way (w : fd_set) (fds : list Z) (v : net) : Prop :=
  n_idle v = 0 /\ Forall (λ fd, fd_ok fd = true) fds /\ NoDup fds /\
  (forall fd, fd ∈ fds -> fd ∈ w -> fd ∈ n_trying v /\ fd ∈ n_open v).

Lemma under_way_app w a b v :
  under_way w (a ++ b) v ->
  under_way w a v /\ forall v', dealt (hit w a) v v' -> under_way w b v'.
Proof.
  intros (Hi & [Ha Hb]%Forall_app & (Hna & Hd & Hnb)%NoDup_app & Hu). split.
  - split_and!; [done..|]. intros fd Hfd. apply Hu. apply elem_of_app. by left.
  - intros v' [told ->]. split_and!; [done..|]. intros fd Hfd Hw. cbn.
    destruct (Hu fd) as [Ht Ho]; [apply elem_of_app; by right|done|].
    assert (fd ∉ hit w a) as Hnh.
    { unfold hit. rewrite elem_of_intersection, elem_of_list_to_set. intros [_ H]. by apply (Hd fd). }
    set_solver.
Qed.

Lemma settled_last fd e told :
  settled fd (told ++ [if e =? 0 then ConnectedOK fd else ConnectFailed fd e]).
Proof.
  destruct (e =? 0); [left|right; exists e]; apply elem_of_app; right; by apply list_elem_of_singleton.
Qed.

Lemma check_socket_total h i w orig n v fd :
  0 <= i -> sockets h !! Z.to_nat i = Some fd -> under_way w [fd] v ->
  total ordinary_protocol (checked w [fd] orig n v) v (check_socket h i w orig n).
Proof.
  intros Hi Hfd (Hidle & [Hok _]%Forall_cons & _ & Hu).
  unfold check_socket, checked. rewrite hit_one.
  eapply total_observe; [by apply observe_get_socket|]. cbv beta.
  eapply total_observe; [by apply observe_FD_ISSET|].
  case_bool_decide as Hw; cbn [negb].
  2: { apply total_ret. rewrite difference_empty_L, size_empty, Z.add_0_r. split; [done|apply dealt_none]. }
  destruct (Hu fd) as [Ht Ho]; [by apply list_elem_of_singleton|done|].
  t_call; [done|]. destruct a as [ret optval]. cbn [fst snd] in *. subst.
  destruct (ret =? -1); [by apply total_exit|].
  eapply total_call_bind; [by destruct (optval =? 0)|]. intros [] w1 [-> _].
  eapply total_observe; [by apply observe_FD_CLR|].
  t_call; [split; [done|apply settled_last]|]. subst. apply total_ret. rewrite size_singleton. split; [done|by eexists].
Qed.

Lemma check_sockets_total k : forall h i w orig n v,
  0 <= i -> (Z.to_nat i + k <= length (sockets h))%nat ->
  under_way w (take k (drop (Z.to_nat i) (sockets h))) v ->
  total ordinary_protocol (checked w (take k (drop (Z.to_nat i) (sockets h))) orig n v) v
    (check_sockets k h i w orig n).
Proof.
  induction k as [|k IH]; intros h i w orig n v Hi Hk Hu; cbn [check_sockets].
  - apply total_ret, checked_nil.
  - destruct (lookup_lt_is_Some_2 (sockets h) (Z.to_nat i)) as [fd Hfd]; [lia|].
    rewrite (drop_S _ _ _ Hfd) in *. cbn [take] in *.
    change (fd :: take k (drop (S (Z.to_nat i)) (sockets h)))
      with ([fd] ++ take k (drop (S (Z.to_nat i)) (sockets h))) in *.
    replace (S (Z.to_nat i)) with (Z.to_nat (i + 1)) in * by lia.
    pose proof Hu as (_ & _ & Hnd & _). apply under_way_app in Hu as [Hu1 Hu2].
    eapply total_bind; [by apply check_socket_total|]. intros r v1 Hr.
    eapply total_conseq; [apply (IH h (i + 1)); [lia|lia|apply Hu2, Hr]|].
    intros r' v2 Hr'. by eapply checked_app.
Qed.

Lemma check_hosts_total hs : forall w orig n v,
  Forall host_ok hs -> under_way w (all_in_use hs) v ->
  total ordinary_protocol (checked w (all_in_use hs) orig n v) v (check_hosts hs w orig n).
Proof.
  induction hs as [|h hs IH]; intros w orig n v Hhs Hu; cbn [check_hosts].
  - apply total_ret, checked_nil.
  - apply Forall_cons in Hhs as [Hh Hhs]. unfold all_in_use in *. cbn [map concat] in *.
    pose proof Hu as (_ & _ & Hnd & _). apply under_way_app in Hu as [Hu1 Hu2].
    unfold in_use in Hu1 at 1. rewrite <- (drop_0 (sockets h)) in Hu1.
    eapply total_bind.
    { apply (check_sockets_total _ h 0); [done|unfold host_ok, lenZ in Hh; lia|exact Hu1]. }
    intros r v1 Hr. change (drop (Z.to_nat 0) (sockets h)) with (sockets h) in Hr. fold (in_use h) in Hr.
    eapply total_conseq; [apply IH; [done|apply Hu2, Hr]|].
    intros r' v2 Hr'. by eapply checked_app.
Qed.

(** The variables of the loop against the connections under way; [F] are the
    sockets that were made. *)
Record waits (F : list Z) (s : waiting) (v : net) : Prop := {
  wa_trying : n_trying v = w_orig s;
  wa_made : w_orig s ⊆ list_to_set F;
  wa_open : w_orig s ⊆ n_open v;
  wa_n : w_n s = lenZ F - Z.of_nat (size (w_orig s));
  wa_timeouts : 0 <= w_timeouts s < TIMEOUT;
  wa_set : w_fds s = w_orig s /\ n_idle v = 0 \/ w_fds s = ∅;
  wa_idle : n_idle v = w_timeouts s;
  wa_tout : 0 <= w_tout s <= SECOND;
}.

(** What it waits for, and how often it may still time out. *)
Definition patience (s : waiting) : nat := size (w_orig s) + Z.to_nat (TIMEOUT - w_timeouts s).

Lemma waits_timeout F s v t sel :
  waits F s v -> t = w_timeouts s + 1 -> t <> TIMEOUT -> sel_wr sel = ∅ ->
  waits F (mkWaiting (sel_wr sel) (w_orig s) (w_n s) t SECOND)
    (mkNet (n_open v) (n_trying v) (n_idle v + 1) (n_failed v) (n_told v)).
Proof. intros [] -> Ht Hs. split; cbn; auto; unfold TIMEOUT, SECOND in *; lia. Qed.

Lemma waits_dealt F s v v' w left_us :
  waits F s v -> w ⊆ w_orig s -> w <> ∅ -> n_idle v = 0 -> 0 <= left_us <= w_tout s -> dealt w v v' ->
  let s' := mkWaiting (w_orig s ∖ w) (w_orig s ∖ w) (w_n s + Z.of_nat (size w)) (w_timeouts s) left_us in
  waits F s' v' /\ (patience s' < patience s)%nat.
Proof.
  intros [Ht Hm Ho Hn Hto _ Hid Hus] Hw Hne Hi Hl [told ->]. cbn.
  assert (size w <> 0)%nat by (by rewrite size_non_empty_iff, leibniz_equiv_iff).
  pose proof (subseteq_size _ _ Hw). pose proof (size_difference (w_orig s) w Hw) as Hd.
  split; [|unfold patience; cbn; lia].
  split; cbn; [by rewrite Ht|set_solver|set_solver|rewrite Hd; lia|done|by left|done|lia].
Qed.

Lemma hit_all (w : fd_set) F : w ⊆ list_to_set F -> hit w F = w.
Proof. unfold hit. set_solver. Qed.

Lemma wait_turn_total hs s v :
  Forall host_ok hs -> NoDup (all_in_use hs) -> Forall (λ fd, fd_ok fd = true) (all_in_use hs) ->
  waits (all_in_use hs) s v ->
  total ordinary_protocol
    (λ r v', match r with
             | inl s' => waits (all_in_use hs) s' v' /\ (patience s' < patience s)%nat
             | inr orig => n_trying v' = orig /\ orig ⊆ list_to_set (all_in_use hs) /\
                 (orig = ∅ \/ n_idle v' = 10)
             end) v (wait_turn hs (lenZ (all_in_use hs)) s).
Proof.
  intros Hhs Hnd Hok Hs. pose proof Hs as [Ht Hm Ho Hn Hto Hset Hid Hus]. unfold wait_turn.
  destruct (Z.eqb_spec (w_n s) (lenZ (all_in_use hs))) as [Hall|_].
  { apply total_ret. split_and!; [done..|left]. apply leibniz_equiv_iff, size_empty_iff. lia. }
  t_call. { unfold TIMEOUT, SECOND in *. split_and!; [done| |lia..]. destruct Hset as [[-> _] | ->]; set_solver. }
  match goal with H : _ \/ _ |- _ => destruct H as [(Hr & Hsub & Hne & Hl & ->)|[(Hr & Hz & ->)|[Hr ->]]] end.
  - arith_tests.
    destruct Hset as [[Hfds Hidle]|Hfds]; rewrite Hfds in Hsub; [|set_solver].
    eapply total_bind.
    + apply (check_hosts_total hs _ _ _ v); [done|]. split_and!; [done..|]. intros fd _ Hfd. set_solver.
    + intros r v' [-> Hd]. rewrite hit_all in * by set_solver. by apply total_ret, waits_dealt with (v := v).
  - arith_tests. destruct (Z.eqb_spec (w_timeouts s + 1) TIMEOUT) as [Hten|Hne]; apply total_ret.
    + split_and!; [done..|right]. cbn. rewrite Hid. exact Hten.
    + split; [by apply waits_timeout|]. unfold patience, TIMEOUT in *. cbn. lia.
  - arith_tests. by apply total_exit.
Qed.

(** ** The sockets that are left *)

(** What was printed grows. *)
Definition told_more (fds : list Z) (orig : fd_set) (v v' : net) : Prop :=
  n_trying v' = n_trying v /\ n_idle v' = n_idle v /\ n_told v ⊆ n_told v' /\
  forall fd, fd ∈ fds -> fd ∈ orig -> TimedOut fd ∈ n_told v'.

Lemma told_more_nil orig v : told_more [] orig v v.
Proof. split_and!; [done..|]. intros fd Hfd%elem_of_nil. done. Qed.

Lemma told_more_app a b orig v v1 v2 :
  told_more a orig v v1 -> told_more b orig v1 v2 -> told_more (a ++ b) orig v v2.
Proof.
  intros (Ht & Hi & Hs & Ha) (Ht' & Hi' & Hs' & Hb). split_and!; [by rewrite Ht'|by rewrite Hi'|set_solver|].
  intros fd [Hfd|Hfd]%elem_of_app Ho; [|by apply Hb]. by apply Hs', Ha.
Qed.

Lemma report_sockets_total k : forall h i orig v,
  0 <= i -> (Z.to_nat i + k <= length (sockets h))%nat ->
  let fds := take k (drop (Z.to_nat i) (sockets h)) in
  Forall (λ fd, fd_ok fd = true) fds -> orig ⊆ n_trying v ->
  total ordinary_protocol (λ _, told_more fds orig v) v (report_sockets k h i orig).
Proof.
  induction k as [|k IH]; intros h i orig v Hi Hk fds Hok Ho; cbn [report_sockets].
  - apply total_ret, told_more_nil.
  - destruct (lookup_lt_is_Some_2 (sockets h) (Z.to_nat i)) as [fd Hfd]; [lia|].
    subst fds. rewrite (drop_S _ _ _ Hfd) in *. cbn [take] in *.
    replace (S (Z.to_nat i)) with (Z.to_nat (i + 1)) in * by lia.
    apply Forall_cons in Hok as [Hfd' Hok].
    eapply total_observe; [by apply observe_get_socket|]. cbv beta.
    eapply total_observe; [by apply observe_FD_ISSET|].
    eapply (total_bind _ (λ _ v', told_more [fd] orig v v')).
    { case_bool_decide as Hin.
      - apply total_last; [cbn; by apply Ho|]. intros [] v' [-> _].
        split_and!; cbn; [done|done|set_solver|]. intros x ->%list_elem_of_singleton _.
        apply elem_of_app. right. by apply list_elem_of_singleton.
      - apply total_ret. split_and!; [done..|]. by intros x ->%list_elem_of_singleton. }
    intros [] v1 H1. eapply total_conseq; [apply (IH h (i + 1)); [lia|lia|done|]|].
    + destruct H1 as (-> & _). done.
    + intros [] v2. by apply (told_more_app [fd]).
Qed.

Lemma report_hosts_total hs : forall orig v,
  Forall host_ok hs -> Forall (λ fd, fd_ok fd = true) (all_in_use hs) -> orig ⊆ n_trying v ->
  total ordinary_protocol (λ _, told_more (all_in_use hs) orig v) v (report_hosts hs orig).
Proof.
  induction hs as [|h hs IH]; intros orig v Hhs Hok Ho; cbn [report_hosts].
  - apply total_ret, told_more_nil.
  - apply Forall_cons in Hhs as [Hh Hhs]. unfold all_in_use in *. cbn [map concat] in *.
    apply Forall_app in Hok as [Hok1 Hok2].
    eapply total_bind.
    { apply (report_sockets_total _ h 0); [done|unfold host_ok, lenZ in Hh; lia|exact Hok1|done]. }
    intros [] v1 H1. change (drop (Z.to_nat 0) (sockets h)) with (sockets h) in H1. fold (in_use h) in H1.
    eapply total_conseq; [apply IH; [done|done|]|].
    + destruct H1 as (-> & _). done.
    + intros [] v2. by apply told_more_app.
Qed.

(** ** The program *)

Lemma nbc_main_total hs : Forall fresh_host hs ->
  total ordinary_protocol
    (λ code v, code = 0 /\ (forall fd, fd ∈ n_trying v -> TimedOut fd ∈ n_told v) /\
       (n_trying v = ∅ \/ n_idle v = 10)) net0 (nbc_main hs).
Proof.
  intros Hhs. unfold nbc_main. eapply total_bind.
  { apply (connect_hosts_total hs _ []); [done|]. split; cbn; try done. constructor. }
  intros [hs' s] v [Hok [Ho Ht Hs Hnd Hfd Hd Hn Hi]]. cbn [fst snd app] in *. rewrite Hn.
  eapply total_bind.
  { apply (total_loop _ (waits (all_in_use hs')) (λ s _, patience s)
             (λ orig v, n_trying v = orig /\ orig ⊆ list_to_set (all_in_use hs') /\ (orig = ∅ \/ n_idle v = 10))).
    - intros s' v'. by apply wait_turn_total.
    - split; cbn; [done|done|by rewrite Ho|done|done|by left|done|by unfold SECOND]. }
  intros orig v' (Ht' & Hm & Hten). eapply total_bind; [by apply report_hosts_total; [..|rewrite Ht']|].
  intros [] v'' (Ht'' & Hid & _ & Hall). apply total_ret. split; [done|].
  rewrite Ht'', Ht', Hid. split; [|done]. intros fd Hin. apply Hall; [|done]. apply Hm in Hin. by apply elem_of_list_to_set in Hin.
Qed.

(** C11: Where every name has at most ten addresses, all of them of the families of IPv4
    and IPv6, and every socket can be made, the program never leaves its arrays and ends,
    whatever the network does: it begins no wait after ten that ended with nothing, and
    none of more than a second; it asks for the outcome of a connection only while that is
    under way, closes a socket only when the outcome has been printed, and when
    connections are still under way at its end, ten waits have ended with nothing and all
    of these have been reported as timed out. *)
Theorem nbc_ends :
  total ordinary_protocol
    (λ code v, code = 0 /\ (forall fd, fd ∈ n_trying v -> TimedOut fd ∈ n_told v) /\
       (n_trying v = ∅ \/ n_idle v = 10)) net0 (nbc_main hosts).
Proof. apply nbc_main_total. repeat constructor. Qed.

(** The variables after a wait that timed out: nothing is selected any more. *)
Lemma deaf_turn hs total_n orig n t v :
  n <> total_n -> 0 <= t < TIMEOUT -> n_idle v = t ->
  total (nbc_protocol false)
    (λ r v', n_told v' = n_told v /\
       match r with
       | inl s => s = mkWaiting ∅ orig n (t + 1) SECOND /\ t + 1 < TIMEOUT /\ n_idle v' = t + 1
       | inr orig' => orig' = orig
       end) v (wait_turn hs total_n (mkWaiting ∅ orig n t SECOND)).
Proof.
  intros Hn Ht Hid. unfold wait_turn. cbn [w_n w_fds w_orig w_timeouts w_tout]. arith_tests.
  eapply total_call_bind; [cbn; unfold TIMEOUT, SECOND in *; split_and!; [done|set_solver|lia..]|].
  intros sel v' Hsel. cbn in Hsel.
  destruct Hsel as [(_ & Hsub & Hne & _)|[(Hr & Hz & ->)|[Hr ->]]]; [set_solver|..]; arith_tests.
  - destruct (Z.eqb_spec (t + 1) TIMEOUT); apply total_ret; [done|]. rewrite Hz. cbn. split_and!; [done..|lia|lia].
  - by apply total_exit.
Qed.

(** Once a wait has timed out the program is deaf: it waits for the empty set
    until it gives up, and whatever happens to the connections meanwhile, none is
    looked at; all of them are left to be reported as timed out. *)
Theorem deaf hs total_n orig n t v :
  n <> total_n -> 0 <= t < TIMEOUT -> n_idle v = t ->
  total (nbc_protocol false) (λ orig' v', orig' = orig /\ n_told v' = n_told v) v
    (loop (wait_turn hs total_n) (mkWaiting ∅ orig n t SECOND)).
Proof.
  intros Hn Ht Hid.
  apply (total_loop _
    (λ s v', (exists t, s = mkWaiting ∅ orig n t SECOND /\ 0 <= t < TIMEOUT /\ n_idle v' = t) /\ n_told v' = n_told v)
    (λ s _, Z.to_nat (TIMEOUT - w_timeouts s))); [|by eauto].
  intros s v' [(u & -> & Hu & Hi) Hv']. eapply total_conseq; [by apply deaf_turn|].
  intros [s|orig'] v'' [Htold Hr]; [|by rewrite Htold].
  destruct Hr as (-> & Hu' & Hi'). cbn. split; [|lia]. split; [|by rewrite Htold]. exists (u + 1). by split_and!; [|lia..|].
Qed.

Lemma deaf_witness :
  total (nbc_protocol false) (λ orig' v', orig' = {[5]} /\ n_told v' = []) (mkNet {[5]} {[5]} 3 false [])
    (loop (wait_turn hosts 2) (mkWaiting ∅ {[5]} 1 3 SECOND)).
Proof. apply (deaf hosts 2 {[5]} 1 3 (mkNet {[5]} {[5]} 3 false [])); [discriminate|split; [discriminate|reflexivity]|reflexivity]. Defined.

(** ** Two runs

    Every name has one address and every connection is made; [sim_slow] waits
    bring nothing, and after them all connections are ready. *)
Record sim := mkSim { sim_next : Z; sim_slow : nat; sim_told : list report }.

Definition quick_net (A : Type) (e : posixE A) (w : sim) : option (A * sim) :=
  match e in posixE A return option (A * sim) with
  | Getaddrinfo _ _ => Some ((0, [mkAddrinfo AF_INET (mkAddr 0 0)]), w)
  | Getnameinfo _ => Some (0, w)
  | Socket => Some (sim_next w, mkSim (sim_next w + 1) (sim_slow w) (sim_told w))
  | Getfl _ => Some (2, w)
  | Setfl _ _ => Some (0, w)
  | Connect _ _ => Some ((-1, EINPROGRESS), w)
  | Select _ _ wr _ =>
      match sim_slow w with
      | S k => Some (mkSelected 0 ∅ ∅ 0, mkSim (sim_next w) k (sim_told w))
      | O => Some (mkSelected (Z.of_nat (size wr)) ∅ wr 0, w)
      end
  | SockError _ => Some ((0, 0), w)
  | Report r => Some (tt, mkSim (sim_next w) (sim_slow w) (sim_told w ++ [r]))
  | Close _ => Some (tt, w)
  | _ => None
  end.

Example quick_run :
  option_map (λ r, (r.1, sim_told r.2)) (run quick_net 200 (nbc_main (take 2 hosts)) (mkSim 3 0 [])) =
  Some (0, [ConnectedOK 3; ConnectedOK 4]).
Proof. vm_compute. reflexivity. Qed.

Example slow_run :
  option_map (λ r, (r.1, sim_told r.2)) (run quick_net 200 (nbc_main (take 2 hosts)) (mkSim 3 1 [])) =
  Some (0, [TimedOut 3; TimedOut 4]).
Proof. vm_compute. reflexivity. Qed.
