(* ===== verification/Endian.v ===== *)
(** * Byte order (src/Windows/Demo/DemoProject/DemoProject/JudgeEndian.cpp)

    Whether the machine stores the low byte of an integer first is a parameter.  A
    [long] has 32 bits, as on Windows; what the functions print is left out, but
    for the three numbers of [endianTest]. *)
From S2P Require Import Prelude.

(** The byte of [z] at bit [k]. *)
Definition octet (z k : Z) : Z := Z.land (Z.shiftr z k) 255.

Section machine.
Context (little : bool).

(** How the machine stores a [short] and a [long]. *)
Definition store16 (i : Z) : list Z := if little then [octet i 0; octet i 8] else [octet i 8; octet i 0].
Definition store32 (n : Z) : list Z :=
  if little then [octet n 0; octet n 8; octet n 16; octet n 24]
  else [octet n 24; octet n 16; octet n 8; octet n 0].

(** [je.arr] after [je.i = i]. *)
Definition JEndian (i : Z) : list Z := store16 i.

Definition judgeEndian : Z :=
  let arr := JEndian 0x1234 in
  if bool_decide (arr = [0x34; 0x12]) then 0
  else if bool_decide (arr = [0x12; 0x34]) then 1
  else -1.

(** [ret] is an [int]: it is converted to be combined with an [unsigned long], and
    back to be stored. *)
Definition or_into (ret : Z) (x : Z) : Z := s32 (Z.lor (u32 ret) x).

Definition Htonl (n : Z) : option Z :=
  let endian := judgeEndian in
  if endian =? -1 then None
  else if endian =? 0 then
    let ret := s32 (u32 (Z.shiftl (Z.land n 0x000000FF) 24)) in
    let ret := or_into ret (u32 (Z.shiftl (Z.land n 0x0000FF00) 8)) in
    let ret := or_into ret (Z.shiftr (Z.land n 0x00FF0000) 8) in
    let ret := or_into ret (Z.shiftr (Z.land n 0xFF000000) 24) in
    Some (u32 ret)
  else Some n.

Definition Ntohl (n : Z) : option Z :=
  let endian := judgeEndian in
  if endian =? -1 then None
  else if endian =? 0 then
    let ret := s32 (u32 (Z.shiftl (Z.land n 0x000000FF) 24)) in
    let ret := or_into ret (u32 (Z.shiftl (Z.land n 0x0000FF00) 8)) in
    let ret := or_into ret (Z.shiftr (Z.land n 0x00FF0000) 8) in
    let ret := or_into ret (Z.shiftr (Z.land n 0xFF000000) 24) in
    Some (u32 ret)
  else Some n.

(** The numbers printed. *)
Definition endianTest : option (list Z) :=
  let n := 0x12345678 in
  h ← Htonl n; m ← Ntohl h; Some [n; h; m].

(** The frame of the demo project (Common.cpp, main.cpp): what is printed, and the result. *)
Definition demoEntry : option (list Z) := endianTest.

Definition main : option (list Z * Z) :=
  shown ← demoEntry; Some (shown, 0).

Lemma judgeEndian_ok : judgeEndian = if little then 0 else 1.
Proof. unfold judgeEndian, JEndian, store16. by destruct little; vm_compute. Qed.

End machine.

(** ** The bytes in reverse order *)

Lemma u32_land z : u32 z = Z.land z (Z.ones 32).
Proof. unfold u32. by rewrite Z.land_ones. Qed.

Lemma u32_s32 z : u32 (s32 z) = u32 z.
Proof. unfold u32, s32. rewrite Zminus_mod_idemp_l. f_equal. lia. Qed.

Lemma u32_lor a b : u32 (Z.lor a b) = Z.lor (u32 a) (u32 b).
Proof. by rewrite !u32_land, Z.land_lor_distr_l. Qed.

Lemma u32_u32 z : u32 (u32 z) = u32 z.
Proof. apply u32_small, u32_range. Qed.

Lemma octet_range z k : 0 <= octet z k < 256.
Proof. unfold octet. change 255 with (Z.ones 8). rewrite Z.land_ones by lia. by apply Z.mod_pos_bound. Qed.

Lemma octet_lor a b k : octet (Z.lor a b) k = Z.lor (octet a k) (octet b k).
Proof. unfold octet. by rewrite Z.shiftr_lor, Z.land_lor_distr_l. Qed.

(** Cutting a byte out where it is. *)
Lemma octet_mask n k : 0 <= k -> Z.land n (Z.shiftl 255 k) = Z.shiftl (octet n k) k.
Proof.
  intros Hk. unfold octet. rewrite Z.shiftl_land, <- Z.ldiff_ones_r by done.
  apply Z.bits_inj'. intros i Hi. rewrite !Z.land_spec, Z.ldiff_spec, !Z.shiftl_spec by done.
  destruct (Z.ltb_spec i k); [rewrite (Z.testbit_neg_r 255) by lia; by rewrite !andb_false_r|].
  rewrite Z.ones_spec_high by lia. by rewrite andb_true_r.
Qed.

(** A byte that was put elsewhere. *)
Lemma octet_shiftl x m k : 0 <= x < 256 -> 0 <= m -> 0 <= k -> m = k \/ m + 8 <= k \/ k + 8 <= m ->
  octet (Z.shiftl x m) k = if m =? k then x else 0.
Proof.
  intros Hx Hm Hk H. unfold octet. change 255 with (Z.ones 8). rewrite Z.land_ones by lia.
  destruct (Z.leb_spec k m).
  - rewrite Z.shiftr_shiftl_l, Z.shiftl_mul_pow2 by lia. destruct (Z.eqb_spec m k) as [->|].
    + rewrite Z.sub_diag, Z.mul_1_r, Z.mod_small; lia.
    + replace (m - k) with (m - k - 8 + 8) by lia. rewrite Z.pow_add_r, Z.mul_assoc, Z.mod_mul by lia. done.
  - rewrite Z.shiftr_shiftl_r, Z.shiftr_div_pow2 by lia. arith_tests.
    rewrite Z.div_small, Z.mod_0_l; [done|lia|]. split; [lia|].
    apply Z.lt_le_trans with (2 ^ 8); [lia|]. apply Z.pow_le_mono_r; lia.
Qed.

Definition swap (n : Z) : Z :=
  Z.lor (Z.lor (Z.lor (Z.shiftl (octet n 0) 24) (Z.shiftl (octet n 8) 16))
           (Z.shiftl (octet n 16) 8)) (octet n 24).

Lemma u32_octet n j m : 0 <= m <= 24 -> u32 (Z.shiftl (octet n j) m) = Z.shiftl (octet n j) m.
Proof.
  intros Hm. pose proof (octet_range n j). rewrite Z.shiftl_mul_pow2 by lia. apply u32_small.
  pose proof (Z.pow_le_mono_r 2 m 24). nia.
Qed.

Lemma assemble n :
  u32 (or_into (or_into (or_into (s32 (u32 (Z.shiftl (Z.land n 255) 24)))
    (u32 (Z.shiftl (Z.land n 65280) 8))) (Z.shiftr (Z.land n 16711680) 8))
    (Z.shiftr (Z.land n 4278190080) 24)) = swap n.
Proof.
  change (Z.land n 255) with (octet n 0). change 65280 with (Z.shiftl 255 8).
  change 16711680 with (Z.shiftl 255 16). change 4278190080 with (Z.shiftl 255 24).
  rewrite !octet_mask, Z.shiftl_shiftl, !Z.shiftr_shiftl_l by lia.
  cbn [Z.add Z.sub Z.opp Z.pos_sub Pos.add]. unfold or_into.
  rewrite ?u32_s32, ?u32_lor, ?u32_u32, ?u32_s32, ?u32_lor, ?u32_u32, ?u32_s32, ?u32_lor, ?u32_u32.
  by rewrite !u32_octet, Z.shiftl_0_r by lia.
Qed.

(** The bytes of the result are those of the argument, from the other end. *)
Lemma octet_swap n k : k = 0 \/ k = 8 \/ k = 16 \/ k = 24 -> octet (swap n) k = octet n (24 - k).
Proof.
  intros Hk. unfold swap. rewrite !octet_lor, <- (Z.shiftl_0_r (octet n 24)).
  rewrite !octet_shiftl by (try apply octet_range; lia).
  destruct Hk as [-> | [-> | [-> | ->]]]; cbn [Z.eqb Pos.eqb Z.sub Z.opp Z.add Z.pos_sub];
    by rewrite ?Z.lor_0_r.
Qed.

Lemma swap_range n : 0 <= swap n < 2 ^ 32.
Proof. rewrite <- assemble. apply u32_range. Qed.

(** A number is put together from its bytes. *)
Lemma octets n : 0 <= n < 2 ^ 32 ->
  Z.lor (Z.lor (Z.lor (Z.shiftl (octet n 24) 24) (Z.shiftl (octet n 16) 16))
           (Z.shiftl (octet n 8) 8)) (octet n 0) = n.
Proof.
  intros Hn. change (octet n 0) with (Z.land n 255). rewrite <- !octet_mask by lia.
  rewrite <- !Z.land_lor_distr_r. change (Z.lor _ _) with (Z.ones 32).
  rewrite Z.land_ones by lia. by apply Z.mod_small.
Qed.

Lemma swap_swap n : 0 <= n < 2 ^ 32 -> swap (swap n) = n.
Proof.
  intros Hn. unfold swap at 1. rewrite !octet_swap by auto. cbn [Z.sub Z.opp Z.add Z.pos_sub].
  by apply octets.
Qed.

Lemma Htonl_eq little n : Htonl little n = Some (if little then swap n else n).
Proof. unfold Htonl. rewrite judgeEndian_ok. destruct little; cbn [Z.eqb]; [|done]. f_equal. apply assemble. Qed.

Lemma Ntohl_eq little n : Ntohl little n = Some (if little then swap n else n).
Proof. apply Htonl_eq. Qed.

(** On a machine of either byte order [Htonl] gives the number whose bytes in
    memory are those of its argument from the highest to the lowest, and [Ntohl]
    gives the argument back; the assertion that the order is known never fails. *)
Theorem Htonl_network_order little n :
  0 <= n < 2 ^ 32 ->
  exists h, Htonl little n = Some h /\ 0 <= h < 2 ^ 32 /\
    store32 little h = [octet n 24; octet n 16; octet n 8; octet n 0] /\
    Ntohl little h = Some n.
Proof.
  intros Hn. rewrite Htonl_eq. eexists. split; [done|]. rewrite Ntohl_eq. unfold store32.
  destruct little; [|done]. rewrite !octet_swap by auto. rewrite swap_swap by done.
  split; [apply swap_range|done].
Qed.

Lemma Htonl_network_order_witness :
  exists h, Htonl true 0x12345678 = Some h /\ 0 <= h < 2 ^ 32 /\
    store32 true h = [0x12; 0x34; 0x56; 0x78] /\ Ntohl true h = Some 0x12345678.
Proof. apply (Htonl_network_order true 0x12345678). split; [discriminate|reflexivity]. Defined.

Example endianTest_ex : endianTest true = Some [0x12345678; 0x78563412; 0x12345678].
Proof. vm_compute. reflexivity. Qed.
