(* ===== verification/Web.v ===== *)
(** * A web server with a thread for each connection
      (src/Linux/TCP-IPNetworkPrograming/http_server/http_server.c)

    [request_handler] reads one line, takes it to pieces with [strtok] and sends
    back a file.  The calls of [stdio.h] are events; what the server prints on its
    console is left out.  [main] and its threads, which share the variable the
    accepted socket is in, are a step relation. *)
From S2P Require Import Prelude CLib CStr Interact.

(** ** strtok *)

(** The token at the beginning of [s], or the null pointer, and the text that is left
    for the next call. *)
Definition token (d : byte -> bool) (s : bytes) : option bytes * bytes :=
  match drop_while d s with
  | [] => (None, [])
  | s => (Some (take_while (λ c, negb (d c)) s), tail (drop_while (λ c, negb (d c)) s))
  end.

(** What it means: the words of a text, [cur] being the beginning of the first. *)
Fixpoint words_from (d : byte -> bool) (cur s : bytes) : list bytes :=
  match s with
  | [] => match cur with [] => [] | _ => [cur] end
  | c :: s =>
      if d c then match cur with [] => words_from d [] s | _ => cur :: words_from d [] s end
      else words_from d (cur ++ [c]) s
  end.
Abbreviation words d s := (words_from d [] s).

Lemma words_blank d s : words d s = words d (drop_while d s).
Proof.
  unfold drop_while. induction s as [|c s IH]; [done|]. cbn. destruct (d c) eqn:Hc.
  - rewrite IH. by destruct (span d s).
  - cbn. by rewrite Hc.
Qed.

Lemma words_from_token d s : forall cur, cur <> [] ->
  words_from d cur s = (cur ++ take_while (λ c, negb (d c)) s) ::
                       words d (tail (drop_while (λ c, negb (d c)) s)).
Proof.
  unfold take_while, drop_while. induction s as [|c s IH]; intros cur Hcur; cbn.
  - rewrite app_nil_r. by destruct cur.
  - destruct (d c) eqn:Hc; cbn.
    + rewrite app_nil_r. by destruct cur.
    + rewrite IH by (by destruct cur). destruct (span _ s) as [a r]. cbn. by rewrite <- app_assoc.
Qed.

Lemma token_words d s :
  words d s = match token d s with (Some t, r) => t :: words d r | (None, _) => [] end.
Proof.
  rewrite words_blank. unfold token. destruct (drop_while d s) as [|c s'] eqn:Hs; [done|].
  pose proof (drop_while_head _ _ _ _ Hs) as Hc. cbn [words_from]. rewrite Hc.
  rewrite words_from_token by done. unfold take_while, drop_while. cbn. rewrite Hc. cbn.
  by destruct (span _ s').
Qed.

(** ** request_handler *)

Definition BUF_SIZE : Z := 1024.
Definition SMALL_BUF : Z := 100.

(** The calls of [stdio.h]; a [FILE] is a number, 0 the null pointer.  [Crash] is
    the end of the process: a null pointer is read, or an array is left or read
    before it is filled.  [Saved] and [Save] are the uses that [strtok] makes of its
    static variable, which is one for all threads: the text that is left to be taken
    to pieces. *)
Variant stdioE : Type -> Type :=
  | Fdopen (fd : Z) (mode : bytes) : stdioE Z
  | Dup (fd : Z) : stdioE Z
  | Fopen (name mode : bytes) : stdioE Z
  | Fgets (n fp : Z) : stdioE (option bytes)
  | Fputs (s : bytes) (fp : Z) : stdioE unit
  | Fflush (fp : Z) : stdioE unit
  | Fclose (fp : Z) : stdioE unit
  | Saved : stdioE bytes
  | Save (s : bytes) : stdioE unit
  | Crash : stdioE Empty_set.

Abbreviation web := (itree stdioE).

Definition crash {A} : web A := syscall Crash ≫= λ v : Empty_set, match v with end.

(** [strcpy] into an array of [n] bytes. *)
Definition strcpy (n : Z) (s : option bytes) : web bytes :=
  match s with
  | Some s => if lenZ s <? n then mret s else crash
  | None => crash
  end.

(** [strtok], of a text or, with the null pointer, of what the last call has left. *)
Definition strtok (s : option bytes) (d : byte -> bool) : web (option bytes) :=
  s ← match s with Some s => mret s | None => syscall Saved end;
  syscall (Save (token d s).2);;
  mret (token d s).1.

Definition BLANK_SLASH : byte -> bool := one_of (lit " /").
Definition DOT : byte -> bool := one_of (lit ".").
Definition eol : bytes := [CR; LF].

Definition content_type (file : bytes) : web bytes :=
  file_name ← strcpy SMALL_BUF (Some file);
  strtok (Some file_name) DOT;;
  t ← strtok None DOT;
  extension ← strcpy SMALL_BUF t;
  if bool_decide (extension = lit "html") || bool_decide (extension = lit "htm")
  then mret (lit "text/html") else mret (lit "text/plain").

Definition send_error (fp : Z) : web unit :=
  syscall (Fputs (lit "HTPP/1.0 400 Bad Request" ++ eol) fp);;
  syscall (Fputs (lit "Server:Linux Web Sserver " ++ eol) fp);;
  syscall (Fputs (lit "Content-length:2048" ++ eol) fp);;
  syscall (Fputs (lit "Content-type:text/html" ++ eol ++ eol) fp);;
  syscall (Fflush fp).

(** The loop of [send_data]. *)
Definition copy_loop (send_file fp : Z) : web unit :=
  loop (λ _ : unit,
    buf ← syscall (Fgets BUF_SIZE send_file);
    match buf with
    | None => mret (inr tt)
    | Some buf => syscall (Fputs (cstr buf) fp);; syscall (Fflush fp);; mret (inl tt)
    end) tt.

Definition send_data (fp : Z) (ct file_name : bytes) : web unit :=
  cnt_type ← strcpy SMALL_BUF (Some (lit "Content-type:" ++ ct ++ eol ++ eol));
  send_file ← syscall (Fopen file_name (lit "r"));
  if send_file =? 0 then send_error fp
  else
    syscall (Fputs (lit "HTTP/1.0 200 OK" ++ eol) fp);;
    syscall (Fputs (lit "Server:Linux Web Server " ++ eol) fp);;
    syscall (Fputs (lit "Content-length:2048" ++ eol) fp);;
    syscall (Fputs cnt_type fp);;
    copy_loop send_file fp;;
    syscall (Fflush fp);;
    syscall (Fclose fp).

Definition refuse (clnt_read clnt_write : Z) : web unit :=
  send_error clnt_write;;
  syscall (Fclose clnt_read);;
  syscall (Fclose clnt_write).

Definition request_handler (clnt_sock : Z) : web unit :=
  clnt_read ← syscall (Fdopen clnt_sock (lit "r"));
  fd ← syscall (Dup clnt_sock);
  clnt_write ← syscall (Fdopen fd (lit "w"));
  line ← syscall (Fgets SMALL_BUF clnt_read);
  match line with
  | None => crash
  | Some line =>
      let req_line := cstr line in
      if bool_decide (strstr req_line (lit "HTTP/") = None) then refuse clnt_read clnt_write
      else
        t ← strtok (Some req_line) BLANK_SLASH;
        method ← strcpy 10 t;
        t ← strtok None BLANK_SLASH;
        file_name ← strcpy 30 t;
        ct ← content_type file_name;
        ct ← strcpy 15 (Some ct);
        if negb (bool_decide (method = lit "GET")) then refuse clnt_read clnt_write
        else
          syscall (Fclose clnt_read);;
          send_data clnt_write ct file_name
  end.

(** ** What it is to do *)

Inductive action := NotHttp | Crashes | NotGet | Serve (ct name : bytes).

Definition type_of (ext : bytes) : bytes :=
  if bool_decide (ext = lit "html") || bool_decide (ext = lit "htm") then lit "text/html" else lit "text/plain".

(** A request is answered if it has a method of at most nine bytes and a name of at
    most 29 that has a dot inside; the name is the first part of the path. *)
Definition decide_request (line : option bytes) : action :=
  match line with
  | None => Crashes
  | Some line =>
      let l := cstr line in
      if bool_decide (strstr l (lit "HTTP/") = None) then NotHttp
      else match words BLANK_SLASH l with
           | m :: f :: _ =>
               if (9 <? lenZ m) || (29 <? lenZ f) then Crashes
               else match words DOT f with
                    | _ :: ext :: _ =>
                        if bool_decide (m = lit "GET") then Serve (type_of ext) f else NotGet
                    | _ => Crashes
                    end
           | _ => Crashes
           end
  end.

Definition error_text : bytes :=
  lit "HTPP/1.0 400 Bad Request" ++ eol ++ lit "Server:Linux Web Sserver " ++ eol ++
  lit "Content-length:2048" ++ eol ++ lit "Content-type:text/html" ++ eol ++ eol.

Definition ok_text (ct : bytes) : bytes :=
  lit "HTTP/1.0 200 OK" ++ eol ++ lit "Server:Linux Web Server " ++ eol ++
  lit "Content-length:2048" ++ eol ++ lit "Content-type:" ++ ct ++ eol ++ eol.

(** ** The protocol

    The two streams of the connection, the document that is read with what is left
    of it, what was written, and what [strtok] has kept, which here is what the thread
    itself has left there: no other thread calls [strtok] between two of its calls. *)
Record conn := mkConn {
  c_read : option Z; c_dup : option Z; c_write : option Z; c_doc : option (Z * bytes); c_out : bytes; c_saved : bytes
}.
Definition conn0 : conn := mkConn None None None None [] [].

(** What [fgets] reads of [d]: as far as a line feed, and at most [n - 1] bytes. *)
Fixpoint fgets_cut (n : nat) (d : bytes) : bytes * bytes :=
  match n, d with
  | S n, c :: d => if bool_decide (c = LF) then ([c], d)
                   else let '(a, r) := fgets_cut n d in (c :: a, r)
  | _, _ => ([], d)
  end.

Section protocol.
(** The connection, the line that comes over it, and the files. *)
Context (fd : Z) (line : option bytes) (files : bytes -> option bytes).

Definition may (w : conn) (A : Type) (e : stdioE A) : Prop :=
  match e with
  | Fdopen fd' mode =>
      fd' = fd /\ mode = lit "r" /\ c_read w = None \/ c_dup w = Some fd' /\ mode = lit "w" /\ c_write w = None
  | Dup fd' => fd' = fd /\ c_dup w = None
  | Fopen _ mode => mode = lit "r" /\ c_doc w = None
  | Fgets n fp => 1 < n /\ (c_read w = Some fp /\ n = SMALL_BUF \/ exists d, c_doc w = Some (fp, d))
  | Fputs _ fp | Fflush fp => c_write w = Some fp
  | Fclose fp => c_read w = Some fp \/ c_write w = Some fp
  | Saved | Save _ => True
  | Crash => decide_request line = Crashes
  end.

(** Streams are not null and differ; [fopen] fails when there is no such file. *)
Definition does (w : conn) (A : Type) (e : stdioE A) : A -> conn -> Prop :=
  match e in stdioE A return A -> conn -> Prop with
  | Fdopen _ mode => λ a w', a <> 0 /\ c_read w <> Some a /\
      w' = if bool_decide (mode = lit "r")
           then mkConn (Some a) (c_dup w) (c_write w) (c_doc w) (c_out w) (c_saved w)
           else mkConn (c_read w) (c_dup w) (Some a) (c_doc w) (c_out w) (c_saved w)
  | Dup _ => λ a w', w' = mkConn (c_read w) (Some a) (c_write w) (c_doc w) (c_out w) (c_saved w)
  | Fopen name _ => λ a w',
      match files name with
      | Some d => a <> 0 /\ c_read w <> Some a /\ c_write w <> Some a /\
          w' = mkConn (c_read w) (c_dup w) (c_write w) (Some (a, d)) (c_out w) (c_saved w)
      | None => a = 0 /\ w' = w
      end
  | Fgets n fp => λ a w',
      if bool_decide (c_read w = Some fp) then a = line /\ w' = w
      else exists d, c_doc w = Some (fp, d) /\
        match d with
        | [] => a = None /\ w' = w
        | _ => let '(s, r) := fgets_cut (Z.to_nat (n - 1)) d in
               a = Some s /\ w' = mkConn (c_read w) (c_dup w) (c_write w) (Some (fp, r)) (c_out w) (c_saved w)
        end
  | Fputs s _ => λ _ w', w' = mkConn (c_read w) (c_dup w) (c_write w) (c_doc w) (c_out w ++ s) (c_saved w)
  | Fflush _ => λ _ w', w' = w
  | Fclose fp => λ _ w', w' =
      if bool_decide (c_read w = Some fp) then mkConn None (c_dup w) (c_write w) (c_doc w) (c_out w) (c_saved w)
      else mkConn (c_read w) (c_dup w) None (c_doc w) (c_out w) (c_saved w)
  | Saved => λ a w', a = c_saved w /\ w' = w
  | Save s => λ _ w', w' = mkConn (c_read w) (c_dup w) (c_write w) (c_doc w) (c_out w) s
  | Crash => λ _ _, False
  end.

Definition web_protocol : protocol stdioE conn := Protocol may does.

(** The connection when it has been dealt with: a file that was opened stays open,
    and so does the connection when there is no such file. *)
Definition answered (w : conn) : Prop :=
  c_read w = None /\
  match decide_request line with
  | NotHttp | NotGet => c_write w = None /\ c_doc w = None /\ c_out w = error_text
  | Serve ct name =>
      match files name with
      | Some d => c_write w = None /\ (exists h, c_doc w = Some (h, [])) /\ c_out w = ok_text ct ++ d
      | None => c_write w <> None /\ c_doc w = None /\ c_out w = error_text
      end
  | Crashes => False
  end.
End protocol.

Lemma token_length d s :
  match (token d s).1 with Some t => lenZ t <= lenZ s | None => True end /\
  lenZ (token d s).2 <= lenZ s.
Proof.
  unfold token, lenZ. pose proof (span_app d s) as H1.
  destruct (drop_while d s) as [|c s']; [cbn; lia|]. set (s1 := c :: s') in *.
  pose proof (span_app (λ c, negb (d c)) s1) as H2.
  apply (f_equal length) in H1, H2. rewrite length_app in H1, H2. cbn [fst snd].
  assert (forall l : bytes, (length (tail l) <= length l)%nat) as Ht by (intros [|? ?]; cbn; lia).
  specialize (Ht (drop_while (λ c, negb (d c)) s1)). lia.
Qed.

Lemma fgets_cut_app n : forall d, (fgets_cut n d).1 ++ (fgets_cut n d).2 = d.
Proof.
  induction n as [|n IH]; intros [|c d]; try done. cbn. case_bool_decide; [done|].
  specialize (IH d). destruct (fgets_cut n d). cbn in *. by rewrite IH.
Qed.

Lemma fgets_cut_progress n c d : (length (fgets_cut (S n) (c :: d)).2 < length (c :: d))%nat.
Proof.
  cbn. case_bool_decide; [cbn; lia|]. pose proof (fgets_cut_app n d) as Happ.
  destruct (fgets_cut n d) as [a r]. cbn in *. rewrite <- Happ, length_app. lia.
Qed.

(** A piece that is not complete is the last one, and has no line feed. *)
Lemma fgets_cut_incomplete n : forall d, let '(s, r) := fgets_cut n d in
  last s <> Some LF -> length s <> n -> r = [] /\ (LF ∉ s) /\ (length s < n)%nat.
Proof.
  induction n as [|n IH]; intros [|c d]; cbn; try done.
  - intros _ _. split; [done|]. split; [set_solver|lia].
  - case_bool_decide as Hc; [by subst|]. specialize (IH d). destruct (fgets_cut n d) as [s r]. intros Hl Hn.
    assert (last s <> Some LF) as Hl' by (destruct s; [done|exact Hl]).
    destruct IH as (-> & Hs & Hlen); [done|cbn in Hn; lia|]. split; [done|]. split; [|cbn; lia].
    intros [H|H]%elem_of_cons; [by apply Hc|by apply Hs].
Qed.

Lemma cstr_id s : NUL ∉ s -> cstr s = s.
Proof.
  intros Hs. unfold cstr, take_while. rewrite <- (app_nil_r s) at 1. rewrite span_exact; [done| |done].
  apply Forall_forall. intros c Hc. rewrite negb_true_iff, bool_decide_eq_false. by intros ->.
Qed.

(** The state when [strtok] has kept a text. *)
Definition keep (s : bytes) (w : conn) : conn :=
  mkConn (c_read w) (c_dup w) (c_write w) (c_doc w) (c_out w) s.

Section proofs.
Context (fd : Z) (line : option bytes) (files : bytes -> option bytes).
Abbreviation P := (web_protocol fd line files).

(** Step over a call. *)
Ltac w_call :=
  eapply total_call_bind;
  [cbn [allowed web_protocol may c_read c_dup c_write c_doc c_out c_saved]
  |intros ? ?; cbn [answers web_protocol does c_read c_dup c_write c_doc c_out c_saved]].

(** Writing takes the text over. *)
Lemma fputs_total {R} (Q : R -> conn -> Prop) fp s w (k : web R) :
  c_write w = Some fp ->
  total P Q (mkConn (c_read w) (c_dup w) (c_write w) (c_doc w) (c_out w ++ s) (c_saved w)) k ->
  total P Q w (syscall (Fputs s fp);; k).
Proof. intros Hw Hk. w_call; [done|]. by intros ->. Qed.

Lemma fflush_total {R} (Q : R -> conn -> Prop) fp w (k : web R) :
  c_write w = Some fp -> total P Q w k -> total P Q w (syscall (Fflush fp);; k).
Proof. intros Hw Hk. w_call; [done|]. by intros ->. Qed.

Lemma send_error_total fp w :
  c_write w = Some fp ->
  total P (λ _ w', w' = mkConn (c_read w) (c_dup w) (c_write w) (c_doc w) (c_out w ++ error_text) (c_saved w)) w
    (send_error fp).
Proof.
  intros Hw. unfold send_error. do 4 (apply fputs_total; [done|]).
  apply total_last; [done|]. intros [] w' ->. cbn [c_out c_read c_dup c_write c_doc].
  unfold error_text. by rewrite !app_assoc.
Qed.

Lemma crash_total {R} (Q : R -> conn -> Prop) w : decide_request line = Crashes -> total P Q w crash.
Proof. intros H. apply total_call_bind; [done|]. intros []. Qed.

Lemma strcpy_total {R} (Q : R -> conn -> Prop) n s w (k : bytes -> web R) :
  match s with
  | Some s => if lenZ s <? n then total P Q w (k s) else decide_request line = Crashes
  | None => decide_request line = Crashes
  end -> total P Q w (strcpy n s ≫= k).
Proof.
  destruct s as [s|]; [destruct (lenZ s <? n) eqn:E|]; cbn; rewrite ?E; intros H.
  - by apply total_ret_bind.
  - eapply (total_bind _ (λ _ _, False)); [by apply crash_total|done].
  - eapply (total_bind _ (λ _ _, False)); [by apply crash_total|done].
Qed.

Lemma copy_loop_total h fp w d :
  c_read w = None -> c_write w = Some fp -> c_doc w = Some (h, d) -> NUL ∉ d ->
  total P (λ _ w', w' = mkConn None (c_dup w) (Some fp) (Some (h, [])) (c_out w ++ d) (c_saved w)) w (copy_loop h fp).
Proof.
  intros Hr Hw Hd Hn.
  apply (total_loop _
    (λ _ v, exists d1 d2, d = d1 ++ d2 /\ v = mkConn None (c_dup w) (Some fp) (Some (h, d2)) (c_out w ++ d1) (c_saved w))
    (λ _ v, match c_doc v with Some (_, d2) => length d2 | None => O end)).
  2: { exists [], d. split; [done|]. rewrite app_nil_r. destruct w; cbn in *. by subst. }
  intros [] v (d1 & d2 & -> & ->). w_call; [split; [done|]; right; by eexists|].
  rewrite bool_decide_false by done. intros (d & [= <-] & Ha). destruct d2 as [|c d2].
  { destruct Ha as [-> ->]. apply total_ret. by rewrite app_nil_r. }
  change (Z.to_nat (BUF_SIZE - 1)) with (S 1022) in Ha.
  pose proof (fgets_cut_app (S 1022) (c :: d2)) as Happ.
  pose proof (fgets_cut_progress 1022 c d2) as Hlt.
  destruct (fgets_cut (S 1022) (c :: d2)) as [s r]. cbn [fst snd] in *. destruct Ha as [-> ->].
  rewrite <- Happ in Hn. rewrite not_elem_of_app, not_elem_of_app in Hn.
  apply fputs_total; [done|]. apply fflush_total; [done|]. apply total_ret.
  rewrite cstr_id by tauto. cbn [c_read c_dup c_write c_doc c_out c_saved]. split; [|done].
  exists (d1 ++ s), r. rewrite <- Happ. by rewrite <- !app_assoc.
Qed.

Lemma strtok_total {R} (Q : R -> conn -> Prop) s d w (k : option bytes -> web R) :
  let text := match s with Some s => s | None => c_saved w end in
  total P Q (keep (token d text).2 w) (k (token d text).1) -> total P Q w (strtok s d ≫= k).
Proof.
  intros text Hk. eapply (total_bind _ (λ t w', t = (token d text).1 /\ w' = keep (token d text).2 w)).
  2: { by intros ? ? [-> ->]. }
  unfold strtok. destruct s as [s|]; [apply total_ret_bind|w_call; [done|]; intros [-> ->]];
    (w_call; [done|]; intros ->; by apply total_ret).
Qed.

Lemma content_type_total f w :
  lenZ f <= 29 ->
  (match words DOT f with _ :: _ :: _ => True | _ => decide_request line = Crashes end) ->
  total P (λ ct w', (exists s, w' = keep s w) /\ exists a ext l, words DOT f = a :: ext :: l /\ ct = type_of ext) w
    (content_type f).
Proof.
  intros Hf Hw. unfold content_type. apply strcpy_total. unfold SMALL_BUF. arith_tests.
  pose proof (token_length DOT f) as [_ Hl1]. rewrite token_words in Hw |- *.
  apply strtok_total. cbn zeta. apply strtok_total. cbn [keep c_saved].
  destruct (token DOT f) as [t rest] eqn:E1. cbn [fst snd] in *.
  pose proof (token_length DOT rest) as [Hl2 _].
  apply strcpy_total. destruct t as [t|].
  - rewrite (token_words DOT rest) in Hw |- *.
    destruct (token DOT rest) as [[ext|] rest']; cbn [fst snd] in *; [|done].
    arith_tests.
    destruct (bool_decide (ext = lit "html") || bool_decide (ext = lit "htm")) eqn:E; apply total_ret;
      (split; [by eexists|]); eexists _, _, _; (split; [done|]); unfold type_of; by rewrite E.
  - replace rest with ([] : bytes) by (unfold token in E1; destruct (drop_while DOT f); congruence). done.
Qed.

Lemma type_of_length ext : lenZ (type_of ext) <= 10.
Proof. unfold type_of. by destruct (_ || _). Qed.

Lemma send_data_total fp ct name w :
  (forall n d, files n = Some d -> NUL ∉ d) -> lenZ ct <= 10 ->
  c_read w = None -> c_write w = Some fp -> c_doc w = None -> c_out w = [] ->
  total P
    (λ _ w', c_read w' = None /\
       match files name with
       | Some d => c_write w' = None /\ (exists h, c_doc w' = Some (h, [])) /\ c_out w' = ok_text ct ++ d
       | None => c_write w' <> None /\ c_doc w' = None /\ c_out w' = error_text
       end) w (send_data fp ct name).
Proof.
  intros Hfiles Hct Hr Hw Hd Ho. unfold send_data. apply strcpy_total.
  rewrite !lenZ_app. change (lenZ (lit "Content-type:")) with 13. change (lenZ eol) with 2.
  unfold SMALL_BUF. arith_tests. w_call; [done|].
  destruct (files name) as [d|] eqn:Hfile.
  - intros (Ha & _ & Hne & ->). arith_tests. do 4 (apply fputs_total; [done|]).
    cbn [c_read c_dup c_write c_doc c_out c_saved]. eapply total_bind.
    { apply copy_loop_total; [done|exact Hw|done|by eapply Hfiles]. }
    intros [] w' ->. apply fflush_total; [done|]. apply total_last; [by right|].
    intros [] w' Hw'. cbn [answers web_protocol does c_read] in Hw'. rewrite bool_decide_false in Hw' by done.
    subst w'. cbn [c_read c_write c_doc c_out c_saved].
    split; [done|]. split; [done|]. split; [by exists a|]. rewrite Ho. unfold ok_text.
    cbn [app]. by rewrite <- !app_assoc.
  - intros [-> ->]. cbn [Z.eqb]. eapply total_conseq; [by apply send_error_total|].
    intros [] w' ->. cbn. rewrite Hw, Ho. done.
Qed.

(** The two streams are open and nothing has been written. *)
Definition streams (r wr : Z) (w : conn) : Prop :=
  c_read w = Some r /\ c_write w = Some wr /\ c_doc w = None /\ c_out w = [] /\ r <> wr.

Lemma refuse_total r wr w :
  streams r wr w ->
  total P (λ _ w', c_read w' = None /\ c_write w' = None /\ c_doc w' = None /\ c_out w' = error_text) w
    (refuse r wr).
Proof.
  intros (Hr & Hw & Hd & Ho & Hne). unfold refuse.
  eapply total_bind; [by apply send_error_total|]. intros [] w1 ->. cbn [c_read c_write c_doc c_out c_saved].
  w_call; [by left|]. rewrite bool_decide_true by done. intros ->. apply total_last; [by right|].
  intros [] w2 Hw2. cbn [answers web_protocol does c_read] in Hw2. rewrite bool_decide_false in Hw2 by done.
  subst w2. cbn [c_read c_write c_doc c_out c_saved]. by rewrite Hd, Ho.
Qed.

(** What follows the two words of the request. *)
Lemma request_total l r wr w :
  line = Some l -> (forall n d, files n = Some d -> NUL ∉ d) -> streams r wr w ->
  strstr (cstr l) (lit "HTTP/") <> None ->
  total P (λ _, answered line files) w
    (t ← strtok (Some (cstr l)) BLANK_SLASH;
     method ← strcpy 10 t;
     t ← strtok None BLANK_SLASH;
     file_name ← strcpy 30 t;
     ct ← content_type file_name;
     ct ← strcpy 15 (Some ct);
     if negb (bool_decide (method = lit "GET")) then refuse r wr
     else syscall (Fclose r);; send_data wr ct file_name).
Proof.
  intros Hl Hfiles Hs Hhttp.
  assert (decide_request line =
    match words BLANK_SLASH (cstr l) with
    | m :: f :: _ =>
        if (9 <? lenZ m) || (29 <? lenZ f) then Crashes
        else match words DOT f with
             | _ :: ext :: _ => if bool_decide (m = lit "GET") then Serve (type_of ext) f else NotGet
             | _ => Crashes
             end
    | _ => Crashes
    end) as Hdec by (rewrite Hl; cbn [decide_request]; by rewrite bool_decide_false).
  apply strtok_total. cbn zeta.
  rewrite token_words in Hdec. destruct (token BLANK_SLASH (cstr l)) as [[m|] rest]; apply strcpy_total;
    [|done]. cbn [fst snd].
  destruct (Z.ltb_spec (lenZ m) 10) as [Hm|Hm].
  2: { rewrite (proj2 (Z.ltb_lt 9 _)) in Hdec by lia. by destruct (words BLANK_SLASH rest). }
  apply strtok_total. cbn [keep c_saved].
  rewrite token_words in Hdec. destruct (token BLANK_SLASH rest) as [[f|] rest']; cbn [fst snd]; apply strcpy_total; [|done].
  rewrite (proj2 (Z.ltb_ge 9 (lenZ m))) in Hdec by lia. cbn [orb] in Hdec.
  destruct (Z.ltb_spec (lenZ f) 30) as [Hf|Hf]; [|by rewrite (proj2 (Z.ltb_lt 29 (lenZ f))) in Hdec by lia].
  rewrite (proj2 (Z.ltb_ge 29 (lenZ f))) in Hdec by lia.
  eapply total_bind.
  { apply content_type_total; [lia|]. by destruct (words DOT f) as [|? [|? ?]]. }
  intros ct w' ([s' ->] & a & ext & rest'' & Hw' & ->). rewrite Hw' in Hdec. pose proof (type_of_length ext).
  apply strcpy_total. arith_tests. unfold answered. rewrite Hdec.
  case_bool_decide; cbn [negb]; [|by apply refuse_total].
  destruct Hs as (Hr & Hw & Hd & Ho & Hne). w_call; [by left|]. rewrite bool_decide_true by done.
  intros ->. by apply send_data_total.
Qed.

Lemma request_handler_total :
  (forall n d, files n = Some d -> NUL ∉ d) ->
  total P (λ _, answered line files) conn0 (request_handler fd).
Proof.
  intros Hfiles. unfold request_handler. w_call; [by left|]. rewrite bool_decide_true by done.
  intros (Ha & _ & ->). w_call; [done|]. intros ->. w_call; [by right|].
  rewrite bool_decide_false by done. intros (Ha1 & Hne & ->). w_call; [split; [done|by left]|].
  rewrite bool_decide_true by done. intros [-> ->].
  assert (streams a a1 (mkConn (Some a) (Some a0) (Some a1) None [] [])) as Hs.
  { split_and!; [done..|]. by intros ->. }
  destruct line as [l|] eqn:Hline; [|by rewrite <- Hline; apply crash_total; rewrite Hline].
  rewrite <- Hline. case_bool_decide as Hhttp; [|by apply request_total].
  eapply total_conseq; [by apply refuse_total|]. intros [] w' (Hr & Hrest). split; [done|].
  rewrite Hline. cbn [decide_request]. by rewrite bool_decide_true.
Qed.
End proofs.

(** ** main and its threads

    A turn of the loop in [main] is two steps: [accept] stores the new socket in
    [clnt_sock], and [pthread_create] makes a thread that is given the address of
    that variable.  A thread begins by reading it, at any time later, serves what it
    has read there, and closes it. *)
Inductive thread := Waiting | Serving (fd : Z) | Ended (fd : Z).

(** [in_use] are the connections that are open, [accepted] all that ever were. *)
Record accepting := mkAccepting {
  clnt_sock : Z; got_one : bool; threads : list thread; in_use : gset Z; accepted : list Z
}.
Definition accepting0 : accepting := mkAccepting 0 false [] ∅ [].

(** [accept] answers with a descriptor that is not in use, or with -1, which is stored
    and given to a thread as well. *)
Inductive main_step : accepting -> accepting -> Prop :=
  | step_accept s fd :
      got_one s = false -> 0 <= fd -> fd ∉ in_use s ->
      main_step s (mkAccepting fd true (threads s) ({[fd]} ∪ in_use s) (accepted s ++ [fd]))
  | step_accept_failed s :
      got_one s = false -> main_step s (mkAccepting (-1) true (threads s) (in_use s) (accepted s))
  | step_create s :
      got_one s = true ->
      main_step s (mkAccepting (clnt_sock s) false (threads s ++ [Waiting]) (in_use s) (accepted s))
  | step_start s i :
      threads s !! i = Some Waiting ->
      main_step s (mkAccepting (clnt_sock s) (got_one s) (<[i := Serving (clnt_sock s)]> (threads s)) (in_use s) (accepted s))
  | step_close s i fd :
      threads s !! i = Some (Serving fd) ->
      main_step s (mkAccepting (clnt_sock s) (got_one s) (<[i := Ended fd]> (threads s)) (in_use s ∖ {[fd]}) (accepted s)).

Abbreviation main_steps := (rtc main_step).

(** The variable does not hold [fd], which is in use, and nor does any thread serve it. *)
Record passed_over (fd : Z) (s : accepting) : Prop := {
  po_open : fd ∈ in_use s;
  po_var : clnt_sock s <> fd;
  po_threads : Serving fd ∉ threads s;
}.

(** What one thread becomes is all that is new in the list. *)
Lemma not_serving_insert fd (i : nat) (t : thread) (l : list thread) : t <> Serving fd -> Serving fd ∉ l -> Serving fd ∉ <[i := t]> l.
Proof.
  intros Ht Hl [j Hj]%list_elem_of_lookup. apply list_lookup_insert_Some in Hj as [(_ & ? & _)|[_ Hj]]; [done|].
  apply Hl. by eapply list_elem_of_lookup_2.
Qed.

Lemma passed_over_step fd s s' : 0 <= fd -> passed_over fd s -> main_step s s' -> passed_over fd s'.
Proof.
  intros Hf Hp Hstep. destruct Hp as [Ho Hv Hs].
  destruct Hstep as [s fd' Hg Hp Hn|s Hg|s Hg|s i Hi|s i fd' Hi]; split; cbn; try done; try set_solver; try lia.
  - apply not_serving_insert; [congruence|done].
  - apply elem_of_difference. split; [done|]. intros ->%elem_of_singleton. apply Hs. by eapply list_elem_of_lookup_2.
  - by apply not_serving_insert.
Qed.

Lemma passed_over_steps fd s s' : 0 <= fd -> passed_over fd s -> main_steps s s' -> passed_over fd s'.
Proof. intros Hf Hp Hs. induction Hs as [|s1 s2 s3 H1 _ IH]; [done|]. apply IH. by eapply passed_over_step. Qed.

(** A connection that is stored over before a thread has read it. *)
Lemma overwritten_passed_over s s' :
  clnt_sock s ∈ in_use s -> Serving (clnt_sock s) ∉ threads s -> main_step s s' ->
  clnt_sock s' <> clnt_sock s -> passed_over (clnt_sock s) s'.
Proof.
  intros Ho Hs Hstep Hne. destruct Hstep; cbn in *; try done; split; cbn; try done. set_solver.
Qed.

(** The words of a text that begins with one. *)
Lemma words_cons d t c s :
  t <> [] -> Forall (λ c, d c = false) t -> d c = true -> words d (t ++ c :: s) = t :: words d s.
Proof.
  intros Hne Ht Hc. destruct t as [|e t]; [done|]. apply Forall_cons in Ht as [He Ht]. cbn [words_from app].
  rewrite He, words_from_token by done. unfold take_while, drop_while.
  rewrite (span_exact _ t (c :: s)); [done| |by rewrite Hc].
  eapply Forall_impl; [exact Ht|]. by intros x ->.
Qed.

Lemma words_one d t : t <> [] -> Forall (λ c, d c = false) t -> words d t = [t].
Proof.
  intros Hne Ht. destruct t as [|e t]; [done|]. apply Forall_cons in Ht as [He Ht]. cbn [words_from].
  rewrite He, words_from_token by done. unfold take_while, drop_while.
  assert (span (λ c, negb (d c)) t = (t, [])) as ->; [|done].
  rewrite <- (app_nil_r t) at 1. apply span_exact; [|done].
  eapply Forall_impl; [exact Ht|]. by intros x ->.
Qed.

Lemma outside set t : (forall c, c ∈ t -> c ∉ set) -> Forall (λ c, one_of set c = false) t.
Proof. intros H. apply Forall_forall. intros c Hc. apply bool_decide_eq_false, H, Hc. Qed.

Lemma words_skip d a s : Forall (λ c, d c = true) a -> words d (a ++ s) = words d s.
Proof. induction 1 as [|c a Hc _ IH]; [done|]. cbn. by rewrite Hc. Qed.

Lemma inside set t : (forall c, c ∈ t -> c ∈ set) -> Forall (λ c, one_of set c = true) t.
Proof. intros H. apply Forall_forall. intros c Hc. apply bool_decide_eq_true, H, Hc. Qed.

Lemma undotted_decision blanks name sep rest :
  let l := lit "GET" ++ SP :: blanks ++ name ++ sep :: rest in
  (forall c, c ∈ blanks -> c ∈ lit " /") ->
  name <> [] -> (forall c, c ∈ name -> c ∉ lit " /.") -> sep ∈ lit " /" ->
  NUL ∉ l -> strstr l (lit "HTTP/") <> None -> decide_request (Some l) = Crashes.
Proof.
  intros l Hblanks Hname Hin Hsep Hnul Hhttp. cbn [decide_request]. rewrite cstr_id, bool_decide_false by done.
  unfold l. rewrite words_cons, words_skip, words_cons;
    [|done| |by apply bool_decide_eq_true|by apply inside|done|by repeat constructor|done].
  - rewrite words_one; [by destruct (_ || _)|done|]. apply outside. intros c Hc H. apply (Hin c Hc).
    by do 2 right.
  - apply outside. intros c Hc H. apply (Hin c Hc). change (lit " /.") with (lit " /" ++ lit ".").
    apply elem_of_app. by left.
Qed.

(** ** Properties *)

(** C16: A thread answers its request and ends, whatever the system does, if no other
    thread calls [strtok], whose variable they share, between its own calls, and no file
    holds a NUL.  The request decides what is done ([decide_request]): an error text, a
    header of the type of the name followed by exactly the file, or, and only then, the
    end of the process.  Calls are made on streams that are open; in the end the stream
    that is read is closed, and the one that is written is too, except when there is no
    file of that name: it then stays open, as a file that was sent does. *)
Theorem request_handler_answers fd line files :
  (forall n d, files n = Some d -> NUL ∉ d) ->
  total (web_protocol fd line files) (λ _, answered line files) conn0 (request_handler fd).
Proof. apply request_handler_total. Qed.

Definition one_file (n : bytes) : option bytes :=
  if bool_decide (n = lit "index.html") then Some (lit "<html></html>" ++ [LF]) else None.

Lemma request_handler_answers_witness :
  total (web_protocol 4 (Some (lit "GET /index.html HTTP/1.0" ++ eol)) one_file)
    (λ _ w, c_read w = None /\ c_write w = None /\ (exists h, c_doc w = Some (h, [])) /\
            c_out w = ok_text (lit "text/html") ++ lit "<html></html>" ++ [LF])
    conn0 (request_handler 4).
Proof.
  apply (request_handler_answers 4 (Some (lit "GET /index.html HTTP/1.0" ++ eol)) one_file).
  unfold one_file. intros n d. destruct (bool_decide (n = lit "index.html")); [|discriminate].
  intros [= <-]. apply (bool_decide_unpack _). vm_compute. exact I.
Defined.

(** A request for a path whose first part has no dot, such as a file in a
    directory, or for [/], where the next word is taken for the path, is the end of
    the whole server: the thread copies from a null pointer. *)
Theorem undotted_crashes fd files blanks name sep rest :
  let l := lit "GET" ++ SP :: blanks ++ name ++ sep :: rest in
  (forall n d, files n = Some d -> NUL ∉ d) -> (forall c, c ∈ blanks -> c ∈ lit " /") ->
  name <> [] -> (forall c, c ∈ name -> c ∉ lit " /.") -> sep ∈ lit " /" ->
  NUL ∉ l -> strstr l (lit "HTTP/") <> None ->
  total (web_protocol fd (Some l) files) (λ _ _, False) conn0 (request_handler fd).
Proof.
  intros l Hfiles Hblanks Hname Hin Hsep Hnul Hhttp.
  eapply total_conseq; [by apply request_handler_total|]. intros [] w [_ H].
  unfold l in H. by rewrite undotted_decision in H.
Qed.

Lemma undotted_crashes_witness :
  total (web_protocol 4 (Some (lit "GET / HTTP/1.0" ++ eol)) one_file) (λ _ _, False) conn0
    (request_handler 4).
Proof.
  apply (undotted_crashes 4 one_file (lit "/ ") (lit "HTTP") Byte.x2f (lit "1.0" ++ eol)).
  - unfold one_file. intros n d. destruct (bool_decide (n = lit "index.html")); [|discriminate].
    intros [= <-]. apply (bool_decide_unpack _). vm_compute. exact I.
  - apply Forall_forall. apply (bool_decide_unpack _). vm_compute. exact I.
  - discriminate.
  - apply Forall_forall. apply (bool_decide_unpack _). vm_compute. exact I.
  - apply (bool_decide_unpack _). vm_compute. exact I.
  - apply (bool_decide_unpack _). vm_compute. exact I.
  - vm_compute. discriminate.
Defined.

(** C18: The threads race with [main] for the variable.  A connection that the next accept
    stores over before a thread has read it is lost: whatever happens then, it is never
    served, and never closed.  And this can happen: when a second connection is accepted
    before the first thread has read the variable, and both threads read it before a
    third one is, both serve the second connection. *)
Theorem race_loses_connection a b :
  0 <= a -> 0 <= b -> a <> b ->
  (forall s s' s'', clnt_sock s = a -> a ∈ in_use s -> Serving a ∉ threads s ->
     main_step s s' -> clnt_sock s' <> a -> main_steps s' s'' ->
     Serving a ∉ threads s'' /\ a ∈ in_use s'') /\
  exists s0 s1 s, main_steps accepting0 s0 /\ clnt_sock s0 = a /\ a ∈ in_use s0 /\ threads s0 = [Waiting] /\
    main_step s0 s1 /\ clnt_sock s1 = b /\ main_steps s1 s /\
    accepted s = [a; b] /\ threads s = [Serving b; Serving b].
Proof.
  intros Ha Hb Hab. split.
  - intros s s' s'' <- Ho Hs Hstep Hne Hsteps.
    assert (passed_over (clnt_sock s) s'') as [? ? ?]; [|done].
    eapply passed_over_steps; [done|by apply overwritten_passed_over|done].
  - exists (mkAccepting a false [Waiting] ({[a]} ∪ ∅) [a]),
      (mkAccepting b true [Waiting] ({[b]} ∪ ({[a]} ∪ ∅)) [a; b]),
      (mkAccepting b false [Serving b; Serving b] ({[b]} ∪ ({[a]} ∪ ∅)) [a; b]).
    split; [|split; [done|split; [set_solver|split; [done|split; [|split; [done|split; [|done]]]]]]].
    + eapply rtc_l; [apply (step_accept _ a); [done|done|apply not_elem_of_empty]|]. cbn.
      eapply rtc_l; [by apply step_create|]. done.
    + refine (step_accept (mkAccepting a false [Waiting] ({[a]} ∪ ∅) [a]) b eq_refl Hb _). cbn [in_use]. set_solver.
    + eapply rtc_l; [by apply step_create|]. cbn.
      eapply rtc_l; [by apply (step_start _ 0%nat)|]. cbn.
      eapply rtc_l; [by apply (step_start _ 1%nat)|]. done.
Qed.

Lemma race_loses_connection_witness :
  (forall s s' s'', clnt_sock s = 4 -> 4 ∈ in_use s -> Serving 4 ∉ threads s ->
     main_step s s' -> clnt_sock s' <> 4 -> main_steps s' s'' ->
     Serving 4 ∉ threads s'' /\ 4 ∈ in_use s'') /\
  exists s0 s1 s, main_steps accepting0 s0 /\ clnt_sock s0 = 4 /\ 4 ∈ in_use s0 /\ threads s0 = [Waiting] /\
    main_step s0 s1 /\ clnt_sock s1 = 5 /\ main_steps s1 s /\
    accepted s = [4; 5] /\ threads s = [Serving 5; Serving 5].
Proof. apply (race_loses_connection 4 5); lia. Defined.
