(* ===== verification/EchoSelect.v ===== *)
(** * An echo server around select
      (src/Linux/TCP-IPNetworkPrograming/echo_select/echo_selectserv.c)

    One process serves all clients: it waits for the sockets in a set, and then
    looks at every descriptor that may be in it.  [read] and [write] are [Recv] and
    [Send]; what the server prints is left out. *)
From S2P Require Import Prelude CLib Interact Posix.

Definition BUF_SIZE : Z := 100.

(** The variables of the loop over the descriptors. *)
Record scan := mkScan { i : Z; reads : fd_set; fd_max : Z }.

(** A turn of it; [cpy_reads] is the set that [select] has left.  After a failed
    [read] the length given to [write] is -1, which is no length in the array. *)
Definition scan_turn (serv_sock : Z) (cpy_reads : fd_set) (s : scan) : prog (scan + fd_set * Z) :=
  if negb (i s <? fd_max s + 1) then mret (inr (reads s, fd_max s))
  else
    isset ← FD_ISSET (i s) cpy_reads;
    if negb (isset : bool) then mret (inl (mkScan (i s + 1) (reads s) (fd_max s)))
    else if i s =? serv_sock then
      clnt_sock ← syscall (Accept serv_sock);
      reads' ← FD_SET clnt_sock (reads s);
      let fd_max' := if fd_max s <? clnt_sock then clnt_sock else fd_max s in
      mret (inl (mkScan (i s + 1) reads' fd_max'))
    else
      buf ← syscall (Recv (i s) BUF_SIZE);
      match buf with
      | Some [] =>
          reads' ← FD_CLR (i s) (reads s);
          syscall (Close (i s));;
          mret (inl (mkScan (i s + 1) reads' (fd_max s)))
      | Some buf => syscall (Send (i s) buf);; mret (inl (mkScan (i s + 1) (reads s) (fd_max s)))
      | None => abort
      end.

Definition scan_loop (serv_sock : Z) (cpy_reads : fd_set) (reads : fd_set) (fd_max : Z) : prog (fd_set * Z) :=
  loop (scan_turn serv_sock cpy_reads) (mkScan 0 reads fd_max).

(** A turn of the [while (1)] loop. *)
Definition serve_turn (serv_sock : Z) (s : fd_set * Z) : prog (fd_set * Z + unit) :=
  let '(reads, fd_max) := s in
  sel ← syscall (Select fd_max reads ∅ 5005000);
  let fd_num := sel_ret sel in
  if fd_num =? -1 then mret (inr tt)
  else if fd_num =? 0 then mret (inl (reads, fd_max))
  else s ← scan_loop serv_sock (sel_rd sel) reads fd_max; mret (inl s).

(** [error_handling] prints and returns. *)
Definition main (argc : Z) (port : bytes) : prog Z :=
  if negb (argc =? 2) then exit 1
  else
    serv_sock ← syscall Socket;
    syscall (Bind serv_sock (mkAddr (htonl 0) (htons (atoi port))));;
    syscall (Listen serv_sock 5);;
    reads ← FD_SET serv_sock ∅;
    loop (serve_turn serv_sock) (reads, serv_sock);;
    syscall (Close serv_sock);;
    mret 0.

(** ** The protocol

    The listening socket, the clients, the message or the end of the connection a
    client is owed, the descriptors that have been read or accepted from, and
    whether a call has failed after which the server leaves its arrays. *)
Inductive debt := Nothing | Echo (fd : Z) (bs : bytes) | Hangup (fd : Z).

Record world := mkWorld {
  e_serv : option Z; e_clients : fd_set; e_debt : debt; e_seen : fd_set; e_failed : bool
}.
Definition world0 : world := mkWorld None ∅ Nothing ∅ false.

(** The server waits for all it has, and owes nothing when it waits. *)
Definition may (w : world) (A : Type) (e : posixE A) : Prop :=
  match e with
  | Socket => e_serv w = None
  | Bind _ _ | Listen _ _ => True
  | Select _ rd wr _ =>
      exists ls, e_serv w = Some ls /\ rd = {[ls]} ∪ e_clients w /\ wr = ∅ /\ e_debt w = Nothing
  | Accept fd => e_serv w = Some fd /\ e_debt w = Nothing
  | Recv fd _ => fd ∈ e_clients w /\ e_debt w = Nothing
  | Send fd bs => e_debt w = Echo fd bs
  | Close fd => e_debt w = Hangup fd \/ e_serv w = Some fd /\ e_debt w = Nothing
  | Abort => e_failed w = true
  | Exit _ => w = world0
  | _ => False
  end.

Definition set_debt (d : debt) (w : world) : world :=
  mkWorld (e_serv w) (e_clients w) d (e_seen w) (e_failed w).
Definition set_failed (w : world) : world :=
  mkWorld (e_serv w) (e_clients w) (e_debt w) (e_seen w) true.
Definition see (fd : Z) (w : world) : world :=
  mkWorld (e_serv w) (e_clients w) (e_debt w) ({[fd]} ∪ e_seen w) (e_failed w).

(** [select] looks at the descriptors below its first argument, and leaves in the
    set those that are ready, of which there are as many as it returns; [accept]
    returns a new descriptor below [FD_SETSIZE]. *)
Definition does (w : world) (A : Type) (e : posixE A) : A -> world -> Prop :=
  match e in posixE A return A -> world -> Prop with
  | Socket => λ a w',
      fd_ok a = true /\ w' = mkWorld (Some a) (e_clients w) (e_debt w) (e_seen w) (e_failed w) \/
      a = -1 /\ w' = set_failed w
  | Select n rd _ _ => λ a w', w' = w /\
      (sel_ret a = -1 \/ sel_ret a = Z.of_nat (size (sel_rd a)) /\ sel_rd a ⊆ rd /\
                         forall fd, fd ∈ sel_rd a -> fd < n)
  | Accept fd => λ a w',
      fd_ok a = true /\ e_serv w <> Some a /\ (a ∉ e_clients w) /\
        w' = see fd (mkWorld (e_serv w) ({[a]} ∪ e_clients w) (e_debt w) (e_seen w) (e_failed w)) \/
      a = -1 /\ w' = set_failed w
  | Recv fd n => λ a w',
      match a with
      | None => w' = set_failed w
      | Some [] => w' = see fd (set_debt (Hangup fd) w)
      | Some bs => lenZ bs <= n /\ w' = see fd (set_debt (Echo fd bs) w)
      end
  | Send _ _ => λ _ w', w' = set_debt Nothing w
  | Close fd => λ _ w', w' = mkWorld (e_serv w) (e_clients w ∖ {[fd]}) Nothing (e_seen w) (e_failed w)
  | _ => λ _ w', w' = w
  end.

Definition echo_protocol : protocol posixE world := Protocol may does.

Ltac e_call :=
  eapply total_call_bind;
  [cbn [allowed echo_protocol may]
  |intros ? ?; cbn [answers echo_protocol does]].

(** ** A look at the descriptors *)

(** The server is at rest and its variables say what it has. *)
Record ready (ls : Z) (reads : fd_set) (fd_max : Z) (w : world) : Prop := {
  re_serv : e_serv w = Some ls;
  re_reads : reads = {[ls]} ∪ e_clients w;
  re_new : ls ∉ e_clients w;
  re_debt : e_debt w = Nothing;
  re_max : forall fd, fd ∈ reads -> fd_ok fd = true /\ fd <= fd_max;
  re_size : 0 <= fd_max < FD_SETSIZE;
}.

(** The descriptors of [cpy] before [i] have been dealt with, and the others are
    still there. *)
Record looking (ls : Z) (cpy : fd_set) (s : scan) (w : world) : Prop := {
  lo_ready : ready ls (reads s) (fd_max s) w;
  lo_i : 0 <= i s;
  lo_done : forall fd, fd ∈ cpy -> fd < i s -> fd ∈ e_seen w;
  lo_left : forall fd, fd ∈ cpy -> i s <= fd -> fd ∈ reads s;
}.

Lemma looking_skip ls cpy s w : looking ls cpy s w -> i s ∉ cpy ->
  looking ls cpy (mkScan (i s + 1) (reads s) (fd_max s)) w.
Proof.
  intros [Hr Hi Hd Hl] Hn. split; cbn; [done|lia| |].
  - intros fd Hfd Hlt. apply Hd; [done|]. destruct (decide (fd = i s)) as [->|]; [done|lia].
  - intros fd Hfd Hle. apply Hl; [done|lia].
Qed.

(** After a client, or the listener, has been dealt with. *)
Lemma looking_next ls cpy s w reads' fd_max' w' :
  looking ls cpy s w -> ready ls reads' fd_max' w' -> e_seen w' = {[i s]} ∪ e_seen w ->
  (forall fd, fd ∈ reads s -> fd <> i s -> fd ∈ reads') ->
  looking ls cpy (mkScan (i s + 1) reads' fd_max') w'.
Proof.
  intros [Hr Hi Hd Hl] Hr' Hs Hk. split; cbn; [done|lia| |].
  - intros fd Hfd Hlt. rewrite Hs. destruct (decide (fd = i s)) as [->|]; [set_solver|].
    apply elem_of_union. right. apply Hd; [done|lia].
  - intros fd Hfd Hle. apply Hk; [|lia]. apply Hl; [done|lia].
Qed.

Lemma ready_accept ls reads fd_max w fd a :
  ready ls reads fd_max w -> fd_ok a = true -> e_serv w <> Some a -> a ∉ e_clients w ->
  ready ls ({[a]} ∪ reads) (if fd_max <? a then a else fd_max)
    (see fd (mkWorld (e_serv w) ({[a]} ∪ e_clients w) (e_debt w) (e_seen w) (e_failed w))).
Proof.
  intros [Hs Hr Hn Hd Hm Hz] Ha Hne Hnew. assert (0 <= a < FD_SETSIZE) by (unfold fd_ok in Ha; lia).
  split; cbn; [done|set_solver| |done| |destruct (fd_max <? a); lia].
  - rewrite elem_of_union, elem_of_singleton. intros [->|]; done.
  - intros x [->%elem_of_singleton|Hx]%elem_of_union; [split; [done|]; destruct (Z.ltb_spec fd_max a); lia|].
    destruct (Hm x Hx). split; [done|]. destruct (Z.ltb_spec fd_max a); lia.
Qed.

Lemma ready_close ls reads fd_max w fd :
  ready ls reads fd_max w -> fd <> ls ->
  ready ls (reads ∖ {[fd]}) fd_max (mkWorld (e_serv w) (e_clients w ∖ {[fd]}) Nothing ({[fd]} ∪ e_seen w) (e_failed w)).
Proof. intros [Hs Hr Hn Hd Hm Hz] Hne. split; cbn; [done|set_solver|set_solver|done|set_solver|done]. Qed.

Lemma scan_turn_total ls cpy s w :
  looking ls cpy s w ->
  total echo_protocol
    (λ r w', match r with
             | inl s' => looking ls cpy s' w' /\
                 (Z.to_nat (FD_SETSIZE - i s') < Z.to_nat (FD_SETSIZE - i s))%nat
             | inr r => ready ls r.1 r.2 w' /\ cpy ⊆ e_seen w'
             end) w (scan_turn ls cpy s).
Proof.
  intros Hs. pose proof Hs as [Hr Hi Hd Hl]. pose proof Hr as [Hserv Hreads Hnew Hdebt Hmax Hsize].
  unfold scan_turn. destruct (Z.ltb_spec (i s) (fd_max s + 1)) as [Hlt|Hge]; cbn [negb].
  2: { apply total_ret. split; [done|]. intros fd Hfd. apply Hd; [done|].
       destruct (Z.ltb_spec fd (i s)) as [|Hle]; [done|]. destruct (Hmax fd (Hl fd Hfd Hle)). lia. }
  assert (fd_ok (i s) = true) as Hok by (unfold fd_ok; lia).
  assert (Z.to_nat (FD_SETSIZE - (i s + 1)) < Z.to_nat (FD_SETSIZE - i s))%nat by lia.
  eapply total_observe; [by apply observe_FD_ISSET|].
  case_bool_decide as Hin; cbn [negb]; [|by apply total_ret; split; [apply looking_skip|]].
  destruct (Z.eqb_spec (i s) ls) as [Hls|Hls].
  - e_call; [done|]. intros [(Ha & Hne & Hna & ->)|[-> ->]].
    + eapply total_observe; [by apply observe_FD_SET|]. apply total_ret. split; [|done].
      rewrite <- Hls. eapply looking_next; [by rewrite Hls in *|by rewrite Hls; apply ready_accept|done|set_solver].
    + eapply (total_bind _ (λ _ _, False)); [|done]. unfold FD_SET. apply total_check; [done|done].
  - assert (i s ∈ e_clients w) as Hc by (specialize (Hl _ Hin ltac:(lia)); set_solver).
    e_call; [done|]. destruct a as [[|c bs]|].
    + intros ->. eapply total_observe; [by apply observe_FD_CLR|]. e_call; [by left|]. intros ->.
      apply total_ret. split; [|done]. eapply looking_next; [done|exact (ready_close _ _ _ _ _ Hr Hls)|done|set_solver].
    + intros [_ ->]. e_call; [done|]. intros ->. apply total_ret. split; [|done].
      eapply looking_next; [done| |done|done]. by split.
    + intros ->. by apply total_abort.
Qed.

Lemma scan_loop_total ls cpy reads fd_max w :
  ready ls reads fd_max w -> cpy ⊆ reads ->
  total echo_protocol (λ r w', ready ls r.1 r.2 w' /\ cpy ⊆ e_seen w') w (scan_loop ls cpy reads fd_max).
Proof.
  intros Hr Hcpy. apply (total_loop _ (looking ls cpy) (λ s _, Z.to_nat (FD_SETSIZE - i s))).
  - intros s v Hs. by apply scan_turn_total.
  - split; cbn; [done|done| |by intros fd Hfd _; apply Hcpy].
    intros fd Hfd%Hcpy Hlt. destruct (re_max _ _ _ _ Hr _ Hfd) as [Hok _]. unfold fd_ok in Hok. lia.
Qed.

(** ** Properties *)

(** When [select] has marked some of the sockets the server is waiting for,
    the loop over the descriptors ends, and all that are marked have been dealt
    with: the next connection is accepted and waited for, a client that sent
    something gets exactly that back, one that hung up is closed and no longer
    waited for.  The process leaves its arrays only after a failed call. *)
Theorem scan_serves ls cpy reads fd_max w :
  ready ls reads fd_max w -> cpy ⊆ reads ->
  total echo_protocol (λ r w', ready ls r.1 r.2 w' /\ cpy ⊆ e_seen w') w (scan_loop ls cpy reads fd_max).
Proof. apply scan_loop_total. Qed.

Lemma scan_serves_witness :
  total echo_protocol (λ r w', ready 3 r.1 r.2 w' /\ {[3; 5]} ⊆ e_seen w')
    (mkWorld (Some 3) {[4; 5]} Nothing ∅ false) (scan_loop 3 {[3; 5]} {[3; 4; 5]} 5).
Proof.
  apply (scan_serves 3 {[3; 5]} {[3; 4; 5]} 5 (mkWorld (Some 3) {[4; 5]} Nothing ∅ false)).
  - split; try reflexivity.
    + apply (bool_decide_unpack _). vm_compute. exact I.
    + apply (bool_decide_unpack _). vm_compute. exact I.
    + split; [discriminate|reflexivity].
  - apply (bool_decide_unpack _). vm_compute. exact I.
Defined.

(** The protocol of a server that has no clients. *)
Definition idle_protocol : protocol posixE world :=
  Protocol (λ w A e, may w A e /\ match e with Accept _ | Recv _ _ | Send _ _ => False | _ => True end) does.

(** C22: The server never serves anybody.  It passes its highest descriptor to
    [select], which looks at those below it only, so the listening socket is never
    looked at: whatever connections are made, [accept] is never called. *)
Theorem accepts_nobody argc port :
  safe idle_protocol (λ _ w, e_clients w = ∅) world0 (main argc port).
Proof.
  unfold main. destruct (argc =? 2); cbn [negb].
  2: { apply safe_call; [done|]. by intros []. }
  apply safe_call; [done|]. intros ls w Hls.
  assert (e_clients w = ∅ /\ e_debt w = Nothing) as [Hc Hd] by (destruct Hls as [[_ ->]|[_ ->]]; done).
  apply safe_call; [done|]. intros _ w' ->. apply safe_call; [done|]. intros _ w' ->.
  unfold FD_SET. eapply (safe_bind _ (λ s w', s = {[ls]} /\ w' = w /\ e_serv w = Some ls)).
  { eapply (safe_bind _ (λ _ w', w' = w /\ e_serv w = Some ls)).
    - apply safe_check; [|intros Hf; split; [|done]]; destruct Hls as [[Hok ->]|[-> ->]]; try done. congruence.
    - intros [] w' [-> Hs]. apply safe_ret. split_and!; [set_solver|done|done]. }
  intros s w' (-> & -> & Hs).
  eapply (safe_bind _ (λ _ w', w' = w)).
  - apply (safe_loop _ (λ s w', s = ({[ls]}, ls) /\ w' = w)); [|done].
    intros s w' [-> ->]. apply safe_call.
    { split; [|done]. exists ls. rewrite Hc. split_and!; [done|set_solver|done|done]. }
    intros sel w' [-> [-> | (-> & Hsub & Hlt)]]; [by apply safe_ret|].
    assert (sel_rd sel = ∅) as ->.
    { apply leibniz_equiv, elem_of_equiv_empty. intros fd Hfd. specialize (Hlt fd Hfd).
      apply Hsub, elem_of_singleton in Hfd. lia. }
    rewrite size_empty. by apply safe_ret.
  - intros [] w' ->. apply safe_call; [split; [by right|done]|]. intros [] w' ->. apply safe_ret.
    cbn. set_solver.
Qed.
