(* ===== verification/AsynEcho.v ===== *)
(** * An echo server over network events
      (src/Windows/TCP-IPNetworkPrograming/AsynNotiEcho/AsynNotiEcho.cpp)

    Every socket has an event, which Winsock signals when something happens to the
    socket.  The server keeps the two in two arrays, at the same index, and closes
    the gap when a client has gone.  What it prints is left out. *)
From S2P Require Import Prelude CLib Interact Posix.

Definition BUF_SIZE : Z := 100.
Definition WSA_MAXIMUM_WAIT_EVENTS : Z := 64.
Definition WSA_WAIT_TIMEOUT : Z := 258.

(** [FD_READ], [FD_ACCEPT] and [FD_CLOSE] of [lNetworkEvents], each with its error
    code. *)
Record netEvents := mkEvents { ne_read : option Z; ne_accept : option Z; ne_close : option Z }.

Definition FD_READ : Z := 1.
Definition FD_WRITE : Z := 2.
Definition FD_ACCEPT : Z := 8.
Definition FD_CLOSE : Z := 32.

(** ** Calls

    An answer is an [int]: -1 is [SOCKET_ERROR] and [WSA_WAIT_FAILED].  [Recv]
    answers [None] for -1; a wait without a time is [WSA_INFINITE]. *)
Variant wsaE : Type -> Type :=
  | WSAStartup : wsaE Z
  | WSocket : wsaE Z
  | WBind (s : Z) (a : sockaddr) : wsaE Z
  | WListen (s n : Z) : wsaE Z
  | WSACreateEvent : wsaE Z
  | WSAEventSelect (s ev mask : Z) : wsaE Z
  | WSAWaitForMultipleEvents (evs : list Z) (ms : option Z) : wsaE Z
  | WSAEnumNetworkEvents (s ev : Z) : wsaE netEvents
  | WAccept (s : Z) : wsaE Z
  | WRecv (s n : Z) : wsaE (option bytes)
  | WSend (s : Z) (msg : bytes) (n : Z) : wsaE Z
  | WSACloseEvent (ev : Z) : wsaE unit
  | Closesocket (s : Z) : wsaE unit
  | WAbort : wsaE Empty_set
  | WExit (code : Z) : wsaE Empty_set.

Abbreviation wprog := (itree wsaE).

Definition wabort {A} : wprog A := syscall WAbort ≫= λ v : Empty_set, match v with end.
Definition ErrorHandling {A} : wprog A := syscall (WExit 1) ≫= λ v : Empty_set, match v with end.

(** ** The arrays *)

Definition read_at (a : list Z) (i : Z) : wprog Z :=
  match (if 0 <=? i then a !! Z.to_nat i else None) with Some v => mret v | None => wabort end.
Definition write_at (a : list Z) (i v : Z) : wprog (list Z) :=
  if (0 <=? i) && (i <? lenZ a) then mret (<[Z.to_nat i := v]> a) else wabort.

(** The loop that closes the gap, [k] turns of it. *)
Fixpoint compress (k : nat) (a : list Z) (i : Z) : wprog (list Z) :=
  match k with
  | O => mret a
  | S k =>
      v ← read_at a (i + 1);
      a ← write_at a i v;
      compress k a (i + 1)
  end.

Definition CompressSockets (hSockArr : list Z) (idx total : Z) : wprog (list Z) :=
  compress (Z.to_nat (total - idx)) hSockArr idx.
Definition CompressEvents (hEventArr : list Z) (idx total : Z) : wprog (list Z) :=
  compress (Z.to_nat (total - idx)) hEventArr idx.

(** ** main *)

Record clients := mkClients { hSockArr : list Z; hEventArr : list Z; numofClntSock : Z }.

Definition no_clients : clients := mkClients (replicate 64 0) (replicate 64 0) 0.

(** A socket and its event are put behind the others. *)
Definition add_client (c : clients) (s ev : Z) : wprog clients :=
  socks ← write_at (hSockArr c) (numofClntSock c) s;
  evs ← write_at (hEventArr c) (numofClntSock c) ev;
  mret (mkClients socks evs (numofClntSock c + 1)).

(** The three tests on the events of the socket at [i]; [None] is [break]. *)
Definition on_accept (c : clients) (i : Z) (ne : netEvents) : wprog (option clients) :=
  match ne_accept ne with
  | None => mret (Some c)
  | Some e =>
      if negb (e =? 0) then mret None
      else
        s ← read_at (hSockArr c) i;
        hClntSock ← syscall (WAccept s);
        newEvent ← syscall WSACreateEvent;
        r ← syscall (WSAEventSelect hClntSock newEvent (Z.lor (Z.lor FD_READ FD_WRITE) FD_CLOSE));
        if r =? -1 then ErrorHandling
        else c ← add_client c hClntSock newEvent; mret (Some c)
  end.

Definition on_read (c : clients) (i : Z) (ne : netEvents) : wprog (option clients) :=
  match ne_read ne with
  | None => mret (Some c)
  | Some e =>
      if negb (e =? 0) then mret None
      else
        s ← read_at (hSockArr c) i;
        msg ← syscall (WRecv s (BUF_SIZE - 1));
        s ← read_at (hSockArr c) i;
        (match msg with
         | Some msg => syscall (WSend s msg (lenZ msg))
         | None => syscall (WSend s [] (-1))
         end);;
        mret (Some c)
  end.

Definition on_close (c : clients) (i : Z) (ne : netEvents) : wprog (option clients) :=
  match ne_close ne with
  | None => mret (Some c)
  | Some e =>
      if negb (e =? 0) then mret None
      else
        ev ← read_at (hEventArr c) i;
        syscall (WSACloseEvent ev);;
        s ← read_at (hSockArr c) i;
        syscall (Closesocket s);;
        let num := numofClntSock c - 1 in
        socks ← CompressSockets (hSockArr c) i num;
        evs ← CompressEvents (hEventArr c) i num;
        mret (Some (mkClients socks evs num))
  end.

(** A turn of the loop over the sockets. *)
Definition event_turn (s : clients * Z) : wprog (clients * Z + clients) :=
  let '(c, i) := s in
  if negb (i <? numofClntSock c) then mret (inr c)
  else
    ev ← read_at (hEventArr c) i;
    sigEventIdx ← syscall (WSAWaitForMultipleEvents [ev] (Some 0));
    if (sigEventIdx =? -1) || (sigEventIdx =? WSA_WAIT_TIMEOUT) then mret (inl (c, i + 1))
    else
      s ← read_at (hSockArr c) i;
      ev ← read_at (hEventArr c) i;
      ne ← syscall (WSAEnumNetworkEvents s ev);
      c1 ← on_accept c i ne;
      match c1 with
      | None => mret (inr c)
      | Some c1 =>
          c2 ← on_read c1 i ne;
          match c2 with
          | None => mret (inr c1)
          | Some c2 =>
              c3 ← on_close c2 i ne;
              match c3 with
              | None => mret (inr c2)
              | Some c3 => mret (inl (c3, i + 1))
              end
          end
      end.

(** A turn of the [while (1)] loop, which nothing leaves. *)
Definition wait_turn (c : clients) : wprog (clients + Empty_set) :=
  startIdx ← syscall (WSAWaitForMultipleEvents (takeZ (numofClntSock c) (hEventArr c)) None);
  c ← loop event_turn (c, startIdx);
  mret (inl c).

Definition main (argc : Z) (port : bytes) : wprog Empty_set :=
  if negb (argc =? 2) then ErrorHandling
  else
    r ← syscall WSAStartup;
    if negb (r =? 0) then ErrorHandling
    else
      hServSock ← syscall WSocket;
      r ← syscall (WBind hServSock (mkAddr (htonl 0) (htons (atoi port))));
      if r =? -1 then ErrorHandling
      else
        r ← syscall (WListen hServSock 5);
        if r =? -1 then ErrorHandling
        else
          newEvent ← syscall WSACreateEvent;
          r ← syscall (WSAEventSelect hServSock newEvent FD_ACCEPT);
          if r =? -1 then ErrorHandling
          else
            c ← add_client no_clients hServSock newEvent;
            loop wait_turn c.

(** ** The protocol

    The sockets with their events, in the order in which they were registered; a
    socket and an event that are not registered yet; what Winsock has told about a
    socket; the message to be echoed, [None] after a failed receive; an event that
    was closed before its socket; and whether a call has failed that is the end of
    the process. *)
Record wsa := mkWsa {
  a_pairs : list (Z * Z);
  a_sock : option Z;
  a_event : option Z;
  a_told : option (Z * Z * netEvents);
  a_echo : option (Z * option bytes);
  a_shut : option Z;
  a_failed : bool;
}.

Definition wsa0 : wsa := mkWsa [] None None None None None false.

Definition set_failed (w : wsa) : wsa :=
  mkWsa (a_pairs w) (a_sock w) (a_event w) (a_told w) (a_echo w) (a_shut w) true.
Definition set_sock (s : option Z) (w : wsa) : wsa :=
  mkWsa (a_pairs w) s (a_event w) (a_told w) (a_echo w) (a_shut w) (a_failed w).
Definition set_event (ev : option Z) (w : wsa) : wsa :=
  mkWsa (a_pairs w) (a_sock w) ev (a_told w) (a_echo w) (a_shut w) (a_failed w).
Definition set_told (t : option (Z * Z * netEvents)) (w : wsa) : wsa :=
  mkWsa (a_pairs w) (a_sock w) (a_event w) t (a_echo w) (a_shut w) (a_failed w).
Definition set_echo (e : option (Z * option bytes)) (w : wsa) : wsa :=
  mkWsa (a_pairs w) (a_sock w) (a_event w) (a_told w) e (a_shut w) (a_failed w).
Definition set_shut (ev : option Z) (w : wsa) : wsa :=
  mkWsa (a_pairs w) (a_sock w) (a_event w) (a_told w) (a_echo w) ev (a_failed w).
Definition set_pairs (ps : list (Z * Z)) (w : wsa) : wsa :=
  mkWsa ps (a_sock w) (a_event w) (a_told w) (a_echo w) (a_shut w) (a_failed w).

(** A socket is asked about with its own event; it is accepted from, read or closed
    only after Winsock has said, without an error, that there is something to
    accept or to read or that it was closed; a message goes back where it came
    from.  The process leaves its arrays only when there are more than 64 sockets or
    a call has failed. *)
Definition may (w : wsa) (A : Type) (e : wsaE A) : Prop :=
  match e with
  | WSAStartup => w = wsa0
  | WSocket => a_sock w = None /\ a_pairs w = []
  | WBind s _ | WListen s _ => a_sock w = Some s
  | WSACreateEvent => a_event w = None
  | WSAEventSelect s ev _ => a_sock w = Some s /\ a_event w = Some ev
  | WSAWaitForMultipleEvents evs None => evs = map snd (a_pairs w)
  | WSAWaitForMultipleEvents evs (Some _) => exists s ev, (s, ev) ∈ a_pairs w /\ evs = [ev]
  | WSAEnumNetworkEvents s ev => (s, ev) ∈ a_pairs w
  | WAccept s => exists ev ne, a_told w = Some (s, ev, ne) /\ ne_accept ne = Some 0 /\ a_sock w = None
  | WRecv s n => exists ev ne, a_told w = Some (s, ev, ne) /\ ne_read ne = Some 0 /\
                   n < BUF_SIZE /\ a_echo w = None
  | WSend s msg n => match a_echo w with
                     | Some (s', Some m) => s = s' /\ msg = m /\ n = lenZ m
                     | Some (s', None) => s = s' /\ n = -1
                     | None => False
                     end
  | WSACloseEvent ev => exists s ne, a_told w = Some (s, ev, ne) /\ ne_close ne = Some 0 /\ a_shut w = None
  | Closesocket s => exists ev ne, a_told w = Some (s, ev, ne) /\ a_shut w = Some ev
  | WAbort => a_failed w = true \/ WSA_MAXIMUM_WAIT_EVENTS < lenZ (a_pairs w)
  | WExit _ => a_failed w = true \/ w = wsa0
  end.

(** [WSAEventSelect] registers sockets and events that are not in use. *)
Definition does (w : wsa) (A : Type) (e : wsaE A) : A -> wsa -> Prop :=
  match e in wsaE A return A -> wsa -> Prop with
  | WSAStartup => λ a w', a = 0 /\ w' = w \/ a <> 0 /\ w' = set_failed w
  | WSocket => λ a w', w' = set_sock (Some a) w
  | WBind _ _ | WListen _ _ => λ a w', a = 0 /\ w' = w \/ a = -1 /\ w' = set_failed w
  | WSACreateEvent => λ a w', w' = set_event (Some a) w
  | WSAEventSelect s ev _ => λ a w',
      a = 0 /\ (s ∉ map fst (a_pairs w)) /\ (ev ∉ map snd (a_pairs w)) /\
        w' = set_sock None (set_event None (set_pairs (a_pairs w ++ [(s, ev)]) w)) \/
      a = -1 /\ w' = set_failed w
  | WSAWaitForMultipleEvents evs None => λ a w',
      0 <= a < lenZ evs /\ w' = w \/ a = -1 /\ w' = set_failed w
  | WSAWaitForMultipleEvents _ (Some _) => λ a w', w' = w
  | WSAEnumNetworkEvents s ev => λ a w', w' = set_told (Some (s, ev, a)) w
  | WAccept _ => λ a w', w' = set_sock (Some a) w
  | WRecv s n => λ a w', (match a with Some m => lenZ m <= n | None => True end) /\
                         w' = set_echo (Some (s, a)) w
  | WSend _ _ _ => λ _ w', w' = set_echo None w
  | WSACloseEvent ev => λ _ w', w' = set_shut (Some ev) w
  | Closesocket s => λ _ w',
      w' = set_shut None (set_told None (set_pairs (filter (λ p, p.1 <> s) (a_pairs w)) w))
  | WAbort | WExit _ => λ _ _, False
  end.

Definition asyn_protocol : protocol wsaE wsa := Protocol may does.

(** ** The arrays hold the registered pairs *)

Record holds (c : clients) (ps : list (Z * Z)) : Prop := {
  ho_socks : exists t, hSockArr c = map fst ps ++ t;
  ho_events : exists t, hEventArr c = map snd ps ++ t;
  ho_num : numofClntSock c = lenZ ps;
  ho_lens : lenZ (hSockArr c) = WSA_MAXIMUM_WAIT_EVENTS;
  ho_lene : lenZ (hEventArr c) = WSA_MAXIMUM_WAIT_EVENTS;
}.

Lemma observe_read_at {B} a i v (k : Z -> wprog B) :
  0 <= i -> a !! Z.to_nat i = Some v -> observe (read_at a i ≫= k) = observe (k v).
Proof. intros Hi Ha. unfold read_at. arith_tests. by rewrite Ha. Qed.

Lemma observe_write_at {B} a i v (k : list Z -> wprog B) :
  0 <= i < lenZ a -> observe (write_at a i v ≫= k) = observe (k (<[Z.to_nat i := v]> a)).
Proof. intros Hi. unfold write_at. by arith_tests. Qed.

(** Closing the gap takes out what was at the index. *)
Lemma compress_eq y : forall x d t, exists z, forall B (k : list Z -> wprog B),
  observe (compress (length y) (x ++ d :: y ++ t) (lenZ x) ≫= k) = observe (k (x ++ y ++ z :: t)).
Proof.
  induction y as [|e y IH]; intros x d t; cbn [length compress].
  - exists d. intros B k. by rewrite observe_bind.
  - destruct (IH (x ++ [e]) e t) as [z Hz]. exists z. intros B k.
    assert (observe (compress (length y) (x ++ e :: e :: y ++ t) (lenZ x + 1) ≫= k) =
            observe (k (x ++ (e :: y) ++ z :: t))) as Hz'.
    { specialize (Hz B k). rewrite lenZ_app in Hz. change (lenZ [e]) with 1 in Hz.
      rewrite <- !app_assoc in Hz. exact Hz. }
    rewrite <- Hz'. cbn [app].
    assert (observe (v ← read_at (x ++ d :: e :: y ++ t) (lenZ x + 1);
                     a ← write_at (x ++ d :: e :: y ++ t) (lenZ x) v;
                     compress (length y) a (lenZ x + 1)) =
            observe (compress (length y) (x ++ e :: e :: y ++ t) (lenZ x + 1))) as Hstep.
    { rewrite (observe_read_at _ _ e).
      - rewrite observe_write_at.
        + unfold lenZ. rewrite Nat2Z.id, insert_app_r_alt, Nat.sub_diag by lia. done.
        + rewrite lenZ_app, lenZ_cons. pose proof (lenZ_nonneg x). pose proof (lenZ_nonneg (e :: y ++ t)). lia.
      - pose proof (lenZ_nonneg x). lia.
      - unfold lenZ. rewrite lookup_app_r by lia. by replace (_ - _)%nat with 1%nat by lia. }
    by apply observe_bind_cong.
Qed.

(** Between two calls: nothing is half done. *)
Record at_rest (c : clients) (w : wsa) : Prop := {
  ar_holds : holds c (a_pairs w);
  ar_nodup : NoDup (map fst (a_pairs w));
  ar_sock : a_sock w = None;
  ar_event : a_event w = None;
  ar_echo : a_echo w = None;
  ar_shut : a_shut w = None;
}.

(** What is at index [i]. *)
Lemma holds_lookup c ps i s ev :
  holds c ps -> ps !! i = Some (s, ev) ->
  hSockArr c !! i = Some s /\ hEventArr c !! i = Some ev.
Proof.
  intros [[ts Hs] [te He] _ _ _] Hi. rewrite Hs, He.
  split; apply lookup_app_l_Some; by rewrite list_lookup_fmap, Hi.
Qed.

Lemma write_end (a ps t : list Z) n v :
  a = ps ++ t -> n = lenZ ps -> n < lenZ a ->
  exists t', <[Z.to_nat n := v]> a = (ps ++ [v]) ++ t'.
Proof.
  intros -> -> Hn. rewrite lenZ_app in Hn. destruct t as [|d t]; [change (lenZ (@nil Z)) with 0 in Hn; lia|].
  exists t. unfold lenZ. rewrite Nat2Z.id, insert_app_r_alt, Nat.sub_diag by lia. by rewrite <- app_assoc.
Qed.

Ltac a_call :=
  eapply safe_call;
  [cbn [allowed asyn_protocol may]
  |intros ? ?; cbn [answers asyn_protocol does]].

Lemma wabort_safe {R} (Q : R -> wsa -> Prop) w :
  a_failed w = true \/ WSA_MAXIMUM_WAIT_EVENTS < lenZ (a_pairs w) -> safe asyn_protocol Q w wabort.
Proof. intros H. apply safe_call; [exact H|]. intros [] ? []. Qed.

Lemma error_safe {R} (Q : R -> wsa -> Prop) w :
  a_failed w = true \/ w = wsa0 -> safe asyn_protocol Q w ErrorHandling.
Proof. intros H. apply safe_call; [exact H|]. intros [] ? []. Qed.

Lemma add_client_safe c ps s ev w :
  holds c ps -> a_pairs w = ps ++ [(s, ev)] ->
  safe asyn_protocol (λ c' w', w' = w /\ holds c' (ps ++ [(s, ev)])) w (add_client c s ev).
Proof.
  intros [[ts Hs] [te He] Hn Hls Hle] Hw. unfold add_client.
  destruct (Z.ltb_spec (numofClntSock c) WSA_MAXIMUM_WAIT_EVENTS) as [Hlt|Hge].
  - pose proof (lenZ_nonneg ps).
    assert (lenZ (map fst ps) = lenZ ps /\ lenZ (map snd ps) = lenZ ps) as [Hf Hsd]
      by (unfold lenZ; by rewrite !length_map).
    destruct (write_end (hSockArr c) (map fst ps) ts (numofClntSock c) s) as [ts' Hs']; [done|lia|lia|].
    destruct (write_end (hEventArr c) (map snd ps) te (numofClntSock c) ev) as [te' He']; [done|lia|lia|].
    eapply safe_observe; [apply observe_write_at; lia|]. cbv beta.
    eapply safe_observe; [apply observe_write_at; lia|]. cbv beta. apply safe_ret. split; [done|].
    split; cbn.
    + exists ts'. by rewrite Hs', map_app.
    + exists te'. by rewrite He', map_app.
    + rewrite lenZ_app. change (lenZ [(s, ev)]) with 1. lia.
    + unfold lenZ in *. by rewrite length_insert.
    + unfold lenZ in *. by rewrite length_insert.
  - eapply (safe_bind _ (λ _ _, False)); [|done]. unfold write_at. rewrite Hls.
    rewrite (proj2 (Z.ltb_ge _ _)), andb_false_r by done.
    apply wabort_safe. right. rewrite Hw, lenZ_app. change (lenZ [(s, ev)]) with 1. lia.
Qed.

(** Taking a pair out of the list, by its socket and by its place. *)
Lemma filter_pair (x y : list (Z * Z)) s ev :
  NoDup (map fst (x ++ (s, ev) :: y)) -> filter (λ p, p.1 <> s) (x ++ (s, ev) :: y) = x ++ y.
Proof.
  rewrite map_app. cbn [map fst]. intros (_ & Hd & [Hy _]%NoDup_cons)%NoDup_app.
  assert (forall l : list (Z * Z), s ∉ map fst l -> filter (λ p, p.1 <> s) l = l) as Hall.
  { intros l Hl. induction l as [|p l IH]; [done|]. cbn [map] in Hl. apply not_elem_of_cons in Hl as [Hp Hl].
    rewrite filter_cons_True by auto. by rewrite IH. }
  rewrite filter_app, filter_cons_False by (by intros []). rewrite !Hall; [done|done|].
  intros Hs. apply (Hd s Hs). by left.
Qed.

(** The gap in one of the arrays is closed. *)
Lemma close_gap {R} (Q : R -> wsa -> Prop) w (f : Z * Z -> Z) a x p y t (total : Z) (k : list Z -> wprog R) :
  a = map f (x ++ p :: y) ++ t -> total = lenZ (x ++ p :: y) - 1 ->
  (forall a', (exists t', a' = map f (x ++ y) ++ t') -> lenZ a' = lenZ a -> safe asyn_protocol Q w (k a')) ->
  safe asyn_protocol Q w (compress (Z.to_nat (total - lenZ x)) a (lenZ x) ≫= k).
Proof.
  intros -> -> Hk. destruct (compress_eq (map f y) (map f x) (f p) t) as [z Hz].
  assert (lenZ (map f x) = lenZ x) as Hx by (unfold lenZ; by rewrite length_map).
  replace (Z.to_nat _) with (length (map f y)).
  2: { rewrite lenZ_app, lenZ_cons, length_map. unfold lenZ. lia. }
  eapply safe_observe; [rewrite map_app, <- app_assoc, <- Hx; apply Hz|]. apply Hk.
  - exists (z :: t). by rewrite map_app, <- app_assoc.
  - rewrite map_app. cbn [map]. rewrite !lenZ_app, !lenZ_cons. lia.
Qed.

Section event.
Context (i : nat) (s ev : Z) (ne : netEvents).

(** [c] at rest, and Winsock has told [ne] about the socket at [i]. *)
Definition told_at (c : clients) (w : wsa) : Prop :=
  at_rest c w /\ a_pairs w !! i = Some (s, ev) /\ a_told w = Some (s, ev, ne).

Definition kept (c : clients) (r : option clients) (w : wsa) : Prop :=
  match r with Some c' => told_at c' w | None => at_rest c w end.

Lemma told_read_sock {R} (Q : R -> wsa -> Prop) c w (k : Z -> wprog R) :
  told_at c w -> safe asyn_protocol Q w (k s) -> safe asyn_protocol Q w (read_at (hSockArr c) (Z.of_nat i) ≫= k).
Proof.
  intros ([Hh _ _ _ _ _] & Hi & _) Hk. eapply safe_observe; [|exact Hk].
  apply observe_read_at; [lia|]. rewrite Nat2Z.id. by eapply holds_lookup.
Qed.

Lemma told_read_event {R} (Q : R -> wsa -> Prop) c w (k : Z -> wprog R) :
  told_at c w -> safe asyn_protocol Q w (k ev) -> safe asyn_protocol Q w (read_at (hEventArr c) (Z.of_nat i) ≫= k).
Proof.
  intros ([Hh _ _ _ _ _] & Hi & _) Hk. eapply safe_observe; [|exact Hk].
  apply observe_read_at; [lia|]. rewrite Nat2Z.id. by eapply holds_lookup.
Qed.

Lemma on_accept_safe c w :
  told_at c w -> safe asyn_protocol (kept c) w (on_accept c (Z.of_nat i) ne).
Proof.
  intros Ht. pose proof Ht as (Hr & Hi & Htold). pose proof Hr as [Hh Hnd Hs Hev Hec Hsh].
  unfold on_accept. destruct (ne_accept ne) as [e|] eqn:Hne; [|by apply safe_ret].
  destruct (Z.eqb_spec e 0) as [->|_]; cbn [negb]; [|by apply safe_ret].
  eapply told_read_sock; [done|]. a_call; [by eexists _, _|]. intros ->. a_call; [done|]. intros ->.
  a_call; [done|]. cbn [a_pairs set_sock set_event].
  intros [(-> & Hns & Hne' & ->)|[-> ->]]; cbn [Z.eqb]; [|by apply error_safe; left].
  eapply safe_bind; [by apply (add_client_safe c (a_pairs w))|]. intros c' w' [-> Hc'].
  apply safe_ret. split; [|split; [|done]].
  - split; cbn; [done| |done..]. rewrite map_app. apply NoDup_app. split; [done|].
    split; [|apply NoDup_singleton]. intros x Hx Hx'. apply list_elem_of_singleton in Hx' as ->. done.
  - cbn. by apply lookup_app_l_Some.
Qed.

Lemma on_read_safe c w :
  told_at c w -> safe asyn_protocol (kept c) w (on_read c (Z.of_nat i) ne).
Proof.
  intros Ht. pose proof Ht as (Hr & Hi & Htold). pose proof Hr as [Hh Hnd Hs Hev Hec Hsh].
  unfold on_read. destruct (ne_read ne) as [e|] eqn:Hne; [|by apply safe_ret].
  destruct (Z.eqb_spec e 0) as [->|_]; cbn [negb]; [|by apply safe_ret].
  eapply told_read_sock; [done|]. a_call; [by eexists _, _|]. intros [_ ->].
  eapply safe_observe; [apply observe_read_at; [lia|]; rewrite Nat2Z.id; by eapply holds_lookup|]. cbv beta.
  eapply (safe_bind _ (λ _ w', w' = w)).
  - assert (set_echo None (set_echo (Some (s, a)) w) = w) as Hw by (destruct w; cbn in *; by subst).
    destruct a as [msg|]; (apply safe_last; [done|]); intros ? w' ->; exact Hw.
  - intros _ w' ->. by apply safe_ret.
Qed.

Lemma on_close_safe c w :
  told_at c w ->
  safe asyn_protocol (λ r w', match r with Some c' => at_rest c' w' | None => at_rest c w' end) w
    (on_close c (Z.of_nat i) ne).
Proof.
  intros Ht. pose proof Ht as (Hr & Hi & Htold). pose proof Hr as [Hh Hnd Hs Hev Hec Hsh].
  unfold on_close. destruct (ne_close ne) as [e|] eqn:Hne; [|by apply safe_ret].
  destruct (Z.eqb_spec e 0) as [->|_]; cbn [negb]; [|by apply safe_ret].
  eapply told_read_event; [done|]. a_call; [by eexists _, _|]. intros ->.
  eapply safe_observe; [apply observe_read_at; [lia|]; rewrite Nat2Z.id; by eapply holds_lookup|]. cbv beta.
  a_call; [by eexists _, _|]. cbn [a_pairs set_shut]. intros ->.
  apply list_elem_of_split_length in Hi as (x & y & Hps & ->).
  destruct Hh as [[ts Hso] [te Hevs] Hn Hls Hle]. rewrite Hps in *. rewrite filter_pair by done.
  fold (lenZ x). unfold CompressSockets, CompressEvents.
  eapply close_gap; [exact Hso|by rewrite Hn|]. intros socks Hsocks Hlsocks.
  eapply close_gap; [exact Hevs|by rewrite Hn|]. intros evs Hevents Hlevs.
  apply safe_ret. split; cbn; [|..|done|done|done|done].
  - split; cbn; [done|done| |lia|lia]. rewrite Hn, !lenZ_app, lenZ_cons. lia.
  - eapply sublist_NoDup; [exact Hnd|]. rewrite !map_app. apply sublist_app; [done|by constructor].
Qed.
End event.

(** A turn of the loop over the sockets: the index is that of a socket, unless the
    wait for all of them has failed. *)
Definition scanning (s : clients * Z) (w : wsa) : Prop :=
  at_rest s.1 w /\ (0 <= s.2 \/ a_failed w = true).

Lemma event_turn_safe s w :
  scanning s w ->
  safe asyn_protocol (λ r w', match r with inl s' => scanning s' w' | inr c => at_rest c w' end) w
    (event_turn s).
Proof.
  destruct s as [c i]. intros [Hr Hi]. pose proof Hr as [Hh Hnd Hs Hev Hec Hsh]. cbn [fst snd] in *.
  unfold event_turn. destruct (Z.ltb_spec i (numofClntSock c)) as [Hlt|]; cbn [negb]; [|by apply safe_ret].
  destruct (Z.leb_spec 0 i) as [H0|H0].
  2: { eapply (safe_bind _ (λ _ _, False)); [|done]. unfold read_at. arith_tests.
       apply wabort_safe. destruct Hi; [lia|by left]. }
  rewrite (ho_num _ _ Hh) in Hlt. clear Hi.
  destruct (lookup_lt_is_Some_2 (a_pairs w) (Z.to_nat i)) as [[so ev] Hp]; [unfold lenZ in Hlt; lia|].
  destruct (holds_lookup _ _ _ _ _ Hh Hp) as [Hso Hevs].
  eapply safe_observe; [by apply observe_read_at|]. cbv beta.
  a_call; [exists so, ev; split; [by eapply list_elem_of_lookup_2|done]|]. intros ->.
  destruct (_ || _); [apply safe_ret; split; [done|left; cbn; lia]|].
  eapply safe_observe; [by apply observe_read_at|]. cbv beta.
  eapply safe_observe; [by apply observe_read_at|]. cbv beta.
  a_call; [by eapply list_elem_of_lookup_2|]. rename a0 into ne. intros ->.
  assert (told_at (Z.to_nat i) so ev ne c (set_told (Some (so, ev, ne)) w)) as Ht by (split; [by split|done]).
  replace i with (Z.of_nat (Z.to_nat i)) by lia.
  eapply safe_bind; [by apply on_accept_safe|]. intros [c1|] w1 H1; [|by apply safe_ret].
  eapply safe_bind; [by apply on_read_safe|]. intros [c2|] w2 H2; [|by apply safe_ret].
  eapply safe_bind; [exact (on_close_safe _ _ _ _ _ _ H2)|]. intros [c3|] w3 H3; apply safe_ret; [|done].
  split; [done|left; cbn; lia].
Qed.

Lemma wait_turn_safe c w :
  at_rest c w ->
  safe asyn_protocol (λ r w', match r with inl c' => at_rest c' w' | inr _ => False end) w (wait_turn c).
Proof.
  intros Hr. pose proof Hr as [Hh Hnd Hs Hev Hec Hsh]. unfold wait_turn. a_call.
  { destruct Hh as [_ [te He] Hn _ _]. rewrite He, Hn. apply takeZ_app. unfold lenZ. by rewrite length_map. }
  intros Ha. eapply (safe_bind _ at_rest).
  - apply (safe_loop _ scanning); [intros s w'; apply event_turn_safe|].
    destruct Ha as [[Hi ->]|[-> ->]]; (split; [|cbn; auto; lia]); [done|by split].
  - intros c' w' Hr'. by apply safe_ret.
Qed.

(** ** Property *)

(** C15: The server never loses track of its clients, whatever they and the system
    do.  Through accepts and through the closing of gaps the two arrays hold at
    each index a socket and its own event; all events are waited for; a socket is
    accepted from, read or closed only after its own event has said so; what is
    received goes back to where it came from; and the arrays are left only when a
    65th socket is registered or the wait for all has failed. *)
Theorem arrays_in_step argc port :
  safe asyn_protocol (λ _ _, False) wsa0 (main argc port).
Proof.
  unfold main. destruct (argc =? 2); cbn [negb]; [|by apply error_safe; right].
  a_call; [done|]. intros [[-> ->]|[Hne ->]].
  2: { rewrite (proj2 (Z.eqb_neq _ _) Hne). by apply error_safe; left. }
  cbn [Z.eqb negb]. a_call; [done|]. rename a into hs. intros ->.
  a_call; [done|]. intros [[-> ->]|[-> ->]]; cbn [Z.eqb]; [|by apply error_safe; left].
  a_call; [done|]. intros [[-> ->]|[-> ->]]; cbn [Z.eqb]; [|by apply error_safe; left].
  a_call; [done|]. rename a into ev. intros ->. a_call; [done|].
  intros [(-> & _ & _ & ->)|[-> ->]]; cbn [Z.eqb]; [|by apply error_safe; left].
  eapply safe_bind.
  { apply (add_client_safe no_clients []); [|done]. split; [by eexists|by eexists|done..]. }
  intros c w [-> Hc]. apply (safe_loop _ at_rest).
  - intros c' w Hr. eapply safe_conseq; [by apply wait_turn_safe|]. by intros [?|[]] w'.
  - split; cbn; [done|apply NoDup_singleton|done..].
Qed.
