(* ===== verification/Threads.v ===== *)
(** * Threads that share a state

    A pool of interaction trees, of which at every step any one makes its next
    call; the system may move in between.  Thread [i] keeps to a protocol of its
    own, [P i], over the state they share.  [rely i] is what the others and the
    system may do to that state while [i] does nothing: a thread is proved on its
    own, against any interference of that kind, and then no run of the pool makes a
    call that is not allowed. *)
From S2P Require Import Prelude Interact.

Section threads.
Context {E : Type -> Type} {S : Type}.
Context (P : nat -> protocol E S) (sys : S -> S -> Prop).

(** ** Runs of a pool *)

Inductive pool_step {R} : list (itree E R) * S -> list (itree E R) * S -> Prop :=
  | step_silent ts s i t u :
      ts !! i = Some t -> observe t = TauF u ->
      pool_step (ts, s) (<[i := u]> ts, s)
  | step_call ts s i t A (e : E A) k a s' :
      ts !! i = Some t -> observe t = VisF e k -> answers (P i) s e a s' ->
      pool_step (ts, s) (<[i := k a]> ts, s')
  | step_system ts s s' :
      sys s s' -> pool_step (ts, s) (ts, s').

Abbreviation pool_steps := (rtc pool_step).

(** The next call of every thread is allowed. *)
Definition pool_ok {R} (ps : list (itree E R) * S) : Prop :=
  forall i t A (e : E A) k,
    ps.1 !! i = Some t -> observe t = VisF e k -> allowed (P i) ps.2 e.

(** What a step can be, by the thread that makes it. *)
Definition thread_step {R} (i : nat) (ps ps' : list (itree E R) * S) (t : itree E R) : Prop :=
  match observe t with
  | RetF _ => False
  | TauF u => ps' = (<[i := u]> ps.1, ps.2)
  | VisF e k => exists a s', answers (P i) ps.2 e a s' /\ ps' = (<[i := k a]> ps.1, s')
  end.

Lemma pool_step_iff {R} (ps ps' : list (itree E R) * S) :
  pool_step ps ps' <->
  (exists s', sys ps.2 s' /\ ps' = (ps.1, s')) \/
  (exists i t, ps.1 !! i = Some t /\ thread_step i ps ps' t).
Proof.
  unfold thread_step. split.
  - intros [ts s i t u Ht Ho|ts s i t A e k a s' Ht Ho Ha|ts s s' Hs]; cbn.
    + right. exists i, t. by rewrite Ho.
    + right. exists i, t. rewrite Ho. eauto 6.
    + left. eauto.
  - destruct ps as [ts s]. cbn. intros [(s' & Hs & ->)|(i & t & Ht & H)]; [by apply step_system|].
    destruct (observe t) as [r|u|A e k] eqn:Ho; [done| |].
    + subst. by eapply step_silent.
    + destruct H as (a & s' & Ha & ->). by eapply step_call.
Qed.

(** ** One thread against the others *)

Context (Inv : S -> Prop) (rely : nat -> S -> S -> Prop).

(** What is kept by all, whatever the threads are. *)
Record non_interfering : Prop := {
  ni_refl : forall i s, rely i s s;
  ni_trans : forall i s1 s2 s3, rely i s1 s2 -> rely i s2 s3 -> rely i s1 s3;
  ni_sys : forall s s', Inv s -> sys s s' -> Inv s' /\ forall i, rely i s s';
  ni_call : forall i s A (e : E A) a s', Inv s -> allowed (P i) s e -> answers (P i) s e a s' ->
    Inv s' /\ forall j, j <> i -> rely j s s';
}.

Context (Hni : non_interfering).

(** [n] calls of thread [i], each made after any interference; [Q] holds when it
    returns within them. *)
Fixpoint holds_for {R} (i n : nat) (Q : R -> S -> Prop) (s : S) (t : itree E R) : Prop :=
  match n with
  | O => True
  | Datatypes.S n =>
      forall s', Inv s' -> rely i s s' ->
      match observe t with
      | RetF r => Q r s'
      | TauF u => holds_for i n Q s' u
      | VisF e k =>
          allowed (P i) s' e /\ forall a s'', answers (P i) s' e a s'' -> holds_for i n Q s'' (k a)
      end
  end.

Definition holds {R} (i : nat) (Q : R -> S -> Prop) (s : S) (t : itree E R) : Prop :=
  forall n, holds_for i n Q s t.

Lemma holds_for_rely {R} i n (Q : R -> S -> Prop) s s' t :
  rely i s s' -> holds_for i n Q s t -> holds_for i n Q s' t.
Proof.
  intros Hr H. destruct n as [|n]; [done|]. intros s1 Hi Hr1. apply H; [done|]. by eapply (ni_trans Hni).
Qed.

Lemma holds_rely {R} i (Q : R -> S -> Prop) s s' t : rely i s s' -> holds i Q s t -> holds i Q s' t.
Proof. intros Hr H n. by eapply holds_for_rely. Qed.

(** What is kept along a run: the invariant, and what each thread was proved to do. *)
Lemma pool_keeps {R} (Q : R -> S -> Prop) ts s ps :
  Inv s -> (forall i t, ts !! i = Some t -> holds i Q s t) -> pool_steps (ts, s) ps ->
  Inv ps.2 /\ forall i t, ps.1 !! i = Some t -> holds i Q ps.2 t.
Proof.
  intros Hi Hts Hsteps. remember (ts, s) as p0 eqn:Hp0.
  assert (Inv p0.2 /\ forall i t, p0.1 !! i = Some t -> holds i Q p0.2 t) as H by (by subst).
  clear Hp0 Hi Hts ts s. induction Hsteps as [|p p1 p2 H1 _ IH]; [done|]. apply IH. clear IH p2.
  destruct H as [Hi Hts]. destruct H1 as [ts s i t u Ht Ho|ts s i t A e k a s' Ht Ho Ha|ts s s' Hs]; cbn in *.
  - split; [done|]. intros j t' Hj. destruct (decide (i = j)) as [->|Hne].
    + rewrite list_lookup_insert_eq in Hj by (by eapply lookup_lt_Some). injection Hj as <-.
      intros n. specialize (Hts j t Ht (Datatypes.S n) s Hi (ni_refl Hni _ _)). by rewrite Ho in Hts.
    + rewrite list_lookup_insert_ne in Hj by done. by apply Hts.
  - pose proof (Hts i t Ht 1%nat s Hi (ni_refl Hni _ _)) as Hal. rewrite Ho in Hal. destruct Hal as [Hal _].
    destruct (ni_call Hni i s A e a s' Hi Hal Ha) as [Hi' Hr]. split; [done|].
    intros j t' Hj. destruct (decide (i = j)) as [->|Hne].
    + rewrite list_lookup_insert_eq in Hj by (by eapply lookup_lt_Some). injection Hj as <-.
      intros n. specialize (Hts j t Ht (Datatypes.S n) s Hi (ni_refl Hni _ _)). rewrite Ho in Hts.
      by apply Hts.
    + rewrite list_lookup_insert_ne in Hj by done. eapply holds_rely; [|by apply Hts]. by apply Hr.
  - destruct (ni_sys Hni s s' Hi Hs) as [Hi' Hr]. split; [done|].
    intros j t Hj. eapply holds_rely; [|by apply Hts]. apply Hr.
Qed.

(** The threads proved one by one never do wrong together. *)
Lemma pool_sound {R} (Q : R -> S -> Prop) ts s ps :
  Inv s -> (forall i t, ts !! i = Some t -> holds i Q s t) ->
  pool_steps (ts, s) ps -> pool_ok ps.
Proof.
  intros Hi Hts Hsteps. destruct (pool_keeps Q ts s ps Hi Hts Hsteps) as [Hi' Hts'].
  intros i t A e k Ht Ho. specialize (Hts' i t Ht 1%nat ps.2 Hi' (ni_refl Hni _ _)).
  cbn in Hts'. rewrite Ho in Hts'. apply Hts'.
Qed.

(** ** Rules for one thread *)

Definition stable (i : nat) (phi : S -> Prop) : Prop :=
  forall s s', phi s -> Inv s' -> rely i s s' -> phi s'.

Lemma holds_ret {R} i (Q : R -> S -> Prop) s r : stable i (Q r) -> Q r s -> holds i Q s (mret r).
Proof. intros Hst Hs [|n]; [done|]. intros s' Hi Hr. by eapply Hst. Qed.

Lemma holds_for_bind {R T} i (Q : R -> S -> Prop) (Q' : T -> S -> Prop) (k : R -> itree E T) n : forall s t,
  holds_for i n Q s t ->
  (forall m r s', (m <= n)%nat -> Q r s' -> holds_for i m Q' s' (k r)) ->
  holds_for i n Q' s (t ≫= k).
Proof.
  induction n as [|n IH]; intros s t H Hk; [done|]. intros s' Hi Hr. specialize (H s' Hi Hr).
  rewrite observe_bind. destruct (observe t) as [r|u|A e h].
  - apply (Hk _ r s' (le_n _) H); [done|apply (ni_refl Hni)].
  - apply IH; [done|]. intros m r s1 Hm. apply Hk. lia.
  - destruct H as [Ha H]. split; [done|]. intros a s1 Hs1. apply IH; [by apply H|].
    intros m r s2 Hm. apply Hk. lia.
Qed.

Lemma holds_bind {R T} i (Q : R -> S -> Prop) (Q' : T -> S -> Prop) (k : R -> itree E T) s t :
  holds i Q s t -> (forall r s', Q r s' -> holds i Q' s' (k r)) -> holds i Q' s (t ≫= k).
Proof. intros H Hk n. eapply holds_for_bind; [apply H|]. intros m r s' _ HQ. by apply Hk. Qed.

Lemma holds_mono {R} i (Q Q' : R -> S -> Prop) s t :
  (forall r s', Q r s' -> Q' r s') -> holds i Q s t -> holds i Q' s t.
Proof.
  intros HQ H n. specialize (H n). revert s t H.
  induction n as [|n IH]; [done|]. intros s t H s1 Hi Hr. specialize (H s1 Hi Hr).
  destruct (observe t); [by apply HQ|by apply IH|]. destruct H as [Ha Hk]. split; [done|].
  intros a s2 Hs2. by apply IH, Hk.
Qed.

Lemma holds_for_observe {R} i n (Q : R -> S -> Prop) s (t u : itree E R) :
  observe u = observe t -> holds_for i n Q s t -> holds_for i n Q s u.
Proof. intros H Ht. destruct n as [|n]; [done|]. intros s' Hi Hr. specialize (Ht s' Hi Hr). by rewrite H. Qed.

Lemma holds_observe {R} i (Q : R -> S -> Prop) s (t u : itree E R) :
  observe u = observe t -> holds i Q s t -> holds i Q s u.
Proof. intros H Ht n. by eapply holds_for_observe. Qed.

Lemma holds_ret_bind {R T} i (Q : T -> S -> Prop) s (r : R) (k : R -> itree E T) :
  holds i Q s (k r) -> holds i Q s (mret r ≫= k).
Proof. by apply holds_observe. Qed.

(** A call, made after any interference. *)
Lemma holds_call {R A} i (Q : R -> S -> Prop) s (e : E A) (k : A -> itree E R) :
  (forall s', Inv s' -> rely i s s' ->
     allowed (P i) s' e /\
     forall a s'', answers (P i) s' e a s'' -> Inv s'' -> holds i Q s'' (k a)) ->
  holds i Q s (syscall e ≫= k).
Proof.
  intros He [|n]; [done|]. intros s' Hi Hr. cbn.
  destruct (He s' Hi Hr) as [Ha Hk]. split; [done|].
  intros a s'' Hs''. apply (holds_for_observe _ _ _ _ (k a)); [done|]. apply Hk; [done|].
  by eapply (ni_call Hni).
Qed.

Lemma holds_loop {I R} i (Lo : I -> S -> Prop) (Q : R -> S -> Prop) (body : I -> itree E (I + R)) :
  (forall j s, Lo j s ->
     holds i (λ r s', match r with inl j => Lo j s' | inr r => Q r s' end) s (body j)) ->
  (forall r, stable i (Q r)) ->
  forall j s, Lo j s -> holds i Q s (loop body j).
Proof.
  intros Hbody HQ j s Hj n. revert j s Hj.
  induction n as [n IH] using lt_wf_ind; intros j s Hj.
  apply (holds_for_observe _ _ _ _ (body j ≫= λ lr, match lr with inl i => Tau (loop body i) | inr r => Ret r end)).
  { reflexivity. }
  eapply holds_for_bind; [apply (Hbody j s Hj n)|].
  intros m [j'|r] s' Hm Hr; (destruct m as [|m]; [done|]); intros s1 Hi1 Hr1.
  - apply (holds_for_rely _ _ _ s'); [done|]. by apply IH.
  - by eapply HQ.
Qed.
End threads.

(** ** Runs by schedule

    A run can be evaluated when a schedule says which thread moves and a resolution
    [o] of what is open says what its call answers, or what the system does. *)
Section schedule.
Context {E : Type -> Type} {S O C : Type}.
Context (resolve : O -> nat -> forall A, E A -> S -> option (A * S)) (advance : C -> S -> option S).

Inductive move := Move (i : nat) (o : O) | Advance (c : C).

Definition exec1 {R} (m : move) (ps : list (itree E R) * S) : option (list (itree E R) * S) :=
  let '(ts, s) := ps in
  match m with
  | Move i o =>
      t ← ts !! i;
      match observe t with
      | RetF _ => None
      | TauF u => Some (<[i := u]> ts, s)
      | VisF e k => r ← resolve o i _ e s; Some (<[i := k r.1]> ts, r.2)
      end
  | Advance c => s' ← advance c s; Some (ts, s')
  end.

Fixpoint exec {R} (ms : list move) (ps : list (itree E R) * S) : option (list (itree E R) * S) :=
  match ms with
  | [] => Some ps
  | m :: ms => ps ← exec1 m ps; exec ms ps
  end.

Context (P : nat -> protocol E S) (sys : S -> S -> Prop).
Context (Hresolve : forall o i A (e : E A) s a s', resolve o i A e s = Some (a, s') -> answers (P i) s e a s').
Context (Hadvance : forall c s s', advance c s = Some s' -> sys s s').

Lemma exec_steps {R} (ms : list move) : forall ps ps' : list (itree E R) * S,
  exec ms ps = Some ps' -> rtc (pool_step P sys) ps ps'.
Proof.
  induction ms as [|m ms IH]; intros ps ps' H; cbn in H; [by injection H as ->|].
  apply bind_Some in H as (p1 & H1 & H). eapply rtc_l; [|by apply IH]. clear IH H.
  destruct ps as [ts s], m as [i o|c]; cbn in H1.
  - apply bind_Some in H1 as (t & Ht & H1). destruct (observe t) as [r|u|A e k] eqn:Ho; [done|..].
    + injection H1 as <-. by eapply step_silent.
    + apply bind_Some in H1 as ([a s'] & Hr & [= <-]). eapply step_call; [done|done|].
      by eapply Hresolve.
  - apply bind_Some in H1 as (s' & Hs & [= <-]). apply step_system. by eapply Hadvance.
Qed.
End schedule.
