(* ===== verification/Workers.v ===== *)
(** * The worker threads of the server (IocpServer.cpp, LockGuard.h)

    [IocpServer] has a worker thread for every processor.  Here each is a program of its
    own, and every access to what they share is a call: the interlocked counters, the
    critical sections, the lists, a context's socket and buffers, the requests in
    flight.  Any number of them run side by side and take turns at their calls in any
    order.  Of the data only what the order of accesses depends on is kept: whether a
    socket is open, whether an output buffer or queue is empty; what the buffers hold is
    the matter of [IocpServer]. *)
From S2P Require Import Prelude Interact Threads Os ClientContext IocpServer ServerInv.

(** ** Calls *)

(** [m_csLock] of a context and [m_csClientList]. *)
Inductive lock := LClient (c : client) | LList.

#[export] Instance lock_eq_dec : EqDecision lock.
Proof. solve_decision. Defined.
#[export] Instance lock_countable : Countable lock :=
  inj_countable' (λ l, match l with LClient c => Some c | LList => None end)
    (λ o, match o with Some c => LClient c | None => LList end) (λ l, match l with LClient _ => eq_refl | LList => eq_refl end).

#[export] Instance kind_countable : Countable kind :=
  inj_countable' (λ k, match k with KRecv => true | KSend => false end)
    (λ b, if b : bool then KRecv else KSend) (λ k, match k with KRecv => eq_refl | KSend => eq_refl end).

(** What [GetQueuedCompletionStatus] brings: the exit key, an accept, or the completion of
    a request of a context with its result and the number of bytes. *)
Inductive packet :=
  | PExit
  | PServer (a : acceptor)
  | PClient (c : client) (k : kind) (ret : bool) (n : Z).

(** Calls about a handle, which do not touch what the threads share. *)
Inductive netcall :=
  | UpdateAcceptContext (a : acceptor)
  | CloseAccepted (a : acceptor)
  | PostAccept (a : acceptor)
  | AssociatePort (c : client)
  | PeerName (c : client)
  | SetLinger (c : client)
  | CancelIo (c : client)
  | CloseSocket (c : client).

(** [EnterLoop] and [ExitLoop] are the interlocked operations on [m_nPendingIoCnt], with
    what the reference is for; [TestCnt] is the comparison of the number of connections
    with its maximum.  [UseIn] reads or writes the input buffer or the receive's structure;
    [OutEmpty], [OutFill], [OutRemove] and [OutClear] are about the output buffer. *)
Variant workE : Type -> Type :=
  | ExitEvent : workE bool
  | IsShutdown : workE bool
  | GetPacket : workE packet
  | Net (k : netcall) : workE bool
  | EnterCS (l : lock) : workE unit
  | LeaveCS (l : lock) : workE unit
  | TestCnt : workE bool
  | IncCnt : workE unit
  | DecCnt : workE unit
  | PopFree : workE (option client)
  | NewContext : workE client
  | SetSock (c : client) : workE unit
  | Reset (c : client) : workE bool
  | AddConn (c : client) : workE unit
  | RemoveConn (c : client) : workE unit
  | EnterLoop (c : client) (k : kind) : workE unit
  | ExitLoop (c : client) (k : kind) : workE Z
  | GetSock (c : client) : workE bool
  | ClearSock (c : client) : workE unit
  | UseIn (c : client) : workE unit
  | OutEmpty (c : client) : workE bool
  | OutFill (c : client) : workE unit
  | OutRemove (c : client) (n : Z) : workE unit
  | OutClear (c : client) : workE unit
  | QueuePush (c : client) : workE unit
  | QueueEmpty (c : client) : workE bool
  | QueuePop (c : client) : workE unit
  | Post (c : client) (k : kind) : workE bool
  | Abort : workE Empty_set.

Abbreviation prog := (itree workE).

(** ** The program *)

(** A guard lives to the end of its block. *)
Definition LockGuard {A} (l : lock) (body : prog A) : prog A :=
  syscall (EnterCS l);;
  r ← body;
  syscall (LeaveCS l);;
  mret r.

Definition addClient (c : client) : prog unit := LockGuard LList (syscall (AddConn c)).
Definition removeClient (c : client) : prog unit := LockGuard LList (syscall (RemoveConn c)).

(** [reset] asserts that nothing refers to the context and that its queue is empty. *)
Definition allocateClientContext : prog client :=
  LockGuard LList (
    o ← syscall PopFree;
    c ← match o with Some c => mret c | None => syscall NewContext end;
    syscall (SetSock c);;
    ok ← syscall (Reset c);
    if ok : bool then mret c else syscall Abort ≫= λ v : Empty_set, match v with end).

Definition releaseClientContext (c : client) (k : kind) : prog unit :=
  n ← syscall (ExitLoop c k);
  if n <=? 0 then removeClient c else mret tt.

Definition CloseClient (c : client) : prog unit :=
  s ← LockGuard (LClient c) (s ← syscall (GetSock c); syscall (ClearSock c);; mret s);
  if s : bool then
    ok ← syscall (Net (SetLinger c));
    if negb ok then mret tt
    else
      ok ← syscall (Net (CancelIo c));
      if negb ok then mret tt
      else syscall (Net (CloseSocket c));; syscall DecCnt
  else mret tt.

Definition post (c : client) (k : kind) : prog PostResult :=
  LockGuard (LClient c) (
    s ← syscall (GetSock c);
    if s : bool then
      ok ← syscall (Post c k);
      mret (if ok : bool then PostResultSuccesful else PostResultFailed)
    else mret PostResultInvalidSocket).

Definition postRecv (c : client) : prog PostResult := syscall (UseIn c);; post c KRecv.
Definition postSend (c : client) : prog PostResult := post c KSend.

(** The temporary buffer is written before the lock is taken. *)
Definition send (c : client) : prog bool :=
  syscall (UseIn c);;
  LockGuard (LClient c) (
    e ← syscall (OutEmpty c);
    if e : bool then
      syscall (EnterLoop c KSend);;
      syscall (OutFill c);;
      r ← postSend c;
      if bool_decide (r = PostResultFailed) then
        CloseClient c;; releaseClientContext c KSend;; mret false
      else mret true
    else syscall (QueuePush c);; mret true).

Definition echo (c : client) : prog unit :=
  syscall (UseIn c);;
  send c;;
  syscall (UseIn c).

Definition handleRecv (c : client) : prog unit :=
  syscall (UseIn c);;
  echo c;;
  r ← postRecv c;
  if failed r then CloseClient c;; releaseClientContext c KRecv else mret tt.

(** When everything has been sent: the next queued buffer, or none. *)
Definition next_outBuf (c : client) : prog unit :=
  e ← syscall (OutEmpty c);
  if e : bool then
    syscall (OutClear c);;
    q ← syscall (QueueEmpty c);
    if q : bool then releaseClientContext c KSend else syscall (OutFill c);; syscall (QueuePop c)
  else mret tt.

Definition handleSend (c : client) (n : Z) : prog unit :=
  LockGuard (LClient c) (
    syscall (OutRemove c n);;
    next_outBuf c;;
    e ← syscall (OutEmpty c);
    if e : bool then mret tt
    else
      r ← postSend c;
      if bool_decide (r = PostResultFailed) then CloseClient c;; releaseClientContext c KSend
      else mret tt).

Definition handleClose (c : client) (k : kind) : prog unit :=
  CloseClient c;; releaseClientContext c k.

Definition notifyNewConnection (c : client) : prog unit :=
  syscall (GetSock c);; syscall (Net (PeerName c));; mret tt.

Definition handleAccept (a : acceptor) : prog unit :=
  syscall (Net (UpdateAcceptContext a));;
  full ← syscall TestCnt;
  if full : bool then
    syscall (Net (CloseAccepted a));; syscall (Net (PostAccept a));; mret tt
  else
    syscall IncCnt;;
    c ← allocateClientContext;
    syscall (GetSock c);;
    ok ← syscall (Net (AssociatePort c));
    if negb ok then mret tt
    else
      syscall (EnterLoop c KRecv);;
      syscall (Net (PostAccept a));;
      notifyNewConnection c;;
      addClient c;;
      r ← postRecv c;
      if failed r then CloseClient c;; releaseClientContext c KRecv else mret tt.

(** One turn of [IocpWorkerThread]. *)
Definition worker_loop_turn : prog (unit + unit) :=
  stop ← syscall ExitEvent;
  if stop : bool then mret (inr tt)
  else
    p ← syscall GetPacket;
    match p with
    | PExit => mret (inr tt)
    | PServer a =>
        down ← syscall IsShutdown;
        (if down : bool then mret tt else handleAccept a);;
        mret (inl tt)
    | PClient c k ret n =>
        syscall IsShutdown;;
        (if negb ret || (n =? 0) then handleClose c k
         else match k with KRecv => handleRecv c | KSend => handleSend c n end);;
        mret (inl tt)
    end.

Definition IocpWorkerThread : prog unit := loop (λ _ : unit, worker_loop_turn) tt.

(** ** What they share

    A context is not made yet, in the free list, taken by a thread that has not entered it
    into the loop, in use, or about to be given up by the thread that took the last
    reference. *)
Inductive mode := Gone | Idle | Fresh (i : nat) | Used | Dying (i : nat).

#[export] Instance mode_eq_dec : EqDecision mode.
Proof. solve_decision. Defined.

Record cell := mkCell {
  c_refs : Z;
  c_out : bool;
  c_queue : nat;
  c_mode : mode;
}.
Definition cell0 : cell := mkCell 0 false 0 Gone.

(** What a thread is in the middle of: it has passed the test of the number of
    connections; it has counted a connection whose socket is in no context yet; it has
    taken the socket out of a context and not uncounted it. *)
Record local := mkLocal { passed : bool; counted : bool; cleared : bool }.
Definition local0 : local := mkLocal false false false.

(** [w_refs] says of a request of a context, when there is one, whether the system has it
    ([None]) or the thread that handles its completion or will post it. *)
Record world := mkWorld {
  w_cnt : Z;
  w_open : gset client;
  w_cells : gmap client cell;
  w_conn : list client;
  w_free : list client;
  w_locks : gmap lock (nat * nat);
  w_refs : gmap ref (option nat);
  w_own : list local;
}.

Definition set_cnt n w := mkWorld n (w_open w) (w_cells w) (w_conn w) (w_free w) (w_locks w) (w_refs w) (w_own w).
Definition set_open o w := mkWorld (w_cnt w) o (w_cells w) (w_conn w) (w_free w) (w_locks w) (w_refs w) (w_own w).
Definition set_cell c x w :=
  mkWorld (w_cnt w) (w_open w) (<[c := x]> (w_cells w)) (w_conn w) (w_free w) (w_locks w) (w_refs w) (w_own w).
Definition set_conn l w := mkWorld (w_cnt w) (w_open w) (w_cells w) l (w_free w) (w_locks w) (w_refs w) (w_own w).
Definition set_free l w := mkWorld (w_cnt w) (w_open w) (w_cells w) (w_conn w) l (w_locks w) (w_refs w) (w_own w).
Definition set_locks m w := mkWorld (w_cnt w) (w_open w) (w_cells w) (w_conn w) (w_free w) m (w_refs w) (w_own w).
Definition set_refs m w := mkWorld (w_cnt w) (w_open w) (w_cells w) (w_conn w) (w_free w) (w_locks w) m (w_own w).
Definition set_own i x w :=
  mkWorld (w_cnt w) (w_open w) (w_cells w) (w_conn w) (w_free w) (w_locks w) (w_refs w) (<[i := x]> (w_own w)).

Definition cell_in (m : gmap client cell) c : cell := default cell0 (m !! c).
Definition local_in (l : list local) i : local := default local0 (l !! i).
Abbreviation cell_of w c := (cell_in (w_cells w) c).
Abbreviation mine i w := (local_in (w_own w) i).

Definition set_mode m (x : cell) : cell := mkCell (c_refs x) (c_out x) (c_queue x) m.
Definition set_out b (x : cell) : cell := mkCell (c_refs x) b (c_queue x) (c_mode x).
Definition set_queue n (x : cell) : cell := mkCell (c_refs x) (c_out x) n (c_mode x).
Definition upd_cell c (f : cell -> cell) w : world := set_cell c (f (cell_of w c)) w.

(** The thread holds a request; it is in a critical section. *)
Abbreviation holds_ref i c k w := (w_refs w !! (c, k) = Some (Some i)).
Definition owned (m : gmap lock (nat * nat)) i l : Prop := exists d, m !! l = Some (i, d).
Definition used (m : gmap ref (option nat)) i c : Prop := exists k, m !! (c, k) = Some (Some i).
Abbreviation owns i l w := (owned (w_locks w) i l).
Abbreviation in_use i c w := (used (w_refs w) i c).

(** When a call may be made.  A context is touched by a thread that holds one of its
    requests, or before anyone else knows of it; its socket, output buffer and queue in the
    critical section besides, and the lists in theirs. *)
Definition may (i : nat) (w : world) (A : Type) (e : workE A) : Prop :=
  match e with
  | ExitEvent | IsShutdown | Net _ | EnterCS _ | TestCnt => True
  | GetPacket => forall l, ~ owns i l w
  | LeaveCS l => owns i l w /\ forall c d, l = LClient c -> w_locks w !! l = Some (i, d) -> (d <= 1)%nat ->
      holds_ref i c KSend w -> c_out (cell_of w c) = true
  | IncCnt => passed (mine i w) = true
  | DecCnt => cleared (mine i w) = true
  | PopFree | NewContext => owns i LList w
  | SetSock c => c_mode (cell_of w c) = Fresh i /\ counted (mine i w) = true
  | Reset c => c_mode (cell_of w c) = Fresh i
  | AddConn c => owns i LList w /\ holds_ref i c KRecv w
  | RemoveConn c => owns i LList w /\ c_mode (cell_of w c) = Dying i
  | EnterLoop c k =>
      k = KRecv /\ c_mode (cell_of w c) = Fresh i \/
      k = KSend /\ owns i (LClient c) w /\ holds_ref i c KRecv w /\ c_out (cell_of w c) = false /\
        ~ holds_ref i c KSend w
  | ExitLoop c k => holds_ref i c k w
  | GetSock c =>
      owns i (LClient c) w /\ in_use i c w \/ c_mode (cell_of w c) = Fresh i \/
      holds_ref i c KRecv w /\ w_refs w !! (c, KSend) = None
  | ClearSock c | QueuePush c | QueueEmpty c | QueuePop c => owns i (LClient c) w /\ in_use i c w
  | UseIn c => holds_ref i c KRecv w
  | OutEmpty c => owns i (LClient c) w
  | OutFill c | OutRemove c _ | OutClear c => owns i (LClient c) w /\ holds_ref i c KSend w
  | Post c k => owns i (LClient c) w /\ holds_ref i c k w /\ c ∈ w_open w /\
      (k = KSend -> c_out (cell_of w c) = true)
  | Abort => exists c, c_mode (cell_of w c) = Fresh i /\ c_queue (cell_of w c) <> 0%nat
  end.

(** What it does and answers.  A critical section that another thread is in does not let
    in.  The counts of references do not reach 2^31. *)
Definition does (max : Z) (i : nat) (w : world) (A : Type) (e : workE A) : A -> world -> Prop :=
  match e in workE A return A -> world -> Prop with
  | ExitEvent | IsShutdown | Net _ => λ _ w', w' = w
  | GetPacket => λ p w',
      match p with
      | PClient c k _ _ => w_refs w !! (c, k) = Some None /\ w' = set_refs (<[(c, k) := Some i]> (w_refs w)) w
      | _ => w' = w
      end
  | EnterCS l => λ _ w',
      match w_locks w !! l with
      | None => w' = set_locks (<[l := (i, 1%nat)]> (w_locks w)) w
      | Some (j, d) => j = i /\ w' = set_locks (<[l := (i, S d)]> (w_locks w)) w
      end
  | LeaveCS l => λ _ w',
      match w_locks w !! l with
      | Some (j, S (S d)) => w' = set_locks (<[l := (j, S d)]> (w_locks w)) w
      | _ => w' = set_locks (delete l (w_locks w)) w
      end
  | TestCnt => λ r w', r = (max <=? w_cnt w) /\
      w' = set_own i (mkLocal (negb r) (counted (mine i w)) (cleared (mine i w))) w
  | IncCnt => λ _ w', w' = set_own i (mkLocal false true (cleared (mine i w))) (set_cnt (u32 (w_cnt w + 1)) w)
  | DecCnt => λ _ w', w' = set_own i (mkLocal (passed (mine i w)) (counted (mine i w)) false)
                             (set_cnt (u32 (w_cnt w - 1)) w)
  | PopFree => λ r w',
      match w_free w with
      | [] => r = None /\ w' = w
      | c :: l => r = Some c /\ w' = upd_cell c (set_mode (Fresh i)) (set_free l w)
      end
  | NewContext => λ c w', c_mode (cell_of w c) = Gone /\ w' = upd_cell c (set_mode (Fresh i)) w
  | SetSock c => λ _ w', w' = set_own i (mkLocal (passed (mine i w)) false (cleared (mine i w)))
                                (set_open ({[c]} ∪ w_open w) w)
  | Reset c => λ r w', r = (c_refs (cell_of w c) =? 0) && bool_decide (c_queue (cell_of w c) = 0%nat) /\ w' = w
  | AddConn c => λ _ w', w' = set_conn (w_conn w ++ [c]) w
  | RemoveConn c => λ _ w',
      w' = if bool_decide (c ∈ w_conn w)
           then upd_cell c (set_mode Idle) (set_free (w_free w ++ [c]) (set_conn (filter (.≠ c) (w_conn w)) w))
           else w
  | EnterLoop c k => λ _ w', c_refs (cell_of w c) + 1 < 2 ^ 31 /\
      w' = set_refs (<[(c, k) := Some i]> (w_refs w))
             (upd_cell c (λ x, mkCell (c_refs x + 1) (c_out x) (c_queue x) Used) w)
  | ExitLoop c k => λ r w', r = c_refs (cell_of w c) - 1 /\
      w' = set_refs (delete (c, k) (w_refs w))
             (upd_cell c (λ x, mkCell r (c_out x) (c_queue x) (if r <=? 0 then Dying i else c_mode x)) w)
  | GetSock c => λ r w', r = bool_decide (c ∈ w_open w) /\ w' = w
  | ClearSock c => λ _ w',
      w' = set_own i (mkLocal (passed (mine i w)) (counted (mine i w))
                        (cleared (mine i w) || bool_decide (c ∈ w_open w)))
             (set_open (w_open w ∖ {[c]}) w)
  | UseIn _ => λ _ w', w' = w
  | OutEmpty c => λ r w', r = negb (c_out (cell_of w c)) /\ w' = w
  | OutFill c => λ _ w', w' = upd_cell c (set_out true) w
  | OutRemove c _ => λ _ w', exists b, (b = true -> c_out (cell_of w c) = true) /\ w' = upd_cell c (set_out b) w
  | OutClear c => λ _ w', w' = upd_cell c (set_out false) w
  | QueuePush c => λ _ w', w' = upd_cell c (λ x, set_queue (S (c_queue x)) x) w
  | QueueEmpty c => λ r w', r = bool_decide (c_queue (cell_of w c) = 0%nat) /\ w' = w
  | QueuePop c => λ _ w', w' = upd_cell c (λ x, set_queue (pred (c_queue x)) x) w
  | Post c k => λ r w', w' = if r then set_refs (<[(c, k) := None]> (w_refs w)) w else w
  | Abort => λ _ _, False
  end.

(** The server starts with no connection; [n] threads. *)
Definition world0 (n : nat) : world := mkWorld 0 ∅ ∅ [] [] ∅ ∅ (replicate n local0).

Definition work_protocol (max : Z) (i : nat) : protocol workE world :=
  Protocol (λ w A e, (i < length (w_own w))%nat /\ may i w A e) (does max i).

(** ** The invariant *)

(** How many threads are in the middle of something. *)
Fixpoint total (f : local -> bool) (l : list local) : Z :=
  match l with [] => 0 | x :: l => Z.b2z (f x) + total f l end.

Lemma b2z_range b : 0 <= Z.b2z b <= 1.
Proof. by destruct b. Qed.

Lemma total_app f l1 l2 : total f (l1 ++ l2) = total f l1 + total f l2.
Proof. induction l1 as [|x l1 IH]; cbn [app total]; lia. Qed.

Lemma total_range f l : 0 <= total f l <= lenZ l.
Proof.
  induction l as [|y l IH]; cbn [total]; [done|]. rewrite lenZ_cons. pose proof (b2z_range (f y)). lia.
Qed.

Lemma split_at l i : (i < length l)%nat ->
  exists l1 l2, l = l1 ++ local_in l i :: l2 /\ forall x, <[i := x]> l = l1 ++ x :: l2.
Proof.
  intros H. unfold local_in. destruct (lookup_lt_is_Some_2 l i H) as [y Hy]. rewrite Hy. cbn [default].
  exists (take i l), (drop (S i) l). split; [by rewrite take_drop_middle|].
  intros x. by rewrite insert_take_drop.
Qed.

Lemma total_insert f l i x :
  (i < length l)%nat -> total f (<[i := x]> l) = total f l - Z.b2z (f (local_in l i)) + Z.b2z (f x).
Proof.
  intros H. destruct (split_at l i H) as (l1 & l2 & E & ->).
  apply (f_equal (total f)) in E. rewrite total_app in *. cbn [total] in *. lia.
Qed.

Lemma total_ge f l i : (i < length l)%nat -> Z.b2z (f (local_in l i)) <= total f l.
Proof.
  intros H. destruct (split_at l i H) as (l1 & l2 & E & _). apply (f_equal (total f)) in E.
  rewrite total_app in E. cbn [total] in E.
  pose proof (total_range f l1). pose proof (total_range f l2). lia.
Qed.

(** The requests of a context, with the system or a thread. *)
Definition there (o : option (option nat)) : Z := match o with Some _ => 1 | None => 0 end.
Definition nrefs (m : gmap ref (option nat)) c : Z := there (m !! (c, KRecv)) + there (m !! (c, KSend)).

Record Inv (max n : Z) (w : world) : Prop := {
  v_len : lenZ (w_own w) = n;
  v_refs : forall c, nrefs (w_refs w) c <= c_refs (cell_of w c) < 2 ^ 31;
  v_mode : forall c, c_mode (cell_of w c) <> Used -> c_refs (cell_of w c) = 0;
  v_free : NoDup (w_free w);
  v_idle : forall c, c ∈ w_free w -> c_mode (cell_of w c) = Idle;
  v_flying : forall c, w_refs w !! (c, KSend) = Some None -> c_out (cell_of w c) = true;
  v_sending : forall i c, holds_ref i c KSend w -> c_out (cell_of w c) = true \/ owns i (LClient c) w;
  v_cnt : Z.of_nat (base.size (w_open w)) + total counted (w_own w) + total cleared (w_own w) <= w_cnt w;
  v_cap : w_cnt w + total passed (w_own w) <= max + n - 1;
}.

(** What the others may do while thread [i] does nothing. *)
Record rely (i : nat) (w w' : world) : Prop := {
  re_own : w_own w' !! i = w_own w !! i;
  re_len : length (w_own w') = length (w_own w);
  re_locks : forall l d, w_locks w !! l = Some (i, d) <-> w_locks w' !! l = Some (i, d);
  re_refs : forall c k, holds_ref i c k w <-> holds_ref i c k w';
  re_cell : forall c, owns i (LClient c) w ->
    c_out (cell_of w' c) = c_out (cell_of w c) /\ c_queue (cell_of w' c) = c_queue (cell_of w c);
  re_open : forall c, owns i (LClient c) w -> in_use i c w -> c ∈ w_open w <-> c ∈ w_open w';
  re_mode : forall c, c_mode (cell_of w c) = Fresh i \/ c_mode (cell_of w c) = Dying i ->
    cell_of w' c = cell_of w c;
  re_sole : forall c, holds_ref i c KRecv w -> w_refs w !! (c, KSend) = None -> w_refs w' !! (c, KSend) = None;
}.

Lemma rely_same i w : rely i w w.
Proof. by split. Qed.

Lemma owned_iff m m' i l :
  (forall d, m !! l = Some (i, d) <-> m' !! l = Some (i, d)) -> owned m i l <-> owned m' i l.
Proof. intros H. unfold owned. by setoid_rewrite H. Qed.

Lemma used_iff m m' i c :
  (forall k, m !! (c, k) = Some (Some i) <-> m' !! (c, k) = Some (Some i)) -> used m i c <-> used m' i c.
Proof. intros H. unfold used. by setoid_rewrite H. Qed.

Lemma rely_after i w1 w2 w3 : rely i w1 w2 -> rely i w2 w3 -> rely i w1 w3.
Proof.
  intros [A1 A2 A3 A4 A5 A6 A7 A8] [B1 B2 B3 B4 B5 B6 B7 B8]. split.
  - congruence.
  - congruence.
  - intros l d. by rewrite A3.
  - intros c k. by rewrite A4.
  - intros c Ho. destruct (A5 c Ho) as [<- <-]. apply B5. by apply (owned_iff _ _ _ _ (A3 _)).
  - intros c Ho Hu. rewrite A6 by done. apply B6; [by apply (owned_iff _ _ _ _ (A3 _))|by apply (used_iff _ _ _ _ (A4 _))].
  - intros c Hm. rewrite B7; [by apply A7|]. by rewrite A7.
  - intros c Hr Hn. apply B8; [by apply A4|by apply A8].
Qed.

Lemma cell_set (m : gmap client cell) c c' x : cell_in (<[c := x]> m) c' = if decide (c = c') then x else cell_in m c'.
Proof.
  unfold cell_in. destruct (decide (c = c')) as [->|Hne]; [by rewrite lookup_insert_eq|by rewrite lookup_insert_ne].
Qed.

Lemma local_set l i x : (i < length l)%nat -> local_in (<[i := x]> l) i = x.
Proof. intros H. unfold local_in. by rewrite list_lookup_insert_eq. Qed.

(** Steps of another thread. *)
Lemma rely_own i j x w : j <> i -> rely j w (set_own i x w).
Proof. intros Hne. split; cbn; try done; [by rewrite list_lookup_insert_ne|by rewrite length_insert]. Qed.

Lemma rely_open j o w :
  (forall c, owns j (LClient c) w -> in_use j c w -> c ∈ w_open w <-> c ∈ o) -> rely j w (set_open o w).
Proof. by split. Qed.

Lemma rely_lock j l o w :
  (forall d, w_locks w !! l <> Some (j, d)) -> (forall d, o <> Some (j, d)) ->
  rely j w (set_locks (partial_alter (λ _, o) l (w_locks w)) w).
Proof.
  intros H1 H2. split; cbn; try done. intros l' d. destruct (decide (l = l')) as [<-|Hne].
  - rewrite lookup_partial_alter_eq. split; intros H; exfalso; [by apply (H1 d)|by apply (H2 d)].
  - by rewrite lookup_partial_alter_ne.
Qed.

Lemma rely_cell j c x w :
  c_mode (cell_of w c) <> Fresh j -> c_mode (cell_of w c) <> Dying j ->
  (owns j (LClient c) w -> c_out x = c_out (cell_of w c) /\ c_queue x = c_queue (cell_of w c)) ->
  rely j w (set_cell c x w).
Proof.
  intros Hf Hd Ho. split; cbn; try done.
  - intros c' H. rewrite cell_set. destruct (decide (c = c')) as [<-|]; [by apply Ho|done].
  - intros c' H. rewrite cell_set. destruct (decide (c = c')) as [<-|]; [tauto|done].
Qed.

Lemma rely_ref j c k o w :
  ~ holds_ref j c k w -> o <> Some (Some j) -> (k = KSend -> w_refs w !! (c, k) = None -> ~ holds_ref j c KRecv w) ->
  rely j w (set_refs (partial_alter (λ _, o) (c, k) (w_refs w)) w).
Proof.
  intros H1 H2 H3.
  assert (forall c' k', holds_ref j c' k' w <-> partial_alter (λ _, o) (c, k) (w_refs w) !! (c', k') = Some (Some j)) as Hr.
  { intros c' k'. destruct (decide ((c, k) = (c', k'))) as [[= <- <-]|Hne].
    - by rewrite lookup_partial_alter_eq.
    - by rewrite lookup_partial_alter_ne. }
  split; cbn; try done. intros c' Hc' Hn. destruct (decide ((c, k) = (c', KSend))) as [[= <- ->]|Hne].
  - by destruct H3.
  - by rewrite lookup_partial_alter_ne.
Qed.

(** ** Changes that keep the invariant *)

Section changes.
Context (max n : Z).
Implicit Types (w : world).

Lemma Inv_cell c x w :
  Inv max n w -> nrefs (w_refs w) c <= c_refs x < 2 ^ 31 -> (c_mode x <> Used -> c_refs x = 0) ->
  (c ∈ w_free w -> c_mode x = Idle) -> (w_refs w !! (c, KSend) = Some None -> c_out x = true) ->
  (forall i, holds_ref i c KSend w -> c_out x = true \/ owns i (LClient c) w) ->
  Inv max n (set_cell c x w).
Proof.
  intros [V1 V2 V3 V4 V5 V6 V7 V8 V9] H1 H2 H3 H4 H5.
  split; cbn; try done; intros *; try (rewrite cell_set; destruct (decide (c = _)) as [<-|]; auto).
Qed.

Lemma Inv_ref c k o w :
  Inv max n w -> nrefs (partial_alter (λ _, o) (c, k) (w_refs w)) c <= c_refs (cell_of w c) ->
  (forall p, k = KSend -> o = Some p -> c_out (cell_of w c) = true \/ exists i, p = Some i /\ owns i (LClient c) w) ->
  Inv max n (set_refs (partial_alter (λ _, o) (c, k) (w_refs w)) w).
Proof.
  intros [V1 V2 V3 V4 V5 V6 V7 V8 V9] H1 H2. split; cbn; try done.
  - intros c'. destruct (decide (c = c')) as [<-|Hne]; [by split; [|apply V2]|].
    unfold nrefs. rewrite !lookup_partial_alter_ne by congruence. apply V2.
  - intros c'. destruct (decide ((c, k) = (c', KSend))) as [[= <- ->]|Hne].
    + rewrite lookup_partial_alter_eq. intros ->. by destruct (H2 None eq_refl eq_refl) as [|(i & ? & _)].
    + rewrite lookup_partial_alter_ne by done. apply V6.
  - intros i c'. destruct (decide ((c, k) = (c', KSend))) as [[= <- ->]|Hne].
    + rewrite lookup_partial_alter_eq. intros ->.
      destruct (H2 (Some i) eq_refl eq_refl) as [|(j & [= <-] & ?)]; auto.
    + rewrite lookup_partial_alter_ne by done. apply V7.
Qed.

Lemma Inv_locks m w :
  Inv max n w ->
  (forall i c, holds_ref i c KSend w -> owns i (LClient c) w -> c_out (cell_of w c) = true \/ owned m i (LClient c)) ->
  Inv max n (set_locks m w).
Proof.
  intros [V1 V2 V3 V4 V5 V6 V7 V8 V9] H. split; cbn; try done.
  intros i c Hr. destruct (V7 i c Hr); auto.
Qed.

Lemma Inv_free l w :
  Inv max n w -> NoDup l -> (forall c, c ∈ l -> c_mode (cell_of w c) = Idle) -> Inv max n (set_free l w).
Proof. intros [V1 V2 V3 V4 V5 V6 V7 V8 V9] H1 H2. by split. Qed.

Lemma Inv_conn l w : Inv max n w -> Inv max n (set_conn l w).
Proof. by intros []. Qed.

(** The counts, with what thread [i] is in the middle of. *)
Lemma Inv_counts i x o cnt w :
  Inv max n w -> (i < length (w_own w))%nat ->
  Z.of_nat (base.size o) + Z.b2z (counted x) + Z.b2z (cleared x) - cnt <=
    Z.of_nat (base.size (w_open w)) + Z.b2z (counted (mine i w)) + Z.b2z (cleared (mine i w)) - w_cnt w ->
  cnt + Z.b2z (passed x) + (total passed (w_own w) - Z.b2z (passed (mine i w))) <= max + n - 1 ->
  Inv max n (set_own i x (set_open o (set_cnt cnt w))).
Proof.
  intros [V1 V2 V3 V4 V5 V6 V7 V8 V9] Hi H1 H2.
  split; cbn -[Z.of_nat]; try done.
  - unfold lenZ. rewrite length_insert. exact V1.
  - rewrite !total_insert by done. lia.
  - rewrite total_insert by done. lia.
Qed.

(** A context of which a request is somewhere is in use. *)
Lemma there_le o p : o = Some p -> there o = 1.
Proof. by intros ->. Qed.

Lemma there_range o : 0 <= there o <= 1.
Proof. by destruct o. Qed.

Lemma nrefs_range m c : 0 <= nrefs m c.
Proof. unfold nrefs. pose proof (there_range (m !! (c, KRecv))). pose proof (there_range (m !! (c, KSend))). lia. Qed.

Lemma nrefs_ge m c k p : m !! (c, k) = Some p -> 1 <= nrefs m c.
Proof.
  unfold nrefs. intros H. pose proof (there_range (m !! (c, KRecv))). pose proof (there_range (m !! (c, KSend))).
  destruct k; rewrite H in *; cbn; lia.
Qed.

Lemma nrefs_alter m c k o :
  nrefs (partial_alter (λ _, o) (c, k) m) c = nrefs m c - there (m !! (c, k)) + there o.
Proof.
  unfold nrefs. destruct k.
  - rewrite lookup_partial_alter_eq, lookup_partial_alter_ne by congruence. lia.
  - rewrite lookup_partial_alter_eq, lookup_partial_alter_ne by congruence. lia.
Qed.

Lemma ref_used w c k p : Inv max n w -> w_refs w !! (c, k) = Some p -> c_mode (cell_of w c) = Used.
Proof.
  intros HI H. apply nrefs_ge in H. pose proof (v_refs _ _ _ HI c).
  destruct (decide (c_mode (cell_of w c) = Used)) as [|Hm]; [done|]. apply (v_mode _ _ _ HI) in Hm. lia.
Qed.

Lemma not_free w c : Inv max n w -> c_mode (cell_of w c) <> Idle -> c ∉ w_free w.
Proof. intros HI Hm Hin. by apply (v_idle _ _ _ HI) in Hin. Qed.

Lemma fresh_no_refs w c k : Inv max n w -> c_mode (cell_of w c) <> Used -> w_refs w !! (c, k) = None.
Proof.
  intros HI Hm. destruct (w_refs w !! (c, k)) as [p|] eqn:E; [|done]. by apply (ref_used w c k p HI) in E.
Qed.

End changes.
