(* ===== verification/WorkersSafe.v ===== *)
(** * The worker threads do not disturb each other

    Every call of [Workers] that may be made keeps the invariant and what the other
    threads rely on, and every thread makes only such calls. *)
From S2P Require Import Prelude Interact Threads Os ClientContext IocpServer ServerInv Workers.

Section calls.
Context (max n : Z).
Context (Hmax : max + n <= 2 ^ 32).
Implicit Types (w : world) (i j : nat) (c : client).

Definition kept (i : nat) (w w' : world) : Prop := Inv max n w' /\ forall j, j <> i -> rely j w w'.

Lemma unchanged_ok i w : Inv max n w -> kept i w w.
Proof. split; [done|]. intros. apply rely_same. Qed.

Lemma owns_same i j l w : owns i l w -> owns j l w -> i = j.
Proof. intros [d Hd] [e He]. congruence. Qed.

Lemma owned_insert m l l' i j d : owned m j l -> (l' = l -> i = j) -> owned (<[l' := (i, d)]> m) j l.
Proof.
  intros [e He] H. unfold owned. destruct (decide (l' = l)) as [->|Hne].
  - rewrite lookup_insert_eq, H by done. by exists d.
  - rewrite lookup_insert_ne by done. by exists e.
Qed.

Lemma owned_delete m l l' j : owned m j l -> l' <> l -> owned (delete l' m) j l.
Proof. intros [e He] Hne. exists e. by rewrite lookup_delete_ne. Qed.

Lemma enter_ok i l a w w' : Inv max n w -> does max i w _ (EnterCS l) a w' -> kept i w w'.
Proof.
  cbn. intros HI H. destruct (w_locks w !! l) as [[i' d]|] eqn:El; [destruct H as [-> ->]|subst w'].
  - split.
    + apply Inv_locks; [done|]. intros j c _ Ho. right. apply owned_insert; [done|].
      intros ->. apply (owns_same i j (LClient c) w); [by exists d|done].
    + intros j Hj. apply rely_lock; [intros e; rewrite El|intros e]; congruence.
  - split.
    + apply Inv_locks; [done|]. intros j c _ Ho. right. apply owned_insert; [done|].
      intros ->. destruct Ho. congruence.
    + intros j Hj. apply rely_lock; [intros e; by rewrite El|congruence].
Qed.

Lemma leave_ok i l a w w' :
  Inv max n w -> may i w _ (LeaveCS l) -> does max i w _ (LeaveCS l) a w' -> kept i w w'.
Proof.
  cbn. intros HI [[d El] Hm] H. rewrite El in H.
  assert (forall j o, j <> i -> (forall e, o <> Some (j, e)) ->
    rely j w (set_locks (partial_alter (λ _, o) l (w_locks w)) w)) as Hr.
  { intros j o Hj Ho. apply rely_lock; [intros e; rewrite El; congruence|done]. }
  assert (forall j, owns j l w -> j = i) as Hi by (intros j Ho; by eapply owns_same; [|exists d]).
  assert ((d <= 1)%nat -> Inv max n (set_locks (delete l (w_locks w)) w)) as Hd.
  { intros Hle. apply Inv_locks; [done|]. intros j c Hs Ho.
    destruct (decide (l = LClient c)) as [->|Hne]; [|right; by apply owned_delete].
    rewrite (Hi j Ho) in Hs. left. by eapply Hm. }
  destruct d as [|[|d]]; subst w'; (split; [|intros j Hj; by apply (Hr j); [|congruence]]); [apply Hd; lia..|].
  apply Inv_locks; [done|]. intros j c Hs Ho. right. apply owned_insert; [done|].
  intros ->. by rewrite (Hi j Ho).
Qed.

Lemma total_others f l i : (i < length l)%nat -> total f l - Z.b2z (f (local_in l i)) <= lenZ l - 1.
Proof.
  intros H. destruct (split_at l i H) as (l1 & l2 & E & _). pose proof (f_equal (total f) E) as Et.
  apply (f_equal lenZ) in E. rewrite lenZ_app, lenZ_cons in E. rewrite total_app in Et. cbn [total] in Et.
  pose proof (total_range f l1). pose proof (total_range f l2). lia.
Qed.

(** What [i] is in the middle of is counted. *)
Lemma in_range i w : Inv max n w -> (i < length (w_own w))%nat ->
  0 <= w_cnt w /\ w_cnt w + Z.b2z (passed (mine i w)) <= max + n - 1 /\
  Z.b2z (counted (mine i w)) + Z.b2z (cleared (mine i w)) <= w_cnt w /\
  total passed (w_own w) - Z.b2z (passed (mine i w)) <= n - 1.
Proof.
  intros [V1 _ _ _ _ _ _ V8 V9] Hi. pose proof (total_ge passed _ i Hi). pose proof (total_ge counted _ i Hi).
  pose proof (total_ge cleared _ i Hi). pose proof (total_others passed _ i Hi).
  pose proof (total_range counted (w_own w)). pose proof (total_range cleared (w_own w)). lia.
Qed.

Lemma own_rely i x w w' : (forall j, j <> i -> rely j w w') -> forall j, j <> i -> rely j w (set_own i x w').
Proof. intros H j Hj. eapply rely_after; [by apply H|by apply rely_own]. Qed.

Lemma test_ok i a w w' : Inv max n w -> (i < length (w_own w))%nat -> does max i w _ TestCnt a w' -> kept i w w'.
Proof.
  cbn. intros HI Hi [Ha ->]. pose proof (in_range i w HI Hi). pose proof (b2z_range (passed (mine i w))). pose proof (v_cap _ _ _ HI). split.
  - apply (Inv_counts max n i _ (w_open w) (w_cnt w)); cbn; [done|done|lia|].
    destruct a; cbn; [lia|]. symmetry in Ha. apply Z.leb_gt in Ha. lia.
  - intros j Hj. by apply rely_own.
Qed.

Lemma inc_ok i a w w' :
  Inv max n w -> (i < length (w_own w))%nat -> may i w _ IncCnt -> does max i w _ IncCnt a w' -> kept i w w'.
Proof.
  cbn. intros HI Hi Hm ->. pose proof (in_range i w HI Hi) as Hr. pose proof (v_cap _ _ _ HI). rewrite Hm in Hr. cbn in Hr. split.
  - rewrite u32_small by lia. pose proof (b2z_range (counted (mine i w))).
    apply (Inv_counts max n i _ (w_open w) (w_cnt w + 1)); cbn; rewrite ?Hm; cbn; [done|done|lia|lia].
  - apply own_rely. by intros j Hj; split.
Qed.

Lemma dec_ok i a w w' :
  Inv max n w -> (i < length (w_own w))%nat -> may i w _ DecCnt -> does max i w _ DecCnt a w' -> kept i w w'.
Proof.
  cbn. intros HI Hi Hm ->. pose proof (in_range i w HI Hi) as Hr. pose proof (v_cap _ _ _ HI). rewrite Hm in Hr. cbn in Hr.
  pose proof (b2z_range (counted (mine i w))). pose proof (b2z_range (passed (mine i w))). split.
  - rewrite u32_small by lia.
    apply (Inv_counts max n i _ (w_open w) (w_cnt w - 1)); cbn; rewrite ?Hm; cbn; [done|done|lia|lia].
  - apply own_rely. by intros j Hj; split.
Qed.

Lemma set_sock_ok i c a w w' :
  Inv max n w -> (i < length (w_own w))%nat -> may i w _ (SetSock c) -> does max i w _ (SetSock c) a w' -> kept i w w'.
Proof.
  cbn -[base.size]. intros HI Hi [Hm Hc] ->. pose proof (v_cap _ _ _ HI). split.
  - apply (Inv_counts max n i _ ({[c]} ∪ w_open w) (w_cnt w)); cbn -[base.size Z.of_nat]; rewrite ?Hc; [done|done| |lia].
    assert (base.size ({[c]} ∪ w_open w) <= 1 + base.size (w_open w))%nat; [|cbn [Z.b2z]; lia].
    rewrite size_union_alt, size_singleton. pose proof (subseteq_size (w_open w ∖ {[c]}) (w_open w) ltac:(set_solver)). lia.
  - apply own_rely. intros j Hj. apply rely_open. intros c' _ [k Hk].
    destruct (decide (c' = c)) as [->|]; [|set_solver].
    apply (ref_used _ _ _ _ _ _ HI) in Hk. congruence.
Qed.

Lemma clear_sock_ok i c a w w' :
  Inv max n w -> (i < length (w_own w))%nat -> may i w _ (ClearSock c) -> does max i w _ (ClearSock c) a w' -> kept i w w'.
Proof.
  cbn -[base.size]. intros HI Hi [Hm _] ->. pose proof (v_cap _ _ _ HI). split.
  - apply (Inv_counts max n i _ (w_open w ∖ {[c]}) (w_cnt w)); cbn -[base.size Z.of_nat]; [done|done| |lia].
    destruct (decide (c ∈ w_open w)) as [Hin|Hin].
    + rewrite bool_decide_true by done. rewrite orb_true_r. rewrite size_difference, size_singleton by set_solver.
      assert (base.size (w_open w) <> 0)%nat.
      { intros Hz%size_empty_iff. set_solver. }
      pose proof (b2z_range (cleared (mine i w))). cbn [Z.b2z]. lia.
    + rewrite bool_decide_false, orb_false_r by done.
      pose proof (subseteq_size (w_open w ∖ {[c]}) (w_open w) ltac:(set_solver)). lia.
  - apply own_rely. intros j Hj. apply rely_open. intros c' Ho _.
    destruct (decide (c' = c)) as [->|]; [|set_solver]. by destruct (Hj (owns_same j i _ w Ho Hm)).
Qed.

(** ** Lists *)

Lemma fresh_ok i c w :
  Inv max n w -> c_mode (cell_of w c) = Gone \/ c_mode (cell_of w c) = Idle -> c ∉ w_free w ->
  kept i w (upd_cell c (set_mode (Fresh i)) w).
Proof.
  intros HI Hm Hf. assert (c_mode (cell_of w c) <> Used) as Hu by (destruct Hm; congruence).
  pose proof (fresh_no_refs _ _ w c KSend HI Hu) as Hs. pose proof (v_mode _ _ _ HI c Hu) as H0. split.
  - apply Inv_cell; cbn; [done|by apply (v_refs _ _ _ HI)|done|done|congruence|]. intros j. congruence.
  - intros j Hj. apply rely_cell; [destruct Hm; congruence|destruct Hm; congruence|done].
Qed.

Lemma kept_trans i w1 w2 w3 : kept i w1 w2 -> kept i w2 w3 -> kept i w1 w3.
Proof. intros [_ H1] [H2 H3]. split; [done|]. intros j Hj. eapply rely_after; [by apply H1|by apply H3]. Qed.

Lemma pop_ok i a w w' : Inv max n w -> does max i w _ PopFree a w' -> kept i w w'.
Proof.
  cbn. intros HI H. destruct (w_free w) as [|c l] eqn:El; destruct H as [-> ->]; [by apply unchanged_ok|].
  pose proof (v_free _ _ _ HI) as Hnd. pose proof (v_idle _ _ _ HI) as Hid. rewrite El in Hnd, Hid.
  apply NoDup_cons in Hnd as [Hc Hl]. apply (kept_trans i w (set_free l w)).
  - split; [|by intros j Hj; split]. apply Inv_free; [done|done|]. intros c' Hc'. apply Hid. by right.
  - apply fresh_ok; [apply Inv_free; [done|done|]|right; cbn; apply Hid; left|done].
    intros c' Hc'. apply Hid. by right.
Qed.

Lemma new_context_ok i a w w' : Inv max n w -> does max i w _ NewContext a w' -> kept i w w'.
Proof.
  cbn. intros HI [Hg ->]. apply fresh_ok; [done|by left|]. eapply not_free; [done|congruence].
Qed.

Lemma remove_ok i c a w w' :
  Inv max n w -> may i w _ (RemoveConn c) -> does max i w _ (RemoveConn c) a w' -> kept i w w'.
Proof.
  cbn. intros HI [_ Hm] ->. case_bool_decide; [|by apply unchanged_ok].
  assert (c_mode (cell_of w c) <> Used) as Hu by congruence.
  pose proof (not_free _ _ w c HI ltac:(congruence)) as Hnf.
  set (w1 := set_conn _ w). set (w2 := set_cell c (set_mode Idle (cell_of w c)) w1).
  apply (kept_trans i w w2); [split|split].
  - apply Inv_cell; cbn; [by apply Inv_conn|by apply (v_refs _ _ _ HI)|intros _; by apply (v_mode _ _ _ HI)|done|..].
    + apply (v_flying _ _ _ HI).
    + intros j. apply (v_sending _ _ _ HI).
  - intros j Hj. apply (rely_after j w w1); [by split|]. apply rely_cell; cbn; [congruence..|done].
  - apply (Inv_free max n (w_free w ++ [c]) w2).
    + apply Inv_cell; cbn; [by apply Inv_conn|by apply (v_refs _ _ _ HI)|intros _; by apply (v_mode _ _ _ HI)|done|..].
      * apply (v_flying _ _ _ HI).
      * intros j. apply (v_sending _ _ _ HI).
    + apply NoDup_app. split; [apply HI|]. split; [|apply NoDup_singleton].
      intros c' Hc' ->%list_elem_of_singleton. done.
    + intros c' Hc'. cbn. rewrite cell_set. destruct (decide (c = c')) as [<-|]; [done|].
      rewrite elem_of_app, list_elem_of_singleton in Hc'. destruct Hc' as [Hc'| ->]; [|done].
      by apply (v_idle _ _ _ HI).
  - by intros j Hj; split.
Qed.

(** ** References *)

Lemma get_packet_ok i a w w' : Inv max n w -> does max i w _ GetPacket a w' -> kept i w w'.
Proof.
  cbn. intros HI H. destruct a as [| |c k ret m]; [subst; by apply unchanged_ok..|]. destruct H as [Hr ->]. split.
  - apply Inv_ref; [done| |].
    + rewrite nrefs_alter, Hr. pose proof (v_refs _ _ _ HI c). cbn. lia.
    + intros p -> [= <-]. left. by apply (v_flying _ _ _ HI).
  - intros j Hj. apply rely_ref; congruence.
Qed.

Lemma post_ok i c k a w w' :
  Inv max n w -> may i w _ (Post c k) -> does max i w _ (Post c k) a w' -> kept i w w'.
Proof.
  cbn. intros HI (Ho & Hr & _ & Hout) H. destruct a; subst w'; [|by apply unchanged_ok]. split.
  - apply Inv_ref; [done| |].
    + rewrite nrefs_alter, Hr. pose proof (v_refs _ _ _ HI c). cbn. lia.
    + intros p -> _. left. by apply Hout.
  - intros j Hj. apply rely_ref; congruence.
Qed.

Lemma enter_loop_ok i c k a w w' :
  Inv max n w -> may i w _ (EnterLoop c k) -> does max i w _ (EnterLoop c k) a w' -> kept i w w'.
Proof.
  cbn. intros HI Hm [Hlt ->]. pose proof (v_refs _ _ _ HI c) as Hrefs. pose proof (nrefs_range (w_refs w) c).
  unfold upd_cell. set (x := mkCell _ _ _ _). set (w1 := set_cell c x w).
  assert (c_mode (cell_of w c) = Fresh i \/ c_mode (cell_of w c) = Used) as Hmode.
  { destruct Hm as [[_ Hm]|(_ & _ & Hr & _)]; [by left|right]. by eapply ref_used. }
  assert (forall j, j <> i -> ~ holds_ref j c k w) as Hnot.
  { intros j Hj Hk. destruct Hm as [[-> Hm]|(-> & Ho & Hr & Hout & _)].
    - apply (ref_used _ _ _ _ _ _ HI) in Hk. congruence.
    - destruct (v_sending _ _ _ HI j c Hk) as [|Ho']; [congruence|]. apply Hj. by eapply owns_same. }
  assert (Inv max n w1) as HI1.
  { apply Inv_cell; cbn; [done|lia|done| |apply (v_flying _ _ _ HI)|intros j; apply (v_sending _ _ _ HI)].
    intros Hin%(v_idle _ _ _ HI). destruct Hmode; congruence. }
  apply (kept_trans i w w1); [split; [done|]|change (kept i w1 (set_refs (<[(c, k) := Some i]> (w_refs w1)) w1)); split].
  - intros j Hj. apply rely_cell; [destruct Hmode; congruence..|done].
  - apply Inv_ref; [done| |].
    + rewrite nrefs_alter. cbn. rewrite cell_set, decide_True by done. pose proof (there_range (w_refs w !! (c, k))). cbn. lia.
    + intros p -> [= <-]. destruct Hm as [[? _]|(_ & Ho & _)]; [done|]. right. by exists i.
  - intros j Hj. apply rely_ref; cbn; [by apply Hnot|congruence|]. intros -> _ Hr.
    destruct Hm as [[? _]|(_ & _ & Hr' & _)]; [done|]. congruence.
Qed.

Lemma exit_loop_ok i c k a w w' :
  Inv max n w -> may i w _ (ExitLoop c k) -> does max i w _ (ExitLoop c k) a w' -> kept i w w'.
Proof.
  cbn. intros HI Hr [-> ->]. pose proof (v_refs _ _ _ HI c) as Hrefs. pose proof (ref_used _ _ w c k _ HI Hr) as Hu.
  unfold upd_cell. set (x := mkCell _ _ _ _). set (w1 := set_refs (delete (c, k) (w_refs w)) w).
  pose proof (nrefs_alter (w_refs w) c k None) as En. rewrite Hr in En. cbn in En.
  assert (nrefs (delete (c, k) (w_refs w)) c = nrefs (w_refs w) c - 1) as En' by (unfold delete, map_delete; lia).
  pose proof (nrefs_range (delete (c, k) (w_refs w)) c).
  assert (Inv max n w1) as HI1 by (apply Inv_ref; [done|cbn in *; lia|done]).
  apply (kept_trans i w w1); [split; [done|]|].
  - intros j Hj. apply rely_ref; congruence.
  - change (kept i w1 (set_cell c x w1)). split.
    + apply Inv_cell; cbn; [done|lia| |intros Hin%(v_idle _ _ _ HI); congruence|apply (v_flying _ _ _ HI1)|
        intros j; apply (v_sending _ _ _ HI1)].
      destruct (Z.leb_spec (c_refs (cell_of w c) - 1) 0); [lia|done].
    + intros j Hj. apply rely_cell; cbn; [congruence..|done].
Qed.

(** ** Buffers *)

Lemma cell_ok i c x w :
  Inv max n w -> owns i (LClient c) w -> in_use i c w ->
  c_refs x = c_refs (cell_of w c) -> c_mode x = c_mode (cell_of w c) ->
  (c_out x = c_out (cell_of w c) \/ holds_ref i c KSend w) -> kept i w (set_cell c x w).
Proof.
  intros HI Ho [k Hk] Hr Hm Hout. pose proof (ref_used _ _ _ _ _ _ HI Hk) as Hu. split.
  - apply Inv_cell; [done|rewrite Hr; by apply (v_refs _ _ _ HI)|rewrite Hm, Hr; by apply (v_mode _ _ _ HI)|
      rewrite Hm; by apply (v_idle _ _ _ HI)| |].
    + intros Hf. destruct Hout as [->|]; [by apply (v_flying _ _ _ HI)|congruence].
    + intros j Hj. destruct Hout as [->|Hs]; [by apply (v_sending _ _ _ HI)|]. right. congruence.
  - intros j Hj. apply rely_cell; [congruence..|]. intros Ho'. by destruct (Hj (owns_same j i _ w Ho' Ho)).
Qed.

(** Every call that may be made keeps the invariant and what the others rely on. *)
Lemma call_ok i w A (e : workE A) a w' :
  Inv max n w -> (i < length (w_own w))%nat -> may i w A e -> does max i w A e a w' -> kept i w w'.
Proof.
  intros HI Hi Hm Hd. destruct e;
    try (by cbn in Hd; first [subst w'|destruct Hd as [_ ->]]; apply unchanged_ok).
  - by apply (get_packet_ok i a w w').
  - by apply (enter_ok i l a w w').
  - by apply (leave_ok i l a w w').
  - by apply (test_ok i a w w').
  - by apply (inc_ok i a w w').
  - by apply (dec_ok i a w w').
  - by apply (pop_ok i a w w').
  - by apply (new_context_ok i a w w').
  - by apply (set_sock_ok i c a w w').
  - cbn in Hd. subst w'. split; [by apply Inv_conn|]. by intros j Hj; split.
  - by apply (remove_ok i c a w w').
  - by apply (enter_loop_ok i c k a w w').
  - by apply (exit_loop_ok i c k a w w').
  - by apply (clear_sock_ok i c a w w').
  - cbn in Hm, Hd. destruct Hm as [Ho Hs]. subst w'. apply cell_ok; [done|done|by exists KSend|done|done|by right].
  - cbn in Hm, Hd. destruct Hm as [Ho Hs], Hd as (b & _ & ->). apply cell_ok; [done|done|by exists KSend|done|done|by right].
  - cbn in Hm, Hd. destruct Hm as [Ho Hs]. subst w'. apply cell_ok; [done|done|by exists KSend|done|done|by right].
  - cbn in Hm, Hd. destruct Hm as [Ho Hu]. subst w'. apply cell_ok; [done..|by left].
  - cbn in Hm, Hd. destruct Hm as [Ho Hu]. subst w'. apply cell_ok; [done..|by left].
  - by apply (post_ok i c k a w w').
  - done.
Qed.

Lemma work_non_interfering : non_interfering (work_protocol max) (λ _ _, False) (Inv max n) rely.
Proof.
  split; [intros; apply rely_same|intros; by eapply rely_after|done|].
  intros i w A e a w' HI [Hi Hm] Hd. exact (call_ok i w A e a w' HI Hi Hm Hd).
Qed.
End calls.
