(* ===== verification/WorkersRun.v ===== *)
(** * Every worker thread keeps to the protocol

    What a thread knows ([know]) is its locks, its requests, what it is in the middle of,
    in the critical section of a context whether the output buffer is empty, and for a
    while one more fact.  Others do not change that, so each function is followed call
    by call on its own. *)
From S2P Require Import Prelude Interact Threads Os ClientContext IocpServer ServerInv Workers WorkersSafe.

(** The socket is open; the context is the thread's alone, and perhaps its queue not empty,
    or is to be given up by it; it is in use but has never been sent anything. *)
Inductive fact := NoFact | IsOpen | IsFresh | IsStuck | IsDying | IsSole.

Record know := mkKnow {
  k_locks : gmap lock nat;
  k_refs : gset ref;
  k_out : option bool;
  k_local : local;
  k_fact : fact;
}.

Definition know_locks L K := mkKnow L (k_refs K) (k_out K) (k_local K) (k_fact K).
Definition know_refs T K := mkKnow (k_locks K) T (k_out K) (k_local K) (k_fact K).
Definition know_out b K := mkKnow (k_locks K) (k_refs K) b (k_local K) (k_fact K).
Definition know_local lc K := mkKnow (k_locks K) (k_refs K) (k_out K) lc (k_fact K).
Definition know_fact f K := mkKnow (k_locks K) (k_refs K) (k_out K) (k_local K) f.

Section threads.
Context (max n : Z).
Context (Hmax : max + n <= 2 ^ 32).
Implicit Types (w : world) (i : nat) (c : client) (K : know).

Definition fact_holds i c K w : Prop :=
  match k_fact K with
  | NoFact => True
  | IsOpen => is_Some (k_locks K !! LClient c) /\ (exists k, (c, k) ∈ k_refs K) /\ c ∈ w_open w
  | IsFresh => c_mode (cell_of w c) = Fresh i
  | IsStuck => c_mode (cell_of w c) = Fresh i /\ c_queue (cell_of w c) <> 0%nat
  | IsDying => c_mode (cell_of w c) = Dying i
  | IsSole => (c, KRecv) ∈ k_refs K /\ w_refs w !! (c, KSend) = None
  end.

Record st i c K w : Prop := {
  st_len : (i < length (w_own w))%nat;
  st_locks : forall l d, w_locks w !! l = Some (i, d) <-> k_locks K !! l = Some d;
  st_refs : forall c' k, holds_ref i c' k w <-> (c', k) ∈ k_refs K;
  st_own : mine i w = k_local K;
  st_out : forall b, k_out K = Some b -> is_Some (k_locks K !! LClient c) /\ c_out (cell_of w c) = b;
  st_fact : fact_holds i c K w;
}.

Lemma st_owns i c K w l : st i c K w -> is_Some (k_locks K !! l) -> owns i l w.
Proof. intros Hst [d Hd]. exists d. by apply (st_locks _ _ _ _ Hst). Qed.

Lemma st_in_use i c c' k K w : st i c K w -> (c', k) ∈ k_refs K -> in_use i c' w.
Proof. intros Hst Hk. exists k. by apply (st_refs _ _ _ _ Hst). Qed.

Lemma st_rely i c K w w' : st i c K w -> rely i w w' -> st i c K w'.
Proof.
  intros Hst Hr. pose proof Hst as [H1 H2 H3 H4 H5 H6]. pose proof Hr as [R1 R2 R3 R4 R5 R6 R7 R8]. split.
  - by rewrite R2.
  - intros l d. by rewrite <- R3.
  - intros c' k. by rewrite <- R4.
  - unfold local_in in *. by rewrite R1.
  - intros b Hb. destruct (H5 b Hb) as [Hl <-]. split; [done|]. apply R5. by eapply st_owns.
  - unfold fact_holds in *. destruct (k_fact K); [done| | | | |].
    + destruct H6 as (Hl & [k Hk] & Ho). split_and!; [done|by exists k|].
      apply (R6 c); [by eapply st_owns|by eapply st_in_use|done].
    + rewrite R7; [done|]. by left.
    + destruct H6 as [Hm Hq]. rewrite !R7; [done|by left..].
    + rewrite R7; [done|]. by right.
    + destruct H6 as [Hk Hn]. split; [done|]. apply R8; [by apply H3|done].
Qed.

(** ** Specifications

    From a state in which it knows [K], the program makes only calls it may make, and [R]
    says what it knows in the end. *)
Definition spec {A} i c K (t : prog A) (R : A -> know -> Prop) : Prop :=
  forall w, st i c K w ->
  holds (work_protocol max) (Inv max n) rely i (λ r w', exists K', st i c K' w' /\ R r K') w t.

Abbreviation ni := (work_non_interfering max n Hmax).

Lemma spec_stable {A} i c (R : A -> know -> Prop) r :
  stable (Inv max n) rely i (λ w', exists K', st i c K' w' /\ R r K').
Proof. intros w w' (K' & Hst & HR) _ Hr. exists K'. split; [by eapply st_rely|done]. Qed.

Lemma spec_ret {A} i c K (r : A) (R : A -> know -> Prop) : R r K -> spec i c K (mret r) R.
Proof. intros HR w Hst. apply holds_ret; [apply spec_stable|]. by exists K. Qed.

Lemma spec_bind {A B} i c K (t : prog A) (k : A -> prog B) R R' :
  spec i c K t R -> (forall r K', R r K' -> spec i c K' (k r) R') -> spec i c K (t ≫= k) R'.
Proof.
  intros Ht Hk w Hst. eapply holds_bind; [apply ni|by apply Ht|].
  intros r w' (K' & Hst' & HR). by apply (Hk r K' HR).
Qed.

Lemma spec_conseq {A} i c K (t : prog A) (R R' : A -> know -> Prop) :
  spec i c K t R -> (forall r K', R r K' -> R' r K') -> spec i c K t R'.
Proof. intros Ht HR w Hst. eapply holds_mono; [|by apply Ht]. intros r w' (K' & ? & ?). eauto. Qed.

(** A call: allowed, and it leaves the thread with what [R] says. *)
Lemma spec_call {A} i c K (e : workE A) (R : A -> know -> Prop) :
  (forall w, st i c K w -> Inv max n w ->
     may i w A e /\ forall a w', does max i w A e a w' -> exists K', st i c K' w' /\ R a K') ->
  spec i c K (syscall e) R.
Proof.
  intros H w Hst m. destruct m as [|m]; [done|]. intros w1 HI Hr. cbn.
  pose proof (st_rely _ _ _ _ _ Hst Hr) as Hst1. destruct (H w1 Hst1 HI) as [Hm Hk].
  split; [split; [by destruct Hst1|done]|]. intros a w2 Hd. destruct (Hk a w2 Hd) as (K' & Hst2 & HR).
  destruct m as [|m]; [done|]. intros w3 HI3 Hr3. cbn. exists K'. split; [by eapply st_rely|done].
Qed.

(** The same, followed by the rest. *)
Lemma spec_then {A B} i c K (e : workE A) (k : A -> prog B) (R : A -> know -> Prop) R' :
  (forall w, st i c K w -> Inv max n w ->
     may i w A e /\ forall a w', does max i w A e a w' -> exists K', st i c K' w' /\ R a K') ->
  (forall a K', R a K' -> spec i c K' (k a) R') -> spec i c K (syscall e ≫= k) R'.
Proof. intros H Hk. eapply spec_bind; [by apply spec_call|done]. Qed.

(** A call that changes nothing, and what its answer tells. *)
Lemma spec_read {A B} i c K (e : workE A) (k : A -> prog B) (f : A -> fact) R :
  (forall w, st i c K w -> Inv max n w -> may i w A e /\
     forall a w', does max i w A e a w' -> w' = w /\ fact_holds i c (know_fact (f a) K) w) ->
  (forall a, spec i c (know_fact (f a) K) (k a) R) -> spec i c K (syscall e ≫= k) R.
Proof.
  intros H Hk. eapply (spec_then _ _ _ _ _ (λ a K', K' = know_fact (f a) K)).
  - intros w Hst HI. destruct (H w Hst HI) as [Hm Hd]. split; [done|]. intros a w' Ha.
    destruct (Hd a w' Ha) as [-> Hf]. exists (know_fact (f a) K). split; [|done].
    destruct Hst as [H1 H2 H3 H4 H5 H6]. by split.
  - intros a K' ->. apply Hk.
Qed.

(** Calls about handles and flags. *)
Lemma spec_net {A B} i c K (e : workE A) (k : A -> prog B) R :
  match e with ExitEvent | IsShutdown | Net _ => True | _ => False end ->
  (forall a, spec i c K (k a) R) -> spec i c K (syscall e ≫= k) R.
Proof.
  intros He Hk. eapply (spec_then _ _ _ _ _ (λ a K', K' = K)); [|by intros a K' ->].
  intros w Hst HI. split; [by destruct e|]. intros a w' Hd. exists K. split; [|done].
  by destruct e; try done; cbn in Hd; subst w'.
Qed.

(** ** Critical sections *)

Definition lock_in l (L : gmap lock nat) : gmap lock nat := <[l := S (default 0%nat (L !! l))]> L.

Lemma lock_in_ne l l' L : l <> l' -> lock_in l L !! l' = L !! l'.
Proof. intros H. unfold lock_in. by rewrite lookup_insert_ne. Qed.

Lemma lock_in_eq l L : lock_in l L !! l = Some (S (default 0%nat (L !! l))).
Proof. unfold lock_in. by rewrite lookup_insert_eq. Qed.

Lemma lock_in_some l l' L : is_Some (L !! l') -> is_Some (lock_in l L !! l').
Proof. intros H. unfold lock_in. apply lookup_insert_is_Some'. by right. Qed.

Lemma st_enter i c K w l a w' :
  st i c K w -> does max i w _ (EnterCS l) a w' -> st i c (know_locks (lock_in l (k_locks K)) K) w'.
Proof.
  intros Hst Hd. pose proof Hst as [H1 H2 H3 H4 H5 H6].
  assert (w' = set_locks (<[l := (i, S (default 0%nat (k_locks K !! l)))]> (w_locks w)) w) as ->.
  { cbn in Hd. destruct (w_locks w !! l) as [[j d]|] eqn:El.
    - destruct Hd as [-> ->]. apply H2 in El. by rewrite El.
    - destruct (k_locks K !! l) as [d|] eqn:Ed; [apply H2 in Ed; congruence|done]. }
  split; cbn; [done| |done|done| |].
  - intros l' d. destruct (decide (l = l')) as [<-|Hne].
    + rewrite lookup_insert_eq, lock_in_eq. split; congruence.
    + rewrite lookup_insert_ne, lock_in_ne by done. done.
  - intros b Hb. destruct (H5 b Hb) as [Hl Ho]. split; [by apply lock_in_some|done].
  - unfold fact_holds in *. cbn. destruct (k_fact K); try done. destruct H6 as (? & ? & ?).
    split_and!; [by apply lock_in_some|done..].
Qed.

(** Leaving is the way back; what the critical section gave is gone with it. *)
Lemma st_leave i c K w l L b :
  st i c K w -> k_locks K = lock_in l L -> L !! l <> Some 0%nat ->
  (forall c', l = LClient c' -> c' = c) ->
  (l = LClient c -> L !! l = None -> (c, KSend) ∈ k_refs K -> k_out K = Some true) ->
  (forall x, b = Some x -> k_out K = Some x /\ is_Some (L !! LClient c)) ->
  may i w _ (LeaveCS l) /\ forall a w', does max i w _ (LeaveCS l) a w' ->
    st i c (mkKnow L (k_refs K) b (k_local K) (if decide (l = LList) then k_fact K else NoFact)) w'.
Proof.
  intros Hst HK H0 Hc Hout Hb. pose proof Hst as [H1 H2 H3 H4 H5 H6].
  assert (w_locks w !! l = Some (i, S (default 0%nat (L !! l)))) as El by (apply H2; by rewrite HK, lock_in_eq).
  split.
  - split; [by eexists|]. intros c' d -> Ed Hd Hs. assert (c' = c) as -> by (by apply Hc).
    rewrite Ed in El. injection El as ->. assert (L !! LClient c = None) as Hn.
    { destruct (L !! LClient c) as [[|d]|]; [done|cbn in Hd; lia|done]. }
    by apply (H5 true), Hout; [..|apply H3].
  - intros a w' Hd.
    assert (w_cells w' = w_cells w /\ w_open w' = w_open w /\ w_refs w' = w_refs w /\ w_own w' = w_own w /\
            forall l' d, w_locks w' !! l' = Some (i, d) <-> L !! l' = Some d) as (E1 & E2 & E3 & E4 & E5).
    { cbn in Hd. rewrite El in Hd. destruct (L !! l) as [[|d]|] eqn:Ed; [done| |]; cbn in Hd; subst w'; cbn;
        (split_and!; [done..|]); intros l' e; (destruct (decide (l = l')) as [<-|Hne];
          [|rewrite ?lookup_insert_ne, ?lookup_delete_ne by done; rewrite H2, HK; by rewrite lock_in_ne]).
      - rewrite lookup_insert_eq, Ed. split; congruence.
      - by rewrite lookup_delete_eq, Ed. }
    split; cbn; rewrite ?E1, ?E2, ?E3, ?E4; [done|done|done|done| |].
    + intros x Hx. destruct (Hb x Hx) as [Hk Hl]. split; [done|]. by apply H5.
    + destruct (decide (l = LList)) as [->|]; [|done]. unfold fact_holds in *. cbn. rewrite E1, E2, E3.
      destruct (k_fact K); try done. destruct H6 as (Hl & ?). split; [|done].
      rewrite HK, lock_in_ne in Hl by done. done.
Qed.

(** A guard of the context's critical section, which may be inside another. *)
Definition entered c b K := mkKnow (lock_in (LClient c) (k_locks K)) (k_refs K) (Some b) (k_local K) NoFact.
Definition left K K1 :=
  mkKnow (k_locks K) (k_refs K1) (match k_out K with Some _ => k_out K1 | None => None end) (k_local K1) NoFact.

Record guardable c K : Prop := {
  g_depth : k_locks K !! LClient c <> Some 0%nat;
  g_inside : forall b, k_out K = Some b -> is_Some (k_locks K !! LClient c);
  g_outside : k_out K = None -> k_locks K !! LClient c = None;
}.

(** What the output buffer is on entry: as it was, or, from outside, not empty while
    something is being sent. *)
Definition finds c K (b : bool) : Prop :=
  match k_out K with Some b0 => b = b0 | None => (c, KSend) ∈ k_refs K -> b = true end.

(** What must be known when it is left. *)
Definition tidy c K K1 : Prop :=
  k_locks K1 = lock_in (LClient c) (k_locks K) /\
  (k_out K = None -> (c, KSend) ∈ k_refs K1 -> k_out K1 = Some true).

Lemma spec_guard {A} i c K (body : prog A) R :
  guardable c K ->
  (forall b, finds c K b -> spec i c (entered c b K) body (λ r K1, tidy c K K1 /\ R r (left K K1))) ->
  spec i c K (LockGuard (LClient c) body) R.
Proof.
  intros [Hd Hin Hout] Hbody. unfold LockGuard.
  eapply (spec_then _ _ _ _ _ (λ _ K', exists b, finds c K b /\ K' = entered c b K)).
  - intros w Hst HI. split; [done|]. intros a w' He. pose proof (st_enter _ _ _ _ _ _ _ Hst He) as Hst'.
    exists (entered c (c_out (cell_of w' c)) K). split.
    + destruct Hst' as [H1 H2 H3 H4 H5 H6]. split; try done. intros b [= <-]. split; [|done].
      cbn. by rewrite lock_in_eq.
    + eexists. split; [|done]. assert (w_cells w' = w_cells w) as ->.
      { cbn in He. destruct (w_locks w !! _) as [[j d]|]; [by destruct He as [_ ->]|by subst w']. }
      unfold finds. destruct (k_out K) as [b0|] eqn:Eb; [by destruct (st_out _ _ _ _ Hst b0 Eb)|].
      intros Hs. apply (st_refs _ _ _ _ Hst) in Hs. destruct (v_sending _ _ _ HI i c Hs) as [|[d Ho]]; [done|].
      apply (st_locks _ _ _ _ Hst) in Ho. rewrite Hout in Ho; done.
  - intros [] K' (b & Hb & ->). eapply spec_bind; [by apply Hbody|]. intros r K1 [[HL Ht] HR].
    eapply (spec_then _ _ _ _ _ (λ _ K', K' = left K K1)); [|intros [] K' ->; by apply spec_ret].
    intros w Hst HI.
    destruct (st_leave i c K1 w (LClient c) (k_locks K) (match k_out K with Some _ => k_out K1 | None => None end)
      Hst HL Hd) as [Hm Hk].
    + by intros c' [= ->].
    + intros _ Hn. apply Ht. destruct (k_out K) as [b0|] eqn:Eb; [|done]. destruct (Hin b0 eq_refl) as [? E]. congruence.
    + intros x Hx. destruct (k_out K) as [b0|] eqn:Eb; [|done]. split; [done|]. by eapply Hin.
    + split; [done|]. intros a w' Hw. exists (left K K1). split; [|done]. by apply (Hk a w').
Qed.

(** A guard of the lists. *)
Lemma spec_list {A} i c K (body : prog A) R :
  k_locks K !! LList = None ->
  spec i c (know_locks (lock_in LList (k_locks K)) K) body
    (λ r K1, k_locks K1 = lock_in LList (k_locks K) /\ R r (know_locks (k_locks K) K1)) ->
  (forall r K1 b, R r K1 -> k_out K1 = Some b -> is_Some (k_locks K !! LClient c)) ->
  spec i c K (LockGuard LList body) R.
Proof.
  intros HL Hbody Hout. unfold LockGuard.
  eapply (spec_then _ _ _ _ _ (λ _ K', K' = know_locks (lock_in LList (k_locks K)) K)).
  - intros w Hst HI. split; [done|]. intros a w' He. eexists. split; [by eapply st_enter|done].
  - intros [] K' ->. eapply spec_bind; [exact Hbody|]. intros r K1 [HK1 HR].
    eapply (spec_then _ _ _ _ _ (λ _ K', K' = know_locks (k_locks K) K1)); [|intros [] K' ->; by apply spec_ret].
    intros w Hst HI.
    destruct (st_leave i c K1 w LList (k_locks K) (k_out K1) Hst HK1) as [Hm Hk]; [by rewrite HL|done|done| |].
    + intros x Hx. split; [done|]. by eapply Hout.
    + split; [done|]. intros a w' Hw. eexists. split; [by apply (Hk a w')|done].
Qed.

(** ** The functions *)

(** Calls that change what the thread knows. *)
Ltac st_fields Hst := let H1 := fresh in let H2 := fresh in let H3 := fresh in let H4 := fresh in
  let H5 := fresh in let H6 := fresh in destruct Hst as [H1 H2 H3 H4 H5 H6]; split; cbn; try done.

Lemma use_in_spec {B} i c K (k : unit -> prog B) R :
  (c, KRecv) ∈ k_refs K -> spec i c (know_fact NoFact K) (k tt) R -> spec i c K (syscall (UseIn c) ≫= k) R.
Proof.
  intros Hk H. apply (spec_read i c K _ _ (λ _, NoFact)); [|by intros []].
  intros w Hst _. split; [by apply (st_refs _ _ _ _ Hst)|]. intros a w' ->. done.
Qed.

Lemma get_sock_spec {B} i c K k0 (k : bool -> prog B) R :
  is_Some (k_locks K !! LClient c) -> (c, k0) ∈ k_refs K ->
  (forall a : bool, spec i c (know_fact (if a then IsOpen else NoFact) K) (k a) R) ->
  spec i c K (syscall (GetSock c) ≫= k) R.
Proof.
  intros Hl Hk H. apply (spec_read i c K _ _ (λ a : bool, if a then IsOpen else NoFact)); [|done].
  intros w Hst _. split; [left; split; [by eapply st_owns|by eapply st_in_use]|].
  intros a w' [Ha ->]. split; [done|]. unfold fact_holds. cbn. destruct a; [|done]. symmetry in Ha.
  apply bool_decide_eq_true in Ha. split_and!; [done|by exists k0|done].
Qed.

(** The request is with the system. *)
Lemma post_call_spec {B} i c K k (kk : bool -> prog B) R :
  is_Some (k_locks K !! LClient c) -> (c, k) ∈ k_refs K -> k_fact K = IsOpen ->
  (k = KSend -> k_out K = Some true) ->
  spec i c (know_fact NoFact (know_refs (k_refs K ∖ {[(c, k)]}) K)) (kk true) R ->
  spec i c (know_fact NoFact K) (kk false) R -> spec i c K (syscall (Post c k) ≫= kk) R.
Proof.
  intros Hl Hk Hf Hout Ht Hff.
  eapply (spec_then _ _ _ _ _ (λ (a : bool) K', K' = know_fact NoFact (if a then know_refs (k_refs K ∖ {[(c, k)]}) K else K)));
    [|by intros [] K' ->].
  intros w Hst HI. split.
  - split_and!; [by eapply st_owns|by apply (st_refs _ _ _ _ Hst)| |].
    + pose proof (st_fact _ _ _ _ Hst) as Hfact. unfold fact_holds in Hfact. rewrite Hf in Hfact. by destruct Hfact as (_ & _ & ?).
    + intros Hs. by apply (st_out _ _ _ _ Hst), Hout.
  - intros a w' Hd. eexists. split; [|done]. cbn in Hd. destruct a; subst w'; [|by st_fields Hst].
    pose proof (st_refs _ _ _ _ Hst) as Hr. st_fields Hst. intros c' k'. rewrite elem_of_difference, elem_of_singleton.
    destruct (decide ((c, k) = (c', k'))) as [[= <- <-]|Hne].
    + rewrite lookup_insert_eq. split; [done|]. by intros [_ []].
    + rewrite lookup_insert_ne by done. rewrite Hr. split; [|by intros []]. intros ?. split; [done|congruence].
Qed.

Definition posted c k (r : PostResult) K : know :=
  know_fact NoFact (if bool_decide (r = PostResultSuccesful) then know_refs (k_refs K ∖ {[(c, k)]}) K else K).

Lemma post_spec i c K k :
  guardable c K -> (c, k) ∈ k_refs K -> (k = KSend -> k_out K = Some true) ->
  spec i c K (post c k) (λ r K', K' = posted c k r K).
Proof.
  intros Hg Hk Hout. apply spec_guard; [done|]. intros b Hb.
  assert (k = KSend -> b = true) as Hbt.
  { intros E. unfold finds in Hb. rewrite Hout in Hb by done. done. }
  assert (k_out K = None -> forall k', (c, k') ∈ k_refs K -> k' = KSend -> Some b = Some true) as Htidy.
  { intros E k' Hk' ->. unfold finds in Hb. rewrite E in Hb. by rewrite Hb. }
  assert (match k_out K with Some _ => Some b | None => None end = k_out K) as Eb.
  { unfold finds in Hb. destruct (k_out K); [by subst|done]. }
  apply (get_sock_spec i c (entered c b K) k); [cbn; by rewrite lock_in_eq|done|]. intros [].
  - apply post_call_spec; [cbn; by rewrite lock_in_eq|done|done|intros E; cbn; by rewrite Hbt| |]; apply spec_ret.
    + split; [split; [done|]|].
      * cbn. intros E Hs. eapply (Htidy E KSend); [by apply elem_of_difference in Hs as [? _]|done].
      * unfold posted, left. rewrite bool_decide_true by done. unfold know_fact, know_refs. cbn. by rewrite Eb.
    + split; [split; [done|cbn; intros E Hs; by eapply (Htidy E KSend)]|].
      unfold posted, left. rewrite bool_decide_false by done. unfold know_fact. cbn. by rewrite Eb.
  - apply spec_ret. split; [split; [done|cbn; intros E Hs; by eapply (Htidy E KSend)]|].
    unfold posted, left. rewrite bool_decide_false by done. unfold know_fact. cbn. by rewrite Eb.
Qed.

Lemma exit_loop_spec {B} i c K k (kk : Z -> prog B) R :
  (c, k) ∈ k_refs K ->
  (forall r, spec i c (know_fact (if r <=? 0 then IsDying else NoFact) (know_refs (k_refs K ∖ {[(c, k)]}) K)) (kk r) R) ->
  spec i c K (syscall (ExitLoop c k) ≫= kk) R.
Proof.
  intros Hk H. eapply (spec_then _ _ _ _ _ (λ r K', K' =
    know_fact (if r <=? 0 then IsDying else NoFact) (know_refs (k_refs K ∖ {[(c, k)]}) K))); [|by intros r K' ->].
  intros w Hst HI. split; [by apply (st_refs _ _ _ _ Hst)|]. intros r w' [-> ->]. eexists. split; [|done].
  pose proof Hst as [H1 H2 H3 H4 H5 H6]. split; cbn; [done|done| |done| |].
  - intros c' k'. rewrite elem_of_difference, elem_of_singleton. destruct (decide ((c, k) = (c', k'))) as [[= <- <-]|Hne].
    + rewrite lookup_delete_eq. split; [done|]. by intros [_ []].
    + rewrite lookup_delete_ne by done. rewrite H3. split; [|by intros []]. intros ?. split; [done|congruence].
  - intros b Hb. rewrite cell_set, decide_True by done. by apply H5.
  - unfold fact_holds. cbn. destruct (_ <=? 0); [|done]. by rewrite cell_set, decide_True by done.
Qed.

Lemma remove_client_spec i c K :
  k_locks K !! LList = None -> guardable c K -> k_fact K = IsDying ->
  spec i c K (removeClient c) (λ _ K', K' = know_fact NoFact K).
Proof.
  intros HL Hg Hf. apply spec_list; [done| |].
  - apply spec_call. intros w Hst HI. split.
    + split; [eapply st_owns; [done|]; cbn; by rewrite lock_in_eq|].
      pose proof (st_fact _ _ _ _ Hst) as H. unfold fact_holds in H. cbn in H. by rewrite Hf in H.
    + intros a w' ->. exists (know_fact NoFact (know_locks (lock_in LList (k_locks K)) K)).
      split; [|split; [done|by destruct K]].
      destruct (bool_decide (c ∈ w_conn w)); [|by st_fields Hst]. pose proof (st_out _ _ _ _ Hst) as Ho.
      st_fields Hst. intros b Hb. rewrite cell_set, decide_True by done. by apply Ho.
  - intros r K1 b -> Hb. by apply (g_inside _ _ Hg b).
Qed.

Definition released c k K : know := know_fact NoFact (know_refs (k_refs K ∖ {[(c, k)]}) K).

Lemma release_spec i c K k :
  k_locks K !! LList = None -> guardable c K -> (c, k) ∈ k_refs K ->
  spec i c K (releaseClientContext c k) (λ _ K', K' = released c k K).
Proof.
  intros HL Hg Hk. apply exit_loop_spec; [done|]. intros r. destruct (r <=? 0).
  - eapply spec_conseq; [apply remove_client_spec; [done| |done]|by intros _ K' ->].
    destruct Hg. by split.
  - by apply spec_ret.
Qed.

Lemma close_spec i c K k :
  guardable c K -> (c, k) ∈ k_refs K ->
  spec i c K (CloseClient c) (λ _ K', exists lc, K' = know_fact NoFact (know_local lc K)).
Proof.
  intros Hg Hk. unfold CloseClient.
  eapply (spec_bind _ _ _ _ _ (λ (s : bool) K', exists lc, K' = know_fact NoFact (know_local lc K) /\ (s = true -> cleared lc = true))).
  - apply spec_guard; [done|]. intros b Hb.
    assert (match k_out K with Some _ => Some b | None => None end = k_out K) as Eb.
    { unfold finds in Hb. destruct (k_out K); [by subst|done]. }
    apply (get_sock_spec i c (entered c b K) k); [cbn; by rewrite lock_in_eq|done|]. intros s.
    eapply (spec_then _ _ _ _ _ (λ _ K', exists lc, K' = know_local lc (entered c b K) /\ (s = true -> cleared lc = true))).
    + intros w Hst HI. split; [split; [eapply st_owns; [done|]; cbn; by rewrite lock_in_eq|by eapply (st_in_use _ _ _ k)]|].
      intros a w' ->. exists (know_local (mkLocal (passed (mine i w)) (counted (mine i w))
        (cleared (mine i w) || bool_decide (c ∈ w_open w))) (entered c b K)). split.
      * pose proof (st_len _ _ _ _ Hst). st_fields Hst; [by rewrite length_insert|]. by apply local_set.
      * eexists. split; [done|]. intros ->. cbn. pose proof (st_fact _ _ _ _ Hst) as (_ & _ & Ho).
        rewrite bool_decide_true by done. apply orb_true_r.
    + intros [] K' (lc & -> & Hlc). apply spec_ret. split; [split; [done|]|].
      * cbn. intros E Hs. unfold finds in Hb. rewrite E in Hb. by rewrite Hb.
      * exists lc. split; [|done]. unfold left, know_fact, know_local. cbn. by rewrite Eb.
  - intros s K' (lc & -> & Hlc). destruct s; [|apply spec_ret; by exists lc].
    apply spec_net; [done|]. intros ok. destruct ok; cbn [negb]; [|apply spec_ret; by exists lc].
    apply spec_net; [done|]. intros ok. destruct ok; cbn [negb]; [|apply spec_ret; by exists lc].
    apply spec_net; [done|]. intros _. apply spec_call. intros w Hst HI. split.
    + cbn. rewrite (st_own _ _ _ _ Hst). by apply Hlc.
    + intros a w' ->. exists (know_fact NoFact (know_local (mkLocal (passed (mine i w)) (counted (mine i w)) false) K)).
      split; [|by eexists]. pose proof (st_len _ _ _ _ Hst).
      st_fields Hst; [by rewrite length_insert|]. by apply local_set.
Qed.

(** ** The handlers *)

Lemma out_empty_spec {B} i c K b (k : bool -> prog B) R :
  is_Some (k_locks K !! LClient c) -> k_out K = Some b ->
  spec i c (know_fact NoFact K) (k (negb b)) R -> spec i c K (syscall (OutEmpty c) ≫= k) R.
Proof.
  intros Hl Hb H. eapply (spec_then _ _ _ _ _ (λ a K', a = negb b /\ K' = know_fact NoFact K)); [|by intros a K' [-> ->]].
  intros w Hst HI. split; [by eapply st_owns|]. intros a w' [-> ->]. exists (know_fact NoFact K).
  destruct (st_out _ _ _ _ Hst b Hb) as [_ ->]. split; [by st_fields Hst|done].
Qed.

Lemma st_set_out i c K b w :
  st i c K w -> is_Some (k_locks K !! LClient c) ->
  st i c (know_fact NoFact (know_out (Some b) K)) (upd_cell c (set_out b) w).
Proof. intros Hst Hl. st_fields Hst. intros x [= <-]. by rewrite cell_set, decide_True. Qed.

(** A change of the output buffer. *)
Lemma out_fill_spec {B} i c K (k : unit -> prog B) R :
  is_Some (k_locks K !! LClient c) -> (c, KSend) ∈ k_refs K ->
  spec i c (know_fact NoFact (know_out (Some true) K)) (k tt) R -> spec i c K (syscall (OutFill c) ≫= k) R.
Proof.
  intros Hl Hk H. eapply (spec_then _ _ _ _ _ (λ _ K', K' = know_fact NoFact (know_out (Some true) K))); [|by intros [] K' ->].
  intros w Hst HI. split; [split; [by eapply st_owns|by apply (st_refs _ _ _ _ Hst)]|].
  intros a w' ->. eexists. split; [by apply st_set_out|done].
Qed.

Lemma out_clear_spec {B} i c K (k : unit -> prog B) R :
  is_Some (k_locks K !! LClient c) -> (c, KSend) ∈ k_refs K ->
  spec i c (know_fact NoFact (know_out (Some false) K)) (k tt) R -> spec i c K (syscall (OutClear c) ≫= k) R.
Proof.
  intros Hl Hk H. eapply (spec_then _ _ _ _ _ (λ _ K', K' = know_fact NoFact (know_out (Some false) K))); [|by intros [] K' ->].
  intros w Hst HI. split; [split; [by eapply st_owns|by apply (st_refs _ _ _ _ Hst)]|].
  intros a w' ->. eexists. split; [by apply st_set_out|done].
Qed.

Lemma out_remove_spec {B} i c K m (k : unit -> prog B) R :
  is_Some (k_locks K !! LClient c) -> (c, KSend) ∈ k_refs K ->
  (forall b, spec i c (know_fact NoFact (know_out (Some b) K)) (k tt) R) -> spec i c K (syscall (OutRemove c m) ≫= k) R.
Proof.
  intros Hl Hk H. eapply (spec_then _ _ _ _ _ (λ _ K', exists b, K' = know_fact NoFact (know_out (Some b) K)));
    [|by intros [] K' [b ->]].
  intros w Hst HI. split; [split; [by eapply st_owns|by apply (st_refs _ _ _ _ Hst)]|].
  intros a w' (b & _ & ->). eexists. split; [by apply st_set_out|by exists b].
Qed.

(** The queue. *)
Lemma queue_spec {A B} i c K k0 (e : workE A) (k : A -> prog B) R :
  match e with QueuePush c' | QueueEmpty c' | QueuePop c' => c' = c | _ => False end ->
  is_Some (k_locks K !! LClient c) -> (c, k0) ∈ k_refs K ->
  (forall a, spec i c (know_fact NoFact K) (k a) R) -> spec i c K (syscall e ≫= k) R.
Proof.
  intros He Hl Hk H. eapply (spec_then _ _ _ _ _ (λ _ K', K' = know_fact NoFact K)); [|by intros a K' ->].
  intros w Hst HI. pose proof (st_owns _ _ _ _ _ Hst Hl) as Ho. pose proof (st_in_use _ _ _ _ _ _ Hst Hk) as Hu.
  pose proof (st_out _ _ _ _ Hst) as Hout.
  assert (forall q, st i c (know_fact NoFact K) (upd_cell c (set_queue q) w)) as Hq.
  { intros q. st_fields Hst. intros b Hb. rewrite cell_set, decide_True by done. by apply Hout. }
  destruct e; try done; subst; (split; [done|]); intros a w' Hd; exists (know_fact NoFact K); (split; [|done]); cbn in Hd.
  - subst w'. apply Hq.
  - destruct Hd as [_ ->]. by st_fields Hst.
  - subst w'. apply Hq.
Qed.

(** Outside of critical sections. *)
Record outside K : Prop := { o_locks : k_locks K = ∅; o_out : k_out K = None }.

Lemma outside_guardable c K : outside K -> guardable c K.
Proof. intros [HL Ho]. split; rewrite ?HL, ?lookup_empty, ?Ho; done. Qed.

Lemma inside_guardable c K T b lc f :
  outside K -> guardable c (mkKnow (lock_in (LClient c) (k_locks K)) T (Some b) lc f).
Proof. intros [HL Ho]. split; cbn; rewrite ?lock_in_eq, ?HL, ?lookup_empty; done. Qed.

Lemma inside_list c K : outside K -> lock_in (LClient c) (k_locks K) !! LList = None.
Proof. intros [HL Ho]. rewrite lock_in_ne, HL by done. apply lookup_empty. Qed.

Lemma entered_lock c b K : is_Some (k_locks (entered c b K) !! LClient c).
Proof. cbn. by rewrite lock_in_eq. Qed.

(** In the critical section, with these requests and this output buffer. *)
Definition within c K T b K1 : Prop :=
  exists lc, K1 = mkKnow (lock_in (LClient c) (k_locks K)) T (Some b) lc NoFact.

Lemma within_left c K T b K1 : outside K -> within c K T b K1 -> outside (left K K1) /\ k_refs (left K K1) = T.
Proof. intros [HL Ho] [lc ->]. split; [|done]. split; cbn; [done|by rewrite Ho]. Qed.

Lemma within_tidy c K T b K1 : within c K T b K1 -> ((c, KSend) ∈ T -> b = true) -> tidy c K K1.
Proof. intros [lc ->] H. split; [done|]. cbn. intros _ Hs. by rewrite H. Qed.

Lemma within_ends c K T b K1 :
  outside K -> within c K T b K1 -> ((c, KSend) ∈ T -> b = true) ->
  tidy c K K1 /\ outside (left K K1) /\ k_refs (left K K1) = T.
Proof. intros Ho Hw Hs. split; [by eapply within_tidy|by eapply within_left]. Qed.

(** What the output buffer holds is posted, and the connection closed when that fails. *)
Definition post_or_close c : prog bool :=
  r ← postSend c;
  if bool_decide (r = PostResultFailed) then CloseClient c;; releaseClientContext c KSend;; mret false
  else mret true.

Lemma post_or_close_spec i c K T K1 :
  outside K -> within c K T true K1 -> (c, KSend) ∈ T ->
  spec i c K1 (post_or_close c) (λ _ K2, within c K T true K2 \/ within c K (T ∖ {[(c, KSend)]}) true K2).
Proof.
  intros Ho [lc ->] Hs. unfold post_or_close. set (K1 := mkKnow _ _ _ _ _).
  assert (guardable c K1) as Hg by (by apply inside_guardable).
  assert (k_locks K1 !! LList = None) as Hl by (by apply inside_list).
  eapply spec_bind; [by apply post_spec|]. intros r K2 ->. case_bool_decide as Hr.
  - subst r. change (posted c KSend PostResultFailed K1) with K1.
    eapply spec_bind; [by apply (close_spec i c K1 KSend)|]. intros [] K2 [lc2 ->].
    eapply spec_bind; [apply (release_spec i c _ KSend); [done|by destruct Hg|done]|]. intros [] K2 ->.
    apply spec_ret. right. by exists lc2.
  - apply spec_ret. unfold posted. case_bool_decide; [right|left]; by exists lc.
Qed.

Lemma send_spec i c K :
  outside K -> (c, KRecv) ∈ k_refs K ->
  spec i c K (send c) (λ _ K', outside K' /\ (c, KRecv) ∈ k_refs K').
Proof.
  intros Ho Hk. apply use_in_spec; [done|]. set (K0 := know_fact NoFact K).
  assert (outside K0) as Ho0 by (by destruct Ho).
  apply spec_guard; [by apply outside_guardable|]. intros b Hb.
  assert ((c, KSend) ∈ k_refs K -> b = true) as Hbs by (unfold finds in Hb; by rewrite (o_out _ Ho0) in Hb).
  apply (out_empty_spec i c _ b); [apply entered_lock|done|]. destruct b; cbn [negb].
  - apply (queue_spec i c _ KRecv); [done|exact (entered_lock c true K0)|done|]. intros _. apply spec_ret.
    destruct (within_ends c K0 (k_refs K) true (entered c true K0) Ho0) as (H1 & H2 & H3);
      [by exists (k_local K)|done|]. split; [exact H1|]. split; [exact H2|]. exact Hk.
  - eapply (spec_then _ _ _ _ _ (λ _ K', K' = know_refs ({[(c, KSend)]} ∪ k_refs K) (entered c false K0))).
    + intros w Hst HI. split.
      * right. split_and!; [done|eapply st_owns; [done|exact (entered_lock c false K0)]|by apply (st_refs _ _ _ _ Hst)| |].
        -- by apply (st_out _ _ _ _ Hst).
        -- rewrite (st_refs _ _ _ _ Hst). cbn. intros Hs. by specialize (Hbs Hs).
      * intros a w' [_ ->]. eexists. split; [|done]. pose proof Hst as [H1 H2 H3 H4 H5 H6].
        split; cbn; [done|done| |done| |done].
        -- intros c' k'. rewrite elem_of_union, elem_of_singleton. destruct (decide ((c, KSend) = (c', k'))) as [[= <- <-]|Hne].
           ++ rewrite lookup_insert_eq. split; [by left|done].
           ++ rewrite lookup_insert_ne by done. rewrite H3. split; [by right|]. intros [[= -> ->]|]; done.
        -- intros b0 Hb0. rewrite cell_set, decide_True by done. by apply (H5 b0).
    + intros [] K' ->. apply out_fill_spec; [exact (entered_lock c false K0)|cbn; set_solver|].
      set (K1 := know_fact _ _). set (T := {[(c, KSend)]} ∪ k_refs K).
      assert (within c K0 T true K1) as Hw by (by exists (k_local K)).
      eapply spec_conseq; [apply (post_or_close_spec i c K0 T K1 Ho0 Hw); unfold T; set_solver|].
      intros r K2 [Hw2|Hw2]; destruct (within_ends _ _ _ _ _ Ho0 Hw2) as (H1 & H2 & H3); [done| |done|];
        (split; [done|split; [done|]]); rewrite H3; unfold T; set_solver.
Qed.

Lemma outside_fact f K : outside K -> outside (know_fact f K).
Proof. by intros []. Qed.

Lemma echo_spec i c K :
  outside K -> (c, KRecv) ∈ k_refs K -> spec i c K (echo c) (λ _ K', outside K' /\ (c, KRecv) ∈ k_refs K').
Proof.
  intros Ho Hk. unfold echo. apply use_in_spec; [done|].
  eapply spec_bind; [apply send_spec; [by apply outside_fact|done]|]. intros _ K' [Ho' Hk'].
  eapply spec_conseq; [apply (spec_call i c K' (UseIn c) (λ _ K2, K2 = know_fact NoFact K'))|].
  - intros w Hst _. split; [by apply (st_refs _ _ _ _ Hst)|]. intros a w' ->. eexists. split; [|done]. by st_fields Hst.
  - intros _ K2 ->. split; [by apply outside_fact|done].
Qed.

(** A connection that is closed and given up. *)
Lemma handleClose_spec i c K k :
  outside K -> (c, k) ∈ k_refs K -> spec i c K (handleClose c k) (λ _ K', outside K').
Proof.
  intros Ho Hk. unfold handleClose.
  eapply spec_bind; [apply (close_spec i c K k); [by apply outside_guardable|done]|]. intros [] K' [lc ->].
  assert (outside (know_fact NoFact (know_local lc K))) as Ho' by (by destruct Ho).
  eapply spec_conseq; [apply (release_spec i c _ k); [|by apply outside_guardable|done]|].
  - rewrite (o_locks _ Ho'). apply lookup_empty.
  - intros _ K2 ->. by destruct Ho.
Qed.

(** The end of two handlers: the next receive. *)
Lemma next_recv_spec i c K :
  outside K -> (c, KRecv) ∈ k_refs K ->
  spec i c K (r ← postRecv c; if failed r then CloseClient c;; releaseClientContext c KRecv else mret tt)
    (λ _ K', outside K').
Proof.
  intros Ho Hk. eapply (spec_bind _ _ _ _ _ (λ r K', K' = posted c KRecv r (know_fact NoFact K))).
  - unfold postRecv. apply use_in_spec; [done|]. apply post_spec; [by apply outside_guardable, outside_fact|done|done].
  - intros r K' ->. destruct r; cbn [failed].
    + apply spec_ret. by destruct Ho.
    + apply (handleClose_spec i c _ KRecv); [by destruct Ho|done].
    + apply (handleClose_spec i c _ KRecv); [by destruct Ho|done].
Qed.

Lemma handleRecv_spec i c K :
  outside K -> (c, KRecv) ∈ k_refs K -> spec i c K (handleRecv c) (λ _ K', outside K').
Proof.
  intros Ho Hk. unfold handleRecv. apply use_in_spec; [done|].
  eapply spec_bind; [apply echo_spec; [by apply outside_fact|done]|]. intros _ K' [Ho' Hk'].
  by apply next_recv_spec.
Qed.

Lemma next_outBuf_spec i c K T b K1 :
  outside K -> within c K T b K1 -> (c, KSend) ∈ T ->
  spec i c K1 (next_outBuf c)
    (λ _ K2, within c K T true K2 \/ within c K (T ∖ {[(c, KSend)]}) false K2).
Proof.
  intros Ho [lc ->] Hs. unfold next_outBuf. set (K1 := mkKnow _ _ _ _ _).
  assert (is_Some (k_locks K1 !! LClient c)) as Hl by (cbn; by rewrite lock_in_eq).
  apply (out_empty_spec i c K1 b); [done|done|]. destruct b; cbn [negb].
  { apply spec_ret. left. by exists lc. }
  apply out_clear_spec; [done|done|]. apply (queue_spec i c _ KSend); [done|exact Hl|done|]. intros q.
  destruct q.
  - eapply spec_conseq; [apply (release_spec i c _ KSend)|].
    + by apply inside_list.
    + by apply inside_guardable.
    + done.
    + intros _ K2 ->. right. by exists lc.
  - apply out_fill_spec; [exact Hl|done|].
    apply spec_call. intros w Hst HI. split; [split; [by eapply st_owns|by eapply (st_in_use _ _ _ KSend)]|].
    intros [] w' ->. exists (mkKnow (lock_in (LClient c) (k_locks K)) T (Some true) lc NoFact).
    split; [|left; by exists lc]. pose proof (st_out _ _ _ _ Hst) as Hout.
    st_fields Hst. intros x Hx. rewrite cell_set, decide_True by done. by apply Hout.
Qed.

Lemma handleSend_spec i c K m :
  outside K -> (c, KSend) ∈ k_refs K -> spec i c K (handleSend c m) (λ _ K', outside K').
Proof.
  intros Ho Hk. apply spec_guard; [by apply outside_guardable|]. intros b Hb.
  apply out_remove_spec; [apply entered_lock|done|]. intros b1. set (K1 := know_fact _ _).
  assert (within c K (k_refs K) b1 K1) as Hw by (by exists (k_local K)).
  eapply (spec_bind _ _ _ _ _ (λ _ K2, within c K (k_refs K) true K2 \/ within c K (k_refs K ∖ {[(c, KSend)]}) false K2)).
  { exact (next_outBuf_spec i c K (k_refs K) b1 K1 Ho Hw Hk). }
  intros [] K2 [Hw2|Hw2]; pose proof Hw2 as [lc2 ->].
  - apply (out_empty_spec i c _ true); [exact (entered_lock c true K)|done|]. cbn [negb].
    set (K2 := mkKnow _ _ _ _ _). assert (guardable c K2) as Hg by (by apply inside_guardable).
    eapply (spec_bind _ _ _ _ _ (λ r K', K' = posted c KSend r K2)); [by apply post_spec|].
    intros r K' ->. case_bool_decide as Hr.
    + subst r. change (posted c KSend PostResultFailed K2) with K2.
      eapply spec_bind; [by apply (close_spec i c K2 KSend)|]. intros [] K4 [lc4 ->].
      eapply spec_conseq; [apply (release_spec i c _ KSend); [by apply inside_list|by destruct Hg|done]|].
      intros [] K5 ->.
      destruct (within_ends c K (k_refs K ∖ {[(c, KSend)]}) true
        (released c KSend (know_fact NoFact (know_local lc4 K2))) Ho) as (H1 & H2 & _); [by exists lc4|done|]. by split.
    + apply spec_ret. unfold posted. case_bool_decide.
      * destruct (within_ends c K (k_refs K ∖ {[(c, KSend)]}) true (mkKnow (lock_in (LClient c) (k_locks K))
          (k_refs K ∖ {[(c, KSend)]}) (Some true) lc2 NoFact) Ho) as (H1 & H2 & _); [by exists lc2|done|]. by split.
      * destruct (within_ends _ _ _ _ _ Ho Hw2) as (H1 & H2 & _); [done|]. by split.
  - apply (out_empty_spec i c _ false); [exact (entered_lock c true K)|done|]. cbn [negb]. apply spec_ret.
    destruct (within_ends _ _ _ _ _ Ho Hw2) as (H1 & H2 & _); [set_solver|]. by split.
Qed.

(** ** A new connection

    Here the context is not known from the start. *)
Definition spec_new {A} i c K (t : prog A) (R : A -> client -> know -> Prop) : Prop :=
  forall w, st i c K w ->
  holds (work_protocol max) (Inv max n) rely i (λ r w', exists c' K', st i c' K' w' /\ R r c' K') w t.

Lemma new_ret {A} i c K (r : A) R : R r c K -> spec_new i c K (mret r) R.
Proof.
  intros HR w Hst. apply holds_ret; [|by exists c, K].
  intros w1 w2 (c' & K' & Hst' & HR') _ Hr. exists c', K'. split; [by eapply st_rely|done].
Qed.

Lemma new_bind {A B} i c K (t : prog A) (k : A -> prog B) R R' :
  spec_new i c K t R -> (forall r c' K', R r c' K' -> spec_new i c' K' (k r) R') -> spec_new i c K (t ≫= k) R'.
Proof.
  intros Ht Hk w Hst. eapply holds_bind; [apply ni|by apply Ht|].
  intros r w' (c' & K' & Hst' & HR). by apply (Hk r c' K' HR).
Qed.

Lemma spec_is_new {A} i c K (t : prog A) (R : A -> know -> Prop) :
  spec i c K t R -> spec_new i c K t (λ r _ K', R r K').
Proof. intros H w Hst. eapply holds_mono; [|by apply H]. intros r w' (K' & ? & ?). by exists c, K'. Qed.

(** A call about the same context, or a new one. *)
Lemma new_then {A B} i c K (e : workE A) (k : A -> prog B) (R : A -> client -> know -> Prop) R' :
  (forall w, st i c K w -> Inv max n w ->
     may i w A e /\ forall a w', does max i w A e a w' -> exists c' K', st i c' K' w' /\ R a c' K') ->
  (forall a c' K', R a c' K' -> spec_new i c' K' (k a) R') -> spec_new i c K (syscall e ≫= k) R'.
Proof.
  intros H Hk w Hst. apply (holds_call _ _ _ _ ni). intros w1 HI Hr.
  pose proof (st_rely _ _ _ _ _ Hst Hr) as Hst1. destruct (H w1 Hst1 HI) as [Hm Hd].
  split; [split; [by destruct Hst1|done]|]. intros a w2 Ha _.
  destruct (Hd a w2 Ha) as (c' & K' & Hst2 & HR). by apply (Hk a c' K' HR).
Qed.

Lemma new_step {A B} i c K (e : workE A) (k : A -> prog B) (R : A -> know -> Prop) R' :
  (forall w, st i c K w -> Inv max n w ->
     may i w A e /\ forall a w', does max i w A e a w' -> exists K', st i c K' w' /\ R a K') ->
  (forall a K', R a K' -> spec_new i c K' (k a) R') -> spec_new i c K (syscall e ≫= k) R'.
Proof.
  intros H Hk. apply (new_then i c K e k (λ a c' K', c' = c /\ R a K')); [|by intros a c' K' [-> HR]; apply Hk].
  intros w Hst HI. destruct (H w Hst HI) as [Hm Hd]. split; [done|]. intros a w' Ha.
  destruct (Hd a w' Ha) as (K' & ? & ?). by exists c, K'.
Qed.

Lemma new_net {A B} i c K (e : workE A) (k : A -> prog B) R :
  match e with ExitEvent | IsShutdown | Net _ => True | _ => False end ->
  (forall a, spec_new i c K (k a) R) -> spec_new i c K (syscall e ≫= k) R.
Proof.
  intros He Hk. eapply (new_step _ _ _ _ _ (λ a K', K' = K)); [|by intros a K' ->].
  intros w Hst HI. split; [by destruct e|]. intros a w' Hd. exists K. split; [|done].
  by destruct e; try done; cbn in Hd; subst w'.
Qed.

(** Nothing is kept in mind. *)
Definition clear_mind K := know_fact NoFact (know_out None K).

Lemma st_any i c c' K w : st i c K w -> st i c' (clear_mind K) w.
Proof. intros Hst. by st_fields Hst. Qed.

(** The thread takes a context that nobody has. *)
Lemma st_fresh i c c' K w :
  st i c K w -> st i c' (know_fact IsFresh (clear_mind K)) (upd_cell c' (set_mode (Fresh i)) w).
Proof. intros Hst. st_fields Hst. unfold fact_holds. cbn. by rewrite cell_set, decide_True. Qed.

Lemma allocate_body i c K :
  is_Some (k_locks K !! LList) -> counted (k_local K) = true ->
  spec_new i c K (
    o ← syscall PopFree;
    c ← match o with Some c => mret c | None => syscall NewContext end;
    syscall (SetSock c);;
    ok ← syscall (Reset c);
    if ok : bool then mret c else syscall Abort ≫= λ v : Empty_set, match v with end)
  (λ c1 c' K', c' = c1 /\ exists lc, K' = know_fact IsFresh (clear_mind (know_local lc K))).
Proof.
  intros HL Hcnt.
  eapply (new_then _ _ _ _ _ (λ o c' K', match o with
    | Some c1 => c' = c1 /\ K' = know_fact IsFresh (clear_mind K) | None => K' = clear_mind K end)).
  { intros w Hst HI. split; [by eapply st_owns|]. intros o w' Hd. cbn in Hd.
    destruct (w_free w) as [|c1 l]; destruct Hd as [-> ->].
    - eexists c, _. split; [by eapply st_any|done].
    - eexists c1, _. split; [|done]. eapply (st_fresh i c c1 K (set_free l w)). by st_fields Hst. }
  intros o c0 K0 HK0.
  apply (new_bind _ _ _ _ _ (λ c1 c' K', c' = c1 /\ K' = know_fact IsFresh (clear_mind K))).
  { destruct o as [c1|]; [by apply new_ret|]. subst K0. intros w Hst m. destruct m as [|m]; [done|].
    intros w1 HI Hr. cbn. pose proof (st_rely _ _ _ _ _ Hst Hr) as Hst1.
    split; [split; [by destruct Hst1|by eapply st_owns]|]. intros c1 w2 [_ ->]. destruct m as [|m]; [done|].
    intros w3 HI3 Hr3. cbn. eexists c1, _. split; [eapply st_rely; [|done]|done]. exact (st_fresh i c0 c1 _ w1 Hst1). }
  clear HK0. intros c1 c' K' [-> ->].
  eapply (new_step _ _ _ _ _ (λ _ K', exists lc, K' = know_fact IsFresh (clear_mind (know_local lc K)))).
  { intros w Hst HI. split; [split; [exact (st_fact _ _ _ _ Hst)|by rewrite (st_own _ _ _ _ Hst)]|].
    intros a w' ->. eexists. split; [|by eexists]. pose proof (st_len _ _ _ _ Hst).
    st_fields Hst. by rewrite length_insert. }
  intros [] K' [lc ->].
  eapply (new_step _ _ _ _ _ (λ (ok : bool) K', K' = know_fact (if ok then IsFresh else IsStuck) (clear_mind (know_local lc K)))).
  { intros w Hst HI. pose proof (st_fact _ _ _ _ Hst) as Hf. split; [done|]. intros ok w' [Hok ->].
    eexists. split; [|done]. unfold fact_holds in Hf. cbn in Hf. st_fields Hst. destruct ok; [done|].
    split; [done|]. assert (c_refs (cell_of w c1) = 0) as Hz by (apply (v_mode _ _ _ HI); congruence).
    rewrite Hz in Hok. cbn in Hok. symmetry in Hok. by apply bool_decide_eq_false in Hok. }
  intros [] K' ->; [apply new_ret; split; [done|by exists lc]|].
  eapply (new_step _ _ _ _ _ (λ _ _, False)); [|by intros []].
  intros w Hst HI. split; [by exists c1; exact (st_fact _ _ _ _ Hst)|]. intros [].
Qed.

Lemma allocate_spec i c K :
  outside K -> counted (k_local K) = true ->
  spec_new i c K allocateClientContext (λ c1 c' K', c' = c1 /\ exists lc, K' = know_fact IsFresh (know_local lc K)).
Proof.
  intros Ho Hcnt. unfold allocateClientContext, LockGuard.
  eapply (new_step _ _ _ _ _ (λ _ K', K' = know_locks (lock_in LList (k_locks K)) K)).
  { intros w Hst HI. split; [done|]. intros a w' He. eexists. split; [by eapply st_enter|done]. }
  intros [] K' ->. eapply new_bind; [apply allocate_body; [cbn; by rewrite lock_in_eq|done]|].
  intros c1 c' K' [-> [lc ->]].
  eapply (new_step _ _ _ _ _ (λ _ K', K' = know_fact IsFresh (know_local lc K)));
    [|intros [] K' ->; apply new_ret; split; [done|by exists lc]].
  intros w Hst HI. destruct (st_leave i c1 _ w LList (k_locks K) None Hst eq_refl) as [Hm Hk]; [|done..|].
  - rewrite (o_locks _ Ho), lookup_empty. done.
  - split; [done|]. intros a w' Hw. eexists. split; [|done]. specialize (Hk a w' Hw). cbn in Hk.
    unfold know_fact, know_local. cbn. by rewrite (o_out _ Ho).
Qed.

(** The context is in the loop, and in the list of connections. *)
Lemma enter_new {B} i c K (k : unit -> prog B) R :
  k_fact K = IsFresh ->
  spec i c (know_fact IsSole (know_refs ({[(c, KRecv)]} ∪ k_refs K) K)) (k tt) R ->
  spec i c K (syscall (EnterLoop c KRecv) ≫= k) R.
Proof.
  intros Hf H. eapply (spec_then _ _ _ _ _ (λ _ K', K' = know_fact IsSole (know_refs ({[(c, KRecv)]} ∪ k_refs K) K)));
    [|by intros [] K' ->].
  intros w Hst HI. pose proof (st_fact _ _ _ _ Hst) as Hm. unfold fact_holds in Hm. rewrite Hf in Hm.
  split; [by left|]. intros a w' [_ ->]. eexists. split; [|done]. pose proof Hst as [H1 H2 H3 H4 H5 H6].
  split; cbn; [done|done| |done| |].
  - intros c' k'. rewrite elem_of_union, elem_of_singleton. destruct (decide ((c, KRecv) = (c', k'))) as [[= <- <-]|Hne].
    + rewrite lookup_insert_eq. split; [by left|done].
    + rewrite lookup_insert_ne by done. rewrite H3. split; [by right|]. intros [[= -> ->]|]; done.
  - intros b0 Hb0. rewrite cell_set, decide_True by done. by apply (H5 b0).
  - unfold fact_holds. cbn. split; [set_solver|]. rewrite lookup_insert_ne by congruence.
    apply (fresh_no_refs _ _ _ _ _ HI). congruence.
Qed.

Lemma notify_spec i c K :
  k_fact K = IsSole -> spec i c K (notifyNewConnection c) (λ _ K', K' = K).
Proof.
  intros Hf. unfold notifyNewConnection.
  eapply (spec_then _ _ _ _ _ (λ _ K', K' = K)).
  - intros w Hst HI. pose proof (st_fact _ _ _ _ Hst) as Hs. unfold fact_holds in Hs. rewrite Hf in Hs. split.
    + destruct Hs as [Hk Hn]. right. right. split; [by apply (st_refs _ _ _ _ Hst)|done].
    + intros a w' [_ ->]. by exists K.
  - intros a K' ->. apply spec_net; [done|]. intros _. by apply spec_ret.
Qed.

Lemma add_spec i c K :
  outside K -> (c, KRecv) ∈ k_refs K -> spec i c K (addClient c) (λ _ K', K' = know_fact NoFact K).
Proof.
  intros Ho Hk. apply spec_list; [by rewrite (o_locks _ Ho), lookup_empty| |].
  - apply spec_call. intros w Hst HI. split.
    + split; [eapply st_owns; [done|]; cbn; by rewrite lock_in_eq|by apply (st_refs _ _ _ _ Hst)].
    + intros a w' ->. exists (know_fact NoFact (know_locks (lock_in LList (k_locks K)) K)).
      split; [by st_fields Hst|split; [done|by destruct K]].
  - intros r K1 b ->. cbn. by rewrite (o_out _ Ho).
Qed.

Lemma handleAccept_spec i c K a :
  outside K -> spec_new i c K (handleAccept a) (λ _ _ K', outside K').
Proof.
  intros Ho. unfold handleAccept. apply new_net; [done|]. intros _.
  eapply (new_step _ _ _ _ _ (λ (full : bool) K', exists lc, K' = know_local lc K /\ passed lc = negb full)).
  { intros w Hst HI. split; [done|]. intros full w' [_ ->].
    exists (know_local (mkLocal (negb full) (counted (mine i w)) (cleared (mine i w))) K). split; [|by eexists].
    pose proof (st_len _ _ _ _ Hst). st_fields Hst; [by rewrite length_insert|by apply local_set]. }
  intros full K' (lc & -> & Hp). destruct full.
  { apply new_net; [done|]. intros _. apply new_net; [done|]. intros _. apply new_ret. by destruct Ho. }
  eapply (new_step _ _ _ _ _ (λ _ K', exists lc, K' = know_local lc K /\ counted lc = true)).
  { intros w Hst HI. split; [cbn; by rewrite (st_own _ _ _ _ Hst)|]. intros x w' ->.
    exists (know_local (mkLocal false true (cleared (mine i w))) K). split; [|by eexists].
    pose proof (st_len _ _ _ _ Hst). st_fields Hst; [by rewrite length_insert|by apply local_set]. }
  intros [] K' (lc1 & -> & Hcnt). eapply new_bind; [apply allocate_spec; [by destruct Ho|done]|].
  intros c1 c' K' [-> [lc2 ->]]. set (K1 := know_fact IsFresh _).
  assert (outside K1) as Ho1 by (by destruct Ho).
  eapply (new_step _ _ _ _ _ (λ _ K', K' = K1)).
  { intros w Hst HI. split; [right; left; exact (st_fact _ _ _ _ Hst)|]. intros x w' [_ ->]. by exists K1. }
  intros _ K' ->. apply new_net; [done|]. intros ok. destruct ok; cbn [negb]; [|by apply new_ret].
  apply (spec_is_new _ _ _ _ (λ _ K', outside K')). apply enter_new; [done|].
  set (K2 := know_fact IsSole _). assert (outside K2) as Ho2 by (by destruct Ho).
  apply spec_net; [done|]. intros _. eapply spec_bind; [by apply notify_spec|]. intros [] K' ->.
  eapply spec_bind; [apply add_spec; [done|cbn; set_solver]|]. intros [] K' ->.
  apply next_recv_spec; [by destruct Ho|cbn; set_solver].
Qed.

(** ** The threads *)

Lemma turn_spec i c K :
  outside K -> spec_new i c K worker_loop_turn (λ _ _ K', outside K').
Proof.
  intros Ho. unfold worker_loop_turn. apply new_net; [done|]. intros stop.
  destruct stop; [by apply new_ret|].
  eapply (new_then _ _ _ _ _ (λ p c' K', outside K' /\ match p with PClient c1 k _ _ => c' = c1 /\ (c1, k) ∈ k_refs K' | _ => True end)).
  { intros w Hst HI. split.
    - intros l [d Hd]. apply (st_locks _ _ _ _ Hst) in Hd. by rewrite (o_locks _ Ho), lookup_empty in Hd.
    - intros p w' Hd. cbn in Hd. destruct p as [|a|c1 k ret m]; [subst w'; exists c, K; done..|].
      destruct Hd as [Hfly ->]. exists c1, (know_refs ({[(c1, k)]} ∪ k_refs K) (clear_mind K)).
      split; [|split; [by destruct Ho|split; [done|cbn; set_solver]]].
      pose proof Hst as [H1 H2 H3 H4 H5 H6]. split; cbn; [done|done| |done|done|done].
      intros c' k'. rewrite elem_of_union, elem_of_singleton. destruct (decide ((c1, k) = (c', k'))) as [[= <- <-]|Hne].
      + rewrite lookup_insert_eq. split; [by left|done].
      + rewrite lookup_insert_ne by done. rewrite H3. split; [by right|]. intros [[= -> ->]|]; done. }
  intros p c' K' [Ho' Hp]. destruct p as [|a|c1 k ret m]; [by apply new_ret| |].
  - apply new_net; [done|]. intros down.
    eapply (new_bind _ _ _ _ _ (λ _ _ K2, outside K2)); [|intros [] c2 K2 H; by apply new_ret].
    destruct down; [by apply new_ret|by apply handleAccept_spec].
  - destruct Hp as [-> Hk]. apply new_net; [done|]. intros _.
    eapply (new_bind _ _ _ _ _ (λ _ _ K2, outside K2)); [|intros [] c2 K2 H; by apply new_ret].
    apply (spec_is_new _ _ _ _ (λ _ K2, outside K2)). destruct (negb ret || (m =? 0)).
    + by apply handleClose_spec.
    + destruct k; [by apply handleRecv_spec|by apply handleSend_spec].
Qed.

Lemma worker_holds i c K w :
  st i c K w -> outside K ->
  holds (work_protocol max) (Inv max n) rely i (λ _ _, True) w IocpWorkerThread.
Proof.
  intros Hst Ho. apply (holds_loop _ _ _ _ ni i (λ _ w', exists c' K', st i c' K' w' /\ outside K')); [|done|by exists c, K].
  intros [] w1 (c' & K' & Hst' & Ho'). eapply holds_mono; [|exact (turn_spec i c' K' Ho' w1 Hst')].
  intros [[]|r] w2 (c2 & K2 & Hst2 & Ho2); [by exists c2, K2|done].
Qed.
End threads.
