(* ===== verification/WorkersSound.v ===== *)
(** * The worker threads together

    What the proofs of the threads one by one say of every run of the server: which calls
    are made, that no two threads are at the same data, and how many connections there
    are.  [places] says what data a call is about. *)
From S2P Require Import Prelude Interact Threads Os ClientContext IocpServer ServerInv Workers WorkersSafe WorkersRun.

(** ** Data *)

(** The socket and address of a context, its input buffer and receive structure, its
    output buffer and send structure, its queue; the lists of contexts. *)
Inductive place := PSock (c : client) | PIn (c : client) | POut (c : client) | PQueue (c : client) | PLists.

Definition places {A} (e : workE A) : list place :=
  match e with
  | SetSock c | GetSock c | ClearSock c => [PSock c]
  | Reset c => [PSock c; PQueue c]
  | Post c KRecv => [PSock c; PIn c]
  | Post c KSend => [PSock c; POut c]
  | UseIn c => [PIn c]
  | OutEmpty c | OutFill c | OutRemove c _ | OutClear c => [POut c]
  | QueuePush c | QueueEmpty c | QueuePop c => [PQueue c]
  | PopFree | AddConn _ | RemoveConn _ => [PLists]
  | _ => []
  end.

(** The system fills the input buffer of a receive and reads the output buffer of a send. *)
Definition in_flight (p : place) (w : world) : Prop :=
  match p with
  | PIn c => w_refs w !! (c, KRecv) = Some None
  | POut c => w_refs w !! (c, KSend) = Some None
  | _ => False
  end.

(** A call that writes the output buffer, or is about the input buffer. *)
Definition disturbs {A} (e : workE A) (p : place) : Prop :=
  match e with
  | OutEmpty _ => False
  | _ => match p with PIn _ | POut _ => p ∈ places e | _ => False end
  end.

Section data.
Context (max n : Z).
Implicit Types (w : world) (i j : nat) (c : client).

(** Who may be at what. *)
Definition grant i (p : place) w : Prop :=
  match p with
  | PSock c =>
      owns i (LClient c) w /\ in_use i c w \/ c_mode (cell_of w c) = Fresh i \/
      holds_ref i c KRecv w /\ w_refs w !! (c, KSend) = None
  | PIn c => holds_ref i c KRecv w
  | POut c => owns i (LClient c) w
  | PQueue c => owns i (LClient c) w /\ in_use i c w \/ c_mode (cell_of w c) = Fresh i
  | PLists => owns i LList w
  end.

Lemma may_grant i w A (e : workE A) p : may i w A e -> p ∈ places e -> grant i p w.
Proof.
  intros Hm Hp. destruct e as [| | | | | | | | | | |c|c|c|c| | |c|c|c|c|c|c n'|c|c|c|c|c k|]; try destruct k;
    repeat (apply elem_of_cons in Hp as [->|Hp]); try (by apply elem_of_nil in Hp); cbn in Hm |- *; try tauto.
  - left. split; [tauto|]. exists KRecv. tauto.
  - left. split; [tauto|]. exists KSend. tauto.
Qed.

Lemma used_not_fresh i j c w : Inv max n w -> in_use i c w -> c_mode (cell_of w c) <> Fresh j.
Proof. intros HI [k Hk] Hf. apply (ref_used _ _ _ _ _ _ HI) in Hk. congruence. Qed.

(** Two threads are never granted the same. *)
Lemma grant_one i j p w : Inv max n w -> grant i p w -> grant j p w -> i = j.
Proof.
  intros HI. assert (forall i j c, in_use i c w -> c_mode (cell_of w c) = Fresh j -> False) as Hf.
  { intros i0 j0 c Hu. by apply (used_not_fresh i0 j0 c w HI). }
  assert (forall i c, holds_ref i c KRecv w -> in_use i c w) as Hu by (intros i0 c Hr; by exists KRecv).
  assert (forall i j c, in_use i c w -> holds_ref j c KRecv w -> w_refs w !! (c, KSend) = None -> i = j) as Hs.
  { intros i0 j0 c [[] Hk] Hr Hn; congruence. }
  destruct p as [c|c|c|c|]; cbn.
  - intros [[Ho Hi]|[Hi|[Hi Hn]]] [[Ho' Hj]|[Hj|[Hj Hn']]]; try (by exfalso; eauto); [by eapply owns_same|by eauto|congruence|..].
    + symmetry. by eauto.
    + congruence.
  - congruence.
  - apply owns_same.
  - intros [[Ho Hi]|Hi] [[Ho' Hj]|Hj]; try (by exfalso; eauto); [by eapply owns_same|congruence].
  - apply owns_same.
Qed.

(** What the system is working on is left alone. *)
Lemma flying_untouched i w A (e : workE A) p : Inv max n w -> may i w A e -> in_flight p w -> ~ disturbs e p.
Proof.
  intros HI Hm Hf Hd.
  destruct e as [| | | | | | | | | | |c|c|c|c| | |c|c|c|c|c|c n'|c|c|c|c|c k|]; try destruct k; destruct p;
    cbn in Hd, Hf, Hm; try done;
    repeat (apply elem_of_cons in Hd as [Hd|Hd]; [try done; injection Hd as ->|]); try (by apply elem_of_nil in Hd);
    intuition congruence.
Qed.
End data.

(** ** All runs *)

(** Two different threads' next calls are about different data. *)
Definition race_free {R} (ps : list (prog R) * world) : Prop :=
  forall i j t u A B (e : workE A) (f : workE B) k l p,
    ps.1 !! i = Some t -> ps.1 !! j = Some u -> i <> j -> observe t = VisF e k -> observe u = VisF f l ->
    p ∈ places e -> p ∉ places f.

(** No thread's next call disturbs what the system works on. *)
Definition system_undisturbed {R} (ps : list (prog R) * world) : Prop :=
  forall i t A (e : workE A) k p, ps.1 !! i = Some t -> observe t = VisF e k -> in_flight p ps.2 -> ~ disturbs e p.

Definition run (max : Z) (n : nat) : list (prog unit) * world -> Prop :=
  rtc (pool_step (work_protocol max) (λ _ _, False)) (replicate n IocpWorkerThread, world0 n).

Lemma total_zero f n : f local0 = false -> total f (replicate n local0) = 0.
Proof. intros Hf. induction n as [|n IH]; cbn [replicate total]; [done|]. by rewrite Hf, IH. Qed.

Lemma Inv_world0 max n : (1 <= n)%nat -> 0 <= max -> Inv max (Z.of_nat n) (world0 n).
Proof.
  intros Hn Hm. split; cbn -[base.size Z.of_nat]; try done.
  - unfold lenZ. by rewrite length_replicate.
  - apply NoDup_nil_2.
  - intros c Hc. by apply elem_of_nil in Hc.
  - rewrite size_empty, !total_zero by done. lia.
  - rewrite total_zero by done. lia.
Qed.

(** A thread that has just begun. *)
Definition know0 : know := mkKnow ∅ ∅ None local0 NoFact.

Lemma st_world0 i c n : (i < n)%nat -> st i c know0 (world0 n).
Proof.
  intros Hi. split; cbn; try done.
  - by rewrite length_replicate.
  - unfold local_in. by rewrite lookup_replicate_2.
Qed.

Section runs.
Context (max : Z) (n : nat).
Context (Hn : (1 <= n)%nat) (H0 : 0 <= max) (Hmax : max + Z.of_nat n <= 2 ^ 32).

Lemma workers_hold i t :
  replicate n IocpWorkerThread !! i = Some t ->
  holds (work_protocol max) (Inv max (Z.of_nat n)) rely i (λ _ _, True) (world0 n) t.
Proof.
  intros Ht. apply lookup_replicate in Ht as [-> Hi].
  apply (worker_holds max (Z.of_nat n) Hmax i 0 know0); [by apply st_world0|done].
Qed.

Lemma run_keeps ps : run max n ps -> Inv max (Z.of_nat n) ps.2 /\ pool_ok (work_protocol max) ps.
Proof.
  intros Hr. pose proof (Inv_world0 max n Hn H0) as HI.
  assert (forall i t, replicate n IocpWorkerThread !! i = Some t ->
    holds (work_protocol max) (Inv max (Z.of_nat n)) rely i (λ _ _, True) (world0 n) t) as Ht.
  { intros i t. by apply workers_hold. }
  split.
  - by apply (pool_keeps _ _ _ _ (work_non_interfering max (Z.of_nat n) Hmax) _ _ _ _ HI Ht Hr).
  - by apply (pool_sound _ _ _ _ (work_non_interfering max (Z.of_nat n) Hmax) _ _ _ _ HI Ht Hr).
Qed.
End runs.

(** C13: With [n] worker threads and at most [max] connections wanted, in every run each
    thread makes only calls it may make (requests are posted for open sockets by the thread
    that holds them, in the critical section of the context; the count does not wrap; a
    context is given up once); no two threads are at the same socket, buffer, queue or list;
    what a receive or a send in flight is using is left alone; a context in the free list
    has no request anywhere; and there are at most [max + n - 1] open connections. *)
Theorem workers_safe max n ps :
  (1 <= n)%nat -> 0 <= max -> max + Z.of_nat n <= 2 ^ 32 -> run max n ps ->
  pool_ok (work_protocol max) ps /\ race_free ps /\ system_undisturbed ps /\
  (forall c k, c ∈ w_free ps.2 -> w_refs ps.2 !! (c, k) = None) /\
  Z.of_nat (base.size (w_open ps.2)) <= w_cnt ps.2 <= max + Z.of_nat n - 1.
Proof.
  intros Hn H0 Hmax Hr. destruct (run_keeps max n Hn H0 Hmax ps Hr) as [HI Hok].
  pose proof (v_cnt _ _ _ HI). pose proof (v_cap _ _ _ HI). pose proof (total_range counted (w_own ps.2)).
  pose proof (total_range cleared (w_own ps.2)). pose proof (total_range passed (w_own ps.2)). split_and!; [done|..].
  - intros i j t u A B e f k l p Ht Hu Hij He Hf Hp Hp'. apply Hij.
    destruct (Hok i t A e k Ht He) as [_ Hm], (Hok j u B f l Hu Hf) as [_ Hm'].
    by apply (grant_one max (Z.of_nat n) i j p ps.2 HI); eapply may_grant.
  - intros i t A e k p Ht He Hf. destruct (Hok i t A e k Ht He) as [_ Hm]. by eapply flying_untouched.
  - intros c k Hc. apply (fresh_no_refs _ _ _ _ _ HI). by rewrite (v_idle _ _ _ HI).
  - lia.
  - lia.
Qed.

(** ** A run *)

(** What is open in a run: the packet, the answer of a call about a handle or of a post,
    and which new context is made. *)
Record oracle := mkOracle { o_packet : packet; o_bool : bool; o_new : client }.

(** The calls of the runs below; the rest is not resolved. *)
Definition resolve (max : Z) (o : oracle) (i : nat) (A : Type) (e : workE A) (w : world) : option (A * world) :=
  match e in workE A return option (A * world) with
  | ExitEvent | IsShutdown | Net _ => Some (o_bool o, w)
  | GetPacket =>
      match o_packet o with
      | PClient c k ret n =>
          if decide (w_refs w !! (c, k) = Some None)
          then Some (o_packet o, set_refs (<[(c, k) := Some i]> (w_refs w)) w) else None
      | p => Some (p, w)
      end
  | EnterCS l =>
      match w_locks w !! l with
      | None => Some (tt, set_locks (<[l := (i, 1%nat)]> (w_locks w)) w)
      | Some (j, d) =>
          if decide (j = i) then Some (tt, set_locks (<[l := (i, S d)]> (w_locks w)) w) else None
      end
  | LeaveCS l =>
      Some (tt, match w_locks w !! l with
                | Some (j, S (S d)) => set_locks (<[l := (j, S d)]> (w_locks w)) w
                | _ => set_locks (delete l (w_locks w)) w
                end)
  | TestCnt =>
      let r := max <=? w_cnt w in
      Some (r, set_own i (mkLocal (negb r) (counted (mine i w)) (cleared (mine i w))) w)
  | IncCnt => Some (tt, set_own i (mkLocal false true (cleared (mine i w))) (set_cnt (u32 (w_cnt w + 1)) w))
  | PopFree => match w_free w with [] => Some (None, w) | _ => None end
  | NewContext =>
      let c := o_new o in
      if decide (c_mode (cell_of w c) = Gone) then Some (c, upd_cell c (set_mode (Fresh i)) w) else None
  | SetSock c =>
      Some (tt, set_own i (mkLocal (passed (mine i w)) false (cleared (mine i w))) (set_open ({[c]} ∪ w_open w) w))
  | Reset c => Some ((c_refs (cell_of w c) =? 0) && bool_decide (c_queue (cell_of w c) = 0%nat), w)
  | GetSock c => Some (bool_decide (c ∈ w_open w), w)
  | EnterLoop c k =>
      if c_refs (cell_of w c) + 1 <? 2 ^ 31
      then Some (tt, set_refs (<[(c, k) := Some i]> (w_refs w))
                       (upd_cell c (λ x, mkCell (c_refs x + 1) (c_out x) (c_queue x) Used) w))
      else None
  | AddConn c => Some (tt, set_conn (w_conn w ++ [c]) w)
  | UseIn _ => Some (tt, w)
  | Post c k => Some (o_bool o, if o_bool o then set_refs (<[(c, k) := None]> (w_refs w)) w else w)
  | OutEmpty c => Some (negb (c_out (cell_of w c)), w)
  | OutFill c => Some (tt, upd_cell c (set_out true) w)
  | _ => None
  end.

Lemma resolve_answers max o i A (e : workE A) w a w' :
  resolve max o i A e w = Some (a, w') -> answers (work_protocol max i) w e a w'.
Proof.
  destruct e; cbn; intros H; try done; try (by injection H as <- <-).
  - destruct (o_packet o); [by injection H as <- <-..|]. case_decide; [|done]. by injection H as <- <-.
  - destruct (w_locks w !! l) as [[j d]|]; [case_decide; [|done]|]; by injection H as <- <-.
  - destruct (w_locks w !! l) as [[j [|[|d]]]|]; by injection H as <- <-.
  - destruct (w_free w); [|done]. by injection H as <- <-.
  - case_decide; [|done]. by injection H as <- <-.
  - destruct (Z.ltb_spec (c_refs (cell_of w c) + 1) (2 ^ 31)); [|done]. by injection H as <- <-.
Qed.

Lemma exec_run max n ms ps :
  exec (resolve max) (λ (_ : unit) _, None) ms (replicate n IocpWorkerThread, world0 n) = Some ps -> run max n ps.
Proof. by apply (exec_steps _ _ _ (λ _ _, False) (resolve_answers max)). Qed.

(** Two threads that accept a connection each: both test the count before either adds to
    it.  [accept_test] is a thread's way to the test, [accept_rest] the rest of its turn. *)
Definition ok (b : bool) : oracle := mkOracle (PServer 0) b 0.
Definition accept_test (i : nat) : list (move (O := oracle) (C := unit)) :=
  map (Move i) [ok false; ok true; ok false; ok true; ok true].
Definition accept_rest (i : nat) (c : client) : list (move (O := oracle) (C := unit)) :=
  replicate 21 (Move i (mkOracle (PServer 0) true c)).

Definition both_accept := accept_test 0 ++ accept_test 1 ++ accept_rest 0 1 ++ accept_rest 1 2.

(** Then the first receives a message on its connection and sends it back. *)
Definition echoes (i : nat) (c : client) : list (move (O := oracle) (C := unit)) :=
  map (Move i) ([ok true; ok false; mkOracle (PClient c KRecv true 5) true 0] ++ replicate 12 (ok true)).

(** The comparison with the maximum and the increment are two steps: with a maximum of one
    connection two threads accept one each. *)
Lemma workers_exceed_cap :
  exists ps, run 1 2 ps /\ w_open ps.2 = {[1; 2]} /\ w_cnt ps.2 = 2.
Proof.
  assert (match exec (resolve 1) (λ (_ : unit) _, None) both_accept (replicate 2 IocpWorkerThread, world0 2) with
    Some ps => bool_decide (w_open ps.2 = {[1; 2]}) && (w_cnt ps.2 =? 2) | None => false end = true) as H by (by vm_compute).
  destruct (exec _ _ _ _) as [ps|] eqn:E; [|done]. exists ps. split; [exact (exec_run _ _ _ _ E)|clear E].
  apply andb_true_iff in H as [H1%bool_decide_eq_true H2%Z.eqb_eq]. by split.
Qed.

Lemma workers_safe_witness :
  exists ps, run 1 2 ps /\ in_flight (POut 1) ps.2 /\ w_locks ps.2 !! LClient 1 = Some (0%nat, 1%nat) /\
    race_free ps /\ system_undisturbed ps /\ Z.of_nat (base.size (w_open ps.2)) <= 2.
Proof.
  assert (match exec (resolve 1) (λ (_ : unit) _, None) (both_accept ++ echoes 0 1)
                (replicate 2 IocpWorkerThread, world0 2) with
    Some ps => bool_decide (w_refs ps.2 !! (1, KSend) = Some None) && bool_decide (w_locks ps.2 !! LClient 1 = Some (0%nat, 1%nat))
  | None => false end = true) as H by (by vm_compute).
  destruct (exec _ _ _ _) as [ps|] eqn:E; [|discriminate H]. exists ps.
  assert (run 1 2 ps) as Hr by exact (exec_run _ _ _ _ E). clear E.
  destruct (workers_safe 1 2 ps ltac:(lia) ltac:(lia) ltac:(lia) Hr) as (_ & H1 & H2 & _ & H3).
  apply andb_true_iff in H as [Ha%bool_decide_eq_true Hb%bool_decide_eq_true].
  split_and!; [exact Hr|exact Ha|exact Hb|exact H1|exact H2|lia].
Defined.
