(* ===== verification/IocpEcho.v ===== *)
(** * Echo servers over a completion port
      (src/Windows/TCP-IPNetworkPrograming: IOCPDemo/IOCPDemo.cpp and
      IOCPEchoServ/IOCPEchoServ.cpp)

    [main] accepts connections and starts a receive for each; threads take
    completion packets from one port, send back what was received and start the next
    receive.  The two programs differ in what they do when a call fails.  The
    threads share the memory: every read and write of a structure that has been
    handed to the system or to another thread is a call of its own, and any order of
    the calls of all threads is a run. *)
From S2P Require Import Prelude CLib Interact Threads.

Definition BUF_SIZE : Z := 100.
Definition READ : Z := 3.
Definition WRITE : Z := 5.
Definition INVALID_SOCKET : Z := -1.
Definition WSA_IO_PENDING : Z := 997.

(** ** Calls

    [PER_HANDLE_DATA] and [PER_IO_DATA] are on the heap, at addresses; the buffer of
    the latter is part of it.  An answer [(ret, error)] is what a call returns and
    the last error after it.  The calls that set up the listening socket and the
    threads are told apart by name only. *)
Inductive setup := Startup | Port | Processors | Thread | Socket | Associate | Bind | Listen | AcceptExPtr
  | CloseListener | Cleanup.

Variant echoE : Type -> Type :=
  | Setup (c : setup) : echoE Z
  | Accept : echoE Z
  | MallocHandle : echoE Z
  | SetSock (h s : Z) : echoE unit
  | GetSock (h : Z) : echoE Z
  | FreeHandle (h : Z) : echoE unit
  | CreateIoCompletionPort (s h : Z) : echoE unit
  | MallocIo : echoE Z
  | ZeroIo (p : Z) : echoE unit
  | ZeroOverlapped (p : Z) : echoE unit
  | SetBuf (p : Z) : echoE unit
  | SetLen (p n : Z) : echoE unit
  | SetMode (p m : Z) : echoE unit
  | GetMode (p : Z) : echoE Z
  | FreeIo (p : Z) : echoE unit
  | GetQueuedCompletionStatus : echoE (Z * Z * Z)
  | WSARecv (s p : Z) : echoE (Z * Z)
  | WSASend (s p : Z) : echoE (Z * Z)
  | Closesocket (s : Z) : echoE unit
  | Exit (code : Z) : echoE Empty_set.

Abbreviation prog := (itree echoE).

Definition ErrorHandling {A} : prog A := syscall (Exit 1) ≫= λ v : Empty_set, match v with end.

(** [ret == SOCKET_ERROR && WSAGetLastError() != WSA_IO_PENDING] *)
Definition failed (r : Z * Z) : bool := (r.1 =? -1) && negb (r.2 =? WSA_IO_PENDING).

(** The loop that starts the threads. *)
Fixpoint start_threads (n : nat) : prog unit :=
  match n with O => mret tt | S n => syscall (Setup Thread);; start_threads n end.

(** ** IOCPDemo.cpp *)

(** A turn of the loop of [main]; it ends when a receive cannot be started.  The key of
    the port is the address of the handle, converted to [DWORD]. *)
Definition Demo_accept_turn (_ : unit) : prog (unit + unit) :=
  clntSock ← syscall Accept;
  handleInfo ← syscall MallocHandle;
  syscall (SetSock handleInfo clntSock);;
  syscall (CreateIoCompletionPort clntSock (u32 handleInfo));;
  ioInfo ← syscall MallocIo;
  syscall (ZeroIo ioInfo);;
  syscall (SetBuf ioInfo);;
  syscall (SetLen ioInfo BUF_SIZE);;
  syscall (SetMode ioInfo READ);;
  s ← syscall (GetSock handleInfo);
  ret ← syscall (WSARecv s ioInfo);
  if failed ret then mret (inr tt) else mret (inl tt).

Definition Demo_main (_ : unit) : prog Z :=
  r ← syscall (Setup Startup);
  if negb (r =? 0) then ErrorHandling
  else
    syscall (Setup Port);;
    n ← syscall (Setup Processors);
    start_threads (Z.to_nat n);;
    syscall (Setup Socket);;
    syscall (Setup Associate);;
    r ← syscall (Setup Bind);
    if r =? -1 then ErrorHandling
    else
      r ← syscall (Setup Listen);
      if r =? -1 then ErrorHandling
      else
        r ← syscall (Setup AcceptExPtr);
        if r =? -1 then
          syscall (Setup CloseListener);; syscall (Setup Cleanup);; mret 1
        else
          loop Demo_accept_turn tt;;
          syscall (Setup CloseListener);;
          syscall (Setup Cleanup);;
          mret 0.

(** A turn of a thread; it ends when a send or a receive cannot be started. *)
Definition Demo_thread_turn (_ : unit) : prog (unit + unit) :=
  packet ← syscall GetQueuedCompletionStatus;
  let '(bytesTrans, handleInfo, ioInfo) := packet in
  sock ← syscall (GetSock handleInfo);
  rwMode ← syscall (GetMode ioInfo);
  if rwMode =? READ then
    if bytesTrans =? 0 then
      syscall (Closesocket sock);;
      syscall (FreeHandle handleInfo);;
      syscall (FreeIo ioInfo);;
      mret (inl tt)
    else
      syscall (ZeroOverlapped ioInfo);;
      syscall (SetLen ioInfo bytesTrans);;
      syscall (SetMode ioInfo WRITE);;
      ret ← syscall (WSASend sock ioInfo);
      if failed ret then mret (inr tt)
      else
        ioInfo ← syscall MallocIo;
        syscall (ZeroIo ioInfo);;
        syscall (SetLen ioInfo BUF_SIZE);;
        syscall (SetBuf ioInfo);;
        syscall (SetMode ioInfo READ);;
        ret ← syscall (WSARecv sock ioInfo);
        if failed ret then mret (inr tt) else mret (inl tt)
  else
    syscall (FreeIo ioInfo);;
    mret (inl tt).

Definition Demo_EchoThreadMain (_ : unit) : prog Z := loop Demo_thread_turn tt;; mret 0.


(** ** IOCPEchoServ.cpp *)

(** The same without a test of the results: neither loop is ever left. *)
Definition Serv_accept_turn (_ : unit) : prog (unit + Z) :=
  clntSock ← syscall Accept;
  handleInfo ← syscall MallocHandle;
  syscall (SetSock handleInfo clntSock);;
  syscall (CreateIoCompletionPort clntSock (u32 handleInfo));;
  ioInfo ← syscall MallocIo;
  syscall (ZeroIo ioInfo);;
  syscall (SetBuf ioInfo);;
  syscall (SetLen ioInfo BUF_SIZE);;
  syscall (SetMode ioInfo READ);;
  s ← syscall (GetSock handleInfo);
  syscall (WSARecv s ioInfo);;
  mret (inl tt).

Definition Serv_main (_ : unit) : prog Z :=
  r ← syscall (Setup Startup);
  if negb (r =? 0) then ErrorHandling
  else
    syscall (Setup Port);;
    n ← syscall (Setup Processors);
    start_threads (Z.to_nat n);;
    syscall (Setup Socket);;
    r ← syscall (Setup Bind);
    if r =? -1 then ErrorHandling
    else
      r ← syscall (Setup Listen);
      if r =? -1 then ErrorHandling
      else loop Serv_accept_turn tt.

Definition Serv_thread_turn (_ : unit) : prog (unit + Z) :=
  packet ← syscall GetQueuedCompletionStatus;
  let '(bytesTrans, handleInfo, ioInfo) := packet in
  sock ← syscall (GetSock handleInfo);
  rwMode ← syscall (GetMode ioInfo);
  if rwMode =? READ then
    if bytesTrans =? 0 then
      syscall (Closesocket sock);;
      syscall (FreeHandle handleInfo);;
      syscall (FreeIo ioInfo);;
      mret (inl tt)
    else
      syscall (ZeroOverlapped ioInfo);;
      syscall (SetLen ioInfo bytesTrans);;
      syscall (SetMode ioInfo WRITE);;
      syscall (WSASend sock ioInfo);;
      ioInfo ← syscall MallocIo;
      syscall (ZeroIo ioInfo);;
      syscall (SetLen ioInfo BUF_SIZE);;
      syscall (SetBuf ioInfo);;
      syscall (SetMode ioInfo READ);;
      syscall (WSARecv sock ioInfo);;
      mret (inl tt)
  else
    syscall (FreeIo ioInfo);;
    mret (inl tt).

Definition Serv_EchoThreadMain (_ : unit) : prog Z := loop Serv_thread_turn tt.

(** ** What threads and system share

    A connection is known by its socket, and goes round: thread [i] has accepted it
    ([Fresh]) and associated it with its handle ([Opening]), the system is receiving
    into [p], what it received is in the queue ([Arrived]), thread [i] has taken it
    from there ([Handling]) and started to send it back ([Sent]).  [Lost] is one for
    which a receive could not be started. *)
Inductive phase :=
  | Fresh (i : nat)
  | Opening (i : nat) (h : Z)
  | Reading (h p : Z)
  | Arrived (h p : Z) (bs : bytes)
  | Handling (i : nat) (h p : Z) (bs : bytes)
  | Sent (i : nat) (h : Z)
  | Lost.

(** A [PER_IO_DATA] belongs to a thread that made it, to the system for a receive,
    to the system or the queue for a send that was started for the handle [h], or to
    a thread that has taken the packet of a send. *)
Inductive owner := OThread (i : nat) | ORead (s : Z) | OWriting (h : Z) | OWritten (h : Z) | OHeld (i : nat) (h : Z).

Record io := mkIo { o_len : Z; o_buf : bool; o_mode : Z; o_data : bytes; o_own : owner }.

(** A [PER_HANDLE_DATA] belongs to a thread, or to the connection of a socket. *)
Inductive handle := HThread (i : nat) (s : option Z) | HConn (s : Z).

Record world := mkWorld { conns : gmap Z phase; handles : gmap Z handle; ios : gmap Z io }.

Definition set_conn (s : Z) (ph : phase) (w : world) : world := mkWorld (<[s := ph]> (conns w)) (handles w) (ios w).
Definition del_conn (s : Z) (w : world) : world := mkWorld (delete s (conns w)) (handles w) (ios w).
Definition set_handle (h : Z) (x : handle) (w : world) : world := mkWorld (conns w) (<[h := x]> (handles w)) (ios w).
Definition del_handle (h : Z) (w : world) : world := mkWorld (conns w) (delete h (handles w)) (ios w).
Definition set_io (p : Z) (o : io) (w : world) : world := mkWorld (conns w) (handles w) (<[p := o]> (ios w)).
Definition del_io (p : Z) (w : world) : world := mkWorld (conns w) (handles w) (delete p (ios w)).

Definition own_io (o : owner) (x : io) : io := mkIo (o_len x) (o_buf x) (o_mode x) (o_data x) o.

(** [p] is in the hands of thread [i]. *)
Definition mine (i : nat) (w : world) (p : Z) : Prop :=
  exists o, ios w !! p = Some o /\ (o_own o = OThread i \/ exists h, o_own o = OHeld i h).

(** What thread [i] may call.  A structure is used by the thread that has it, and
    freed by it, with one exception: the handle that comes with the packet of a
    send is read whether it is still there or not.  There is one receive at a time
    for a connection, into a whole buffer; exactly what was received is sent back,
    once, before the next receive; a socket is closed when nothing was received. *)
Definition may (i : nat) (w : world) (A : Type) (e : echoE A) : Prop :=
  match e with
  | Setup _ | Exit _ | Accept | MallocHandle | MallocIo | GetQueuedCompletionStatus => True
  | SetSock h _ | FreeHandle h => exists o, handles w !! h = Some (HThread i o)
  | GetSock h => (exists s, handles w !! h = Some (HConn s)) \/
      exists p o, ios w !! p = Some o /\ o_own o = OHeld i h
  | CreateIoCompletionPort s h =>
      conns w !! s = Some (Fresh i) /\ handles w !! h = Some (HThread i (Some s))
  | ZeroIo p | ZeroOverlapped p | SetBuf p | SetLen p _ | SetMode p _ | GetMode p | FreeIo p => mine i w p
  | WSARecv s p => exists h o,
      (conns w !! s = Some (Opening i h) \/ conns w !! s = Some (Sent i h)) /\
      ios w !! p = Some o /\ o_own o = OThread i /\ o_buf o = true /\ o_len o = BUF_SIZE /\ o_mode o = READ
  | WSASend s p => exists h bs o,
      conns w !! s = Some (Handling i h p bs) /\ bs <> [] /\
      ios w !! p = Some o /\ o_own o = OThread i /\ o_buf o = true /\ o_len o = lenZ bs /\
      takeZ (lenZ bs) (o_data o) = bs /\ o_mode o = WRITE
  | Closesocket s => exists h p, conns w !! s = Some (Handling i h p [])
  end.

(** One of the fields of a [PER_IO_DATA] is written. *)
Definition changed (f : io -> io) (p : Z) (w w' : world) : Prop :=
  exists o, ios w !! p = Some o /\ w' = set_io p (f o) w.

(** Documented answers, for a system that has memory.  [accept] gives a socket that
    is not in use, or [INVALID_SOCKET], for which no receive can be started; an
    address of a 32-bit program fits the [DWORD] that the program makes of it; a packet
    comes with the key and the structure of its request. *)
Definition does (i : nat) (w : world) (A : Type) (e : echoE A) : A -> world -> Prop :=
  match e in echoE A return A -> world -> Prop with
  | Setup _ => λ _ w', w' = w
  | Exit _ => λ _ _, False
  | Accept => λ a w', w' = set_conn a (Fresh i) w /\
      (conns w !! a = None \/ a = INVALID_SOCKET /\ conns w !! a = Some Lost)
  | MallocHandle => λ a w', 0 < a < 2 ^ 32 /\ handles w !! a = None /\ w' = set_handle a (HThread i None) w
  | SetSock h s => λ _ w', w' = set_handle h (HThread i (Some s)) w
  | GetSock h => λ a w', w' = w /\ forall s, handles w !! h = Some (HConn s) -> a = s
  | FreeHandle h => λ _ w', w' = del_handle h w
  | CreateIoCompletionPort s h => λ _ w', w' = set_conn s (Opening i h) (set_handle h (HConn s) w)
  | MallocIo => λ a w', ios w !! a = None /\ exists o, o_own o = OThread i /\ w' = set_io a o w
  | ZeroIo p => λ _ w', changed (λ o, mkIo 0 false 0 (replicate 100 NUL) (o_own o)) p w w'
  | ZeroOverlapped p => λ _ w', w' = w
  | SetBuf p => λ _ w', changed (λ o, mkIo (o_len o) true (o_mode o) (o_data o) (o_own o)) p w w'
  | SetLen p n => λ _ w', changed (λ o, mkIo n (o_buf o) (o_mode o) (o_data o) (o_own o)) p w w'
  | SetMode p m => λ _ w', changed (λ o, mkIo (o_len o) (o_buf o) m (o_data o) (o_own o)) p w w'
  | GetMode p => λ a w', w' = w /\ forall o, ios w !! p = Some o -> a = o_mode o
  | FreeIo p => λ _ w', w' = del_io p w
  | GetQueuedCompletionStatus => λ r w', let '(n, h, p) := r in
      exists o, ios w !! p = Some o /\
        ((exists s bs, conns w !! s = Some (Arrived h p bs) /\ n = lenZ bs /\
            w' = set_conn s (Handling i h p bs) (set_io p (own_io (OThread i) o) w)) \/
         o_own o = OWritten h /\ w' = set_io p (own_io (OHeld i h) o) w)
  | WSARecv s p => λ r w',
      if failed r then w' = set_conn s Lost w
      else s <> INVALID_SOCKET /\ exists h o,
        (conns w !! s = Some (Opening i h) \/ conns w !! s = Some (Sent i h)) /\
        ios w !! p = Some o /\ w' = set_conn s (Reading h p) (set_io p (own_io (ORead s) o) w)
  | WSASend s p => λ r w', exists h bs, conns w !! s = Some (Handling i h p bs) /\
      if failed r then w' = set_conn s (Sent i h) w
      else exists o, ios w !! p = Some o /\ w' = set_conn s (Sent i h) (set_io p (own_io (OWriting h) o) w)
  | Closesocket s => λ _ w', exists h p, conns w !! s = Some (Handling i h p []) /\
      w' = del_conn s (set_handle h (HThread i (Some s)) w)
  end.

Definition echo_protocol (i : nat) : protocol echoE world := Protocol (may i) (does i).

(** The system completes a receive with at most as many bytes as there is room for,
    none when the peer has closed the connection, and a send. *)
Inductive system_step : world -> world -> Prop :=
  | complete_read w s h p o bs :
      conns w !! s = Some (Reading h p) -> ios w !! p = Some o -> lenZ bs <= o_len o ->
      system_step w (set_conn s (Arrived h p bs)
        (set_io p (mkIo (o_len o) (o_buf o) (o_mode o) (bs ++ dropZ (lenZ bs) (o_data o)) (o_own o)) w))
  | complete_write w p o h :
      ios w !! p = Some o -> o_own o = OWriting h ->
      system_step w (set_io p (own_io (OWritten h) o) w).

(** ** What is always true, and what a thread can rely on *)

Definition phase_handle (ph : phase) : option Z :=
  match ph with
  | Opening _ h | Reading h _ | Arrived h _ _ | Handling _ h _ _ | Sent _ h => Some h
  | Fresh _ | Lost => None
  end.

Definition held_by (i : nat) (ph : phase) : Prop :=
  match ph with
  | Fresh j | Opening j _ | Handling j _ _ _ | Sent j _ => j = i
  | Reading _ _ | Arrived _ _ _ | Lost => False
  end.

(** The structure of a connection that is received into. *)
Definition receives (s : Z) (o : io) : Prop :=
  o_own o = ORead s /\ o_mode o = READ /\ o_buf o = true.

Definition phase_io (w : world) (s : Z) (ph : phase) : Prop :=
  match ph with
  | Reading _ p => exists o, ios w !! p = Some o /\ receives s o /\ o_len o = BUF_SIZE
  | Arrived _ p bs => exists o, ios w !! p = Some o /\ receives s o /\
      takeZ (lenZ bs) (o_data o) = bs /\ lenZ bs <= BUF_SIZE
  | _ => True
  end.

Definition sending (o : owner) : Prop := exists h, o = OWriting h \/ o = OWritten h.

Record Inv (w : world) : Prop := {
  inv_handle : forall s ph h, conns w !! s = Some ph -> phase_handle ph = Some h -> handles w !! h = Some (HConn s);
  inv_io : forall s ph, conns w !! s = Some ph -> phase_io w s ph;
  inv_write : forall p o, ios w !! p = Some o -> sending (o_own o) -> o_mode o = WRITE;
}.

(** The others leave alone what is in the hands of thread [i]. *)
Record rely (i : nat) (w w' : world) : Prop := {
  re_conn : forall s ph, conns w !! s = Some ph -> held_by i ph -> conns w' !! s = Some ph;
  re_handle : forall h o, handles w !! h = Some (HThread i o) -> handles w' !! h = Some (HThread i o);
  re_io : forall p o, ios w !! p = Some o -> o_own o = OThread i \/ (exists h, o_own o = OHeld i h) ->
    ios w' !! p = Some o;
}.

Lemma rely_refl i w : rely i w w.
Proof. by split. Qed.

Lemma rely_trans i w1 w2 w3 : rely i w1 w2 -> rely i w2 w3 -> rely i w1 w3.
Proof. intros [] []. split; eauto. Qed.

(** One entry of a map is changed, and nobody relied on it. *)
Lemma rely_set_conn i s ph w :
  (forall ph', conns w !! s = Some ph' -> ~ held_by i ph') -> rely i w (set_conn s ph w).
Proof.
  intros H. split; [|done|done]. intros s' ph' Hs Hh. cbn. rewrite lookup_insert_ne; [done|].
  intros ->. by eapply H.
Qed.

Lemma rely_del_conn i s w :
  (forall ph', conns w !! s = Some ph' -> ~ held_by i ph') -> rely i w (del_conn s w).
Proof.
  intros H. split; [|done|done]. intros s' ph' Hs Hh. cbn. rewrite lookup_delete_ne; [done|].
  intros ->. by eapply H.
Qed.

Lemma rely_set_handle i h x w :
  (forall o, handles w !! h <> Some (HThread i o)) -> rely i w (set_handle h x w).
Proof.
  intros H. split; [done| |done]. intros h' o Hh. cbn. rewrite lookup_insert_ne; [done|].
  intros ->. by eapply H.
Qed.

Lemma rely_del_handle i h w :
  (forall o, handles w !! h <> Some (HThread i o)) -> rely i w (del_handle h w).
Proof.
  intros H. split; [done| |done]. intros h' o Hh. cbn. rewrite lookup_delete_ne; [done|].
  intros ->. by eapply H.
Qed.

Lemma rely_set_io i p o w :
  (forall o', ios w !! p = Some o' -> o_own o' <> OThread i /\ forall h, o_own o' <> OHeld i h) ->
  rely i w (set_io p o w).
Proof.
  intros H. split; [done|done|]. intros p' o' Hp Ho. cbn. rewrite lookup_insert_ne; [done|].
  intros ->. destruct (H _ Hp). destruct Ho as [|[]]; naive_solver.
Qed.

Lemma rely_del_io i p w :
  (forall o', ios w !! p = Some o' -> o_own o' <> OThread i /\ forall h, o_own o' <> OHeld i h) ->
  rely i w (del_io p w).
Proof.
  intros H. split; [done|done|]. intros p' o' Hp Ho. cbn. rewrite lookup_delete_ne; [done|].
  intros ->. destruct (H _ Hp). destruct Ho as [|[]]; naive_solver.
Qed.

(** The same for what is always true. *)
Lemma Inv_set_conn s ph w :
  Inv w -> (forall h, phase_handle ph = Some h -> handles w !! h = Some (HConn s)) -> phase_io w s ph ->
  Inv (set_conn s ph w).
Proof.
  intros [Hh Hi Hw] Hh' Hi'. split; cbn; [| |done].
  - intros s' ph' h [[<- <-]|[_ Hs]]%lookup_insert_Some; [apply Hh'|by eapply Hh].
  - intros s' ph' [[<- <-]|[_ Hs]]%lookup_insert_Some; [exact Hi'|by apply Hi in Hs].
Qed.

Lemma Inv_del_conn s w : Inv w -> Inv (del_conn s w).
Proof.
  intros [Hh Hi Hw]. split; cbn; [| |done].
  - intros s' ph' h [_ Hs]%lookup_delete_Some. by eapply Hh.
  - intros s' ph' [_ Hs]%lookup_delete_Some. by apply Hi in Hs.
Qed.

Lemma Inv_set_handle h x w :
  Inv w -> (forall s ph, conns w !! s = Some ph -> phase_handle ph = Some h -> x = HConn s) -> Inv (set_handle h x w).
Proof.
  intros [Hh Hi Hw] Hx. split; cbn; [|done|done].
  intros s ph h' Hs Hp. destruct (decide (h = h')) as [->|Hne].
  - rewrite lookup_insert_eq. by rewrite (Hx s ph).
  - rewrite lookup_insert_ne by done. by eapply Hh.
Qed.

Lemma Inv_del_handle h w :
  Inv w -> (forall s ph, conns w !! s = Some ph -> phase_handle ph <> Some h) -> Inv (del_handle h w).
Proof.
  intros [Hh Hi Hw] Hx. split; cbn; [|done|done].
  intros s ph h' Hs Hp. rewrite lookup_delete_ne; [by eapply Hh|]. intros ->. by eapply Hx.
Qed.

(** A structure that no connection is received into. *)
Definition phase_buffer (ph : phase) : option Z :=
  match ph with Reading _ p | Arrived _ p _ => Some p | _ => None end.

Definition not_received (p : Z) (w : world) : Prop :=
  forall s ph, conns w !! s = Some ph -> phase_buffer ph <> Some p.

Lemma phase_io_set_io w s ph p o : phase_buffer ph <> Some p -> phase_io w s ph -> phase_io (set_io p o w) s ph.
Proof.
  intros Hp. destruct ph; cbn in *; try done; intros (o' & Ho & H); exists o'; (split; [|done]);
    (rewrite lookup_insert_ne; [done|congruence]).
Qed.

Lemma phase_io_del_io w s ph p : phase_buffer ph <> Some p -> phase_io w s ph -> phase_io (del_io p w) s ph.
Proof.
  intros Hp. destruct ph; cbn in *; try done; intros (o' & Ho & H); exists o'; (split; [|done]);
    (rewrite lookup_delete_ne; [done|congruence]).
Qed.

Lemma Inv_set_io p o w :
  Inv w -> not_received p w -> (sending (o_own o) -> o_mode o = WRITE) -> Inv (set_io p o w).
Proof.
  intros [Hh Hi Hw] Hn Hm. split; [done| |].
  - intros s ph Hs. apply phase_io_set_io; [by eapply Hn|by apply Hi].
  - cbn. intros p' o' [[<- <-]|[_ Hp]]%lookup_insert_Some; [exact Hm|by eapply Hw].
Qed.

Lemma Inv_del_io p w : Inv w -> not_received p w -> Inv (del_io p w).
Proof.
  intros [Hh Hi Hw] Hn. split; [done| |].
  - intros s ph Hs. apply phase_io_del_io; [by eapply Hn|by apply Hi].
  - cbn. intros p' o' [_ Hp]%lookup_delete_Some. by eapply Hw.
Qed.

(** Who has the structure of a connection. *)
Lemma received_owner w s ph p : Inv w -> conns w !! s = Some ph -> phase_buffer ph = Some p ->
  exists o, ios w !! p = Some o /\ receives s o.
Proof.
  intros HI Hs Hp. pose proof (inv_io _ HI s ph Hs) as H.
  destruct ph; cbn in *; try done; injection Hp as ->; destruct H as (o & Ho & Hr & _); eauto.
Qed.

Lemma owned_not_received w p o : Inv w -> ios w !! p = Some o -> (forall s, o_own o <> ORead s) -> not_received p w.
Proof.
  intros HI Ho Hn s ph Hs Hp. destruct (received_owner w s ph p HI Hs Hp) as (o' & Ho' & Hr & _).
  rewrite Ho in Ho'. injection Ho' as <-. by eapply Hn.
Qed.

Lemma free_not_received w p : Inv w -> ios w !! p = None -> not_received p w.
Proof.
  intros HI Ho s ph Hs Hp. destruct (received_owner w s ph p HI Hs Hp) as (o' & Ho' & _). congruence.
Qed.

(** When one connection goes on, its structure is free of it. *)
Lemma moved_not_received w s ph ph' p :
  Inv w -> conns w !! s = Some ph -> phase_buffer ph = Some p -> phase_buffer ph' <> Some p ->
  not_received p (set_conn s ph' w).
Proof.
  intros HI Hs Hp Hp' s' ph1. cbn. intros [[<- <-]|[Hne Hs']]%lookup_insert_Some; [done|].
  intros Hp1. destruct (received_owner w s ph p HI Hs Hp) as (o & Ho & Hr & _).
  destruct (received_owner w s' ph1 p HI Hs' Hp1) as (o1 & Ho1 & Hr1 & _). congruence.
Qed.

(** ** The threads do not interfere *)

(** An owner that is somebody else. *)
Definition foreign (j : nat) (o : owner) : Prop := o <> OThread j /\ forall h, o <> OHeld j h.

Lemma mine_foreign i j w p : j <> i -> mine i w p ->
  forall o, ios w !! p = Some o -> foreign j (o_own o) /\ (forall s, o_own o <> ORead s) /\ ~ sending (o_own o).
Proof.
  intros Hj (o' & Ho' & Hown) o Ho. rewrite Ho in Ho'. injection Ho' as <-.
  destruct Hown as [->|[h ->]]; (split; [split; congruence|]); (split; [congruence|]);
    intros [h' [?|?]]; congruence.
Qed.

Lemma changed_step i (f : io -> io) p w w' :
  (forall o, o_own (f o) = o_own o) -> Inv w -> mine i w p -> changed f p w w' ->
  Inv w' /\ forall j, j <> i -> rely j w w'.
Proof.
  intros Hf HI Hm (o & Ho & ->). assert (S i <> i) as Hsi by lia.
  destruct (mine_foreign i (S i) w p Hsi Hm o Ho) as (_ & Hr & Hw). split.
  - apply Inv_set_io; [done|by eapply owned_not_received|]. by rewrite Hf.
  - intros j Hj. apply rely_set_io. intros o' Ho'. by destruct (mine_foreign i j w p Hj Hm o' Ho').
Qed.

Lemma system_step_ok w w' : Inv w -> system_step w w' -> Inv w' /\ forall i, rely i w w'.
Proof.
  intros HI Hs. destruct Hs as [w s h p o bs Hs Ho Hl|w p o h Ho Hown].
  - pose proof (inv_io _ HI _ _ Hs) as (o' & Ho' & (Hr1 & Hr2 & Hr3) & Hlen). rewrite Ho in Ho'. injection Ho' as <-.
    split.
    + replace (set_conn s (Arrived h p bs) _) with
        (set_conn s (Arrived h p bs) (set_io p (mkIo (o_len o) (o_buf o) (o_mode o)
           (bs ++ dropZ (lenZ bs) (o_data o)) (o_own o)) (set_conn s Lost w)))
        by (unfold set_conn, set_io; cbn; by rewrite insert_insert_eq).
      apply Inv_set_conn.
      * apply Inv_set_io; [by apply Inv_set_conn|by eapply moved_not_received|]. cbn. rewrite Hr1.
        intros [h' [?|?]]; done.
      * intros h' [= <-]. by apply (inv_handle _ HI s (Reading h p)).
      * eexists. split; [apply lookup_insert_eq|]. split; [done|]. cbn.
        split; [by apply takeZ_app|lia].
    + intros i. apply (rely_trans _ _ (set_io p (mkIo (o_len o) (o_buf o) (o_mode o)
        (bs ++ dropZ (lenZ bs) (o_data o)) (o_own o)) w)).
      * apply rely_set_io. intros o' Ho'. rewrite Ho in Ho'. injection Ho' as <-. rewrite Hr1. by split.
      * apply rely_set_conn. cbn. rewrite Hs. intros ph' [= <-] [].
  - split.
    + apply Inv_set_io; [done|eapply owned_not_received; [done|done|congruence]|]. intros _. cbn.
      apply (inv_write _ HI p o Ho). exists h. by left.
    + intros i. apply rely_set_io. intros o' Ho'. rewrite Ho in Ho'. injection Ho' as <-. rewrite Hown. by split.
Qed.

Ltac kept := split; [|intros j Hj].

(** A connection is given to the port. *)
Lemma connection_bound i w s h (a : unit) w' :
  Inv w -> may i w _ (CreateIoCompletionPort s h) -> does i w _ (CreateIoCompletionPort s h) a w' -> Inv w' /\ forall j, j <> i -> rely j w w'.
Proof.
  intros HI. cbn. intros Hmay Hdoes.
  destruct Hmay as [Hs Hh]. subst. kept.
  - apply Inv_set_conn; [apply Inv_set_handle; [done|]| |done].
    + intros s' ph Hs' Hp. pose proof (inv_handle _ HI s' ph _ Hs' Hp). congruence.
    + intros h' [= <-]. cbn. by rewrite lookup_insert_eq.
  - eapply rely_trans; [apply rely_set_handle|apply rely_set_conn; cbn]; [congruence|].
    rewrite Hs. intros ph' [= <-] Heq. cbn in Heq. congruence.
Qed.

(** A structure is freed. *)
Lemma io_freed i w p (a : unit) w' :
  Inv w -> may i w _ (FreeIo p) -> does i w _ (FreeIo p) a w' -> Inv w' /\ forall j, j <> i -> rely j w w'.
Proof.
  intros HI. cbn. intros Hmay Hdoes.
  subst. destruct Hmay as (o & Ho & Hown). kept.
  - apply Inv_del_io; [done|]. eapply owned_not_received; [done|done|].
    destruct Hown as [->|[h ->]]; done.
  - apply rely_del_io. intros o' Ho'. rewrite Ho in Ho'. injection Ho' as <-.
    destruct Hown as [->|[h ->]]; (split; congruence).
Qed.

(** A packet is taken: its structure is the thread's from then on. *)
Lemma packet_taken i w (a : Z * Z * Z) w' :
  Inv w -> may i w _ GetQueuedCompletionStatus -> does i w _ GetQueuedCompletionStatus a w' -> Inv w' /\ forall j, j <> i -> rely j w w'.
Proof.
  intros HI. cbn. intros Hmay Hdoes.
  destruct a as [[n h] p]. destruct Hdoes as (o & Ho & [(s & bs & Hs & -> & ->)|[Hown ->]]).
  - destruct (received_owner w s _ p HI Hs eq_refl) as (o' & Ho' & Hr & _).
    rewrite Ho in Ho'. injection Ho' as <-. kept.
    + change (set_conn s (Handling i h p bs) (set_io p (own_io (OThread i) o) w))
        with (set_io p (own_io (OThread i) o) (set_conn s (Handling i h p bs) w)).
      apply Inv_set_io; [|by eapply moved_not_received|intros [h' [?|?]]; done].
      apply Inv_set_conn; [done| |done]. intros h' [= <-]. by apply (inv_handle _ HI s (Arrived h p bs)).
    + eapply rely_trans; [apply rely_set_io|apply rely_set_conn; cbn].
      * intros o' Ho'. rewrite Ho in Ho'. injection Ho' as <-. rewrite Hr. by split.
      * rewrite Hs. intros ph' [= <-] [].
  - kept.
    + apply Inv_set_io; [done|eapply owned_not_received; [done|done|congruence]|]. intros [h' [?|?]]; done.
    + apply rely_set_io. intros o' Ho'. rewrite Ho in Ho'. injection Ho' as <-. rewrite Hown. by split.
Qed.

(** A receive is posted, or the connection is as good as lost. *)
Lemma receive_posted i w s p (a : Z * Z) w' :
  Inv w -> may i w _ (WSARecv s p) -> does i w _ (WSARecv s p) a w' -> Inv w' /\ forall j, j <> i -> rely j w w'.
Proof.
  intros HI. cbn. intros Hmay Hdoes.
  destruct Hmay as (h & o & Hs & Hp & Hown & Hbuf & Hlen & Hmode). destruct (failed a).
  - subst. kept; [by apply Inv_set_conn|]. apply rely_set_conn. intros ph' Hph'.
    destruct Hs as [Hs|Hs]; rewrite Hs in Hph'; injection Hph' as <-; cbn; congruence.
  - destruct Hdoes as (_ & h' & o' & Hs' & Ho' & ->). rewrite Hp in Ho'. injection Ho' as <-.
    assert (h' = h) as -> by (destruct Hs as [Hs|Hs], Hs' as [Hs'|Hs']; congruence). kept.
    + apply Inv_set_conn.
      * apply Inv_set_io; [done|eapply owned_not_received; [done|done|congruence]|]. intros [h' [?|?]]; done.
      * intros h' [= <-]. destruct Hs as [Hs|Hs]; by apply (inv_handle _ HI _ _ _ Hs).
      * eexists. split; [apply lookup_insert_eq|]. by split.
    + eapply rely_trans; [apply rely_set_io|apply rely_set_conn; cbn].
      * intros o' Ho'. rewrite Hp in Ho'. injection Ho' as <-. rewrite Hown. split; congruence.
      * intros ph' Hph'. destruct Hs as [Hs|Hs]; rewrite Hs in Hph'; injection Hph' as <-; cbn; congruence.
Qed.

(** A send is posted, or not. *)
Lemma send_posted i w s p (a : Z * Z) w' :
  Inv w -> may i w _ (WSASend s p) -> does i w _ (WSASend s p) a w' -> Inv w' /\ forall j, j <> i -> rely j w w'.
Proof.
  intros HI. cbn. intros Hmay Hdoes.
  destruct Hdoes as (h & bs & Hs & Hdoes). destruct Hmay as (h' & bs' & o & Hs' & _ & Hp & Hown & _ & _ & _ & Hmode).
  rewrite Hs in Hs'. injection Hs' as <- <-.
  assert (forall j w1, j <> i -> conns w1 !! s = Some (Handling i h p bs) -> rely j w1 (set_conn s (Sent i h) w1)) as Hrel.
  { intros j w1 Hj Hs1. apply rely_set_conn. rewrite Hs1. intros ph' [= <-]. cbn. congruence. }
  destruct (failed a).
  - subst. kept; [|by apply Hrel]. apply Inv_set_conn; [done| |done]. intros h' [= <-].
    by apply (inv_handle _ HI _ _ _ Hs).
  - destruct Hdoes as (o' & Ho' & ->). rewrite Hp in Ho'. injection Ho' as <-. kept.
    + apply Inv_set_conn; [|intros h' [= <-]; by apply (inv_handle _ HI _ _ _ Hs)|done].
      apply Inv_set_io; [done|eapply owned_not_received; [done|done|congruence]|done].
    + eapply rely_trans; [apply rely_set_io|by apply Hrel].
      intros o' Ho'. rewrite Hp in Ho'. injection Ho' as <-. rewrite Hown. split; congruence.
Qed.

(** A connection is closed: its handle is the thread's. *)
Lemma connection_closed i w s (a : unit) w' :
  Inv w -> may i w _ (Closesocket s) -> does i w _ (Closesocket s) a w' -> Inv w' /\ forall j, j <> i -> rely j w w'.
Proof.
  intros HI. cbn. intros Hmay Hdoes.
  destruct Hdoes as (h & p & Hs & ->). pose proof (inv_handle _ HI _ _ h Hs eq_refl) as Hh. kept.
  - apply (Inv_set_handle h (HThread i (Some s)) (del_conn s w)); [by apply Inv_del_conn|].
    intros s' ph. cbn. intros [Hne Hs']%lookup_delete_Some Hp. pose proof (inv_handle _ HI s' ph _ Hs' Hp). congruence.
  - eapply rely_trans; [apply rely_set_handle|apply rely_del_conn; cbn]; [congruence|]. rewrite Hs.
    intros ph' [= <-]. cbn. congruence.
Qed.

Lemma echo_call_ok i w A (e : echoE A) a w' :
  Inv w -> may i w A e -> does i w A e a w' -> Inv w' /\ forall j, j <> i -> rely j w w'.
Proof.
  intros HI. destruct e; cbn; intros Hmay Hdoes.
  - subst. kept; [done|apply rely_refl].
  - destruct Hdoes as [-> Hs]. kept.
    + by apply Inv_set_conn.
    + apply rely_set_conn. intros ph' Hph'. destruct Hs as [Hs|[_ Hs]]; rewrite Hs in Hph'; [done|].
      injection Hph' as <-. intros [].
  - destruct Hdoes as (_ & Hh & ->). kept.
    + apply Inv_set_handle; [done|]. intros s ph Hs Hp. pose proof (inv_handle _ HI s ph _ Hs Hp). congruence.
    + apply rely_set_handle. congruence.
  - destruct Hmay as [o Ho]. subst. kept.
    + apply Inv_set_handle; [done|]. intros s' ph Hs Hp. pose proof (inv_handle _ HI s' ph _ Hs Hp). congruence.
    + apply rely_set_handle. congruence.
  - destruct Hdoes as [-> _]. kept; [done|apply rely_refl].
  - destruct Hmay as [o Ho]. subst. kept.
    + apply Inv_del_handle; [done|]. intros s' ph Hs Hp. pose proof (inv_handle _ HI s' ph _ Hs Hp). congruence.
    + apply rely_del_handle. congruence.
  - exact (connection_bound i w s h a w' HI Hmay Hdoes).
  - destruct Hdoes as (Ha & o & Hown & ->). kept.
    + apply Inv_set_io; [done|by apply free_not_received|]. rewrite Hown. intros [h [?|?]]; done.
    + apply rely_set_io. congruence.
  - eapply changed_step; [|exact HI|exact Hmay|exact Hdoes]; done.
  - subst. kept; [done|apply rely_refl].
  - eapply changed_step; [|exact HI|exact Hmay|exact Hdoes]; done.
  - eapply changed_step; [|exact HI|exact Hmay|exact Hdoes]; done.
  - eapply changed_step; [|exact HI|exact Hmay|exact Hdoes]; done.
  - destruct Hdoes as [-> _]. kept; [done|apply rely_refl].
  - exact (io_freed i w p a w' HI Hmay Hdoes).
  - exact (packet_taken i w a w' HI Hmay Hdoes).
  - exact (receive_posted i w s p a w' HI Hmay Hdoes).
  - exact (send_posted i w s p a w' HI Hmay Hdoes).
  - exact (connection_closed i w s a w' HI Hmay Hdoes).
  - done.
Qed.

Lemma echo_non_interfering : non_interfering echo_protocol system_step Inv rely.
Proof.
  split; [intros; apply rely_refl|intros; by eapply rely_trans|apply system_step_ok|].
  intros i s A e a s' HI Ha Hd. exact (echo_call_ok i s A e a s' HI Ha Hd).
Qed.

(** ** Every thread keeps to the protocol *)

(** The rules of [Threads] for this pool. *)
Abbreviation thread_holds i := (holds echo_protocol Inv rely i (λ _ _, True)).

Lemma thread_ret {R} i w (r : R) : thread_holds i w (mret r).
Proof. by apply holds_ret. Qed.

Lemma thread_loop {I R} i (body : I -> prog (I + R)) :
  (forall j w, thread_holds i w (body j)) -> forall j w, thread_holds i w (loop body j).
Proof.
  intros Hb j w. apply (holds_loop _ _ _ _ echo_non_interfering i (λ _ _, True)); [|done..].
  intros j' w' _. eapply holds_mono; [|by apply Hb]. by intros [].
Qed.

(** What thread [i] has stays as it is until its next call. *)
Ltac keep Hr :=
  repeat match goal with
  | H : conns ?w !! _ = Some _, Hr' : rely _ ?w _ |- _ =>
      constr_eq Hr Hr'; eapply (re_conn _ _ _ Hr) in H; [|done]
  | H : ios ?w !! _ = Some ?o, Hr' : rely _ ?w _ |- _ =>
      constr_eq Hr Hr'; eapply (re_io _ _ _ Hr) in H; [|by eauto]
  | H : handles ?w !! _ = Some _, Hr' : rely _ ?w _ |- _ =>
      constr_eq Hr Hr'; eapply (re_handle _ _ _ Hr) in H
  end.

(** A call of the thread itself leaves alone what it is not about. *)
Ltac moved H T Hd :=
  let H' := fresh in
  rename H into H';
  try assert T as H by (rewrite Hd; first [exact H'|cbn; rewrite lookup_insert_ne; [exact H'|congruence]]);
  clear H'.

Ltac carry Hd :=
  match type of Hd with
  | ?w' = _ =>
      repeat match goal with
      | H : conns ?w !! ?s = Some ?x |- _ =>
          lazymatch w with w' => fail | _ => moved H (conns w' !! s = Some x) Hd end
      | H : ios ?w !! ?s = Some ?x |- _ =>
          lazymatch w with w' => fail | _ => moved H (ios w' !! s = Some x) Hd end
      | H : handles ?w !! ?s = Some ?x |- _ =>
          lazymatch w with w' => fail | _ => moved H (handles w' !! s = Some x) Hd end
      end
  end.

Ltac call w' HI a w'' Hd HI' :=
  apply (holds_call _ _ _ _ echo_non_interfering);
  let Hr := fresh "Hr" in intros w' HI Hr; keep Hr; clear Hr; 
  split; cbn [allowed answers echo_protocol may does]; [|intros a w'' Hd HI'].

(** A call about the structure that the thread has at [p], when [Hp : ios w !! p = Some o]. *)
Lemma mine_own i w p o : ios w !! p = Some o -> o_own o = OThread i -> mine i w p.
Proof. exists o. auto. Qed.

(** A field of the structure is written, when [Hp] says what is there. *)
Ltac field w' HI w'' HI' Hp :=
  let Hd := fresh "Hd" in let a := fresh in let o := fresh "o" in let Ho := fresh in
  call w' HI a w'' Hd HI'; [eapply mine_own; [exact Hp|by eauto]|];
  destruct Hd as (o & Ho & Hd); rewrite Hp in Ho; injection Ho as <-;
  carry Hd;
  lazymatch type of Hd with
  | _ = set_io ?p ?x _ =>
      assert (ios w'' !! p = Some x) as Hp by (rewrite Hd; apply lookup_insert_eq)
  end; clear Hd a HI; cbn in Hp.

(** [main]: what it accepts it sets up, and hands to the system once. *)
Lemma accept_holds {R} i w (k : Z * Z -> prog R) :
  (forall r w, thread_holds i w (k r)) ->
  thread_holds i w (
    clntSock ← syscall Accept;
    handleInfo ← syscall MallocHandle;
    syscall (SetSock handleInfo clntSock);;
    syscall (CreateIoCompletionPort clntSock (u32 handleInfo));;
    ioInfo ← syscall MallocIo;
    syscall (ZeroIo ioInfo);;
    syscall (SetBuf ioInfo);;
    syscall (SetLen ioInfo BUF_SIZE);;
    syscall (SetMode ioInfo READ);;
    s ← syscall (GetSock handleInfo);
    syscall (WSARecv s ioInfo) ≫= k).
Proof.
  intros Hk.
  call w1 HI s w2 Hd HI2; [done|]. destruct Hd as [Hd _].
  assert (conns w2 !! s = Some (Fresh i)) as Hs by (rewrite Hd; apply lookup_insert_eq). clear Hd HI.
  call w3 HI h w4 Hd HI4; [done|]. destruct Hd as (Hrange & _ & Hd). rewrite (u32_small h) by lia.
  assert (handles w4 !! h = Some (HThread i None)) as Hh by (rewrite Hd; apply lookup_insert_eq).
  carry Hd. clear Hd HI.
  call w5 HI a w6 Hd HI6; [by eauto|]. carry Hd.
  assert (handles w6 !! h = Some (HThread i (Some s))) as Hh by (rewrite Hd; apply lookup_insert_eq). clear Hd HI.
  call w7 HI a1 w8 Hd HI8; [by eauto|]. clear Hs.
  assert (conns w8 !! s = Some (Opening i h)) as Hs by (rewrite Hd; apply lookup_insert_eq). clear Hd HI Hh.
  call w9 HI p w10 Hd HI10; [done|]. destruct Hd as (_ & o & Hown & Hd).
  assert (ios w10 !! p = Some o) as Hp by (rewrite Hd; apply lookup_insert_eq). carry Hd. clear Hd HI.
  field w11 HI w12 HI12 Hp. field w13 HI w14 HI14 Hp. field w15 HI w16 HI16 Hp. field w17 HI w18 HI18 Hp.
  call w19 HI s' w20 Hd HI20.
  { left. exists s. by apply (inv_handle _ HI s _ _ Hs). }
  destruct Hd as [Hd Hs']. rewrite (Hs' s) by (by apply (inv_handle _ HI s _ _ Hs)). carry Hd. clear Hd HI.
  call w21 HI r w22 Hd HI22; [|apply Hk].
  eexists h, _. repeat split; [by left|exact Hp|done..].
Qed.

(** A thread: the receive that follows a send, of a connection that it still has. *)
Lemma next_receive_holds {R} i w s h (k : Z * Z -> prog R) :
  conns w !! s = Some (Sent i h) -> (forall r w, thread_holds i w (k r)) ->
  thread_holds i w (
    ioInfo ← syscall MallocIo;
    syscall (ZeroIo ioInfo);;
    syscall (SetLen ioInfo BUF_SIZE);;
    syscall (SetBuf ioInfo);;
    syscall (SetMode ioInfo READ);;
    syscall (WSARecv s ioInfo) ≫= k).
Proof.
  intros Hs Hk.
  call w9 HI p w10 Hd HI10; [done|]. destruct Hd as (_ & o & Hown & Hd).
  assert (ios w10 !! p = Some o) as Hp by (rewrite Hd; apply lookup_insert_eq). carry Hd. clear Hd HI.
  field w11 HI w12 HI12 Hp. field w13 HI w14 HI14 Hp. field w15 HI w16 HI16 Hp. field w17 HI w18 HI18 Hp.
  call w21 HI r w22 Hd HI22; [|apply Hk].
  eexists h, _. repeat split; [by right|exact Hp|done..].
Qed.

(** A thread: what it does with a packet, up to the send. *)
Lemma turn_holds {R} i w (k : Z -> Z * Z -> prog (unit + R)) :
  (forall s h r w, conns w !! s = Some (Sent i h) -> thread_holds i w (k s r)) ->
  thread_holds i w (
    packet ← syscall GetQueuedCompletionStatus;
    let '(bytesTrans, handleInfo, ioInfo) := packet in
    sock ← syscall (GetSock handleInfo);
    rwMode ← syscall (GetMode ioInfo);
    if rwMode =? READ then
      if bytesTrans =? 0 then
        syscall (Closesocket sock);;
        syscall (FreeHandle handleInfo);;
        syscall (FreeIo ioInfo);;
        mret (inl tt)
      else
        syscall (ZeroOverlapped ioInfo);;
        syscall (SetLen ioInfo bytesTrans);;
        syscall (SetMode ioInfo WRITE);;
        syscall (WSASend sock ioInfo) ≫= k sock
    else
      syscall (FreeIo ioInfo);;
      mret (inl tt)).
Proof.
  intros Hk. call w1 HI pk w2 Hd HI2; [done|]. destruct pk as [[n h] p].
  destruct Hd as (o & Ho & [(s & bs & Hs & -> & Hd)|[Hown Hd]]).
  - destruct (inv_io _ HI s _ Hs) as (o' & Ho' & (Hown & Hmode & Hbuf) & Hdata & _).
    rewrite Ho in Ho'. injection Ho' as <-.
    assert (conns w2 !! s = Some (Handling i h p bs)) as Hc by (rewrite Hd; apply lookup_insert_eq).
    assert (ios w2 !! p = Some (own_io (OThread i) o)) as Hp by (rewrite Hd; apply lookup_insert_eq).
    clear Hs Ho Hd HI. rename Hc into Hs.
    call w3 HI s' w4 Hd HI4; [left; exists s; by apply (inv_handle _ HI s _ _ Hs)|].
    destruct Hd as [Hd Hs']. rewrite (Hs' s) by (by apply (inv_handle _ HI s _ _ Hs)). carry Hd. clear Hd HI Hs'.
    call w5 HI m w6 Hd HI6; [by eapply mine_own|].
    destruct Hd as [Hd Hm]. rewrite (Hm _ Hp). cbn [own_io o_mode]. rewrite Hmode. carry Hd. clear Hd HI.
    change (READ =? READ) with true. cbn iota.
    destruct (lenZ bs =? 0) eqn:Hn.
    + apply Z.eqb_eq in Hn. assert (bs = []) as -> by (by apply lenZ_0_inv).
      call w7 HI a w8 Hd HI8; [by eauto|]. destruct Hd as (h' & p' & Hs1 & Hd).
      rewrite Hs in Hs1. injection Hs1 as <- <-.
      assert (handles w8 !! h = Some (HThread i (Some s))) as Hh by (rewrite Hd; apply lookup_insert_eq).
      carry Hd. clear Hd HI a.
      call w9 HI a w10 Hd HI10; [by eauto|]. carry Hd. clear Hd HI a.
      call w11 HI a w12 Hd HI12; [by eapply mine_own|]. apply thread_ret.
    + apply Z.eqb_neq in Hn.
      call w7 HI a w8 Hd HI8; [by eapply mine_own|]. carry Hd. clear Hd HI a.
      field w9 HI w10 HI10 Hp. field w11 HI w12 HI12 Hp.
      call w13 HI r w14 Hd HI14.
      { eexists h, bs, _. repeat split; [done|by intros ->|exact Hp|done..]. }
      destruct Hd as (h' & bs' & _ & Hd). apply (Hk s h'). destruct (failed r).
      * rewrite Hd. apply lookup_insert_eq.
      * destruct Hd as (o' & _ & ->). apply lookup_insert_eq.
  - assert (ios w2 !! p = Some (own_io (OHeld i h) o)) as Hp by (rewrite Hd; apply lookup_insert_eq).
    pose proof (inv_write _ HI p o Ho ltac:(exists h; auto)) as Hmode. clear Hd HI Ho.
    call w3 HI s' w4 Hd HI4; [right; by eexists p, _|]. destruct Hd as [Hd _]. carry Hd. clear Hd HI.
    assert (forall w, ios w !! p = Some (own_io (OHeld i h) o) -> mine i w p) as Hmine.
    { intros w' Hw'. eexists. split; [exact Hw'|]. right. by exists h. }
    call w5 HI m w6 Hd HI6; [by apply Hmine|].
    destruct Hd as [Hd Hm]. rewrite (Hm _ Hp). cbn [own_io o_mode]. rewrite Hmode. carry Hd. clear Hd HI.
    change (WRITE =? READ) with false. cbn iota.
    call w7 HI a w8 Hd HI8; [by apply Hmine|]. apply thread_ret.
Qed.

Lemma setup_holds {R} i w c (k : Z -> prog R) :
  (forall r w, thread_holds i w (k r)) -> thread_holds i w (syscall (Setup c) ≫= k).
Proof. intros Hk. call w1 HI r w2 Hd HI2; [done|]. apply Hk. Qed.

Lemma ErrorHandling_holds {R} i w : thread_holds i w (ErrorHandling : prog R).
Proof. unfold ErrorHandling. call w1 HI r w2 Hd HI2; [done|]. done. Qed.

Lemma thread_bind {R T} i w (t : prog R) (k : R -> prog T) :
  thread_holds i w t -> (forall r w, thread_holds i w (k r)) -> thread_holds i w (t ≫= k).
Proof. intros Ht Hk. eapply holds_bind; [apply echo_non_interfering|done|]. intros r w' _. apply Hk. Qed.

Lemma start_threads_holds i n : forall w, thread_holds i w (start_threads n).
Proof. induction n as [|n IH]; intros w; [apply thread_ret|]. by apply setup_holds. Qed.

(** Tests of results, and the calls of the setup. *)
Ltac setup :=
  repeat match goal with
  | |- thread_holds _ _ (if ?b then _ else _) => destruct b
  | |- thread_holds _ _ ErrorHandling => apply ErrorHandling_holds
  | |- thread_holds _ _ (mret _) => apply thread_ret
  | |- thread_holds _ _ (syscall (Setup _) ≫= _) => apply setup_holds; intros
  | |- thread_holds _ _ (start_threads _ ≫= _) => apply thread_bind; [apply start_threads_holds|intros]
  end.

Lemma Demo_main_holds i w : thread_holds i w (Demo_main tt).
Proof.
  unfold Demo_main. setup. apply thread_bind; [|intros; setup].
  apply thread_loop. intros j w'. apply accept_holds. intros. setup.
Qed.

Lemma Serv_main_holds i w : thread_holds i w (Serv_main tt).
Proof. unfold Serv_main. setup. apply thread_loop. intros j w'. apply accept_holds. intros. setup. Qed.

Lemma Demo_EchoThreadMain_holds i w : thread_holds i w (Demo_EchoThreadMain tt).
Proof.
  unfold Demo_EchoThreadMain. apply thread_bind; [|intros; setup]. apply thread_loop. intros j w'.
  apply (turn_holds i w' (λ sock ret, if failed ret then mret (inr tt) else _)). intros s h r w1 Hs. setup.
  eapply next_receive_holds; [done|]. intros. setup.
Qed.

Lemma Serv_EchoThreadMain_holds i w : thread_holds i w (Serv_EchoThreadMain tt).
Proof.
  unfold Serv_EchoThreadMain. apply thread_loop. intros j w'. unfold Serv_thread_turn.
  apply (turn_holds i w' (λ sock ret, _)). intros s h r w1 Hs.
  eapply next_receive_holds; [done|]. intros. setup.
Qed.

(** ** The two programs *)

Inductive server := Demo | Serv.

(** [main] and [n] threads; that they are there before [main] starts them only adds
    runs in which they wait for packets. *)
Definition pool (srv : server) (n : nat) : list (prog Z) :=
  match srv with
  | Demo => Demo_main tt :: replicate n (Demo_EchoThreadMain tt)
  | Serv => Serv_main tt :: replicate n (Serv_EchoThreadMain tt)
  end.

Definition nothing : world := mkWorld ∅ ∅ ∅.

Lemma Inv_nothing : Inv nothing.
Proof. split; cbn; intros *; rewrite lookup_empty; done. Qed.

Lemma pool_holds srv n i t w : pool srv n !! i = Some t -> thread_holds i w t.
Proof.
  intros Ht. destruct srv; cbn in Ht; apply lookup_cons_Some in Ht as [[_ <-]|[_ [-> _]%lookup_replicate]].
  - apply Demo_main_holds.
  - apply Demo_EchoThreadMain_holds.
  - apply Serv_main_holds.
  - apply Serv_EchoThreadMain_holds.
Qed.

(** C14: Both servers, as 32-bit programs (their keys are addresses made [DWORD]s), with any
    number of threads and in any interleaving of their calls with each other and with the
    completions of the system: no thread touches or frees a [PER_IO_DATA] that is not its
    own, or writes, frees or, but for one case, reads a [PER_HANDLE_DATA] that is not.  The
    case is the handle that comes with the packet of a send, which is read and may have
    been freed by then ([handle_read_after_free]); what is read there is not used.  A
    connection is associated once with the handle made for it, has at most one receive at a
    time, into a fresh whole buffer marked READ, exactly the bytes of each receive are sent
    back, once, from the same buffer marked WRITE, before the next receive is started, and
    the socket is closed only when nothing was received, by the thread that has the
    packet. *)
Theorem echo_pool_safe (srv : server) (n : nat) ps :
  rtc (pool_step echo_protocol system_step) (pool srv n, nothing) ps -> pool_ok echo_protocol ps.
Proof.
  apply (pool_sound _ _ _ _ echo_non_interfering (λ _ _, True)); [apply Inv_nothing|].
  intros i t Ht. by apply (pool_holds srv n).
Qed.

(** ** A run that goes wrong

    What is open of a call is resolved by three numbers: the answer, or the packet;
    what the system does, by the socket and the bytes, or the structure. *)
Definition update (p : Z) (f : io -> io) (w : world) : option (unit * world) :=
  o ← ios w !! p; Some (tt, set_io p (f o) w).

Definition resolve (c : Z * Z * Z) (i : nat) (A : Type) (e : echoE A) (w : world) : option (A * world) :=
  match e in echoE A return option (A * world) with
  | Setup _ => Some (0, w)
  | Exit _ => None
  | Accept => match conns w !! c.1.1 with None => Some (c.1.1, set_conn c.1.1 (Fresh i) w) | Some _ => None end
  | MallocHandle =>
      match handles w !! c.1.1, (0 <? c.1.1) && (c.1.1 <? 2 ^ 32) with
      | None, true => Some (c.1.1, set_handle c.1.1 (HThread i None) w)
      | _, _ => None
      end
  | SetSock h s => Some (tt, set_handle h (HThread i (Some s)) w)
  | GetSock h => Some (match handles w !! h with Some (HConn s) => s | _ => 0 end, w)
  | FreeHandle h => Some (tt, del_handle h w)
  | CreateIoCompletionPort s h => Some (tt, set_conn s (Opening i h) (set_handle h (HConn s) w))
  | MallocIo =>
      match ios w !! c.1.1 with
      | None => Some (c.1.1, set_io c.1.1 (mkIo 0 false 0 [] (OThread i)) w)
      | Some _ => None
      end
  | ZeroIo p => update p (λ o, mkIo 0 false 0 (replicate 100 NUL) (o_own o)) w
  | ZeroOverlapped p => Some (tt, w)
  | SetBuf p => update p (λ o, mkIo (o_len o) true (o_mode o) (o_data o) (o_own o)) w
  | SetLen p n => update p (λ o, mkIo n (o_buf o) (o_mode o) (o_data o) (o_own o)) w
  | SetMode p m => update p (λ o, mkIo (o_len o) (o_buf o) m (o_data o) (o_own o)) w
  | GetMode p => o ← ios w !! p; Some (o_mode o, w)
  | FreeIo p => Some (tt, del_io p w)
  | GetQueuedCompletionStatus =>
      let '(s, h, p) := c in
      o ← ios w !! p;
      match conns w !! s, o_own o with
      | _, OWritten h' =>
          if h' =? h then Some (0, h, p, set_io p (own_io (OHeld i h) o) w) else None
      | Some (Arrived h' p' bs), _ =>
          if (h' =? h) && (p' =? p) then
            Some (lenZ bs, h, p, set_conn s (Handling i h p bs) (set_io p (own_io (OThread i) o) w))
          else None
      | _, _ => None
      end
  | WSARecv s p =>
      o ← ios w !! p;
      match conns w !! s with
      | Some (Opening j h) | Some (Sent j h) =>
          if (s =? INVALID_SOCKET) || negb (Nat.eqb j i) then None
          else Some (0, 0, set_conn s (Reading h p) (set_io p (own_io (ORead s) o) w))
      | _ => None
      end
  | WSASend s p =>
      o ← ios w !! p;
      match conns w !! s with
      | Some (Handling j h p' bs) =>
          if (p' =? p) && Nat.eqb j i then Some (0, 0, set_conn s (Sent i h) (set_io p (own_io (OWriting h) o) w)) else None
      | _ => None
      end
  | Closesocket s =>
      match conns w !! s with
      | Some (Handling j h p []) =>
          if Nat.eqb j i then Some (tt, del_conn s (set_handle h (HThread i (Some s)) w)) else None
      | _ => None
      end
  end.

Inductive completion := Received (s : Z) (bs : bytes) | Written (p : Z).

Definition advance (c : completion) (w : world) : option world :=
  match c with
  | Received s bs =>
      match conns w !! s with
      | Some (Reading h p) =>
          o ← ios w !! p;
          if lenZ bs <=? o_len o then
            Some (set_conn s (Arrived h p bs)
              (set_io p (mkIo (o_len o) (o_buf o) (o_mode o) (bs ++ dropZ (lenZ bs) (o_data o)) (o_own o)) w))
          else None
      | _ => None
      end
  | Written p =>
      o ← ios w !! p;
      match o_own o with OWriting h => Some (set_io p (own_io (OWritten h) o) w) | _ => None end
  end.

Lemma update_changed p f w a w' : update p f w = Some (a, w') -> changed f p w w'.
Proof. intros (o & Ho & [= <- <-])%bind_Some. by exists o. Qed.

Lemma resolve_does c i A (e : echoE A) w a w' : resolve c i A e w = Some (a, w') -> does i w A e a w'.
Proof.
  destruct e; cbn [resolve does]; try (by intros H%update_changed); try (by intros [= <- <-]).
  - case_match; intros [= <- <-]. auto.
  - destruct (handles w !! c.1.1) eqn:Hh; [done|]. destruct (_ && _) eqn:Hc; intros [= <- <-].
    apply andb_true_iff in Hc as [?%Z.ltb_lt ?%Z.ltb_lt]. auto.
  - intros [= <- <-]. split; [done|]. by intros s ->.
  - case_match; intros [= <- <-]. split; [done|]. eexists. split; [|reflexivity]. done.
  - intros (o & Ho & [= <- <-])%bind_Some. split; [done|]. intros o'. rewrite Ho. by intros [= <-].
  - destruct c as [[s h] p]. intros (o & Ho & H)%bind_Some.
    assert (forall h', o_own o = OWritten h' ->
      (if h' =? h then Some (0, h, p, set_io p (own_io (OHeld i h) o) w) else None) = Some (a, w') ->
      does i w _ GetQueuedCompletionStatus a w') as Hw.
    { intros h' Hown H'. case_match; [|done]. injection H' as <- <-. assert (h' = h) as -> by lia.
      exists o. split; [done|]. by right. }
    destruct (o_own o) eqn:Hown.
    all: try (by destruct (conns w !! s) as [[]|]; eapply Hw).
    all: destruct (conns w !! s) as [[]|] eqn:Hs; try done; case_match; [|done]; injection H as <- <-;
      match goal with H : _ && _ = true |- _ => apply andb_true_iff in H as [->%Z.eqb_eq ->%Z.eqb_eq] end; exists o; (split; [done|]); left; by exists s, bs.
  - intros (o & Ho & H)%bind_Some. destruct (conns w !! s) as [[]|] eqn:Hs; try done; case_match; try done;
      match goal with H : _ || _ = false |- _ =>
        apply orb_false_iff in H as [?%Z.eqb_neq ->%negb_false_iff%Nat.eqb_eq] end;
      injection H as <- <-; (split; [done|]); exists h, o; auto.
  - intros (o & Ho & H)%bind_Some. destruct (conns w !! s) as [[]|] eqn:Hs; try done; case_match; [|done].
    injection H as <- <-. exists h, bs. match goal with H : _ && _ = true |- _ => apply andb_true_iff in H as [->%Z.eqb_eq ->%Nat.eqb_eq] end.
    split; [done|]. cbn. by exists o.
  - destruct (conns w !! s) as [[]|] eqn:Hs; try done. destruct bs; [|done]. case_match; [|done].
    intros [= <- <-]. match goal with H : Nat.eqb _ _ = true |- _ => apply Nat.eqb_eq in H as -> end. by exists h, p.
Qed.

Lemma advance_step c w w' : advance c w = Some w' -> system_step w w'.
Proof.
  destruct c as [s bs|p]; cbn.
  - destruct (conns w !! s) as [[]|] eqn:Hs; try done. intros (o & Ho & H)%bind_Some. case_match; [|done].
    injection H as <-. eapply complete_read; [done|done|lia].
  - intros (o & Ho & H)%bind_Some. case_match eqn:Hown; try done. injection H as <-. by eapply complete_write.
Qed.

(** A client that sends one byte and closes: one thread has sent the byte back,
    received the end, closed the socket and freed the handle before another takes the
    packet of the send. *)
Definition call_n (n : nat) (i : nat) (c : Z * Z * Z) : list (@move (Z * Z * Z) completion) := replicate n (Move i c).

Definition late_packet (srv : server) : list move :=
  call_n (match srv with Demo => 8 | Serv => 6 end) 0 (0, 0, 0) ++
  call_n 1 0 (5, 0, 0) ++ call_n 3 0 (10, 0, 0) ++ call_n 7 0 (20, 0, 0) ++
  [Advance (Received 5 [Byte.x61])] ++
  call_n 1 1 (5, 10, 20) ++ call_n 6 1 (0, 0, 0) ++ call_n 7 1 (21, 0, 0) ++
  [Advance (Received 5 []); Advance (Written 20)] ++
  call_n 3 1 (5, 10, 21) ++ call_n 2 1 (0, 0, 0) ++
  call_n 1 2 (0, 10, 20).

Definition is_GetSock {A} (e : echoE A) : option Z := match e with GetSock h => Some h | _ => None end.

(** Thread [i] is about to read a handle that is not there. *)
Definition reads_freed (i : nat) (ps : list (prog Z) * world) : Prop :=
  exists t A (e : echoE A) k h,
    ps.1 !! i = Some t /\ observe t = VisF e k /\ is_GetSock e = Some h /\ handles ps.2 !! h = None.

Definition next_reads_freed (w : world) (t : prog Z) : bool :=
  match observe t with
  | VisF e _ => match is_GetSock e with Some h => bool_decide (handles w !! h = None) | None => false end
  | _ => false
  end.

Definition reads_freedb (i : nat) (ps : list (prog Z) * world) : bool :=
  match ps.1 !! i with Some t => next_reads_freed ps.2 t | None => false end.

Lemma reads_freedb_spec i ps : reads_freedb i ps = true -> reads_freed i ps.
Proof.
  unfold reads_freedb, next_reads_freed. destruct (ps.1 !! i) as [t|] eqn:Ht; [|done].
  destruct (observe t) as [| |A e k] eqn:Ho; [done..|]. destruct (is_GetSock e) as [h|] eqn:He; [|done].
  intros H%bool_decide_eq_true. by exists t, A, e, k, h.
Qed.

Lemma late_run (srv : server) :
  exists ps, exec resolve advance (late_packet srv) (pool srv 2, nothing) = Some ps /\ reads_freedb 2 ps = true.
Proof.
  assert (match exec resolve advance (late_packet srv) (pool srv 2, nothing) with
          | Some ps => reads_freedb 2 ps | None => false end = true) as H by (destruct srv; vm_compute; reflexivity).
  destruct (exec _ _ _ _) as [ps|]; [by exists ps|done].
Qed.

(** In a run that is not over, with packets under way. *)
Lemma echo_pool_safe_witness :
  exists ps, rtc (pool_step echo_protocol system_step) (pool Demo 2, nothing) ps /\ pool_ok echo_protocol ps.
Proof.
  destruct (late_run Demo) as (ps & Hps & _). exists ps.
  assert (rtc (pool_step echo_protocol system_step) (pool Demo 2, nothing) ps) as Hrun
    by (by eapply (exec_steps resolve advance echo_protocol system_step resolve_does advance_step)).
  split; [exact Hrun|]. by apply (echo_pool_safe Demo 2).
Defined.

(** In both servers a thread can read a [PER_HANDLE_DATA] after another has freed it:
    the packet of a send carries the handle of its connection, every packet's handle is
    read before its mode is looked at, and the packet of the receive that found the
    connection closed may be handled first. *)
Theorem handle_read_after_free (srv : server) :
  exists ps, rtc (pool_step echo_protocol system_step) (pool srv 2, nothing) ps /\ reads_freed 2 ps.
Proof.
  destruct (late_run srv) as (ps & Hps & Hr). exists ps. split; [|by apply reads_freedb_spec].
  by eapply (exec_steps resolve advance echo_protocol system_step resolve_does advance_step).
Qed.
