(* ===== verification/CmplRouEcho.v ===== *)
(** * An echo server with completion routines
      (src/Windows/TCP-IPNetworkPrograming/CmplRouEchoServ/CmplRouEchoServ.cpp)

    One thread accepts connections; while it sleeps the system calls the completion
    routines of the receives and sends that have ended.  A client has a
    [WSAOVERLAPPED] and, through its event field, a [PER_IO_DATA], both on the heap,
    which go from one operation to the next.  What it prints is left out. *)
From S2P Require Import Prelude CLib Interact Posix.

Definition BUF_SIZE : Z := 1024.
Definition INVALID_SOCKET : Z := -1.
Definition WSAEWOULDBLOCK : Z := 10035.
Definition WSA_IO_PENDING : Z := 997.

(** ** Calls

    A receive or a send is given the routine to call when it has ended.  [NextApc] is
    the system's choice, within [SleepEx], of the operation that has ended next: the
    routine it was given, the error, the number of bytes, the structure and the flags,
    which is what the routine is called with.  A pair is what a call returns and the
    last error after it. *)
Inductive routine := Read | Write.

Variant cmplE : Type -> Type :=
  | Startup : cmplE Z
  | ListenSocket : cmplE Z
  | Ioctlsocket (s : Z) : cmplE unit
  | Bind (s : Z) (port : Z) : cmplE Z
  | Listen (s : Z) : cmplE Z
  | NextApc : cmplE (option (routine * Z * Z * Z * Z))
  | Accept (s : Z) : cmplE (Z * Z)
  | MallocOverlapped : cmplE Z
  | ZeroOverlapped (ov : Z) : cmplE unit
  | MallocIo : cmplE Z
  | SetSock (io s : Z) : cmplE unit
  | SetBuf (io : Z) : cmplE unit
  | SetLen (io n : Z) : cmplE unit
  | SetEvent (ov io : Z) : cmplE unit
  | GetEvent (ov : Z) : cmplE Z
  | GetSock (io : Z) : cmplE Z
  | WSARecv (s io ov : Z) (f : routine) : cmplE (Z * Z)
  | WSASend (s io ov flags : Z) (f : routine) : cmplE (Z * Z)
  | Closesocket (s : Z) : cmplE unit
  | FreeIo (io : Z) : cmplE unit
  | FreeOverlapped (ov : Z) : cmplE unit
  | Exit (code : Z) : cmplE Empty_set.

Abbreviation prog := (itree cmplE).

Definition exit {A} : prog A := syscall (Exit 1) ≫= λ v : Empty_set, match v with end.
Definition ErrorHandling {A} : prog A := exit.

(** ** The program *)

Definition ReadCompRoutine (dwError szRecvBytes lpOverlapped flags : Z) : prog unit :=
  hbInfo ← syscall (GetEvent lpOverlapped);
  hSock ← syscall (GetSock hbInfo);
  if szRecvBytes =? 0 then
    syscall (Closesocket hSock);;
    hEvent ← syscall (GetEvent lpOverlapped);
    syscall (FreeIo hEvent);;
    syscall (FreeOverlapped lpOverlapped)
  else
    syscall (SetLen hbInfo szRecvBytes);;
    syscall (WSASend hSock hbInfo lpOverlapped flags Write);;
    mret tt.

Definition WriteCompRoutine (dwError szSendBytes lpOverlapped flags : Z) : prog unit :=
  hbInfo ← syscall (GetEvent lpOverlapped);
  hSock ← syscall (GetSock hbInfo);
  syscall (WSARecv hSock hbInfo lpOverlapped Read);;
  mret tt.

(** The call of a routine through its address. *)
Definition run (f : routine) : Z -> Z -> Z -> Z -> prog unit :=
  match f with Read => ReadCompRoutine | Write => WriteCompRoutine end.

(** [SleepEx]: the routines of the operations that have ended, one after the other. *)
Definition apc_turn (_ : unit) : prog (unit + unit) :=
  apc ← syscall NextApc;
  match apc with
  | None => mret (inr tt)
  | Some (f, err, n, ov, flags) => run f err n ov flags;; mret (inl tt)
  end.

Definition SleepEx : prog unit := loop apc_turn tt.

(** What is done with a new connection. *)
Definition start_client (recvFd : Z) : prog unit :=
  lpOvLp ← syscall MallocOverlapped;
  syscall (ZeroOverlapped lpOvLp);;
  hbInfo ← syscall MallocIo;
  syscall (SetSock hbInfo recvFd);;
  syscall (SetBuf hbInfo);;
  syscall (SetLen hbInfo BUF_SIZE);;
  syscall (SetEvent lpOvLp hbInfo);;
  syscall (WSARecv recvFd hbInfo lpOvLp Read);;
  mret tt.

(** A turn of the [while (1)] loop, which nothing leaves. *)
Definition accept_turn (listenFd : Z) : prog (Z + Empty_set) :=
  SleepEx;;
  r ← syscall (Accept listenFd);
  let '(recvFd, err) := r in
  if recvFd =? INVALID_SOCKET then
    if err =? WSAEWOULDBLOCK then mret (inl listenFd) else ErrorHandling
  else
    start_client recvFd;;
    mret (inl listenFd).

Definition main (argc : Z) (port : bytes) : prog Empty_set :=
  if argc <? 2 then exit
  else
    r ← syscall Startup;
    if negb (r =? 0) then ErrorHandling
    else
      listenFd ← syscall ListenSocket;
      syscall (Ioctlsocket listenFd);;
      r ← syscall (Bind listenFd (htons (atoi port)));
      if r =? -1 then ErrorHandling
      else
        r ← syscall (Listen listenFd);
        if r =? -1 then ErrorHandling
        else loop accept_turn listenFd.

(** ** What program and system share

    A connection, known by its socket, has been accepted ([Accepted]), is being
    received into or sent from, with the two structures and the routine that the
    operation was given, or its receive or send has just ended; [Lost] is one for which no operation could be
    started, and of which nobody will hear again. *)
Inductive conn :=
  | Accepted
  | Receiving (ov io : Z) (f : routine)
  | Received (ov io : Z) (bs : bytes)
  | Sending (ov io : Z) (f : routine)
  | Sent (ov io : Z)
  | Lost.

(** A [PER_IO_DATA]; [r_size] is how much the last receive into it brought, and
    [BUF_SIZE] before the first. *)
Record req := mkReq { r_sock : Z; r_buf : bool; r_len : Z; r_data : bytes; r_size : Z }.

(** [broken] says that the program was called without a port, or that a call without
    which it cannot go on has failed. *)
Record world := mkWorld { conns : gmap Z conn; ovs : gmap Z (option Z); reqs : gmap Z req; broken : bool }.

Definition set_conn (s : Z) (c : conn) (w : world) : world := mkWorld (<[s := c]> (conns w)) (ovs w) (reqs w) (broken w).
Definition del_conn (s : Z) (w : world) : world := mkWorld (delete s (conns w)) (ovs w) (reqs w) (broken w).
Definition set_ov (ov : Z) (e : option Z) (w : world) : world := mkWorld (conns w) (<[ov := e]> (ovs w)) (reqs w) (broken w).
Definition del_ov (ov : Z) (w : world) : world := mkWorld (conns w) (delete ov (ovs w)) (reqs w) (broken w).
Definition set_req (io : Z) (x : req) (w : world) : world := mkWorld (conns w) (ovs w) (<[io := x]> (reqs w)) (broken w).
Definition del_req (io : Z) (w : world) : world := mkWorld (conns w) (ovs w) (delete io (reqs w)) (broken w).

Definition break (b : bool) (w : world) : world := mkWorld (conns w) (ovs w) (reqs w) (broken w || b).

Definition conn_ov (c : conn) : option Z :=
  match c with Receiving ov _ _ | Received ov _ _ | Sending ov _ _ | Sent ov _ => Some ov | Accepted | Lost => None end.
Definition conn_io (c : conn) : option Z :=
  match c with Receiving _ io _ | Received _ io _ | Sending _ io _ | Sent _ io => Some io | Accepted | Lost => None end.

(** The structures belong together, and describe the connection's socket and the
    whole of the buffer, or the part of it that was last received. *)
Definition ready (w : world) (s ov io : Z) (x : req) : Prop :=
  ovs w !! ov = Some (Some io) /\ reqs w !! io = Some x /\ r_sock x = s /\ r_buf x = true /\
  1 <= r_len x <= r_size x /\ r_size x <= BUF_SIZE.

(** A structure is used while it is there, and freed when no connection uses it.
    There is one operation at a time for a connection; exactly what was received is
    sent back, once, before the next receive, which is never for more bytes than the
    last one brought; a socket is closed when nothing was received.  The program ends
    only when it is [broken].  Any routine may be given to an operation. *)
Definition may (w : world) (A : Type) (e : cmplE A) : Prop :=
  match e with
  | Startup | ListenSocket | Ioctlsocket _ | Bind _ _ | Listen _ | NextApc | Accept _
  | MallocOverlapped | MallocIo => True
  | Exit _ => broken w = true
  | ZeroOverlapped ov | GetEvent ov => is_Some (ovs w !! ov)
  | SetSock io _ | SetBuf io | SetLen io _ | GetSock io => is_Some (reqs w !! io)
  | SetEvent ov io => is_Some (ovs w !! ov) /\ is_Some (reqs w !! io)
  | WSARecv s io ov _ =>
      (conns w !! s = Some Accepted \/ conns w !! s = Some (Sent ov io)) /\ exists x, ready w s ov io x
  | WSASend s io ov _ _ => exists bs x,
      conns w !! s = Some (Received ov io bs) /\ bs <> [] /\ ready w s ov io x /\
      r_len x = lenZ bs /\ takeZ (lenZ bs) (r_data x) = bs
  | Closesocket s => exists ov io, conns w !! s = Some (Received ov io [])
  | FreeIo io => is_Some (reqs w !! io) /\ forall s c, conns w !! s = Some c -> conn_io c <> Some io
  | FreeOverlapped ov => is_Some (ovs w !! ov) /\ forall s c, conns w !! s = Some c -> conn_ov c <> Some ov
  end.

Definition failed (r : Z * Z) : bool := (r.1 =? -1) && negb (r.2 =? WSA_IO_PENDING).

Definition changed (f : req -> req) (io : Z) (w w' : world) : Prop :=
  exists x, reqs w !! io = Some x /\ w' = set_req io (f x) w.

(** Documented answers, for a system that has memory: a receive brings at most as
    many bytes as there is room for, none at the end or after an error, and when an
    operation has ended the routine called is the one it was given; [accept] gives a
    socket that is not in use. *)
Definition does (w : world) (A : Type) (e : cmplE A) : A -> world -> Prop :=
  match e in cmplE A return A -> world -> Prop with
  | Startup => λ a w', w' = break (negb (a =? 0)) w
  | ListenSocket | Ioctlsocket _ => λ _ w', w' = w
  | Bind _ _ | Listen _ => λ a w', w' = break (a =? -1) w
  | NextApc => λ a w',
      match a with
      | None => w' = w
      | Some (f, _, n, ov, _) =>
          (exists s io bs x,
             conns w !! s = Some (Receiving ov io f) /\ reqs w !! io = Some x /\
             n = lenZ bs /\ n <= r_len x /\
             w' = set_conn s (Received ov io bs)
                    (set_req io (mkReq (r_sock x) (r_buf x) (r_len x) (bs ++ dropZ n (r_data x))
                       (if n =? 0 then r_size x else n)) w)) \/
          (exists s io, conns w !! s = Some (Sending ov io f) /\ w' = set_conn s (Sent ov io) w)
      end
  | Accept _ => λ a w',
      if a.1 =? INVALID_SOCKET then w' = break (negb (a.2 =? WSAEWOULDBLOCK)) w
      else conns w !! a.1 = None /\ w' = set_conn a.1 Accepted w
  | MallocOverlapped => λ a w', ovs w !! a = None /\ exists e, w' = set_ov a e w
  | ZeroOverlapped ov => λ _ w', w' = set_ov ov None w
  | MallocIo => λ a w', reqs w !! a = None /\ exists x, r_size x = BUF_SIZE /\ w' = set_req a x w
  | SetSock io s => λ _ w', changed (λ x, mkReq s (r_buf x) (r_len x) (r_data x) (r_size x)) io w w'
  | SetBuf io => λ _ w', changed (λ x, mkReq (r_sock x) true (r_len x) (r_data x) (r_size x)) io w w'
  | SetLen io n => λ _ w', changed (λ x, mkReq (r_sock x) (r_buf x) n (r_data x) (r_size x)) io w w'
  | SetEvent ov io => λ _ w', w' = set_ov ov (Some io) w
  | GetEvent ov => λ a w', w' = w /\ forall io, ovs w !! ov = Some (Some io) -> a = io
  | GetSock io => λ a w', w' = w /\ forall x, reqs w !! io = Some x -> a = r_sock x
  | WSARecv s io ov f => λ a w', w' = set_conn s (if failed a then Lost else Receiving ov io f) w
  | WSASend s io ov _ f => λ a w', w' = set_conn s (if failed a then Lost else Sending ov io f) w
  | Closesocket s => λ _ w', w' = del_conn s w
  | FreeIo io => λ _ w', w' = del_req io w
  | FreeOverlapped ov => λ _ w', w' = del_ov ov w
  | Exit _ => λ _ _, False
  end.

Definition cmpl_protocol : protocol cmplE world := Protocol may does.

(** ** What is true between two calls *)

Definition idle (w : world) (s : Z) (c : conn) : Prop :=
  match c with
  | Lost => True
  | Receiving ov io f => f = Read /\ exists x, ready w s ov io x
  | Sending ov io f => f = Write /\ exists x, ready w s ov io x
  | Accepted | Received _ _ _ | Sent _ _ => False
  end.

(** All connections, or all but the one that is being handled, wait for the system. *)
Definition at_rest (w : world) : Prop := forall s c, conns w !! s = Some c -> idle w s c.
Definition others (s0 : Z) (w : world) : Prop := forall s c, s <> s0 -> conns w !! s = Some c -> idle w s c.

(** No other connection uses the structure. *)
Definition free_io (s0 io : Z) (w : world) : Prop :=
  forall s c, s <> s0 -> conns w !! s = Some c -> conn_io c <> Some io.
Definition free_ov (s0 ov : Z) (w : world) : Prop :=
  forall s c, s <> s0 -> conns w !! s = Some c -> conn_ov c <> Some ov.

Lemma idle_set_req io x w s c : conn_io c <> Some io -> idle w s c -> idle (set_req io x w) s c.
Proof.
  intros Hio. destruct c; cbn in *; try done; intros (Hf & y & H); (split; [done|]); exists y; unfold ready in *; cbn;
    (rewrite lookup_insert_ne; [done|congruence]).
Qed.

Lemma idle_del_req io w s c : conn_io c <> Some io -> idle w s c -> idle (del_req io w) s c.
Proof.
  intros Hio. destruct c; cbn in *; try done; intros (Hf & y & H); (split; [done|]); exists y; unfold ready in *; cbn;
    (rewrite lookup_delete_ne; [done|congruence]).
Qed.

Lemma idle_set_ov ov e w s c : conn_ov c <> Some ov -> idle w s c -> idle (set_ov ov e w) s c.
Proof.
  intros Hov. destruct c; cbn in *; try done; intros (Hf & y & H); (split; [done|]); exists y; unfold ready in *; cbn;
    (rewrite lookup_insert_ne; [done|congruence]).
Qed.

Lemma idle_del_ov ov w s c : conn_ov c <> Some ov -> idle w s c -> idle (del_ov ov w) s c.
Proof.
  intros Hov. destruct c; cbn in *; try done; intros (Hf & y & H); (split; [done|]); exists y; unfold ready in *; cbn;
    (rewrite lookup_delete_ne; [done|congruence]).
Qed.

Lemma others_set_req s0 io x w : free_io s0 io w -> others s0 w -> others s0 (set_req io x w).
Proof. intros Hf Ho s c Hne Hs. apply idle_set_req; [by eapply Hf|by apply Ho]. Qed.

Lemma others_del_req s0 io w : free_io s0 io w -> others s0 w -> others s0 (del_req io w).
Proof. intros Hf Ho s c Hne Hs. apply idle_del_req; [by eapply Hf|by apply Ho]. Qed.

Lemma others_set_ov s0 ov e w : free_ov s0 ov w -> others s0 w -> others s0 (set_ov ov e w).
Proof. intros Hf Ho s c Hne Hs. apply idle_set_ov; [by eapply Hf|by apply Ho]. Qed.

Lemma others_del_ov s0 ov w : free_ov s0 ov w -> others s0 w -> others s0 (del_ov ov w).
Proof. intros Hf Ho s c Hne Hs. apply idle_del_ov; [by eapply Hf|by apply Ho]. Qed.

Lemma others_set_conn s0 c0 w : others s0 w -> others s0 (set_conn s0 c0 w).
Proof. intros Ho s c Hne. cbn. rewrite lookup_insert_ne by done. by apply Ho. Qed.

Lemma at_rest_others s0 w : at_rest w -> others s0 w.
Proof. intros H s c _. apply H. Qed.

Lemma others_at_rest s0 w :
  others s0 w -> (forall c, conns w !! s0 = Some c -> idle w s0 c) -> at_rest w.
Proof. intros Ho Hs s c. destruct (decide (s = s0)) as [->|Hne]; [apply Hs|by apply Ho]. Qed.

(** The structures of one connection are not another's. *)
Lemma own_free s0 ov io x w :
  others s0 w -> ovs w !! ov = Some (Some io) -> reqs w !! io = Some x -> r_sock x = s0 ->
  free_io s0 io w /\ free_ov s0 ov w.
Proof.
  intros Ho Hov Hio Hs. split; intros s c Hne Hc Hx; specialize (Ho s c Hne Hc);
    destruct c; cbn in *; try done; injection Hx as ->; destruct Ho as (_ & y & Hov' & Hio' & Hy & _); congruence.
Qed.

Lemma unused_io_free s0 io w : others s0 w -> reqs w !! io = None -> free_io s0 io w.
Proof.
  intros Ho Hn s c Hne Hc Hx. specialize (Ho s c Hne Hc).
  destruct c; cbn in *; try done; injection Hx as ->; destruct Ho as (_ & y & _ & Hio & _); congruence.
Qed.

Lemma unused_ov_free s0 ov w : others s0 w -> ovs w !! ov = None -> free_ov s0 ov w.
Proof.
  intros Ho Hn s c Hne Hc Hx. specialize (Ho s c Hne Hc).
  destruct c; cbn in *; try done; injection Hx as ->; destruct Ho as (_ & y & Hov & _); congruence.
Qed.


(** ** The routines *)

Abbreviation rests := (safe cmpl_protocol (λ _ w, at_rest w)).

Ltac call := apply safe_call; cbn [allowed answers cmpl_protocol may does].

(** A receive for the connection that is handled. *)
Lemma recv_rests s ov io x w :
  others s w -> conns w !! s = Some Accepted \/ conns w !! s = Some (Sent ov io) -> ready w s ov io x ->
  rests w (syscall (WSARecv s io ov Read);; mret tt).
Proof.
  intros Ho Hs Hx. call; [by eauto|]. intros a w' ->. apply safe_ret. apply (others_at_rest s).
  - by apply others_set_conn.
  - cbn. rewrite lookup_insert_eq. intros c [= <-]. destruct (failed a); [done|]. split; [done|]. by exists x.
Qed.

Lemma WriteCompRoutine_rests err n flags s ov io x w :
  others s w -> conns w !! s = Some (Sent ov io) -> ready w s ov io x ->
  rests w (WriteCompRoutine err n ov flags).
Proof.
  intros Ho Hs Hx. pose proof Hx as (Hov & Hio & Hsock & _). unfold WriteCompRoutine.
  call; [by eexists|]. intros a w' [-> Ha]. rewrite (Ha _ Hov).
  call; [by eexists|]. intros b w' [-> Hb]. rewrite (Hb _ Hio), Hsock.
  eapply recv_rests; eauto.
Qed.

Lemma ReadCompRoutine_rests err flags s ov io x bs w :
  others s w -> conns w !! s = Some (Received ov io bs) ->
  ovs w !! ov = Some (Some io) -> reqs w !! io = Some x -> r_sock x = s -> r_buf x = true ->
  takeZ (lenZ bs) (r_data x) = bs -> (bs <> [] -> r_size x = lenZ bs) -> r_size x <= BUF_SIZE ->
  rests w (ReadCompRoutine err (lenZ bs) ov flags).
Proof.
  intros Ho Hs Hov Hio Hsock Hbuf Hdata Hsize Hmax. unfold ReadCompRoutine.
  destruct (own_free s ov io x w Ho Hov Hio Hsock) as [Hfio Hfov].
  call; [by eexists|]. intros a w' [-> Ha]. rewrite (Ha _ Hov).
  call; [by eexists|]. intros b w' [-> Hb]. rewrite (Hb _ Hio), Hsock.
  destruct (lenZ bs =? 0) eqn:Hn.
  - apply Z.eqb_eq, lenZ_0_inv in Hn as ->.
    call; [by eauto|]. intros [] w' ->. call; [by eexists|]. intros c w' [-> Hc]. rewrite (Hc _ Hov).
    assert (forall s' c', conns (del_conn s w) !! s' = Some c' -> s <> s' /\ conns w !! s' = Some c') as Hdel.
    { intros s' c'. cbn. by intros [? ?]%lookup_delete_Some. }
    call. { split; [by eexists|]. intros s' c' [Hne Hc']%Hdel. by apply (Hfio s'). }
    intros [] w' ->. apply safe_last; cbn [allowed answers cmpl_protocol may does].
    { split; [by eexists|]. intros s' c' [Hne Hc']%Hdel. by apply (Hfov s'). }
    intros [] w' ->. apply (others_at_rest s).
    + intros s' c' Hne. cbn. intros [_ Hc']%lookup_delete_Some. apply idle_del_ov; [by apply (Hfov s')|].
      apply idle_del_req; [by apply (Hfio s')|]. specialize (Ho s' c' Hne Hc'). by destruct c'.
    + cbn. by rewrite lookup_delete_eq.
  - assert (bs <> []) as Hbs by (by intros ->).
    call; [by eexists|]. intros [] w' (x' & Hx' & ->). rewrite Hio in Hx'. injection Hx' as <-.
    assert (others s (set_req io (mkReq (r_sock x) (r_buf x) (lenZ bs) (r_data x) (r_size x)) w)) as Ho'
      by (by apply others_set_req).
    assert (ready (set_req io (mkReq (r_sock x) (r_buf x) (lenZ bs) (r_data x) (r_size x)) w) s ov io
      (mkReq (r_sock x) (r_buf x) (lenZ bs) (r_data x) (r_size x))) as Hx.
    { split; [done|]. split; [apply lookup_insert_eq|]. cbn. rewrite Hsize in * by done.
      pose proof (lenZ_nonneg bs). repeat split; [done..|lia|lia|lia]. }
    call. { by exists bs, (mkReq (r_sock x) (r_buf x) (lenZ bs) (r_data x) (r_size x)). }
    intros r w' ->. apply safe_ret. apply (others_at_rest s); [by apply others_set_conn|].
    cbn. rewrite lookup_insert_eq. intros c [= <-]. destruct (failed r); [done|]. split; [done|]. by eexists.
Qed.

Lemma apc_turn_rests w : at_rest w ->
  safe cmpl_protocol (λ _ w, at_rest w) w (apc_turn tt).
Proof.
  intros Hr. unfold apc_turn. call; [done|].
  intros [[[[[f err] n] ov] flags]|] w' Hd; [|by apply safe_ret; subst].
  destruct Hd as [(s & io & bs & y & Hs & Hio & -> & Hn & ->)|(s & io & Hs & ->)].
  - destruct (Hr s _ Hs) as (-> & x & Hov & Hio' & Hsock & Hbuf & Hlen & Hmax).
    rewrite Hio in Hio'. injection Hio' as <-.
    destruct (own_free s ov io y w (at_rest_others s w Hr) Hov Hio Hsock) as [Hfio Hfov].
    eapply safe_bind; [eapply (ReadCompRoutine_rests err flags s ov io _ bs)|].
    all: cbn [conns ovs reqs set_conn set_req].
    + apply others_set_conn, others_set_req; [done|by apply at_rest_others].
    + apply lookup_insert_eq.
    + done.
    + apply lookup_insert_eq.
    + done.
    + done.
    + by apply takeZ_app.
    + cbn. intros Hne. destruct (lenZ bs =? 0) eqn:H0; [|done]. by apply Z.eqb_eq, lenZ_0_inv in H0.
    + cbn. pose proof (lenZ_nonneg bs). case_match; lia.
    + intros ? w2 Hr2. by apply safe_ret.
  - destruct (Hr s _ Hs) as (-> & x & Hx).
    eapply safe_bind; [eapply (WriteCompRoutine_rests err n flags s ov io x)|].
    + apply others_set_conn. by apply at_rest_others.
    + apply lookup_insert_eq.
    + exact Hx.
    + intros ? w2 Hr2. by apply safe_ret.
Qed.

Lemma SleepEx_rests w : at_rest w -> rests w SleepEx.
Proof.
  apply (safe_loop _ (λ _ w, at_rest w)). intros [] s Hs.
  eapply safe_conseq; [by apply apc_turn_rests|]. by intros [].
Qed.

Lemma start_client_rests s w : others s w -> conns w !! s = Some Accepted -> rests w (start_client s).
Proof.
  intros Ho Hs. unfold start_client.
  call; [done|]. intros ov w1 (Hov & e & ->).
  assert (free_ov s ov w) as Hfov by (by apply unused_ov_free).
  assert (others s (set_ov ov e w)) as Ho1 by (by apply others_set_ov).
  call; [cbn; rewrite lookup_insert_eq; by eexists|]. intros [] w2 ->.
  assert (others s (set_ov ov None (set_ov ov e w))) as Ho2 by (by apply others_set_ov).
  call; [done|]. intros io w3 (Hio & x & Hx & ->).
  assert (free_io s io w) as Hfio by (by apply (unused_io_free s io _ Ho2)).
  call; [cbn; rewrite lookup_insert_eq; by eexists|]. intros [] w4 (y & Hy & ->).
  cbn in Hy. rewrite lookup_insert_eq in Hy. injection Hy as <-.
  call; [cbn; rewrite lookup_insert_eq; by eexists|]. intros [] w5 (y & Hy & ->).
  cbn in Hy. rewrite lookup_insert_eq in Hy. injection Hy as <-.
  call; [cbn; rewrite lookup_insert_eq; by eexists|]. intros [] w6 (y & Hy & ->).
  cbn in Hy. rewrite lookup_insert_eq in Hy. injection Hy as <-.
  call; [cbn; rewrite !lookup_insert_eq; by split; eexists|]. intros [] w7 ->.
  eapply (recv_rests s ov io (mkReq s true BUF_SIZE (r_data x) BUF_SIZE)).
  - by repeat first [apply others_set_ov; [done|] | apply others_set_req; [done|]].
  - by left.
  - repeat split; cbn; rewrite ?lookup_insert_eq; try done. by rewrite Hx.
Qed.

Lemma exit_broken {A} (Q : A -> world -> Prop) w : broken w = true -> safe cmpl_protocol Q w exit.
Proof. intros Hb. unfold exit. by call. Qed.

Lemma accept_turn_rests fd w : at_rest w -> safe cmpl_protocol (λ _ w, at_rest w) w (accept_turn fd).
Proof.
  intros Hr. unfold accept_turn. eapply safe_bind; [by apply SleepEx_rests|]. clear w Hr. intros ? w Hr.
  call; [done|]. intros [s err] w' Hd. cbn in Hd. destruct (s =? INVALID_SOCKET).
  - subst. destruct (err =? WSAEWOULDBLOCK); [by apply safe_ret|].
    apply exit_broken. cbn. by rewrite orb_true_r.
  - destruct Hd as [_ ->]. eapply safe_bind; [apply start_client_rests|].
    + by apply others_set_conn, at_rest_others.
    + apply lookup_insert_eq.
    + intros ? w2 Hr2. by apply safe_ret.
Qed.

(** ** The program *)

Definition nothing (b : bool) : world := mkWorld ∅ ∅ ∅ b.

(** C20: The server, which ends only when it was called without a port, or WSAStartup, bind or
    listen has failed, or accept has for another reason than that nobody has asked to be
    connected; otherwise it goes on for ever.  It touches no structure that is not there
    and frees one only when no operation uses it, has one operation at a time for a
    connection, and gives to each the routine that goes with it: when the bytes of a
    receive are there, the routine that it was given sends back exactly these, and the
    routine of that send starts the next receive; the socket is closed when nothing was
    received.  No receive is for more bytes than the last one of its connection brought,
    so that the number of bytes per receive never grows again.  A connection for which a
    receive or send cannot be started is left alone. *)
Theorem cmpl_main_safe (argc : Z) (port : bytes) :
  safe cmpl_protocol (λ _ _, False) (nothing (argc <? 2)) (main argc port).
Proof.
  assert (forall b, at_rest (nothing b)) as Hr by (intros b s c; cbn; by rewrite lookup_empty).
  unfold main, ErrorHandling. destruct (argc <? 2); [by apply exit_broken|].
  call; [done|]. intros r w' ->. destruct (negb (r =? 0)); [by apply exit_broken|].
  call; [done|]. intros fd w' ->. call; [done|]. intros [] w' ->.
  call; [done|]. intros b w' ->. destruct (b =? -1); [by apply exit_broken|].
  call; [done|]. intros l w' ->. destruct (l =? -1); [by apply exit_broken|].
  apply (safe_loop _ (λ _ w, at_rest w)); [|by apply (Hr false)]. intros i s Hs.
  eapply safe_conseq; [by apply accept_turn_rests|]. by intros [|[]] s'.
Qed.
