(* ===== verification/Semaphore.v ===== *)
(** * Two threads that take turns
      (src/Linux/TCP-IPNetworkPrograming/semaphore/semaphore.c)

    One thread reads a number into a shared variable, the other adds it up; two
    semaphores make them alternate.  [main] starts both and waits for them.  The
    three are a pool ([Threads]) over the semaphores and the variable, where
    [sem_wait] and [pthread_join] do not answer until they may. *)
From S2P Require Import Prelude Interact Threads.

(** ** Calls

    [GetNum] is the read of the shared variable; [scanf] writes it.  [Begin] and
    [End] are the beginning and the end of a thread that [pthread_create] started. *)
Inductive sem := One | Two.
Inductive who := Reader | Adder.

Variant semE : Type -> Type :=
  | sem_init (s : sem) (v : nat) : semE unit
  | sem_wait (s : sem) : semE unit
  | sem_post (s : sem) : semE unit
  | sem_destroy (s : sem) : semE unit
  | pthread_create (t : who) : semE unit
  | pthread_join (t : who) : semE unit
  | Begin (t : who) : semE unit
  | End (t : who) : semE unit
  | Prompt : semE unit
  | Scanf : semE unit
  | GetNum : semE Z
  | PrintSum (sum : Z) : semE unit.

Abbreviation prog := (itree semE).

(** ** The program *)

Fixpoint read_loop (n : nat) : prog unit :=
  match n with
  | O => mret tt
  | S n =>
      syscall (sem_wait Two);;
      syscall Prompt;;
      syscall Scanf;;
      syscall (sem_post One);;
      read_loop n
  end.

Definition read : prog unit := read_loop 5.

Fixpoint accu_loop (n : nat) (sum : Z) : prog Z :=
  match n with
  | O => mret sum
  | S n =>
      syscall (sem_wait One);;
      num ← syscall GetNum;
      syscall (sem_post Two);;
      accu_loop n (s32 (sum + num))
  end.

Definition accu : prog unit :=
  sum ← accu_loop 5 0;
  syscall (PrintSum sum).

Definition main : prog unit :=
  syscall (sem_init One 0);;
  syscall (sem_init Two 1);;
  syscall (pthread_create Reader);;
  syscall (pthread_create Adder);;
  syscall (pthread_join Reader);;
  syscall (pthread_join Adder);;
  syscall (sem_destroy One);;
  syscall (sem_destroy Two).

(** What [pthread_create] runs. *)
Definition thread (t : who) (body : prog unit) : prog unit :=
  syscall (Begin t);; body;; syscall (End t).

Definition pool : list (prog unit) := [main; thread Reader read; thread Adder accu].

(** ** What they share

    The semaphores, [None] when they cannot be used; the variable; the values it was
    given; how far the threads are; what was printed. *)
Inductive status := NotYet | Running | Ended.

Record world := mkWorld {
  one : option nat; two : option nat; num : Z; inputs : list Z;
  reader : status; adder : status; printed : list Z;
}.

Definition nothing : world := mkWorld None None 0 [] NotYet NotYet [].

Definition sem_of (s : sem) (w : world) : option nat := match s with One => one w | Two => two w end.
Definition set_sem (s : sem) (v : option nat) (w : world) : world :=
  match s with
  | One => mkWorld v (two w) (num w) (inputs w) (reader w) (adder w) (printed w)
  | Two => mkWorld (one w) v (num w) (inputs w) (reader w) (adder w) (printed w)
  end.
Definition status_of (t : who) (w : world) : status := match t with Reader => reader w | Adder => adder w end.
Definition set_status (t : who) (st : status) (w : world) : world :=
  match t with
  | Reader => mkWorld (one w) (two w) (num w) (inputs w) st (adder w) (printed w)
  | Adder => mkWorld (one w) (two w) (num w) (inputs w) (reader w) st (printed w)
  end.

(** The sum of an [int]. *)
Definition total (l : list Z) : Z := fold_left (λ sum v, s32 (sum + v)) l 0.
Arguments total : simpl never.

(** A semaphore is used between its making and its end, and ended when both threads
    are; what is printed is the sum of five values. *)
Definition may (w : world) (A : Type) (e : semE A) : Prop :=
  match e with
  | sem_init s _ => sem_of s w = None
  | sem_wait s | sem_post s => is_Some (sem_of s w)
  | sem_destroy s => is_Some (sem_of s w) /\ reader w = Ended /\ adder w = Ended
  | pthread_create t => status_of t w = NotYet
  | PrintSum sum => length (inputs w) = 5%nat /\ sum = total (inputs w)
  | pthread_join _ | Begin _ | End _ | Prompt | Scanf | GetNum => True
  end.

Definition does (w : world) (A : Type) (e : semE A) : A -> world -> Prop :=
  match e in semE A return A -> world -> Prop with
  | sem_init s v => λ _ w', w' = set_sem s (Some v) w
  | sem_wait s => λ _ w', exists v, sem_of s w = Some (S v) /\ w' = set_sem s (Some v) w
  | sem_post s => λ _ w', exists v, sem_of s w = Some v /\ w' = set_sem s (Some (S v)) w
  | sem_destroy s => λ _ w', w' = set_sem s None w
  | pthread_create t => λ _ w', w' = set_status t Running w
  | pthread_join t => λ _ w', status_of t w = Ended /\ w' = w
  | Begin t => λ _ w', status_of t w = Running /\ w' = w
  | End t => λ _ w', w' = set_status t Ended w
  | Prompt => λ _ w', w' = w
  | Scanf => λ _ w', exists v,
      w' = mkWorld (one w) (two w) v (inputs w ++ [v]) (reader w) (adder w) (printed w)
  | GetNum => λ a w', a = num w /\ w' = w
  | PrintSum sum => λ _ w',
      w' = mkWorld (one w) (two w) (num w) (inputs w) (reader w) (adder w) (printed w ++ [sum])
  end.

Definition sem_protocol (i : nat) : protocol semE world := Protocol may does.

(** Nothing happens by itself. *)
Definition no_system (w w' : world) : Prop := False.

Abbreviation step := (pool_step sem_protocol no_system).

(** ** Where the threads are *)

Inductive rpos := RBegin | RWait (n : nat) | RPrompt (n : nat) | RScan (n : nat) | RPost (n : nat) | RDone.
Inductive apos := ABegin | AWait (n : nat) (sum : Z) | AGet (n : nat) (sum : Z) | APost (n : nat) (sum : Z)
  | AEnd | ADone.

Definition r_tree (r : rpos) : prog unit :=
  match r with
  | RBegin => thread Reader read
  | RWait n => read_loop n;; syscall (End Reader)
  | RPrompt n => (syscall Prompt;; syscall Scanf;; syscall (sem_post One);; read_loop n);; syscall (End Reader)
  | RScan n => (syscall Scanf;; syscall (sem_post One);; read_loop n);; syscall (End Reader)
  | RPost n => (syscall (sem_post One);; read_loop n);; syscall (End Reader)
  | RDone => mret tt
  end.

Definition a_tree (a : apos) : prog unit :=
  match a with
  | ABegin => thread Adder accu
  | AWait n sum => (sum ← accu_loop n sum; syscall (PrintSum sum));; syscall (End Adder)
  | AGet n sum => (sum ← (num ← syscall GetNum; syscall (sem_post Two);; accu_loop n (s32 (sum + num)));
                   syscall (PrintSum sum));; syscall (End Adder)
  | APost n sum => (sum ← (syscall (sem_post Two);; accu_loop n sum); syscall (PrintSum sum));; syscall (End Adder)
  | AEnd => syscall (End Adder)
  | ADone => mret tt
  end.

(** [main] before its call [m]. *)
Definition m_tree (m : nat) : prog unit :=
  match m with
  | 0 => main
  | 1 => syscall (sem_init Two 1);; syscall (pthread_create Reader);; syscall (pthread_create Adder);;
         syscall (pthread_join Reader);; syscall (pthread_join Adder);;
         syscall (sem_destroy One);; syscall (sem_destroy Two)
  | 2 => syscall (pthread_create Reader);; syscall (pthread_create Adder);;
         syscall (pthread_join Reader);; syscall (pthread_join Adder);;
         syscall (sem_destroy One);; syscall (sem_destroy Two)
  | 3 => syscall (pthread_create Adder);;
         syscall (pthread_join Reader);; syscall (pthread_join Adder);;
         syscall (sem_destroy One);; syscall (sem_destroy Two)
  | 4 => syscall (pthread_join Reader);; syscall (pthread_join Adder);;
         syscall (sem_destroy One);; syscall (sem_destroy Two)
  | 5 => syscall (pthread_join Adder);; syscall (sem_destroy One);; syscall (sem_destroy Two)
  | 6 => syscall (sem_destroy One);; syscall (sem_destroy Two)
  | 7 => syscall (sem_destroy Two)
  | _ => mret tt
  end%nat.

(** How many numbers are still to be read, and to be added. *)
Definition r_left (r : rpos) : nat :=
  match r with RBegin => 5 | RWait n | RPost n => n | RPrompt n | RScan n => S n | RDone => 0 end.
Definition a_left (a : apos) : nat :=
  match a with ABegin => 5 | AWait n _ | APost n _ => n | AGet n _ => S n | AEnd | ADone => 0 end.

(** Who has taken one semaphore and not yet given the other. *)
Definition r_turn (r : rpos) : nat := match r with RPrompt _ | RScan _ | RPost _ => 1 | _ => 0 end.
Definition a_turn (a : apos) : nat := match a with AGet _ _ | APost _ _ => 1 | _ => 0 end.

(** A number has been read that is not added yet. *)
Definition r_full (r : rpos) : nat := match r with RPost _ => 1 | _ => 0 end.
Definition a_full (a : apos) : nat := match a with AGet _ _ => 1 | _ => 0 end.

(** Exactly one of four has the turn, and the reader is at most one ahead. *)
Definition turns (x y : nat) (r : rpos) (a : apos) : Prop :=
  (x + y + r_turn r + a_turn a = 1 /\ a_left a = r_left r + x + r_full r + a_full a)%nat.

Definition r_status (started : bool) (r : rpos) : status :=
  if started then match r with RDone => Ended | _ => Running end else NotYet.
Definition a_status (started : bool) (a : apos) : status :=
  if started then match a with ADone => Ended | _ => Running end else NotYet.

Definition sems_ok (m : nat) (r : rpos) (a : apos) (w : world) : Prop :=
  match m with
  | 0 => one w = None /\ two w = None
  | 1 => one w = Some 0%nat /\ two w = None
  | 7 => one w = None /\ is_Some (two w)
  | 8 => one w = None /\ two w = None
  | _ => exists x y, one w = Some x /\ two w = Some y /\ turns x y r a
  end%nat.

Definition sum_ok (a : apos) (w : world) : Prop :=
  match a with
  | ABegin => printed w = []
  | AWait n sum | AGet n sum => printed w = [] /\ sum = total (take (5 - a_left a) (inputs w))
  | APost n sum => printed w = [] /\ sum = total (take (5 - n) (inputs w))
  | AEnd | ADone => printed w = [total (inputs w)]
  end.

Record ok (m : nat) (r : rpos) (a : apos) (w : world) : Prop := {
  ok_m : (m <= 8)%nat;
  ok_sems : sems_ok m r a w;
  ok_reader : reader w = r_status (2 <? m)%nat r;
  ok_adder : adder w = a_status (3 <? m)%nat a;
  ok_rbegin : (m <= 2)%nat -> r = RBegin;
  ok_abegin : (m <= 3)%nat -> a = ABegin;
  ok_rdone : (5 <= m)%nat -> r = RDone;
  ok_adone : (6 <= m)%nat -> a = ADone;
  ok_inputs : (length (inputs w) + r_left r = 5)%nat;
  ok_left : (a_left a <= 5)%nat;
  ok_num : r_left r <> 5%nat -> last (inputs w) = Some (num w);
  ok_sum : sum_ok a w;
}.

Definition at_ (ts : list (prog unit)) (m : nat) (r : rpos) (a : apos) : Prop :=
  exists t0 t1 t2, ts = [t0; t1; t2] /\ observe t0 = observe (m_tree m) /\
    observe t1 = observe (r_tree r) /\ observe t2 = observe (a_tree a).

(** Facts that hold of the numbers at hand. *)
Ltac facts Hok :=
  destruct Hok as [Hm Hsems Hrd Had Hrb Hab Hrde Hade Hin Hleft Hnum Hsum];
  try specialize (Hrb ltac:(lia)); try specialize (Hab ltac:(lia));
  try specialize (Hrde ltac:(lia)); try specialize (Hade ltac:(lia)); try subst; cbn in *.

Ltac show_ok :=
  split; cbn in *; try done; try lia; try (intros; (lia || done)); try (by destruct_and?; eauto).

Lemma main_step m r a w t0 ts' w' :
  ok m r a w -> observe t0 = observe (m_tree m) -> forall t1 t2,
  thread_step sem_protocol 0 ([t0; t1; t2], w) (ts', w') t0 ->
  exists t', ts' = [t'; t1; t2] /\ observe t' = observe (m_tree (S m)) /\ ok (S m) r a w' /\ (m < 8)%nat.
Proof.
  intros Hok Ho t1 t2 H. unfold thread_step in H. rewrite Ho in H. clear Ho.
  destruct m as [|[|[|[|[|[|[|[|m]]]]]]]]; cbn in H; [..|done].
  all: destruct H as ([] & w1 & Hd & [= -> ->]); eexists; (split; [done|]); (split; [reflexivity|]); (split; [|lia]).
  all: facts Hok; try destruct Hd as [Hst Hd]; cbn in *; subst.
  5: assert (r = RDone) as -> by (rewrite Hrd in Hst; by destruct r).
  6: assert (a = ADone) as -> by (rewrite Had in Hst; by destruct a).
  all: show_ok.
  - destruct Hsems as [-> _]. exists 0%nat, 1%nat. done.
  - destruct Hsems as (x & y & _ & -> & _). eauto.
Qed.

(** The reader runs between the third call of [main] and the fifth. *)
Lemma reader_late m r a w :
  ok m r a w -> r <> RDone -> r <> RBegin \/ reader w = Running -> m = 3%nat \/ m = 4%nat.
Proof.
  intros Hok Hd Hb. pose proof (ok_rdone _ _ _ _ Hok). pose proof (ok_rbegin _ _ _ _ Hok).
  pose proof (ok_reader _ _ _ _ Hok) as Hr.
  assert (m < 5)%nat by (apply Nat.nle_gt; naive_solver).
  assert (2 < m)%nat; [|lia]. apply Nat.nle_gt. intros Hle.
  destruct Hb as [Hb|Hb]; [naive_solver|]. rewrite Hb in Hr.
  assert ((2 <? m)%nat = false) as Hlt by (apply Nat.ltb_ge; lia). by rewrite Hlt in Hr.
Qed.

Lemma sum_ok_more a w v : (5 - a_left a <= length (inputs w))%nat -> a_left a <> 0%nat ->
  sum_ok a w -> sum_ok a (mkWorld (one w) (two w) v (inputs w ++ [v]) (reader w) (adder w) (printed w)).
Proof. intros Hl Ha. destruct a; cbn in *; try done; intros [Hp ->]; rewrite take_app_le by done; done. Qed.

Ltac turn := eexists _, _; split; [done|]; split; [done|]; unfold turns in *; cbn in *; lia.

Lemma reader_ok m r a w (Hok : ok m r a w) (H34 : m = 3%nat \/ m = 4%nat) :
  match r with
  | RBegin => ok m (RWait 5) a w
  | RWait 0 => ok m RDone a (set_status Reader Ended w)
  | RWait (S n) => forall v, two w = Some (S v) -> ok m (RPrompt n) a (set_sem Two (Some v) w)
  | RPrompt n => ok m (RScan n) a w
  | RScan n => forall v,
      ok m (RPost n) a (mkWorld (one w) (two w) v (inputs w ++ [v]) (reader w) (adder w) (printed w))
  | RPost n => forall v, one w = Some v -> ok m (RWait n) a (set_sem One (Some (S v)) w)
  | RDone => True
  end.
Proof.
  assert (exists x y, one w = Some x /\ two w = Some y /\ turns x y r a) as (x & y & Hx & Hy & Ht)
    by (destruct Hok as [_ Hsems]; by destruct H34 as [-> | ->]).
  assert (reader w = match r with RDone => Ended | _ => Running end) as Hr
    by (destruct Hok as [_ _ Hr]; by destruct H34 as [-> | ->]).
  assert (forall r' w', (exists x y, one w' = Some x /\ two w' = Some y /\ turns x y r' a) ->
    adder w' = adder w -> reader w' = match r' with RDone => Ended | _ => Running end ->
    (length (inputs w') + r_left r' = 5)%nat -> (r_left r' <> 5%nat -> last (inputs w') = Some (num w')) ->
    sum_ok a w' -> ok m r' a w') as Hshow.
  { intros r' w' Hs Ha Hr' Hi Hn Hsum. destruct Hok as [Hm _ _ Had _ Hab _ Hade _ Hleft _ _].
    destruct H34 as [-> | ->]; split; try done; try lia; by rewrite Ha. }
  pose proof (ok_inputs _ _ _ _ Hok) as Hin. pose proof (ok_num _ _ _ _ Hok) as Hnum.
  pose proof (ok_sum _ _ _ _ Hok) as Hsum.
  destruct r as [|[|n]|n|n|n|]; try intros v; try intros Hv; try done; apply Hshow; cbn in *; try done; try turn.
  - rewrite Hy in Hv. injection Hv as ->. turn.
  - rewrite length_app. cbn. lia.
  - intros _. apply last_snoc.
  - apply sum_ok_more; [|..|done]; unfold turns in Ht; cbn in Ht; lia.
  - rewrite Hx in Hv. injection Hv as ->. turn.
Qed.

Lemma adder_late m r a w :
  ok m r a w -> a <> ADone -> a <> ABegin \/ adder w = Running -> m = 4%nat \/ m = 5%nat.
Proof.
  intros Hok Hd Hb. pose proof (ok_adone _ _ _ _ Hok). pose proof (ok_abegin _ _ _ _ Hok).
  pose proof (ok_adder _ _ _ _ Hok) as Hr.
  assert (m < 6)%nat by (apply Nat.nle_gt; naive_solver).
  assert (3 < m)%nat; [|lia]. apply Nat.nle_gt. intros Hle.
  destruct Hb as [Hb|Hb]; [naive_solver|]. rewrite Hb in Hr.
  assert ((3 <? m)%nat = false) as Hlt by (apply Nat.ltb_ge; lia). by rewrite Hlt in Hr.
Qed.

(** One more number is added. *)
Lemma total_snoc l v : total (l ++ [v]) = s32 (total l + v).
Proof. unfold total. by rewrite fold_left_app. Qed.

Lemma take_last_snoc (l : list Z) n v : length l = S n -> last l = Some v -> take n l ++ [v] = l.
Proof.
  intros Hl Hv. rewrite last_lookup, Hl in Hv. cbn in Hv.
  rewrite <- (take_S_r l n v Hv). apply take_ge. lia.
Qed.

Lemma adder_ok m r a w (Hok : ok m r a w) (H45 : m = 4%nat \/ m = 5%nat) :
  match a with
  | ABegin => ok m r (AWait 5 0) w
  | AWait 0 sum => length (inputs w) = 5%nat /\ sum = total (inputs w) /\
      ok m r AEnd (mkWorld (one w) (two w) (num w) (inputs w) (reader w) (adder w) (printed w ++ [sum]))
  | AWait (S n) sum => forall v, one w = Some (S v) -> ok m r (AGet n sum) (set_sem One (Some v) w)
  | AGet n sum => ok m r (APost n (s32 (sum + num w))) w
  | APost n sum => forall v, two w = Some v -> ok m r (AWait n sum) (set_sem Two (Some (S v)) w)
  | AEnd => ok m r ADone (set_status Adder Ended w)
  | ADone => True
  end.
Proof.
  assert (exists x y, one w = Some x /\ two w = Some y /\ turns x y r a) as (x & y & Hx & Hy & Ht)
    by (destruct Hok as [_ Hsems]; by destruct H45 as [-> | ->]).
  assert (adder w = match a with ADone => Ended | _ => Running end) as Hr
    by (destruct Hok as [_ _ _ Hr]; by destruct H45 as [-> | ->]).
  assert (forall a' w', (exists x y, one w' = Some x /\ two w' = Some y /\ turns x y r a') ->
    reader w' = reader w -> adder w' = match a' with ADone => Ended | _ => Running end ->
    inputs w' = inputs w -> num w' = num w -> (a_left a' <= 5)%nat ->
    sum_ok a' w' -> ok m r a' w') as Hshow.
  { intros a' w' Hs Ha Hr' Hi Hn Hl Hsum. destruct Hok as [Hm _ Hrd _ Hrb _ Hrde _ Hin _ Hnum _].
    destruct H45 as [-> | ->]; split; try done; try lia; by rewrite ?Ha, ?Hi, ?Hn. }
  pose proof (ok_inputs _ _ _ _ Hok) as Hin. pose proof (ok_left _ _ _ _ Hok) as Hleft.
  pose proof (ok_num _ _ _ _ Hok) as Hnum. pose proof (ok_sum _ _ _ _ Hok) as Hsum.
  destruct a as [|[|n] sum|n sum|n sum| |]; try intros v Hv; try done.
  - by apply Hshow; cbn in *; try turn.
  - unfold turns in Ht. cbn in Hsum, Ht. destruct Hsum as [Hp ->].
    assert (length (inputs w) = 5%nat) as H5 by lia. rewrite (take_ge _ 5) by lia.
    split; [done|]. split; [done|]. apply Hshow; try done; try turn. cbn. by rewrite Hp.
  - rewrite Hx in Hv. injection Hv as ->. apply Hshow; cbn in *; try done; turn.
  - apply Hshow; try done; try turn; cbn in *; [lia|]. destruct Hsum as [Hp ->]. split; [done|].
    assert (length (inputs w) = S (4 - n)) as Hl.
    { unfold turns in Ht. cbn in Ht. destruct r; cbn in *; lia. }
    rewrite <- total_snoc, (take_last_snoc _ (4 - n)); [|done|].
    + change (match n with O => 5%nat | S l => (4 - l)%nat end) with (5 - n)%nat. by rewrite take_ge by lia.
    + apply Hnum. lia.
  - rewrite Hy in Hv. injection Hv as ->. apply Hshow; cbn in *; try done; turn.
  - apply Hshow; cbn in *; try done; turn.
Qed.

(** How many calls a thread will still make. *)
Definition r_steps (r : rpos) : nat :=
  match r with
  | RBegin => 22 | RWait n => 4 * n + 1 | RPrompt n => 4 * n + 4 | RScan n => 4 * n + 3
  | RPost n => 4 * n + 2 | RDone => 0
  end.
Definition a_steps (a : apos) : nat :=
  match a with
  | ABegin => 18 | AWait n _ => 3 * n + 2 | AGet n _ => 3 * n + 4 | APost n _ => 3 * n + 3
  | AEnd => 1 | ADone => 0
  end.

Lemma reader_step m r a w t1 ts' w' :
  ok m r a w -> observe t1 = observe (r_tree r) -> forall t0 t2,
  thread_step sem_protocol 1 ([t0; t1; t2], w) (ts', w') t1 ->
  exists t' r', ts' = [t0; t'; t2] /\ observe t' = observe (r_tree r') /\ r_steps r = S (r_steps r') /\ ok m r' a w'.
Proof.
  intros Hok Ho t0 t2 H. unfold thread_step in H. rewrite Ho in H. clear Ho.
  assert (r <> RDone -> r <> RBegin \/ reader w = Running -> m = 3%nat \/ m = 4%nat) as Hlate
    by (by apply reader_late with a).
  pose proof (λ Hd Hb, reader_ok m r a w Hok (Hlate Hd Hb)) as Hnext.
  destruct r as [|[|n]|n|n|n|]; cbn in H; [..|done].
  all: destruct H as ([] & w1 & Hd & [= -> ->]); cbn in Hd.
  - destruct Hd as [Hb ->]. eexists _, (RWait 5). split; [done|]. split; [reflexivity|]. split; [cbn; lia|]. by apply Hnext; [|right].
  - subst. eexists _, RDone. split; [done|]. split; [reflexivity|]. split; [cbn; lia|]. by apply Hnext; [|left].
  - destruct Hd as (v & Hv & ->). eexists _, (RPrompt n). split; [done|]. split; [reflexivity|]. split; [cbn; lia|]. by apply Hnext; [|left|].
  - subst. eexists _, (RScan n). split; [done|]. split; [reflexivity|]. split; [cbn; lia|]. by apply Hnext; [|left].
  - destruct Hd as (v & ->). eexists _, (RPost n). split; [done|]. split; [reflexivity|]. split; [cbn; lia|]. by apply Hnext; [|left].
  - destruct Hd as (v & Hv & ->). eexists _, (RWait n). split; [done|]. split; [reflexivity|]. split; [cbn; lia|]. by apply Hnext; [|left|].
Qed.

Lemma adder_step m r a w t2 ts' w' :
  ok m r a w -> observe t2 = observe (a_tree a) -> forall t0 t1,
  thread_step sem_protocol 2 ([t0; t1; t2], w) (ts', w') t2 ->
  exists t' a', ts' = [t0; t1; t'] /\ observe t' = observe (a_tree a') /\ a_steps a = S (a_steps a') /\ ok m r a' w'.
Proof.
  intros Hok Ho t0 t1 H. unfold thread_step in H. rewrite Ho in H. clear Ho.
  assert (a <> ADone -> a <> ABegin \/ adder w = Running -> m = 4%nat \/ m = 5%nat) as Hlate
    by (by apply adder_late with r).
  pose proof (λ Hd Hb, adder_ok m r a w Hok (Hlate Hd Hb)) as Hnext.
  destruct a as [|[|n] sum|n sum|n sum| |]; cbn in H; [..|done].
  all: destruct H as (b & w1 & Hd & [= -> ->]); cbn in Hd.
  - destruct Hd as [Hb ->]. eexists _, (AWait 5 0). split; [done|]. split; [reflexivity|]. split; [cbn; lia|]. by apply Hnext; [|right].
  - destruct b. subst. eexists _, AEnd. split; [done|]. split; [reflexivity|]. split; [cbn; lia|]. by apply Hnext; [|left].
  - destruct b, Hd as (v & Hv & ->). eexists _, (AGet n sum). split; [done|]. split; [reflexivity|]. split; [cbn; lia|].
    by apply Hnext; [|left|].
  - destruct Hd as [-> ->]. eexists _, (APost n (s32 (sum + num w))). split; [done|]. split; [reflexivity|]. split; [cbn; lia|]. by apply Hnext; [|left].
  - destruct b, Hd as (v & Hv & ->). eexists _, (AWait n sum). split; [done|]. split; [reflexivity|]. split; [cbn; lia|].
    by apply Hnext; [|left|].
  - destruct b. subst. eexists _, ADone. split; [done|]. split; [reflexivity|]. split; [cbn; lia|]. by apply Hnext; [|left].
Qed.


(** ** Runs *)

(** The pool will make [n] more calls. *)
Definition going (n : nat) (ps : list (prog unit) * world) : Prop :=
  exists m r a, at_ ps.1 m r a /\ ok m r a ps.2 /\ n = (8 - m + r_steps r + a_steps a)%nat.

Lemma going_start : going 48 (pool, nothing).
Proof.
  exists 0%nat, RBegin, ABegin. split; [by eexists _, _, _|]. split; [|done]. split; cbn; try done; lia.
Qed.

Lemma going_step n ps ps' : going n ps -> step ps ps' -> exists n', n = S n' /\ going n' ps'.
Proof.
  intros (m & r & a & (t0 & t1 & t2 & Hts & H0 & H1 & H2) & Hok & ->) Hstep.
  destruct ps as [ts w], ps' as [ts' w']. cbn in Hts. subst ts.
  apply pool_step_iff in Hstep as [(s' & [] & _)|(i & t & Ht & Hstep)].
  destruct i as [|[|[|i]]]; cbn in Ht; [injection Ht as <-..|by destruct i].
  - destruct (main_step m r a w t0 ts' w' Hok H0 t1 t2 Hstep) as (t' & -> & Ho & Hok' & Hm).
    exists (8 - S m + r_steps r + a_steps a)%nat. split; [lia|].
    exists (S m), r, a. split; [by eexists t', _, _|done].
  - destruct (reader_step m r a w t1 ts' w' Hok H1 t0 t2 Hstep) as (t' & r' & -> & Ho & Hr & Hok').
    exists (8 - m + r_steps r' + a_steps a)%nat. split; [lia|].
    exists m, r', a. split; [by eexists _, t', _|done].
  - destruct (adder_step m r a w t2 ts' w' Hok H2 t0 t1 Hstep) as (t' & a' & -> & Ho & Ha & Hok').
    exists (8 - m + r_steps r + a_steps a')%nat. split; [lia|].
    exists m, r, a'. split; [by eexists _, _, t'|done].
Qed.

Lemma can_step (ts : list (prog unit)) w (i : nat) (t : prog unit) :
  ts !! i = Some t ->
  match observe t with
  | VisF e k => exists a w', does w _ e a w'
  | _ => False
  end -> exists ps', step (ts, w) ps'.
Proof.
  intros Ht H. destruct (observe t) as [| |A e k] eqn:Ho; [done..|]. destruct H as (a & w' & Hd).
  eexists. eapply step_call; [done|done|exact Hd].
Qed.

(** The call at the head of a tree is answered. *)
Abbreviation enabled t w := (match observe t with VisF e _ => exists b w', does w _ e b w' | _ => False end).

Ltac goes :=
  first [exists tt | eexists]; eexists; cbn;
  first [reflexivity | exists 0; reflexivity | split; [by eauto|reflexivity]
        | eexists; split; [eassumption|reflexivity]].

Lemma reader_goes r w x y :
  one w = Some x -> two w = Some y -> (r = RBegin -> reader w = Running) ->
  match r with RWait (S _) => (0 < y)%nat | RDone => False | _ => True end -> enabled (r_tree r) w.
Proof.
  intros Hx Hy Hr Hc. destruct r as [|[|n]|n|n|n|]; try done; try goes.
  destruct y; [lia|goes].
Qed.

Lemma adder_goes a w x y :
  one w = Some x -> two w = Some y -> (a = ABegin -> adder w = Running) ->
  match a with AWait (S _) _ => (0 < x)%nat | ADone => False | _ => True end -> enabled (a_tree a) w.
Proof.
  intros Hx Hy Hr Hc. destruct a as [|[|n] sum|n sum|n sum| |]; try done; try goes.
  destruct x; [lia|goes].
Qed.

(** One of the two threads can go on, unless both have had their turns. *)
Lemma turns_progress r a w x y :
  one w = Some x -> two w = Some y -> turns x y r a ->
  (r = RBegin -> reader w = Running) -> (a = ABegin -> adder w = Running) -> r <> RDone \/ a <> ADone ->
  enabled (r_tree r) w \/ enabled (a_tree a) w.
Proof.
  intros Hx Hy Ht Hr Ha Hd.
  assert (match r with RWait (S _) => (0 < y)%nat | RDone => False | _ => True end \/
          match a with AWait (S _) _ => (0 < x)%nat | ADone => False | _ => True end) as [H|H].
  - unfold turns in Ht. destruct r as [|[|n]|n|n|n|], a as [|[|k] sum|k sum|k sum| |]; cbn in *; auto; try lia;
      naive_solver.
  - left. by eapply reader_goes.
  - right. by eapply adder_goes.
Qed.

(** There is always somebody who does not wait. *)
Lemma going_progress n ps : going (S n) ps -> exists ps', step ps ps'.
Proof.
  destruct ps as [ts w].
  intros (m & r & a & (t0 & t1 & t2 & Hts & H0 & H1 & H2) & Hok & Hn). cbn in Hts. subst ts.
  pose proof (can_step [t0; t1; t2] w 0 t0 eq_refl) as C0. rewrite H0 in C0.
  pose proof (can_step [t0; t1; t2] w 1 t1 eq_refl) as C1. rewrite H1 in C1.
  pose proof (can_step [t0; t1; t2] w 2 t2 eq_refl) as C2. rewrite H2 in C2.
  destruct Hok as [Hm Hsems Hrd Had Hrb Hab Hrde Hade Hin Hleft _ _]. cbn [snd] in *.
  assert (forall x y, one w = Some x -> two w = Some y -> turns x y r a -> (2 < m)%nat -> (a = ABegin -> (3 < m)%nat) ->
    r <> RDone \/ a <> ADone -> exists ps', step ([t0; t1; t2], w) ps') as Hturns.
  { intros x y Hx Hy Ht Hm2 Hm3 Hd. destruct (turns_progress r a w x y) as [H|H]; try done; [| |by apply C1|by apply C2].
    - intros ->. rewrite Hrd. by destruct (Nat.ltb_spec 2 m); [|lia].
    - intros ->. rewrite Had. specialize (Hm3 eq_refl). by destruct (Nat.ltb_spec 3 m); [|lia]. }
  destruct m as [|[|[|[|[|[|[|[|[|m]]]]]]]]]; try lia; try (apply C0; goes).
  - destruct Hsems as (x & y & Hx & Hy & Ht).
    destruct r; try (eapply Hturns; [done..|lia|lia|by left]). apply C0. goes.
  - destruct Hsems as (x & y & Hx & Hy & Ht).
    destruct a; try (eapply Hturns; [done..|lia|lia|by right]). apply C0. goes.
  - rewrite (Hrde ltac:(lia)), (Hade ltac:(lia)) in Hn. cbn in Hn. lia.
Qed.

Definition returned (t : prog unit) : Prop := exists r, observe t = RetF r.

Lemma going_end ps : going 0 ps -> Forall returned ps.1.
Proof.
  intros (m & r & a & (t0 & t1 & t2 & -> & H0 & H1 & H2) & Hok & Hn).
  pose proof (ok_m _ _ _ _ Hok). assert (m = 8)%nat as -> by lia.
  rewrite (ok_rdone _ _ _ _ Hok) in H1 by lia. rewrite (ok_adone _ _ _ _ Hok) in H2 by lia.
  repeat constructor; by eexists.
Qed.

Lemma going_nsteps n ps : nsteps step n (pool, nothing) ps -> (n <= 48)%nat /\ going (48 - n) ps.
Proof.
  intros H. remember (pool, nothing) as p0 eqn:Hp. revert p0 ps Hp H.
  enough (forall p0 ps, nsteps step n p0 ps -> forall k, going k p0 -> (n <= k)%nat /\ going (k - n) ps) as H.
  { intros p0 ps -> Hn. by apply (H _ _ Hn), going_start. }
  intros p0 ps H. induction H as [p|n p1 p2 p3 H1 _ IH]; intros k Hk; [rewrite Nat.sub_0_r; split; [lia|done]|].
  destruct (going_step k p1 p2 Hk H1) as (k' & -> & Hk'). destruct (IH k' Hk') as [Hle Hg].
  split; [lia|done].
Qed.

(** The calls at the heads of the three trees are allowed. *)
Lemma main_allowed m r a w : ok m r a w ->
  match observe (m_tree m) with VisF e _ => may w _ e | TauF _ => False | RetF _ => m = 8%nat end.
Proof.
  intros [Hm Hsems Hrd Had Hrb Hab Hrde Hade _ _ _ _].
  destruct m as [|[|[|[|[|[|[|[|[|m]]]]]]]]]; cbn in *; try lia; try naive_solver.
Qed.

Lemma reader_allowed m r a w : ok m r a w ->
  match observe (r_tree r) with VisF e _ => may w _ e | TauF _ => False | RetF _ => r = RDone end.
Proof.
  intros Hok. assert (r <> RDone -> r <> RBegin -> is_Some (one w) /\ is_Some (two w)) as Hs.
  { intros Hd Hb. pose proof (ok_sems _ _ _ _ Hok) as Hs.
    destruct (reader_late m r a w Hok Hd (or_introl Hb)) as [-> | ->]; naive_solver. }
  destruct r as [|[|n]|n|n|n|]; try done; by apply Hs.
Qed.

Lemma adder_allowed m r a w : ok m r a w ->
  match observe (a_tree a) with VisF e _ => may w _ e | TauF _ => False | RetF _ => a = ADone end.
Proof.
  intros Hok. assert (a <> ADone -> a <> ABegin -> is_Some (one w) /\ is_Some (two w)) as Hs.
  { intros Hd Hb. pose proof (ok_sems _ _ _ _ Hok) as Hs.
    destruct (adder_late m r a w Hok Hd (or_introl Hb)) as [-> | ->]; naive_solver. }
  destruct a as [|[|n] sum|n sum|n sum| |]; try done; try (by apply Hs).
  assert (m = 4 \/ m = 5)%nat as H45 by (by apply (adder_late m r (AWait 0 sum) w Hok); [|left]).
  destruct (adder_ok m r (AWait 0 sum) w Hok H45) as (? & ? & _). done.
Qed.

Lemma going_allowed k ps : going k ps -> pool_ok sem_protocol ps.
Proof.
  intros (m & r & a & (t0 & t1 & t2 & Hts & H0 & H1 & H2) & Hok & _). destruct ps as [ts w]. cbn in *. subst ts.
  pose proof (main_allowed m r a w Hok) as A0. pose proof (reader_allowed m r a w Hok) as A1.
  pose proof (adder_allowed m r a w Hok) as A2. rewrite <- H0 in A0. rewrite <- H1 in A1. rewrite <- H2 in A2.
  intros i t A e k' Hi Ho. destruct i as [|[|[|i]]]; cbn in Hi; [injection Hi as <-..|by destruct i].
  - by rewrite Ho in A0.
  - by rewrite Ho in A1.
  - by rewrite Ho in A2.
Qed.

(** The whole of what the program did. *)
Definition summed (w : world) : Prop :=
  length (inputs w) = 5%nat /\ printed w = [total (inputs w)] /\ one w = None /\ two w = None.

Lemma going_summed ps : going 0 ps -> summed ps.2.
Proof.
  intros (m & r & a & _ & Hok & Hn). pose proof (ok_m _ _ _ _ Hok). assert (m = 8)%nat as -> by lia.
  rewrite (ok_rdone _ _ _ _ Hok), (ok_adone _ _ _ _ Hok) in Hok by lia.
  pose proof (ok_inputs _ _ _ _ Hok) as Hin. pose proof (ok_sum _ _ _ _ Hok) as Hsum.
  pose proof (ok_sems _ _ _ _ Hok) as [Hone Htwo]. unfold summed. cbn in *. split; [lia|done].
Qed.

(** C19: However the threads are scheduled and whatever is typed, the calls of a run are
    allowed: both semaphores are made before and destroyed after their use, and the
    variable is written and read in turn.  The program ends: no run has more than 48
    calls, one that has fewer can go on, so that nobody waits for ever, and after 48
    calls all three threads have returned and the sum, as an [int], of the five values
    typed has been printed, once. *)
Theorem semaphore_sums (n : nat) ps :
  nsteps step n (pool, nothing) ps ->
  pool_ok sem_protocol ps /\ (n <= 48)%nat /\
  ((n < 48)%nat -> exists ps', step ps ps') /\
  (n = 48%nat -> Forall returned ps.1 /\ summed ps.2).
Proof.
  intros H. destruct (going_nsteps n ps H) as [Hle Hg]. split; [by eapply going_allowed|].
  split; [done|]. split.
  - intros Hlt. apply (going_progress (47 - n)). by replace (S (47 - n)) with (48 - n)%nat by lia.
  - intros ->. split; [by apply going_end|by apply going_summed].
Qed.

Lemma semaphore_sums_witness :
  exists ps, nsteps step 48 (pool, nothing) ps /\ Forall returned ps.1 /\ summed ps.2.
Proof.
  assert (forall n, (n <= 48)%nat -> exists ps, nsteps step n (pool, nothing) ps) as Hrun.
  { induction n as [|n IH]; intros Hn; [by eexists; constructor|].
    destruct IH as [ps Hps]; [lia|]. destruct (semaphore_sums n ps Hps) as (_ & _ & Hgo & _).
    destruct Hgo as [ps' Hps']; [lia|]. exists ps'. by eapply nsteps_r. }
  destruct (Hrun 48%nat) as [ps Hps]; [lia|]. exists ps. split; [exact Hps|].
  by apply (semaphore_sums 48).
Defined.
