(* ===== verification/HttpClient.v ===== *)
(** * The client of the web server
      (src/Linux/TCP-IPNetworkPrograming/http_server/http_client.c)

    [main] connects and starts two threads over the two streams of the connection:
    one asks for a path and sends a request line, the other shows what comes back,
    line by line.  The threads share nothing but the connection.  What is printed
    about the request is left out. *)
From S2P Require Import Prelude CLib CStr Interact Posix Web.

Definition PATH_SIZE : Z := 512.
Definition MAX_SIZE : Z := 1024.

(** ** Calls

    A [FILE] is a number.  [Crash] is the use of an array outside its bounds or
    before it is filled. *)
Definition stdin : Z := -1.
Definition stdout : Z := -2.

Inductive handler := Get | Read.

Variant clientE : Type -> Type :=
  | CSocket : clientE Z
  | CConnect (s : Z) (a : sockaddr) : clientE Z
  | CDup (fd : Z) : clientE Z
  | CFdopen (fd : Z) (mode : bytes) : clientE Z
  | CCreate (h : handler) (fp : Z) : clientE unit
  | CJoin (h : handler) : clientE unit
  | CExit (code : Z) : clientE Empty_set
  | CFgets (n fp : Z) : clientE (option bytes)
  | CFeof (fp : Z) : clientE bool
  | CFputs (s : bytes) (fp : Z) : clientE unit
  | CFclose (fp : Z) : clientE unit
  | CCrash : clientE Empty_set.

Abbreviation prog := (itree clientE).

Definition exit {A} : prog A := syscall (CExit 1) ≫= λ v : Empty_set, match v with end.
Definition error_handling {A} : prog A := exit.
Definition crash {A} : prog A := syscall CCrash ≫= λ v : Empty_set, match v with end.

(** ** The threads *)

(** [path[strlen(path) - 1] = 0] *)
Definition cut_last (path : bytes) : prog bytes :=
  if lenZ path =? 0 then crash else mret (takeZ (lenZ path - 1) path).

(** [sprintf] into an array of [n] bytes. *)
Definition sprintf (n : Z) (s : bytes) : prog bytes := if lenZ s <? n then mret s else crash.

Definition get_handler (fp_write : Z) : prog unit :=
  path ← syscall (CFgets PATH_SIZE stdin);
  match path with
  | None => crash
  | Some path =>
      path ← cut_last (cstr path);
      request_line ← sprintf MAX_SIZE (lit "GET " ++ path ++ lit " HTTP/1.1" ++ eol);
      syscall (CFputs request_line fp_write);;
      syscall (CFclose fp_write)
  end.

(** A turn of the [while]; [read_buf] keeps what it had when nothing is read. *)
Definition read_turn (fp_read : Z) (read_buf : option bytes) : prog (option bytes + unit) :=
  eof ← syscall (CFeof fp_read);
  if eof : bool then mret (inr tt)
  else
    match read_buf with
    | None => crash
    | Some s =>
        syscall (CFputs (cstr s) stdout);;
        r ← syscall (CFgets MAX_SIZE fp_read);
        mret (inl (match r with Some _ => r | None => read_buf end))
    end.

Definition read_handler (fp_read : Z) : prog unit :=
  r ← syscall (CFgets MAX_SIZE fp_read);
  loop (read_turn fp_read) r;;
  syscall (CFclose fp_read).

(** ** main *)

Definition main (argc : Z) (ip port : bytes) (inet_addr : bytes -> Z) : prog Z :=
  clnt_sock ← syscall CSocket;
  if clnt_sock =? -1 then error_handling
  else if argc <? 3 then exit
  else
    r ← syscall (CConnect clnt_sock (mkAddr (inet_addr ip) (htons (atoi port))));
    if r =? -1 then error_handling
    else
      fd ← syscall (CDup clnt_sock);
      write_fp ← syscall (CFdopen fd (lit "w"));
      read_fp ← syscall (CFdopen clnt_sock (lit "r"));
      syscall (CCreate Get write_fp);;
      syscall (CCreate Read read_fp);;
      syscall (CJoin Get);;
      syscall (CJoin Read);;
      mret 0.

(** ** The streams

    What is still to be read and whether its end was met, what was shown and sent,
    and which streams are open. *)
Record streams := mkStreams {
  s_doc : bytes; s_eof : bool; s_shown : bytes; s_sent : bytes; s_ropen : bool; s_wopen : bool
}.

(** What [fgets] returns is complete when it is a line or fills the array. *)
Definition complete (n : Z) (s : bytes) : bool :=
  bool_decide (last s = Some LF) || (lenZ s =? n - 1).

Section protocol.
(** The line that is typed, and the two streams. *)
Context (typed : option bytes) (wfp rfp : Z).

Definition unusable : Prop := match typed with None => True | Some l => cstr l = [] end.

Definition may (w : streams) (A : Type) (e : clientE A) : Prop :=
  match e with
  | CFgets n fp => fp = stdin /\ n = PATH_SIZE \/ fp = rfp /\ n = MAX_SIZE /\ s_ropen w = true
  | CFeof fp => fp = rfp /\ s_ropen w = true
  | CFputs _ fp => fp = stdout \/ fp = wfp /\ s_wopen w = true
  | CFclose fp => fp = wfp /\ s_wopen w = true \/ fp = rfp /\ s_ropen w = true
  | CCrash => unusable
  | _ => False
  end.

Definition does (w : streams) (A : Type) (e : clientE A) : A -> streams -> Prop :=
  match e in clientE A return A -> streams -> Prop with
  | CFgets n fp => λ a w',
      if bool_decide (fp = stdin) then
        a = typed /\ match typed with Some l => lenZ l < n | None => True end /\ w' = w
      else
        match s_doc w with
        | [] => a = None /\ w' = mkStreams [] true (s_shown w) (s_sent w) (s_ropen w) (s_wopen w)
        | d => let '(s, r) := fgets_cut (Z.to_nat (n - 1)) d in
               a = Some s /\
               w' = mkStreams r (negb (complete n s)) (s_shown w) (s_sent w) (s_ropen w) (s_wopen w)
        end
  | CFeof _ => λ a w', a = s_eof w /\ w' = w
  | CFputs s fp => λ _ w',
      w' = if bool_decide (fp = stdout)
           then mkStreams (s_doc w) (s_eof w) (s_shown w ++ s) (s_sent w) (s_ropen w) (s_wopen w)
           else mkStreams (s_doc w) (s_eof w) (s_shown w) (s_sent w ++ s) (s_ropen w) (s_wopen w)
  | CFclose fp => λ _ w',
      w' = if bool_decide (fp = wfp)
           then mkStreams (s_doc w) (s_eof w) (s_shown w) (s_sent w) (s_ropen w) false
           else mkStreams (s_doc w) (s_eof w) (s_shown w) (s_sent w) false (s_wopen w)
  | _ => λ _ _, False
  end.

Definition client_protocol : protocol clientE streams := Protocol may does.

Context (Hdiff : wfp <> rfp) (Hw : wfp <> stdin /\ wfp <> stdout) (Hr : rfp <> stdin /\ rfp <> stdout).

Abbreviation P := client_protocol.

Ltac c_call := eapply total_call_bind; [cbn [allowed client_protocol may]|cbn [answers client_protocol does]].

Lemma client_crash_total {R} (Q : R -> streams -> Prop) w : unusable -> total P Q w crash.
Proof. intros Hu. unfold crash. by c_call. Qed.

(** The request for a path that is typed. *)
Definition request_for (path : bytes) : bytes := lit "GET " ++ path ++ lit " HTTP/1.1" ++ eol.

Lemma cstr_length l : lenZ (cstr l) <= lenZ l.
Proof.
  pose proof (f_equal lenZ (span_app (λ c, negb (bool_decide (c = NUL))) l)) as H. rewrite lenZ_app in H.
  unfold cstr. pose proof (lenZ_nonneg (drop_while (λ c, negb (bool_decide (c = NUL))) l)). lia.
Qed.

Lemma get_handler_total w :
  s_wopen w = true ->
  total P (λ _ w', exists l, typed = Some l /\ cstr l <> [] /\
    w' = mkStreams (s_doc w) (s_eof w) (s_shown w) (s_sent w ++ request_for (takeZ (lenZ (cstr l) - 1) (cstr l)))
           (s_ropen w) false) w (get_handler wfp).
Proof.
  intros Hopen. unfold get_handler. c_call; [by left|]. rewrite bool_decide_true by done.
  intros a w' (-> & Hlen & ->). destruct typed as [l|] eqn:Ht; [|by apply client_crash_total; unfold unusable; rewrite Ht].
  unfold cut_last. destruct (lenZ (cstr l) =? 0) eqn:Hl.
  { apply Z.eqb_eq, lenZ_0_inv in Hl. eapply total_bind with (Q := λ _ _, False); [|done].
    apply client_crash_total. unfold unusable. by rewrite Ht. }
  apply Z.eqb_neq in Hl. apply total_ret_bind. unfold sprintf. pose proof (cstr_length l) as Hc.
  pose proof (lenZ_nonneg (cstr l)) as Hnn.
  assert ((lenZ (lit "GET " ++ takeZ (lenZ (cstr l) - 1) (cstr l) ++ lit " HTTP/1.1" ++ eol) <? MAX_SIZE) = true) as ->.
  { apply Z.ltb_lt. rewrite !lenZ_app, lenZ_takeZ by lia. change (lenZ (lit "GET ")) with 4.
    change (lenZ (lit " HTTP/1.1")) with 9. change (lenZ eol) with 2. unfold PATH_SIZE, MAX_SIZE in *. lia. }
  apply total_ret_bind. c_call; [by right|]. rewrite bool_decide_false by naive_solver. intros [] w' ->.
  apply total_last; cbn [allowed answers client_protocol may does]; [by left|].
  rewrite bool_decide_true by done. intros [] w' ->. exists l. split; [done|]. split; [|done]. intros He. by rewrite He in Hl.
Qed.

(** What is shown of [d]: all but a last line that the end of the data cuts off. *)
Definition shows (d shown : bytes) : Prop :=
  exists rest, d = shown ++ rest /\ (LF ∉ rest) /\ lenZ rest < MAX_SIZE - 1.

Lemma shows_all d : shows d d.
Proof. exists []. rewrite app_nil_r. split; [done|]. split; [set_solver|done]. Qed.

(** Between two turns: the piece in the array, if the end was not met, is what comes
    next; otherwise it was not shown, and is the cut-off rest or a line shown before. *)
Definition reading (d : bytes) (buf : option bytes) (w0 w : streams) : Prop :=
  s_sent w = s_sent w0 /\ s_wopen w = s_wopen w0 /\ s_ropen w = true /\
  if s_eof w then shows d (s_shown w)
  else exists s, buf = Some s /\ d = s_shown w ++ s ++ s_doc w.

Lemma read_turn_total d w0 buf w :
  NUL ∉ d -> reading d buf w0 w ->
  let left w := (if s_eof w then 0 else S (length (s_doc w)))%nat in
  total P (λ r w', match r with
                   | inl b => reading d b w0 w' /\ (left w' < left w)%nat
                   | inr _ => reading d buf w0 w' /\ s_eof w' = true
                   end) w (read_turn rfp buf).
Proof.
  intros Hnul (Hsent & Hwo & Hro & Hread) left. unfold read_turn. c_call; [done|].
  intros a w' [-> ->]. destruct (s_eof w) eqn:Heof.
  { apply total_ret. split; [|done]. split_and!; [done..|]. by rewrite Heof. }
  destruct Hread as (s & -> & Hd). c_call; [by left|]. rewrite bool_decide_true by done. intros [] w' ->.
  c_call; [by right|]. rewrite bool_decide_false by naive_solver.
  assert (NUL ∉ s) as Hs by (rewrite Hd in Hnul; set_solver). rewrite (cstr_id s Hs).
  cbn [s_doc s_eof s_shown s_sent s_ropen s_wopen]. intros a w'.
  assert (left w = S (length (s_doc w))) as -> by (unfold left; by rewrite Heof).
  destruct (s_doc w) as [|c r] eqn:Hdoc.
  - intros [-> ->]. apply total_ret. split; [|cbn; lia]. split_and!; [done..|]. cbn.
    rewrite app_nil_r in Hd. rewrite <- Hd. apply shows_all.
  - change (Z.to_nat (MAX_SIZE - 1)) with (S 1022).
    pose proof (fgets_cut_app (S 1022) (c :: r)) as Happ.
    pose proof (fgets_cut_progress 1022 c r) as Hlt.
    pose proof (fgets_cut_incomplete (S 1022) (c :: r)) as Hinc.
    destruct (fgets_cut (S 1022) (c :: r)) as [s' r']. cbn [fst snd] in *. intros [-> ->]. apply total_ret.
    unfold complete. split.
    + split_and!; [done..|]. cbn. destruct (bool_decide (last s' = Some LF) || _) eqn:Hc; cbn.
      * exists s'. split; [done|]. by rewrite Hd, <- Happ, <- !app_assoc.
      * apply orb_false_iff in Hc as [Hl%bool_decide_eq_false Hn%Z.eqb_neq].
        destruct Hinc as (-> & Hlf & Hlen); [done|unfold lenZ, MAX_SIZE in Hn; lia|].
        exists s'. rewrite app_nil_r in Happ. subst s'. split; [by rewrite Hd, <- app_assoc|].
        split; [done|]. unfold lenZ, MAX_SIZE. lia.
    + unfold left. cbn [s_eof s_doc]. destruct (negb _); lia.
Qed.

Lemma read_handler_total w :
  NUL ∉ s_doc w -> s_eof w = false -> s_shown w = [] -> s_ropen w = true ->
  total P (λ _ w', shows (s_doc w) (s_shown w') /\ s_sent w' = s_sent w /\ s_wopen w' = s_wopen w /\
                   s_ropen w' = false) w (read_handler rfp).
Proof.
  intros Hnul Heof Hshown Hopen. unfold read_handler. c_call; [by right|].
  rewrite bool_decide_false by naive_solver. intros a w1 Ha.
  assert (reading (s_doc w) a w w1) as Hread.
  { destruct (s_doc w) as [|c r] eqn:Hdoc.
    - destruct Ha as [-> ->]. split_and!; [done..|]. cbn. rewrite Hshown. apply shows_all.
    - change (Z.to_nat (MAX_SIZE - 1)) with (S 1022) in Ha.
      pose proof (fgets_cut_app (S 1022) (c :: r)) as Happ.
      pose proof (fgets_cut_incomplete (S 1022) (c :: r)) as Hinc.
      destruct (fgets_cut (S 1022) (c :: r)) as [s' r']. cbn [fst snd] in *. destruct Ha as [-> ->].
      split_and!; [done..|]. cbn. unfold complete. destruct (bool_decide _ || _) eqn:Hc; cbn.
      + exists s'. rewrite Hshown. by rewrite <- Happ.
      + apply orb_false_iff in Hc as [Hl%bool_decide_eq_false Hn%Z.eqb_neq].
        destruct Hinc as (-> & Hlf & Hlen); [done|unfold lenZ, MAX_SIZE in Hn; lia|].
        exists s'. rewrite Hshown. rewrite app_nil_r in Happ. split; [done|]. split; [done|].
        unfold lenZ, MAX_SIZE. lia. }
  eapply total_bind with (Q := λ _ w', exists b, reading (s_doc w) b w w' /\ s_eof w' = true).
  - apply (total_loop _ (λ b w', reading (s_doc w) b w w')
      (λ _ w', if s_eof w' then 0 else S (length (s_doc w')))%nat); [|done].
    intros b w' Hb. eapply total_conseq; [by apply (read_turn_total (s_doc w) w)|].
    intros [b'|[]] w2; [done|]. intros H. by exists b.
  - intros [] w2 (b & (Hsent & Hwo & Hro & Hsh) & He). rewrite He in Hsh.
    apply total_last; cbn [allowed answers client_protocol may does]; [by right|].
    rewrite bool_decide_false by done. intros [] w3 ->. done.
Qed.
End protocol.

(** ** main and its threads *)

Record starting := mkStarting {
  m_sock : option Z; m_connected : bool; m_dup : option Z; m_write : option Z; m_read : option Z;
  m_threads : list (handler * Z); m_joined : list handler
}.
Definition starting0 : starting := mkStarting None false None None None [] [].

(** Each thread is given a stream of its own, after the connection was made, and is
    waited for once. *)
Definition may_main (m : starting) (A : Type) (e : clientE A) : Prop :=
  match e with
  | CSocket => m = starting0
  | CConnect s _ => m_sock m = Some s /\ m_connected m = false
  | CDup fd => m_sock m = Some fd /\ m_connected m = true
  | CFdopen fd mode => m_dup m = Some fd /\ mode = lit "w" \/ m_sock m = Some fd /\ mode = lit "r" /\ m_connected m = true
  | CCreate Get fp => m_write m = Some fp /\ m_threads m = []
  | CCreate Read fp => m_read m = Some fp /\ map fst (m_threads m) = [Get]
  | CJoin h => (h ∈ map fst (m_threads m)) /\ h ∉ m_joined m
  | CExit _ => m_connected m = false
  | _ => False
  end.

Definition does_main (m : starting) (A : Type) (e : clientE A) : A -> starting -> Prop :=
  match e in clientE A return A -> starting -> Prop with
  | CSocket => λ a m', m' = mkStarting (Some a) false None None None [] []
  | CConnect _ _ => λ a m', a = -1 /\ m' = m \/
      a = 0 /\ m' = mkStarting (m_sock m) true None None None [] []
  | CDup _ => λ a m', m' = mkStarting (m_sock m) (m_connected m) (Some a) None None [] []
  | CFdopen _ mode => λ a m',
      m' = if bool_decide (mode = lit "w")
           then mkStarting (m_sock m) (m_connected m) (m_dup m) (Some a) (m_read m) (m_threads m) (m_joined m)
           else mkStarting (m_sock m) (m_connected m) (m_dup m) (m_write m) (Some a) (m_threads m) (m_joined m)
  | CCreate h fp => λ _ m',
      m' = mkStarting (m_sock m) (m_connected m) (m_dup m) (m_write m) (m_read m) (m_threads m ++ [(h, fp)]) (m_joined m)
  | CJoin h => λ _ m',
      m' = mkStarting (m_sock m) (m_connected m) (m_dup m) (m_write m) (m_read m) (m_threads m) (m_joined m ++ [h])
  | _ => λ _ _, False
  end.

Definition main_protocol : protocol clientE starting := Protocol may_main does_main.

Lemma main_total argc ip port inet_addr :
  total main_protocol (λ r m, r = 0 /\ m_joined m = [Get; Read] /\
    exists w r, m_write m = Some w /\ m_read m = Some r /\ m_threads m = [(Get, w); (Read, r)])
    starting0 (main argc ip port inet_addr).
Proof.
  assert (forall m, m_connected m = false -> total main_protocol (λ (_ : Z) _, False) m exit) as Hexit.
  { intros m Hm. eapply total_call_bind; [done|]. done. }
  assert (forall m Q, m_connected m = false -> total main_protocol (Q : Z -> starting -> Prop) m exit) as Hexit'.
  { intros m Q Hm. eapply total_conseq; [by apply Hexit|done]. }
  unfold main, error_handling.
  eapply total_call_bind; [done|]. intros s m ->. destruct (s =? -1); [by apply Hexit'|].
  destruct (argc <? 3); [by apply Hexit'|].
  eapply total_call_bind; [done|]. intros r m [[-> ->]|[-> ->]]; [by apply Hexit'|]. change (0 =? -1) with false. cbn iota.
  eapply total_call_bind; [done|]. intros fd m ->.
  eapply total_call_bind; [by left|]. intros wfp m ->. rewrite bool_decide_true by done.
  eapply total_call_bind; [by right|]. intros rfp m ->. rewrite bool_decide_false by done.
  cbn [m_sock m_connected m_dup m_write m_read m_threads m_joined].
  eapply total_call_bind; [done|]. intros [] m ->.
  eapply total_call_bind; [done|]. intros [] m ->. cbn [app m_sock m_connected m_dup m_write m_read m_threads m_joined].
  eapply total_call_bind; [split; [by left|apply not_elem_of_nil]|]. intros [] m ->.
  eapply total_call_bind; [split; [by right; left|by intros H%list_elem_of_singleton]|]. intros [] m ->.
  apply total_ret. split; [done|]. split; [done|]. by eexists _, _.
Qed.

(** ** The client and the server *)

Definition open_streams (doc : bytes) : streams := mkStreams doc false [] [] true true.

Lemma fgets_cut_line n s : LF ∉ s -> (length s < n)%nat -> fgets_cut n (s ++ [LF]) = (s ++ [LF], []).
Proof.
  revert s. induction n as [|n IH]; intros [|c s] Hs Hn; cbn in *; try lia; [done|].
  apply not_elem_of_cons in Hs as [Hc Hs]. rewrite bool_decide_false by done. by rewrite IH by (done || lia).
Qed.

Section fetch.
(** The name of a document, in two parts. *)
Context (base ext : bytes).
Context (Hbase : base <> []) (Hext : ext <> []).
Context (Hchars : forall c, c ∈ base ++ ext -> c ∉ lit " /." ++ [LF; NUL]).
Context (Hlen : lenZ base + lenZ ext <= 28).

Definition name_of : bytes := base ++ Byte.x2e :: ext.
Definition path_of : bytes := Byte.x2f :: name_of.

Lemma part_chars c : c ∈ base ++ ext -> (c ∉ lit " /") /\ (c ∉ lit ".") /\ c <> LF /\ c <> NUL.
Proof.
  intros H%Hchars. change (lit " /." ++ [LF; NUL]) with (lit " /" ++ lit "." ++ [LF] ++ [NUL]) in H.
  rewrite !not_elem_of_app, !not_elem_of_cons in H. tauto.
Qed.

Lemma name_chars c : c ∈ name_of -> (c ∉ lit " /") /\ c <> LF /\ c <> NUL.
Proof.
  unfold name_of. rewrite elem_of_app, elem_of_cons. intros [H|[->|H]].
  - destruct (part_chars c) as (? & ? & ?); [by apply elem_of_app; left|done].
  - apply (bool_decide_unpack _). vm_compute. exact I.
  - destruct (part_chars c) as (? & ? & ?); [by apply elem_of_app; right|done].
Qed.

Lemma path_absent (x : byte) a b :
  x = LF \/ x = NUL -> x ∉ a -> x ∉ b -> x ∉ a ++ path_of ++ b.
Proof.
  intros Hx Ha Hb. rewrite !not_elem_of_app. split_and!; [done| |done]. apply not_elem_of_cons.
  split; [by destruct Hx as [-> | ->]|]. intros (_ & H1 & H2)%name_chars. naive_solver.
Qed.

(** The server takes the client's line for a request for the document. *)
Lemma request_served :
  decide_request (Some (fgets_cut 99 (request_for path_of)).1) = Serve (type_of ext) name_of.
Proof.
  assert (request_for path_of = (lit "GET " ++ path_of ++ lit " HTTP/1.1" ++ [CR]) ++ [LF]) as Hr.
  { unfold request_for. by rewrite <- !app_assoc. }
  assert (LF ∉ lit "GET " ++ path_of ++ lit " HTTP/1.1" ++ [CR]) as Hlf.
  { apply path_absent; [by left|..]; apply (bool_decide_unpack _); vm_compute; exact I. }
  assert (NUL ∉ request_for path_of) as Hnul.
  { apply path_absent; [by right|..]; apply (bool_decide_unpack _); vm_compute; exact I. }
  rewrite Hr, fgets_cut_line; [|done|].
  2: { unfold path_of, name_of. rewrite !length_app. unfold lenZ in Hlen.
       change (length (lit "GET ")) with 4%nat. change (length (lit " HTTP/1.1")) with 9%nat.
       cbn [length]. rewrite length_app. cbn [length]. lia. }
  cbn [fst]. rewrite <- Hr. cbn [decide_request]. rewrite cstr_id by done.
  rewrite bool_decide_false.
  2: { intros H. apply (strstr_None _ _ (lit "GET " ++ path_of ++ lit " ") (lit "1.1" ++ eol)) in H. apply H.
       unfold request_for. by rewrite <- !app_assoc. }
  change (request_for path_of) with (lit "GET" ++ SP :: [Byte.x2f] ++ name_of ++ SP :: lit "HTTP/1.1" ++ eol).
  rewrite words_cons, words_skip, words_cons;
    [|by unfold name_of; destruct base| |done|by repeat constructor|done|by repeat constructor|done].
  2: { apply outside. intros c Hc. by apply name_chars. }
  assert (lenZ name_of <= 29) as Hn by (unfold name_of; rewrite lenZ_app, lenZ_cons; lia).
  change (lenZ (lit "GET")) with 3. rewrite (proj2 (Z.ltb_ge 29 (lenZ name_of))) by done. cbn [Z.ltb orb].
  unfold name_of. rewrite words_cons, words_one; [by rewrite bool_decide_true by done|done| |done| |done].
  - apply outside. intros c Hc. apply part_chars. by apply elem_of_app; right.
  - apply outside. intros c Hc. apply part_chars. by apply elem_of_app; left.
Qed.
End fetch.


Definition two_files (n : bytes) : option bytes :=
  if bool_decide (n = lit "index.html") then Some (lit "<html>" ++ [LF] ++ lit "</html>")
  else if bool_decide (n = lit "a.txt") then Some (lit "a" ++ [LF]) else None.

