(* ===== verification/WriteV.v ===== *)
(** * A server of one file
      (src/Linux/LinuxHighPerformanceServerPrograming/writev.cpp)

    One connection is accepted and sent a header and a file with one [writev], or
    an error line.  The header is built with [snprintf] in an array of bytes. *)
From S2P Require Import Prelude CLib CStr Interact Posix Web.

Definition BUFFER_SIZE : Z := 1024.
Definition status_line (ok : bool) : bytes := if ok then lit "200 OK" else lit "500 Internal server error".

(** ** snprintf *)

(** ["%d"]: an [int] in decimal. *)
Definition digit (d : Z) : byte := default Byte.x30 (Byte.of_N (Z.to_N (48 + d))).

Fixpoint dec_digits (k : nat) (n : Z) (acc : bytes) : bytes :=
  match k with
  | O => acc
  | S k => let acc := digit (n mod 10) :: acc in if n <? 10 then acc else dec_digits k (n / 10) acc
  end.

Definition format_d (n : Z) : bytes :=
  if n <? 0 then Byte.x2d :: dec_digits 10 (- n) [] else dec_digits 10 n [].

(** At most [n - 1] bytes and a NUL are written at [p]; the length of all of [s] is
    returned. *)
Definition snprintf (b : bytes) (p n : Z) (s : bytes) : option (bytes * Z) :=
  b ← fill b p (takeZ (n - 1) s ++ [NUL]); Some (b, lenZ s).

(** ** Calls

    [WStat] answers what the program looks at: whether it is a directory, whether
    others may read it, and its size; [New] is false when there is no memory;
    [Wild] is [delete] of a pointer that was never set. *)
Record fstat := mkFstat { st_dir : bool; st_roth : bool; st_size : Z }.

Variant fileE : Type -> Type :=
  | WSocket : fileE Z
  | WBind (fd : Z) (a : sockaddr) : fileE Z
  | WListen (fd n : Z) : fileE Z
  | WAccept (fd : Z) : fileE Z
  | WStat (name : bytes) : fileE (option fstat)
  | WOpen (name : bytes) : fileE Z
  | New (n : Z) : fileE bool
  | WRead (fd n : Z) : fileE (option bytes)
  | Writev (fd : Z) (iov : list bytes) : fileE Z
  | WSend (fd : Z) (bs : bytes) : fileE Z
  | WClose (fd : Z) : fileE unit
  | Delete : fileE unit
  | Wild : fileE Empty_set
  | WAbort : fileE Empty_set.

Abbreviation prog := (itree fileE).

Definition abort {A} : prog A := syscall WAbort ≫= λ v : Empty_set, match v with end.
Definition wild {A} : prog A := syscall Wild ≫= λ v : Empty_set, match v with end.
Definition check (b : bool) : prog unit := if b then mret tt else abort.
(** A use of the array, which is not left. *)
Definition within {A} (r : option A) : prog A := match r with Some a => mret a | None => abort end.

(** ** The program *)

(** [valid], what [stat] filled in and [file_buf], which may not be set. *)
Record doc := mkDoc { valid : bool; file_stat : fstat; file_buf : option bytes }.

Definition load (file_name : bytes) : prog doc :=
  st ← syscall (WStat file_name);
  match st with
  | None => mret (mkDoc false (mkFstat false false 0) None)
  | Some st =>
      if st_dir st then mret (mkDoc false st None)
      else if st_roth st then
        fd ← syscall (WOpen file_name);
        ok ← syscall (New (st_size st + 1));
        if negb ok then abort
        else
          let zeros := replicate (Z.to_nat (st_size st + 1)) NUL in
          r ← syscall (WRead fd (st_size st));
          match r with
          | None => mret (mkDoc false st (Some zeros))
          | Some bs => mret (mkDoc true st (Some (bs ++ dropZ (lenZ bs) zeros)))
          end
      else mret (mkDoc false st None)
  end.

(** The header, in [header_buf]. *)
Definition ok_header (size : Z) : option bytes :=
  let header_buf := replicate (Z.to_nat BUFFER_SIZE) NUL in
  r1 ← snprintf header_buf 0 (BUFFER_SIZE - 1) (lit "HTTP/1.1 " ++ status_line true ++ eol);
  let len := r1.2 in
  r2 ← snprintf r1.1 len (BUFFER_SIZE - 1 - len) (lit "Content-Length: " ++ format_d (s32 size) ++ eol);
  let len := len + r2.2 in
  r3 ← snprintf r2.1 len (BUFFER_SIZE - 1 - len) eol;
  Some r3.1.

Definition error_header : option bytes :=
  let header_buf := replicate (Z.to_nat BUFFER_SIZE) NUL in
  r1 ← snprintf header_buf 0 (BUFFER_SIZE - 1) (lit "HTTP/1.1 " ++ status_line false ++ eol);
  let len := r1.2 in
  r2 ← snprintf r1.1 0 (BUFFER_SIZE - 1 - len) eol;
  Some r2.1.

Definition respond (connfd : Z) (d : doc) : prog unit :=
  if valid d then
    h ← within (ok_header (st_size (file_stat d)));
    h ← within (cstring h 0);
    buf ← within (file_buf d);
    syscall (Writev connfd [h; takeZ (st_size (file_stat d)) buf]);;
    mret tt
  else
    h ← within error_header;
    h ← within (cstring h 0);
    syscall (WSend connfd h);;
    mret tt.

Definition main (argc : Z) (ip port file_name : bytes) (inet_pton : bytes -> Z) : prog Z :=
  if argc <=? 3 then mret 1
  else
    sock ← syscall WSocket;
    check (0 <=? sock);;
    ret ← syscall (WBind sock (mkAddr (inet_pton ip) (htons (atoi port))));
    check (negb (ret =? -1));;
    ret ← syscall (WListen sock 5);
    check (negb (ret =? -1));;
    connfd ← syscall (WAccept sock);
    (if connfd <? 0 then mret tt
     else
       d ← load file_name;
       respond connfd d;;
       syscall (WClose connfd);;
       match file_buf d with Some _ => syscall Delete | None => wild end);;
    syscall (WClose sock);;
    mret 0.

(** ** Decimal numbers *)

Lemma digit_val d : 0 <= d < 10 -> byte_val (digit d) = 48 + d.
Proof.
  intros Hd. assert (d = 0 \/ d = 1 \/ d = 2 \/ d = 3 \/ d = 4 \/ d = 5 \/ d = 6 \/ d = 7 \/ d = 8 \/ d = 9) as H by lia.
  by destruct H as [-> |[-> |[-> |[-> |[-> |[-> |[-> |[-> |[-> | ->]]]]]]]]].
Qed.

Lemma digits_value_digit v d l : 0 <= d < 10 -> digits_value v (digit d :: l) = digits_value (v * 10 + d) l.
Proof.
  intros Hd. cbn [digits_value]. unfold isdigit. rewrite digit_val by done. arith_tests. f_equal. lia.
Qed.

Lemma dec_digits_value k : forall n acc, 0 <= n < 10 ^ Z.of_nat k -> (k <> 0)%nat ->
  digits_value 0 (dec_digits k n acc) = digits_value n acc.
Proof.
  induction k as [|k IH]; intros n acc Hn Hk; [done|]. cbn [dec_digits].
  destruct (Z.ltb_spec n 10) as [H|H].
  - rewrite Z.mod_small by lia. by rewrite digits_value_digit by lia.
  - rewrite Nat2Z.inj_succ, Z.pow_succ_r in Hn by lia.
    assert (0 <= n mod 10 < 10) as Hm by (apply Z.mod_pos_bound; lia).
    rewrite IH.
    + rewrite digits_value_digit by done. f_equal. pose proof (Z.div_mod n 10). lia.
    + split; [apply Z.div_pos; lia|apply Z.div_lt_upper_bound; lia].
    + intros ->. cbn in Hn. lia.
Qed.

Lemma dec_digits_length k : forall n acc, lenZ (dec_digits k n acc) <= Z.of_nat k + lenZ acc.
Proof.
  induction k as [|k IH]; intros n acc; cbn [dec_digits]; [lia|].
  destruct (n <? 10); [|specialize (IH (n / 10) (digit (n mod 10) :: acc))]; rewrite ?lenZ_cons in *; lia.
Qed.

Lemma dec_digits_digits k : forall n acc, 0 <= n -> Forall (λ c, isdigit c = true) acc ->
  Forall (λ c, isdigit c = true) (dec_digits k n acc).
Proof.
  induction k as [|k IH]; intros n acc Hn Hacc; cbn [dec_digits]; [done|].
  assert (0 <= n mod 10 < 10) as Hm by (apply Z.mod_pos_bound; lia).
  assert (isdigit (digit (n mod 10)) = true) as Hd by (unfold isdigit; rewrite digit_val by done; by arith_tests).
  destruct (n <? 10); [by constructor|]. apply IH; [apply Z.div_pos; lia|by constructor].
Qed.

Lemma dec_digits_cons k n acc : (k <> 0)%nat -> exists c l, dec_digits k n acc = c :: l.
Proof.
  revert n acc. induction k as [|k IH]; intros n acc Hk; [done|]. cbn [dec_digits].
  destruct (n <? 10); [by eexists _, _|]. destruct k as [|k]; [by eexists _, _|]. by apply IH.
Qed.

(** What ["%d"] writes, [atoi] reads. *)
Lemma atoi_format_d n : 0 <= n < 2 ^ 31 -> atoi (format_d n) = n.
Proof.
  intros Hn. unfold format_d, atoi. destruct (Z.ltb_spec n 0) as [H|_]; [lia|].
  pose proof (dec_digits_digits 10 n [] ltac:(lia) ltac:(constructor)) as Hd.
  rewrite cstr_id.
  2: { intros H. rewrite Forall_forall in Hd. specialize (Hd _ H). done. }
  assert (drop_while isspace (dec_digits 10 n []) = dec_digits 10 n []) as ->.
  { destruct (dec_digits_cons 10 n []) as (c & l & Heq); [done|]. rewrite Heq in *.
    apply Forall_cons in Hd as [Hc _]. unfold drop_while. cbn.
    assert (isspace c = false) as ->; [|done]. unfold isdigit, isspace in *.
    apply andb_true_iff in Hc as [H1%Z.leb_le H2%Z.leb_le]. by arith_tests. }
  assert (digits_value 0 (dec_digits 10 n []) = n) as Hv by (rewrite dec_digits_value by (done || lia); done).
  destruct (dec_digits_cons 10 n []) as (c & l & Heq); [done|]. rewrite Heq in *.
  apply Forall_cons in Hd as [Hc _].
  rewrite bool_decide_false by (by intros ->). rewrite bool_decide_false by (by intros ->). rewrite Hv. lia.
Qed.

Lemma format_d_length n : lenZ (format_d n) <= 11.
Proof.
  unfold format_d. pose proof (dec_digits_length 10 n []). pose proof (dec_digits_length 10 (- n) []).
  rewrite lenZ_nil in *. case_match; rewrite ?lenZ_cons; lia.
Qed.

Lemma format_d_no_nul n : NUL ∉ format_d n.
Proof.
  unfold format_d. intros H. destruct (Z.ltb_spec n 0) as [Hn|Hn].
  - apply elem_of_cons in H as [H|H]; [done|].
    pose proof (dec_digits_digits 10 (- n) [] ltac:(lia) ltac:(constructor)) as Hd.
    rewrite Forall_forall in Hd. by specialize (Hd _ H).
  - pose proof (dec_digits_digits 10 n [] ltac:(lia) ltac:(constructor)) as Hd.
    rewrite Forall_forall in Hd. by specialize (Hd _ H).
Qed.

(** ** The header *)

Definition ok_text (size : Z) : bytes :=
  lit "HTTP/1.1 200 OK" ++ eol ++ lit "Content-Length: " ++ format_d (s32 size) ++ eol ++ eol.

(** Writing on, in an array that is NUL from [lenZ t] on. *)
Lemma snprintf_more t k n s :
  (length s <= k)%nat -> lenZ s <= n - 1 ->
  snprintf (t ++ NUL :: replicate k NUL) (lenZ t) n s =
    Some ((t ++ s) ++ NUL :: replicate (k - length s) NUL, lenZ s).
Proof.
  intros Hk Hn. unfold snprintf. rewrite takeZ_ge by done.
  assert (NUL :: replicate k NUL = replicate (S (length s)) NUL ++ replicate (k - length s) NUL) as ->.
  { rewrite <- replicate_add. by replace (S (length s) + (k - length s))%nat with (S k) by lia. }
  rewrite fill_app; [|done|unfold lenZ; rewrite length_app, length_replicate; cbn; lia].
  cbn [mbind option_bind]. by rewrite <- !app_assoc.
Qed.

Lemma ok_header_text size : exists h, ok_header size = Some h /\ cstring h 0 = Some (ok_text size).
Proof.
  pose proof (format_d_length (s32 size)) as Hl. pose proof (lenZ_nonneg (format_d (s32 size))) as Hnn.
  set (s1 := lit "HTTP/1.1 " ++ status_line true ++ eol).
  set (s2 := lit "Content-Length: " ++ format_d (s32 size) ++ eol).
  assert (lenZ s1 = 17) as H1 by done.
  assert (lenZ s2 = 18 + lenZ (format_d (s32 size))) as H2.
  { unfold s2. rewrite !lenZ_app. change (lenZ (lit "Content-Length: ")) with 16. change (lenZ eol) with 2. lia. }
  unfold ok_header. fold s1 s2. change (replicate (Z.to_nat BUFFER_SIZE) NUL) with ([] ++ NUL :: replicate 1023 NUL).
  unfold BUFFER_SIZE. rewrite (snprintf_more [] 1023) by (rewrite ?H1; unfold lenZ in *; lia). cbn [mbind option_bind fst snd].
  rewrite app_nil_l, snprintf_more by (rewrite ?H1, ?H2; unfold lenZ in *; lia). cbn [mbind option_bind fst snd].
  rewrite <- lenZ_app, snprintf_more.
  2: { change (length eol) with 2%nat. unfold lenZ in *. lia. }
  2: { rewrite lenZ_app, H1, H2. change (lenZ eol) with 2. lia. }
  eexists. split; [done|]. cbn [fst]. unfold ok_text. eapply (cstring_eq _ [] _ _ 0); [|done|].
  - cbn [app]. f_equal. unfold s1, s2. by rewrite <- !app_assoc.
  - rewrite !not_elem_of_app. split_and!.
    4: apply format_d_no_nul.
    all: apply (bool_decide_unpack _); vm_compute; exact I.
Qed.

Lemma error_header_text : exists h, error_header = Some h /\ cstring h 0 = Some eol.
Proof. destruct error_header as [h|] eqn:He; [exists h; split; [done|]|]; vm_compute in He; [injection He as <-; by vm_compute|done]. Qed.

(** ** The protocol

    The sockets that are open, what [stat] said, what [open] answered and whether
    that file is open, the length of the array and what was read into it, and what was
    handed to the system to be sent. *)
Record world := mkWorld {
  v_listen : option Z; v_conn : option Z; v_stat : option (option fstat); v_opened : option Z;
  v_file : option Z; v_array : option Z; v_read : option (option bytes); v_out : bytes; v_failed : bool
}.
Definition world0 : world := mkWorld None None None None None None None [] false.

(** The file is sent when it is not a directory, may be read and was read. *)
Definition response (st : option fstat) (got : option (option bytes)) : bytes :=
  match st, got with
  | Some st, Some (Some bs) => ok_text (st_size st) ++ bs ++ replicate (Z.to_nat (st_size st - lenZ bs)) NUL
  | _, _ => eol
  end.

Definition set_listen (x : option Z) (w : world) : world :=
  mkWorld x (v_conn w) (v_stat w) (v_opened w) (v_file w) (v_array w) (v_read w) (v_out w) (v_failed w).
Definition set_conn (x : option Z) (w : world) : world :=
  mkWorld (v_listen w) x (v_stat w) (v_opened w) (v_file w) (v_array w) (v_read w) (v_out w) (v_failed w).
Definition set_stat (x : option fstat) (w : world) : world :=
  mkWorld (v_listen w) (v_conn w) (Some x) (v_opened w) (v_file w) (v_array w) (v_read w) (v_out w) (v_failed w).
Definition set_opened (fd : Z) (w : world) : world :=
  mkWorld (v_listen w) (v_conn w) (v_stat w) (Some fd) (if 0 <=? fd then Some fd else None)
    (v_array w) (v_read w) (v_out w) (v_failed w).
Definition close_file (w : world) : world :=
  mkWorld (v_listen w) (v_conn w) (v_stat w) (v_opened w) None (v_array w) (v_read w) (v_out w) (v_failed w).
Definition set_array (x : option Z) (w : world) : world :=
  mkWorld (v_listen w) (v_conn w) (v_stat w) (v_opened w) (v_file w) x (v_read w) (v_out w) (v_failed w).
Definition set_read (x : option bytes) (w : world) : world :=
  mkWorld (v_listen w) (v_conn w) (v_stat w) (v_opened w) (v_file w) (v_array w) (Some x) (v_out w) (v_failed w).
Definition set_out (bs : bytes) (w : world) : world :=
  mkWorld (v_listen w) (v_conn w) (v_stat w) (v_opened w) (v_file w) (v_array w) (v_read w) (v_out w ++ bs) (v_failed w).
Definition fail (w : world) : world :=
  mkWorld (v_listen w) (v_conn w) (v_stat w) (v_opened w) (v_file w) (v_array w) (v_read w) (v_out w) true.

Section protocol.
Context (address : sockaddr) (file_name : bytes).

(** The connection is closed when it has been answered, and once, the listening socket
    after it, and a file whenever it is open; the array is deleted if there is one.  A
    pointer that was never set is deleted only when the answer was the empty line, with
    the listening socket still open. *)
Definition may (w : world) (A : Type) (e : fileE A) : Prop :=
  match e with
  | WSocket => v_listen w = None
  | WBind fd a => v_listen w = Some fd /\ a = address
  | WListen fd _ | WAccept fd => v_listen w = Some fd /\ v_conn w = None
  | WStat n => n = file_name /\ v_stat w = None
  | WOpen n => n = file_name /\ exists st, v_stat w = Some (Some st) /\ st_dir st = false /\ st_roth st = true
  | New n => exists st, v_stat w = Some (Some st) /\ n = st_size st + 1 /\ v_array w = None
  | WRead fd n => v_opened w = Some fd /\ v_array w = Some (n + 1)
  | Writev fd _ | WSend fd _ => v_conn w = Some fd /\ v_out w = []
  | WClose fd => v_listen w = Some fd /\ v_conn w = None \/ v_file w = Some fd \/
      v_conn w = Some fd /\ exists st, v_stat w = Some st /\ v_out w = response st (v_read w)
  | Delete => is_Some (v_array w) /\ v_conn w = None
  | Wild => v_array w = None /\ v_conn w = None /\ v_opened w = None /\ v_out w = eol /\ is_Some (v_listen w)
  | WAbort => v_failed w = true
  end.

(** A file is given a descriptor that no socket has, and cannot be read if it could not be
    opened.  How much of what it is handed the system sends, it answers; the program does
    not look at it. *)
Definition does (w : world) (A : Type) (e : fileE A) : A -> world -> Prop :=
  match e in fileE A return A -> world -> Prop with
  | WSocket => λ a w', w' = if 0 <=? a then set_listen (Some a) w else fail w
  | WBind _ _ | WListen _ _ => λ a w', a = 0 /\ w' = w \/ a = -1 /\ w' = fail w
  | WAccept fd => λ a w', a < 0 /\ w' = w \/ 0 <= a /\ a <> fd /\ w' = set_conn (Some a) w
  | WStat _ => λ a w', (match a with Some st => 0 <= st_size st < 2 ^ 63 | None => True end) /\ w' = set_stat a w
  | WOpen _ => λ a w', v_listen w <> Some a /\ v_conn w <> Some a /\ w' = set_opened a w
  | New n => λ a w', w' = if a then set_array (Some n) w else fail w
  | WRead fd n => λ a w',
      (match a with Some bs => 0 <= fd /\ lenZ bs <= n | None => True end) /\ w' = set_read a w
  | Writev _ iov => λ n w', -1 <= n <= lenZ (concat iov) /\ w' = set_out (concat iov) w
  | WSend _ bs => λ n w', -1 <= n <= lenZ bs /\ w' = set_out bs w
  | WClose fd => λ _ w',
      w' = if bool_decide (v_file w = Some fd) then close_file w
           else if bool_decide (v_conn w = Some fd) then set_conn None w else set_listen None w
  | Delete => λ _ w', w' = set_array None w
  | Wild | WAbort => λ _ _, False
  end.

Definition writev_protocol : protocol fileE world := Protocol may does.
End protocol.

(** The descriptor that [open] answered is one of an open file. *)
Definition left_open (o : option Z) : option Z := fd ← o; if 0 <=? fd then Some fd else None.

Section proofs.
Context (address : sockaddr) (file_name : bytes).
Abbreviation P := (writev_protocol address file_name).

Ltac v_call :=
  eapply total_call_bind;
  [cbn [allowed writev_protocol may]|intros ? ?; cbn [answers writev_protocol does]].

Lemma abort_total {R} (Q : R -> world -> Prop) w : v_failed w = true -> total P Q w abort.
Proof. intros Hf. unfold abort. v_call; [done|]. done. Qed.

Lemma check_total {R} (Q : R -> world -> Prop) b w (k : unit -> prog R) :
  (b = false -> v_failed w = true) -> (b = true -> total P Q w (k tt)) -> total P Q w (check b ≫= k).
Proof.
  intros Hf Hk. destruct b; [by apply total_ret_bind, Hk|].
  eapply total_bind with (Q := λ _ _, False); [by apply abort_total, Hf|done].
Qed.

(** What [load] leaves: the listening socket, the connection and what [open] answered are
    not the same descriptor. *)
Definition loaded (ls c : Z) (d : doc) (w : world) : Prop :=
  exists st op arr got, w = mkWorld (Some ls) (Some c) (Some st) op (left_open op) arr got [] false /\
    op <> Some ls /\ op <> Some c /\
    (file_buf d = None <-> arr = None) /\ (op = None <-> arr = None) /\
    if valid d then exists bs zeros, st = Some (file_stat d) /\ got = Some (Some bs) /\
      file_buf d = Some (bs ++ dropZ (lenZ bs) zeros) /\
      zeros = replicate (Z.to_nat (st_size (file_stat d) + 1)) NUL /\ lenZ bs <= st_size (file_stat d)
    else response st got = eol.

Lemma load_total ls c :
  total P (λ d w, loaded ls c d w) (mkWorld (Some ls) (Some c) None None None None None [] false) (load file_name).
Proof.
  unfold load. v_call; [done|]. intros [Hsz ->]. destruct a as [st|].
  2: { apply total_ret. eexists _, None, _, _. by split_and!. }
  destruct (st_dir st) eqn:Hdir; [apply total_ret; eexists _, None, _, _; by split_and!|].
  destruct (st_roth st) eqn:Hroth; [|apply total_ret; eexists _, None, _, _; by split_and!].
  v_call; [split; [done|by exists st]|]. intros (Hls & Hc & ->). rename a into fd. v_call; [by exists st|].
  intros ->. destruct a; cbn [negb]; [|by apply abort_total].
  v_call; [done|]. intros [Hlen ->]. cbn in Hls, Hc. destruct a as [bs|]; apply total_ret.
  - eexists _, (Some fd), _, _. split_and!; [done|congruence|congruence|done|done|]. cbn. eexists bs, _. naive_solver.
  - eexists _, (Some fd), _, _. split_and!; [done|congruence|congruence|done..].
Qed.

Lemma respond_total ls c d w :
  loaded ls c d w ->
  total P (λ _ w', exists st op arr got,
      w' = mkWorld (Some ls) (Some c) (Some st) op (left_open op) arr got (response st got) false /\
      op <> Some ls /\ op <> Some c /\ (op = None <-> arr = None) /\
      (file_buf d = None <-> arr = None) /\ (file_buf d = None -> response st got = eol)) w (respond c d).
Proof.
  intros (st & op & arr & got & -> & Hls & Hc & Harr & Hop & Hd). unfold respond. destruct (valid d).
  - destruct Hd as (bs & zeros & -> & -> & Hbuf & Hz & Hlen).
    destruct (ok_header_text (st_size (file_stat d))) as (h & -> & Hh). cbn [within]. apply total_ret_bind.
    rewrite Hh. apply total_ret_bind. rewrite Hbuf in *. apply total_ret_bind.
    v_call; [done|]. intros [_ ->]. apply total_ret.
    exists (Some (file_stat d)), op, arr, (Some (Some bs)). split; [|by split_and!].
    assert (takeZ (st_size (file_stat d)) (bs ++ dropZ (lenZ bs) zeros) =
            bs ++ replicate (Z.to_nat (st_size (file_stat d) - lenZ bs)) NUL) as ->.
    { subst zeros. unfold takeZ, dropZ, lenZ in *. rewrite take_app, take_ge by lia. f_equal.
      rewrite drop_replicate, take_replicate. f_equal. lia. }
    unfold set_out. cbn [v_listen v_conn v_stat v_opened v_file v_array v_read v_out v_failed response concat app].
    by rewrite app_nil_r.
  - destruct error_header_text as (h & -> & Hh). cbn [within]. apply total_ret_bind. rewrite Hh. apply total_ret_bind.
    v_call; [done|]. intros [_ ->]. apply total_ret. eexists _, _, _, _. split; [|by split_and!]. by rewrite Hd.
Qed.
End proofs.

(** What is left when the program ends: no socket and no array; a file that was opened
    stays open, and a connection was served only if a file was opened for it. *)
Definition left_behind (w : world) : Prop :=
  v_listen w = None /\ v_conn w = None /\ v_array w = None /\ v_file w = left_open (v_opened w) /\
  (is_Some (v_stat w) -> is_Some (v_opened w)).

