(* ===== verification/Winsock.v ===== *)
(** * Two Winsock samples
      (src/Windows/TCP-IPNetworkPrograming/AcceptExFunction/AcceptExFunction.cpp and
      src/Windows/Demo/DemoProject/DemoProject/Non-blockingConnect.cpp)

    The first starts one [AcceptEx] on a listening socket; the second connects
    without blocking, as [Connect] does on Linux.  What they print is left out. *)
From S2P Require Import Prelude CLib Interact Posix.

Definition INVALID_SOCKET : Z := -1.
Definition SOCKET_ERROR : Z := -1.
Definition WSA_IO_PENDING : Z := 997.
Definition WSAEWOULDBLOCK : Z := 10035.

(** ** Calls

    A pair is what a call returns and the last error after it.  [WGethostbyname]
    answers [None] for the null pointer; [WCrash] is its use.  [Uninitialised] is the
    use of a variable that was never set. *)
Variant winE : Type -> Type :=
  | WStartup : winE Z
  | WCompletionPort : winE Z
  | WSock : winE Z
  | WAssociate (s port : Z) : winE Z
  | WGethostbyname : winE (option Z)
  | WBindTo (s : Z) (a : sockaddr) : winE Z
  | WListenOn (s n : Z) : winE Z
  | WSAIoctl (s : Z) : winE Z
  | AcceptEx (listening accepting room : Z) : winE (bool * Z)
  | Ioctlsocket (s : Z) : winE Z
  | WConnect (s : Z) (a : sockaddr) : winE (Z * Z)
  | WSelect (n : Z) (wr : gset Z) (secs : Z) : winE Z
  | Closesocket (s : Z) : winE unit
  | WCleanup : winE unit
  | WCrash : winE Empty_set
  | Uninitialised : winE Empty_set.

Abbreviation wprog := (itree winE).

Definition wcrash {A} : wprog A := syscall WCrash ≫= λ v : Empty_set, match v with end.

(** ** AcceptExFunction.cpp *)

(** [sizeof(sockaddr_in)] and [outBufLen]. *)
Definition sizeof_sockaddr_in : Z := 16.
Definition outBufLen : Z := 1024.

Definition fail_with (socks : list Z) : wprog Z :=
  (fix go socks := match socks with [] => mret tt | s :: socks => syscall (Closesocket s);; go socks end) socks;;
  syscall WCleanup;;
  mret 1.

Definition accept_main : wprog Z :=
  iResult ← syscall WStartup;
  if negb (iResult =? 0) then mret 1
  else
    hCompPort ← syscall WCompletionPort;
    if hCompPort =? 0 then fail_with []
    else
      ListenSocket ← syscall WSock;
      if ListenSocket =? INVALID_SOCKET then fail_with []
      else
        syscall (WAssociate ListenSocket hCompPort);;
        thisHost ← syscall WGethostbyname;
        match thisHost with
        | None => wcrash
        | Some ip =>
            r ← syscall (WBindTo ListenSocket (mkAddr ip (htons 27015)));
            if r =? SOCKET_ERROR then fail_with [ListenSocket]
            else
              iResult ← syscall (WListenOn ListenSocket 100);
              if iResult =? SOCKET_ERROR then fail_with [ListenSocket]
              else
                iResult ← syscall (WSAIoctl ListenSocket);
                if iResult =? SOCKET_ERROR then fail_with [ListenSocket]
                else
                  AcceptSocket ← syscall WSock;
                  if AcceptSocket =? INVALID_SOCKET then fail_with [ListenSocket]
                  else
                    r ← syscall (AcceptEx ListenSocket AcceptSocket (outBufLen - (sizeof_sockaddr_in + 16) * 2));
                    let '(bRetVal, err) := r : bool * Z in
                    if negb bRetVal && negb (err =? WSA_IO_PENDING) then fail_with [AcceptSocket; ListenSocket]
                    else
                      hCompPort2 ← syscall (WAssociate AcceptSocket hCompPort);
                      if hCompPort2 =? 0 then fail_with [AcceptSocket; ListenSocket] else mret 0
        end.

(** ** Non-blockingConnect.cpp *)

(** The first function connects with a variable that was never set. *)
Definition nonblockingConnect0 : wprog unit :=
  syscall Uninitialised ≫= λ v : Empty_set, match v with end.

(** Between the test of [ioctlsocket] and the next call there is [false;], which does
    nothing. *)
Definition nonblockingConnect (inet_addr : bytes -> Z) (ip : bytes) (port timeout : Z) : wprog bool :=
  fd ← syscall WSock;
  if fd =? INVALID_SOCKET then mret false
  else
    ret ← syscall (Ioctlsocket fd);
    (if ret =? SOCKET_ERROR then syscall (Closesocket fd) else mret tt);;
    r ← syscall (WConnect fd (mkAddr (inet_addr ip) (htons port)));
    let '(ret, err) := r : Z * Z in
    if ret =? 0 then mret true
    else if (ret =? SOCKET_ERROR) && negb (err =? WSAEWOULDBLOCK) then mret false
    else
      ret ← syscall (WSelect (fd + 1) {[fd]} timeout);
      if negb (ret =? 1) then mret false else mret true.

(** ** The protocol

    Whether Winsock is started and the port made; the sockets that are open, those
    that listen and the accept that was started; for a connection, whether its socket
    blocks and how it stands. *)
Inductive link := Unlinked | Linking | Linked | Refused.

Record winsock := mkWinsock {
  k_up : bool; k_port : option Z; k_open : gset Z; k_listening : option Z; k_accepting : option (Z * Z);
  k_blocking : bool; k_link : link; k_closed : option Z
}.
Definition winsock0 : winsock := mkWinsock false None ∅ None None true Unlinked None.

Section protocol.
Context (address : sockaddr).

Definition may (w : winsock) (A : Type) (e : winE A) : Prop :=
  match e with
  | WStartup => k_up w = false
  | WCompletionPort => k_up w = true /\ k_port w = None
  | WSock | WGethostbyname => True
  | WAssociate s port => (s ∈ k_open w) /\ k_port w = Some port
  | WBindTo s a => (s ∈ k_open w) /\ sin_port a = htons 27015
  | WListenOn s _ | WSAIoctl s | Ioctlsocket s => s ∈ k_open w
  | AcceptEx l s room => k_listening w = Some l /\ (s ∈ k_open w) /\ l <> s /\ k_accepting w = None /\
      room + 2 * (sizeof_sockaddr_in + 16) = outBufLen
  | WConnect s a => a = address /\ (s ∈ k_open w \/ k_closed w = Some s)
  | WSelect n wr _ => k_link w = Linking /\ exists s, wr = {[s]} /\ n = s + 1 /\ (s ∈ k_open w)
  | Closesocket s => s ∈ k_open w
  | WCleanup => k_up w = true /\ k_open w = ∅
  | WCrash => True
  | Uninitialised => False
  end.

(** Documented answers.  A socket that was closed is refused as no socket. *)
Definition does (w : winsock) (A : Type) (e : winE A) : A -> winsock -> Prop :=
  match e in winE A return A -> winsock -> Prop with
  | WStartup => λ a w', w' = if a =? 0 then mkWinsock true (k_port w) (k_open w) (k_listening w) (k_accepting w)
                                             (k_blocking w) (k_link w) (k_closed w) else w
  | WCompletionPort => λ a w',
      w' = if a =? 0 then w else mkWinsock (k_up w) (Some a) (k_open w) (k_listening w) (k_accepting w)
                                   (k_blocking w) (k_link w) (k_closed w)
  | WSock => λ a w', (a ∉ k_open w) /\
      w' = if a =? INVALID_SOCKET then w
           else mkWinsock (k_up w) (k_port w) ({[a]} ∪ k_open w) (k_listening w) (k_accepting w)
                  (k_blocking w) (k_link w) (k_closed w)
  | WAssociate _ _ | WBindTo _ _ | WSAIoctl _ | WGethostbyname => λ _ w', w' = w
  | WListenOn s _ => λ a w',
      w' = if a =? SOCKET_ERROR then w
           else mkWinsock (k_up w) (k_port w) (k_open w) (Some s) (k_accepting w) (k_blocking w) (k_link w) (k_closed w)
  | AcceptEx l s _ => λ a w',
      w' = if negb a.1 && negb (a.2 =? WSA_IO_PENDING) then w
           else mkWinsock (k_up w) (k_port w) (k_open w) (k_listening w) (Some (l, s))
                  (k_blocking w) (k_link w) (k_closed w)
  | Ioctlsocket _ => λ a w', a = 0 /\
      w' = mkWinsock (k_up w) (k_port w) (k_open w) (k_listening w) (k_accepting w) false (k_link w) (k_closed w) \/
      a = SOCKET_ERROR /\ w' = w
  | WConnect s _ => λ a w',
      if bool_decide (s ∈ k_open w) then
        (a.1 = 0 /\ w' = mkWinsock (k_up w) (k_port w) (k_open w) (k_listening w) (k_accepting w) (k_blocking w) Linked (k_closed w)) \/
        (a.1 = SOCKET_ERROR /\ a.2 = WSAEWOULDBLOCK /\ k_blocking w = false /\
           w' = mkWinsock (k_up w) (k_port w) (k_open w) (k_listening w) (k_accepting w) (k_blocking w) Linking (k_closed w)) \/
        (a.1 = SOCKET_ERROR /\ a.2 <> WSAEWOULDBLOCK /\
           w' = mkWinsock (k_up w) (k_port w) (k_open w) (k_listening w) (k_accepting w) (k_blocking w) Refused (k_closed w))
      else a.1 = SOCKET_ERROR /\ a.2 <> WSAEWOULDBLOCK /\ w' = w
  | WSelect _ _ _ => λ a w',
      (a = 1 /\ w' = mkWinsock (k_up w) (k_port w) (k_open w) (k_listening w) (k_accepting w) (k_blocking w) Linked (k_closed w)) \/
      (a = 0 \/ a = SOCKET_ERROR) /\ w' = w
  | Closesocket s => λ _ w',
      w' = mkWinsock (k_up w) (k_port w) (k_open w ∖ {[s]}) (k_listening w) (k_accepting w)
             (k_blocking w) (k_link w) (Some s)
  | WCleanup => λ _ w', w' = mkWinsock false (k_port w) (k_open w) (k_listening w) (k_accepting w)
                               (k_blocking w) (k_link w) (k_closed w)
  | WCrash | Uninitialised => λ _ _, False
  end.

Definition winsock_protocol : protocol winE winsock := Protocol may does.
End protocol.

Section proofs.
Context (address : sockaddr).
Abbreviation P := (winsock_protocol address).

Definition accept_done (r : Z) (w : winsock) : Prop :=
  r = 0 /\ k_up w = true /\ (exists l s, k_listening w = Some l /\ k_accepting w = Some (l, s) /\ k_open w = {[l; s]}) \/
  r = 1 /\ k_up w = false /\ k_open w = ∅.

Lemma fail_with_total socks : forall w,
  k_up w = true -> NoDup socks -> k_open w = list_to_set socks -> total P accept_done w (fail_with socks).
Proof.
  unfold fail_with. intros w Hup Hnd Ho.
  eapply total_bind with (Q := λ _ w', k_up w' = true /\ k_open w' = ∅).
  - revert w Hup Ho. induction socks as [|s socks IH]; intros w Hup Ho; [by apply total_ret|].
    apply NoDup_cons in Hnd as [Hs Hnd].
    eapply total_call_bind; [cbn; rewrite Ho; set_solver|]. intros [] w' ->. apply IH; [done|done|].
    cbn. rewrite Ho. cbn. assert (s ∉ (list_to_set socks : gset Z)) as Hs' by (by rewrite elem_of_list_to_set). set_solver.
  - intros [] w' [Hup' Ho']. eapply total_call_bind; [done|]. intros [] w2 ->. apply total_ret. by right.
Qed.

Ltac k_call a w H := eapply total_call_bind; [|intros a w H; cbn in H].

Lemma accept_main_total : total P accept_done winsock0 accept_main.
Proof.
  unfold accept_main. k_call st w H; [done|]. subst w. destruct (st =? 0); [|by apply total_ret; right]. cbn [negb].
  k_call port w H; [done|]. subst w. destruct (port =? 0) eqn:Hp; [by apply fail_with_total; [..|constructor|]|].
  k_call l w H; [done|]. destruct H as [_ ->]. destruct (l =? INVALID_SOCKET) eqn:Hl.
  { by apply fail_with_total; [..|constructor|]. }
  k_call as1 w H; [cbn; set_solver|]. subst w. k_call host w H; [done|]. subst w. destruct host as [ip|].
  2: { unfold wcrash. eapply total_call_bind; [done|]. done. }
  assert (forall w, k_up w = true -> k_open w = {[l]} -> total P accept_done w (fail_with [l])) as Hfail1.
  { intros w Hup Ho. apply fail_with_total; [done|apply NoDup_singleton|]. rewrite Ho. set_solver. }
  cbn [k_up k_port k_open k_listening k_accepting k_blocking k_link k_closed winsock0].
  assert (({[l]} ∪ ∅ : gset Z) = {[l]}) as Heq by set_solver. rewrite Heq.
  k_call b w H; [cbn; split; [set_solver|done]|]. subst w. destruct (b =? SOCKET_ERROR); [by apply Hfail1|].
  k_call li w H; [cbn; set_solver|]. subst w. destruct (li =? SOCKET_ERROR); [by apply Hfail1|].
  k_call io w H; [cbn; set_solver|]. subst w. destruct (io =? SOCKET_ERROR); [by apply Hfail1|].
  k_call s w H; [done|]. destruct H as [Hn ->]. destruct (s =? INVALID_SOCKET); [by apply Hfail1|].
  assert (l <> s) as Hne by set_solver.
  assert (forall w, k_up w = true -> k_open w = {[s]} ∪ {[l]} -> total P accept_done w (fail_with [s; l])) as Hfail2.
  { intros w Hup Ho. apply fail_with_total; [done|repeat constructor; set_solver|]. rewrite Ho. set_solver. }
  k_call r w H; [cbn; split_and!; [done|set_solver|done|done|done]|]. subst w. destruct r as [ok err].
  cbn [fst snd]. destruct (negb ok && negb (err =? WSA_IO_PENDING)) eqn:Hb; [by apply Hfail2|].
  k_call p2 w H; [cbn; split; [set_solver|done]|]. subst w. destruct (p2 =? 0); [by apply Hfail2|].
  apply total_ret. left. split; [done|]. split; [done|]. exists l, s. split_and!; [done..|]. cbn. set_solver.
Qed.

Lemma nonblockingConnect_total inet_addr ip port timeout :
  address = mkAddr (inet_addr ip) (htons port) ->
  total P (λ r w, (r = true <-> k_link w = Linked) /\
                  (k_blocking w = false -> exists fd, k_open w = {[fd]}) /\
                  (k_blocking w = true -> k_open w = ∅ /\ r = false))
    winsock0 (nonblockingConnect inet_addr ip port timeout).
Proof.
  intros Ha. unfold nonblockingConnect. k_call fd w H; [done|]. destruct H as [_ ->].
  destruct (fd =? INVALID_SOCKET) eqn:Hi; [by apply total_ret|]. cbn [k_up k_port k_open k_listening k_accepting winsock0].
  assert (({[fd]} ∪ ∅ : gset Z) = {[fd]}) as Heq by set_solver. rewrite Heq.
  k_call io w H; [cbn; set_solver|]. destruct H as [[-> ->]|[-> ->]].
  - change (0 =? SOCKET_ERROR) with false. cbn iota. apply total_ret_bind.
    k_call r w H; [cbn; split; [done|left; set_solver]|]. cbn in H. rewrite bool_decide_true in H by set_solver.
    destruct r as [ret err]. cbn in H.
    destruct H as [[-> ->]|[(-> & -> & _ & ->)|(-> & He & ->)]]; cbn.
    + apply total_ret. cbn. split_and!; [done|intros _; by eexists|done].
    + k_call n w H; [cbn; split; [done|]; exists fd; split_and!; [done|done|set_solver]|].
      destruct H as [[-> ->]|[H ->]]; cbn.
      * apply total_ret. split_and!; [done|intros _; by eexists|done].
      * assert (negb (n =? 1) = true) as -> by (destruct H as [-> | ->]; done).
        apply total_ret. split_and!; [done|intros _; by eexists|done].
    + assert (negb (err =? WSAEWOULDBLOCK) = true) as -> by (apply negb_true_iff, Z.eqb_neq; done).
      apply total_ret. cbn. split_and!; [done|intros _; by eexists|done].
  - change (SOCKET_ERROR =? SOCKET_ERROR) with true. cbn iota.
    k_call u w H; [cbn; set_solver|]. subst w. cbn.
    k_call r w H; [cbn; split; [done|by right]|]. cbn in H. rewrite bool_decide_false in H by set_solver.
    destruct r as [ret err]. destruct H as (Hr & He & ->). cbn in Hr, He. subst ret. cbn.
    assert (negb (err =? WSAEWOULDBLOCK) = true) as -> by (apply negb_true_iff, Z.eqb_neq; done).
    apply total_ret. cbn. split_and!; [done|done|]. intros _. split; [set_solver|done].
Qed.
End proofs.
