(* ===== verification/WebMain.v ===== *)
(** * The accepting thread of the web server
      (src/Linux/TCP-IPNetworkPrograming/http_server/http_server.c, main)

    [main] opens the listening socket and then accepts for ever.  What it does to the
    variable it shares with its threads is the step relation of [Web]: this file shows
    that its calls are such steps. *)
From S2P Require Import Prelude CLib CStr Interact Posix Web.

(** ** Calls

    [MAccept] is [accept] with the assignment of its result to [clnt_sock];
    [pthread_create] is given the address of that variable. *)
Variant mainE : Type -> Type :=
  | MSocket : mainE Z
  | MBind (fd : Z) (a : sockaddr) : mainE Z
  | MListen (fd backlog : Z) : mainE Z
  | MAccept (fd : Z) : mainE Z
  | MCreate : mainE unit
  | MDetach : mainE unit
  | MExit (code : Z) : mainE Empty_set.

Abbreviation prog := (itree mainE).

Definition error_handling {A} : prog A := syscall (MExit 1) ≫= λ v : Empty_set, match v with end.

Definition accept_turn (serv_sock : Z) : prog (unit + Z) :=
  syscall (MAccept serv_sock);;
  syscall MCreate;;
  syscall MDetach;;
  mret (inl tt).

Definition main (argc : Z) (port : bytes) : prog Z :=
  if negb (argc =? 2) then error_handling
  else
    serv_sock ← syscall MSocket;
    r ← syscall (MBind serv_sock (mkAddr (htonl 0) (htons (atoi port))));
    if r =? -1 then error_handling
    else
      r ← syscall (MListen serv_sock 20);
      if r =? -1 then error_handling
      else loop (λ _ : unit, accept_turn serv_sock) tt.

(** ** What the calls do

    How far the listening socket is, and the variable with the threads. *)
Inductive stage := Nothing | Made (fd : Z) | Bound (fd : Z) (a : sockaddr) | Listening (fd : Z).

(** The steps of threads, which begin and close what they have served. *)
Inductive starts : accepting -> accepting -> Prop :=
  | starts_now s i :
      threads s !! i = Some Waiting ->
      starts s (mkAccepting (clnt_sock s) (got_one s) (<[i := Serving (clnt_sock s)]> (threads s)) (in_use s) (accepted s))
  | closes_now s i fd :
      threads s !! i = Some (Serving fd) ->
      starts s (mkAccepting (clnt_sock s) (got_one s) (<[i := Ended fd]> (threads s)) (in_use s ∖ {[fd]}) (accepted s)).

(** [main] accepts when it has handed out what it accepted before, and makes a thread
    when it has not. *)
Definition may (port : Z) (s : stage * accepting) (A : Type) (e : mainE A) : Prop :=
  match e with
  | MSocket => s.1 = Nothing
  | MBind fd a => s.1 = Made fd /\ a = mkAddr 0 port
  | MListen fd _ => s.1 = Bound fd (mkAddr 0 port)
  | MAccept fd => s.1 = Listening fd /\ got_one s.2 = false
  | MCreate => (exists fd, s.1 = Listening fd) /\ got_one s.2 = true
  | MDetach => exists fd, s.1 = Listening fd
  | MExit _ => forall fd, s.1 <> Listening fd
  end.

Definition stored (r : Z) (s s' : accepting) : Prop :=
  main_step s s' /\ clnt_sock s' = r /\ got_one s' = true.

Definition does (s : stage * accepting) (A : Type) (e : mainE A) : A -> stage * accepting -> Prop :=
  match e in mainE A return A -> stage * accepting -> Prop with
  | MSocket => λ r s', s' = (Made r, s.2)
  | MBind fd a => λ r s', s' = if r =? -1 then s else (Bound fd a, s.2)
  | MListen fd _ => λ r s', s' = if r =? -1 then s else (Listening fd, s.2)
  | MAccept _ => λ r s', s'.1 = s.1 /\ exists s1, stored r s.2 s1 /\ rtc starts s1 s'.2
  | MCreate => λ _ s', s'.1 = s.1 /\
      exists s1, main_step s.2 s1 /\ threads s1 = threads s.2 ++ [Waiting] /\ rtc starts s1 s'.2
  | MDetach => λ _ s', s' = s
  | MExit _ => λ _ _, False
  end.

Definition main_protocol (port : Z) : protocol mainE (stage * accepting) := Protocol (may port) does.

(** What a thread does leaves alone what [main] decides by. *)
Lemma starts_got_one s s' : rtc starts s s' -> got_one s' = got_one s.
Proof. induction 1 as [|s1 s2 s3 [s i Hi|s i fd Hi] _ IH]; [done|by rewrite IH..]. Qed.

Lemma starts_steps s s' : rtc starts s s' -> main_steps s s'.
Proof.
  induction 1 as [|s1 s2 s3 [s i Hi|s i fd Hi] _ IH]; [done|..].
  - eapply rtc_l; [by apply step_start|done].
  - eapply rtc_l; [by eapply step_close|done].
Qed.

(** What [main] and the threads did are steps of [Web]. *)
Lemma does_steps (s s' : stage * accepting) A (e : mainE A) a : does s A e a s' -> main_steps s.2 s'.2.
Proof.
  destruct e; cbn.
  - by intros ->.
  - intros ->. by destruct (a =? -1).
  - intros ->. by destruct (a =? -1).
  - intros (_ & s1 & (Hs & _) & Hr). eapply rtc_l; [done|]. by apply starts_steps.
  - intros (_ & s1 & Hs & _ & Hr). eapply rtc_l; [done|]. by apply starts_steps.
  - by intros ->.
  - done.
Qed.

(** The listening socket is made, bound to the port asked for and listened on before
    anything is accepted, then sockets are accepted and given to threads in turn, and
    the loop never ends. *)
Lemma main_safe argc port :
  safe (main_protocol (htons (atoi port))) (λ _ _, False) (Nothing, accepting0) (main argc port).
Proof.
  assert (forall A Q s, (forall fd, s.1 <> Listening fd) ->
    safe (main_protocol (htons (atoi port))) Q s (@error_handling A)) as Herr.
  { intros A Q s Hs. apply safe_call; [done|]. intros []. }
  unfold main. destruct (argc =? 2); [cbn [negb]|by apply Herr].
  apply safe_call; [done|]. intros fd s ->. apply safe_call; [done|].
  intros r s ->. destruct (r =? -1) eqn:Hr; [by apply Herr|].
  apply safe_call; [done|]. intros r' s ->. destruct (r' =? -1) eqn:Hr'; [by apply Herr|].
  apply (safe_loop _ (λ _ s, s.1 = Listening fd /\ got_one s.2 = false)); [|done].
  intros [] s1 [H1 Hg1]. unfold accept_turn. apply safe_call; [done|].
  intros a s2 (H2 & s2' & (_ & _ & Hg2) & Hst2). apply starts_got_one in Hst2.
  apply safe_call; [cbn; split; [exists fd; congruence|congruence]|].
  intros [] s3 (H3 & s3' & Hc & Hth & Hst3). apply starts_got_one in Hst3.
  assert (got_one s3' = false) as Hg3.
  { destruct Hc as [s fd' Hg|s Hg|s Hg|s i Hi|s i fd' Hi]; cbn in *; try congruence;
      apply (f_equal length) in Hth; rewrite length_insert, length_app in Hth; cbn in Hth; lia. }
  apply safe_call; [cbn; exists fd; congruence|]. intros [] s4 ->. apply safe_ret. split; congruence.
Qed.
