(* ===== verification/Unix.v ===== *)
(** * The calls of the small Linux samples

    The samples of [src/Linux] that are one [main] of a few calls: files, streams,
    datagrams, [epoll] and signals.  A call answers with what it returns; an array on the
    stack holds some bytes ([junk]) before anything is written to it, and leaving it, or
    using a null pointer, is the end of the process ([Crash]). *)
From S2P Require Import Prelude CLib CStr Interact Posix.

(** ** Calls

    A [FILE] is a number, 0 the null pointer; [None] is -1, or the null pointer of
    [fgets].  [Interrupted] says whether, and by which signal, a call has been cut short. *)
Inductive sock_type := Stream | Dgram.

(** Which of [EPOLLIN], [EPOLLOUT] are asked for or have happened. *)
Record epoll_event := mkEvent { ev_fd : Z; ev_in : bool; ev_out : bool }.
Inductive epoll_op := EpollAdd | EpollMod.

Variant unixE : Type -> Type :=
  | Socket (ty : sock_type) : unixE Z
  | Bind (fd : Z) (a : sockaddr) : unixE Z
  | Listen (fd n : Z) : unixE Z
  | Accept (fd : Z) : unixE Z
  | Connect (fd : Z) (a : sockaddr) : unixE Z
  | Dup (fd : Z) : unixE Z
  | Setsockopt (fd : Z) : unixE Z
  | Getfl (fd : Z) : unixE Z
  | Setfl (fd flags : Z) : unixE Z
  | Recvfrom (fd n : Z) : unixE (option (bytes * sockaddr))
  | Sendto (fd : Z) (bs : bytes) (a : sockaddr) : unixE Z
  | Open (name : bytes) (writing : bool) : unixE Z
  | Read (fd n : Z) : unixE (option bytes)
  | Write (fd : Z) (bs : bytes) : unixE Z
  | Close (fd : Z) : unixE unit
  | Fopen (name mode : bytes) : unixE Z
  | Fgets (n fp : Z) : unixE (option bytes)
  | Feof (fp : Z) : unixE bool
  | Fputs (s : bytes) (fp : Z) : unixE unit
  | Fclose (fp : Z) : unixE unit
  | Pipe : unixE (option (Z * Z))
  | Splice (src dst n : Z) : unixE Z
  | Tee (src dst n : Z) : unixE Z
  | EpollCreate : unixE Z
  | EpollCtl (epfd : Z) (op : epoll_op) (fd : Z) (ev : epoll_event) : unixE Z
  | EpollWait (epfd n : Z) : unixE (option (list epoll_event))
  | Errno : unixE Z
  | PollOne (fd : Z) : unixE (Z * Z)
  | Stopped : unixE bool
  | Sleep (secs : Z) : unixE unit
  | Print (s : bytes) : unixE unit
  | Exit (code : Z) : unixE Empty_set
  | Crash : unixE Empty_set.

Abbreviation prog := (itree unixE).

Definition exit {A} (code : Z) : prog A := syscall (Exit code) ≫= λ v : Empty_set, match v with end.
Definition crash {A} : prog A := syscall Crash ≫= λ v : Empty_set, match v with end.

(** [assert]. *)
Definition check (b : bool) : prog unit := if b then mret tt else crash.

(** A use of an array, which is not left. *)
Definition within {A} (r : option A) : prog A := match r with Some a => mret a | None => crash end.

(** [argv[k]] *)
Definition arg (argv : list bytes) (k : nat) : prog bytes := within (argv !! k).

(** A stream that may be the null pointer. *)
Definition fgets (n fp : Z) : prog (option bytes) := if fp =? 0 then crash else syscall (Fgets n fp).
Definition fputs (s : bytes) (fp : Z) : prog unit := if fp =? 0 then crash else syscall (Fputs s fp).
Definition fclose (fp : Z) : prog unit := if fp =? 0 then crash else syscall (Fclose fp).

(** What is in an array after [bs] has been written to its start. *)
Definition over (bs arr : bytes) : bytes := bs ++ dropZ (lenZ bs) arr.

Lemma over_length bs arr : lenZ bs <= lenZ arr -> lenZ (over bs arr) = lenZ arr.
Proof. intros H. unfold over. rewrite lenZ_app, lenZ_dropZ; [lia|]. pose proof (lenZ_nonneg bs). lia. Qed.

(** A string ended by a NUL is read back. *)
Lemma cstring_over s l arr : NUL ∉ s -> cstring (over (s ++ NUL :: l) arr) 0 = Some s.
Proof.
  intros Hs. unfold over. rewrite <- app_assoc. cbn [app]. by apply (cstring_eq _ [] s (l ++ dropZ (lenZ (s ++ NUL :: l)) arr)).
Qed.

(** ... and so is one that a NUL is put behind. *)
Lemma cstring_put s arr :
  NUL ∉ s -> lenZ s < lenZ arr ->
  exists b, put (over s arr) (lenZ s) NUL = Some b /\ lenZ b = lenZ arr /\ cstring b 0 = Some s.
Proof.
  intros Hs Hlen. pose proof (lenZ_nonneg s). unfold over.
  destruct (dropZ (lenZ s) arr) as [|c r] eqn:Hd.
  { exfalso. apply (f_equal lenZ) in Hd. rewrite lenZ_dropZ, lenZ_nil in Hd by lia. lia. }
  rewrite put_app by done. eexists. split; [done|]. split.
  - apply (f_equal lenZ) in Hd. rewrite lenZ_dropZ, lenZ_cons in Hd by lia. rewrite lenZ_app, lenZ_cons. lia.
  - by apply (cstring_eq _ [] s r).
Qed.

Section rules.
Context {S : Type} (P : protocol unixE S).

Lemma exits_total {A} (Q : A -> S -> Prop) s c : allowed P s (Exit c) -> total P Q s (exit c).
Proof. intros H. apply total_call_bind; [done|]. intros []. Qed.

Lemma crashes_total {A} (Q : A -> S -> Prop) s : allowed P s Crash -> total P Q s crash.
Proof. intros H. apply total_call_bind; [done|]. intros []. Qed.

Lemma exits_safe {A} (Q : A -> S -> Prop) s c : allowed P s (Exit c) -> safe P Q s (exit c).
Proof. intros H. by apply total_safe, exits_total. Qed.

Lemma crashes_safe {A} (Q : A -> S -> Prop) s : allowed P s Crash -> safe P Q s crash.
Proof. intros H. by apply total_safe, crashes_total. Qed.

Lemma array_total {A R} (Q : R -> S -> Prop) s (o : option A) (k : A -> prog R) :
  (forall a, o = Some a -> total P Q s (k a)) -> (o = None -> allowed P s Crash) ->
  total P Q s (within o ≫= k).
Proof.
  intros H1 H2. destruct o as [a|]; [by apply total_ret_bind, H1|].
  eapply (total_bind _ (λ _ _, False)); [by apply crashes_total, H2|done].
Qed.

Lemma assert_total {R} (Q : R -> S -> Prop) s b (k : unit -> prog R) :
  (b = true -> total P Q s (k tt)) -> (b = false -> allowed P s Crash) -> total P Q s (check b ≫= k).
Proof.
  intros H1 H2. destruct b; [by apply total_ret_bind, H1|].
  eapply (total_bind _ (λ _ _, False)); [by apply crashes_total, H2|done].
Qed.

Lemma array_safe {A R} (Q : R -> S -> Prop) s (o : option A) (k : A -> prog R) :
  (forall a, o = Some a -> safe P Q s (k a)) -> (o = None -> allowed P s Crash) ->
  safe P Q s (within o ≫= k).
Proof.
  intros H1 H2. destruct o as [a|]; [by apply safe_ret_bind, H1|].
  eapply (safe_bind _ (λ _ _, False)); [by apply crashes_safe, H2|done].
Qed.
End rules.
