(* ===== verification/Copies.v ===== *)
(** * Copying files
      (src/Linux/TCP-IPNetworkPrograming/standard_io, low_open_read,
       src/Linux/LinuxHighPerformanceServerPrograming/tee_splice.cpp)

    [stdcpy.c] and [syscpy.c] copy a file, the one with streams, the other with system
    calls; [low_open.c] and [low_read.c] write a line into a file and show it;
    [tee_splice.cpp] copies its input to a file and to its output through two pipes. *)
From S2P Require Import Prelude CLib CStr Interact Posix Web Unix.

Definition BUF_SIZE : Z := 3.

(** ** The programs *)

Definition stdcpy_turn (fp1 fp2 : Z) : prog (unit + unit) :=
  buf ← fgets BUF_SIZE fp1;
  match buf with
  | None => mret (inr tt)
  | Some buf => fputs (cstr buf) fp2;; mret (inl tt)
  end.

Definition stdcpy : prog Z :=
  fp1 ← syscall (Fopen (lit "news.txt") (lit "r"));
  fp2 ← syscall (Fopen (lit "cpy.txt") (lit "w"));
  loop (λ _ : unit, stdcpy_turn fp1 fp2) tt;;
  fclose fp1;;
  fclose fp2;;
  mret 0.

Definition syscpy_turn (fd1 fd2 : Z) : prog (unit + unit) :=
  buf ← syscall (Read fd1 BUF_SIZE);
  match buf with
  | None | Some [] => mret (inr tt)
  | Some buf => syscall (Write fd2 buf);; mret (inl tt)
  end.

Definition syscpy : prog Z :=
  fd1 ← syscall (Open (lit "news.txt") false);
  fd2 ← syscall (Open (lit "cpy.txt") true);
  loop (λ _ : unit, syscpy_turn fd1 fd2) tt;;
  syscall (Close fd1);;
  syscall (Close fd2);;
  mret 0.

(** [error_handling] prints and exits. *)
Definition low_open : prog Z :=
  let buf := lit "Let's go!" ++ [LF; NUL] in
  fd ← syscall (Open (lit "data.txt") true);
  if fd =? -1 then exit 1
  else
    r ← syscall (Write fd buf);
    if r =? -1 then exit 1
    else syscall (Close fd);; mret 0.

Definition LOW_BUF_SIZE : Z := 100.

Definition low_read (junk : bytes) : prog Z :=
  fd ← syscall (Open (lit "data.txt") false);
  if fd =? -1 then exit 1
  else
    r ← syscall (Read fd LOW_BUF_SIZE);
    match r with
    | None => exit 1
    | Some bs =>
        s ← within (cstring (over bs junk) 0);
        syscall (Print (lit "file data: " ++ s));;
        syscall (Close fd);;
        mret 0
    end.

Definition STDIN_FILENO : Z := 0.
Definition STDOUT_FILENO : Z := 1.

(** The two ends of a pipe are [fst] and [snd]. *)
Definition tee_splice (argv : list bytes) : prog Z :=
  if negb (lenZ argv =? 2) then mret 1
  else
    name ← arg argv 1;
    filefd ← syscall (Open name true);
    check (0 <? filefd);;
    p1 ← syscall Pipe;
    pipefd_stdout ← within p1;
    p2 ← syscall Pipe;
    pipefd_file ← within p2;
    ret ← syscall (Splice STDIN_FILENO pipefd_stdout.2 32768);
    check (negb (ret =? -1));;
    ret ← syscall (Tee pipefd_stdout.1 pipefd_file.2 32768);
    check (negb (ret =? -1));;
    ret ← syscall (Splice pipefd_file.1 filefd 32768);
    check (negb (ret =? -1));;
    ret ← syscall (Splice pipefd_stdout.1 STDOUT_FILENO 32768);
    check (negb (ret =? -1));;
    syscall (Close filefd);;
    syscall (Close pipefd_stdout.1);;
    syscall (Close pipefd_stdout.2);;
    syscall (Close pipefd_file.1);;
    syscall (Close pipefd_file.2);;
    mret 0.

(** ** Two files

    What is still to be read of the one, what was written to the other, and the handles
    under which they are open. *)
Record files := mkFiles { f_src : option Z; f_left : bytes; f_dst : option Z; f_out : bytes }.
Definition files0 (d : bytes) : files := mkFiles None d None [].

Definition take_left d (w : files) : files := mkFiles (f_src w) d (f_dst w) (f_out w).
Definition put_out s (w : files) : files := mkFiles (f_src w) (f_left w) (f_dst w) (f_out w ++ s).

(** A call on a file is made with its handle while it is open. *)
Definition may (w : files) (A : Type) (e : unixE A) : Prop :=
  match e with
  | Fopen n m => n = lit "news.txt" /\ m = lit "r" /\ f_src w = None \/ n = lit "cpy.txt" /\ m = lit "w" /\ f_dst w = None
  | Open n wr => n = lit "news.txt" /\ wr = false /\ f_src w = None \/ n = lit "cpy.txt" /\ wr = true /\ f_dst w = None
  | Fgets n fp => f_src w = Some fp /\ n = BUF_SIZE
  | Fputs _ fp => f_dst w = Some fp
  | Read fd n => f_src w = Some fd /\ n = BUF_SIZE
  | Write fd _ => f_dst w = Some fd
  | Fclose h | Close h => f_src w = Some h \/ f_dst w = Some h
  | _ => False
  end.

(** Both files can be opened and written; [read] may bring less than is asked for, but
    brings something while there is something. *)
Definition does (w : files) (A : Type) (e : unixE A) : A -> files -> Prop :=
  match e in unixE A return A -> files -> Prop with
  | Fopen n _ => λ a w', 0 < a /\ f_src w <> Some a /\
      w' = if bool_decide (n = lit "news.txt") then mkFiles (Some a) (f_left w) (f_dst w) (f_out w)
           else mkFiles (f_src w) (f_left w) (Some a) (f_out w)
  | Open n _ => λ a w', 0 < a /\ f_src w <> Some a /\
      w' = if bool_decide (n = lit "news.txt") then mkFiles (Some a) (f_left w) (f_dst w) (f_out w)
           else mkFiles (f_src w) (f_left w) (Some a) (f_out w)
  | Fgets n _ => λ a w',
      match f_left w with
      | [] => a = None /\ w' = w
      | d => let '(s, r) := fgets_cut (Z.to_nat (n - 1)) d in a = Some s /\ w' = take_left r w
      end
  | Read _ n => λ a w', exists s r, a = Some s /\ f_left w = s ++ r /\ lenZ s <= n /\
      (f_left w <> [] -> s <> []) /\ w' = take_left r w
  | Fputs s _ => λ _ w', w' = put_out s w
  | Write _ bs => λ a w', a = lenZ bs /\ w' = put_out bs w
  | Fclose h | Close h => λ _ w',
      w' = if bool_decide (f_src w = Some h) then mkFiles None (f_left w) (f_dst w) (f_out w)
           else mkFiles (f_src w) (f_left w) None (f_out w)
  | _ => λ _ _, False
  end.

Definition copy_protocol : protocol unixE files := Protocol may does.

Ltac f_call :=
  eapply total_call_bind;
  [cbn [allowed copy_protocol may]|intros ? ?; cbn [answers copy_protocol does]].

(** Between two turns: the copy is what has been read. *)
Definition copied (h1 h2 : Z) (d : bytes) (w : files) : Prop :=
  f_src w = Some h1 /\ f_dst w = Some h2 /\ 0 < h1 /\ 0 < h2 /\ h1 <> h2 /\ d = f_out w ++ f_left w.

Lemma stdcpy_turn_total h1 h2 d w :
  NUL ∉ d -> copied h1 h2 d w ->
  total copy_protocol (λ r w', match r with
    | inl _ => copied h1 h2 d w' /\ (length (f_left w') < length (f_left w))%nat
    | inr _ => copied h1 h2 d w' /\ f_left w' = [] end) w (stdcpy_turn h1 h2).
Proof.
  intros Hn (Hs & Hd & H1 & H2 & Hne & Heq). unfold stdcpy_turn, fgets, fputs.
  rewrite (proj2 (Z.eqb_neq h1 0)), (proj2 (Z.eqb_neq h2 0)) by lia.
  f_call; [done|]. destruct (f_left w) as [|c l] eqn:Hl.
  - intros [-> ->]. apply total_ret. split; [|done]. split_and!; [done..|]. by rewrite Hl.
  - change (Z.to_nat (BUF_SIZE - 1)) with 2%nat.
    pose proof (fgets_cut_app 2 (c :: l)) as Happ. pose proof (fgets_cut_progress 1 c l) as Hlt.
    destruct (fgets_cut 2 (c :: l)) as [s r]. cbn [fst snd] in *. intros [-> ->].
    f_call; [done|]. intros ->. apply total_ret. split; [|cbn in *; lia]. split_and!; [done..|]. cbn.
    assert (NUL ∉ s) as Hs'.
    { intros Hin. apply Hn. rewrite Heq, <- Happ. set_solver. }
    rewrite cstr_id by done. by rewrite Heq, <- Happ, <- app_assoc.
Qed.

Lemma syscpy_turn_total h1 h2 d w :
  copied h1 h2 d w ->
  total copy_protocol (λ r w', match r with
    | inl _ => copied h1 h2 d w' /\ (length (f_left w') < length (f_left w))%nat
    | inr _ => copied h1 h2 d w' /\ f_left w' = [] end) w (syscpy_turn h1 h2).
Proof.
  intros (Hs & Hd & H1 & H2 & Hne & Heq). unfold syscpy_turn. f_call; [done|].
  intros (s & r & -> & Hl & Hlen & Hsome & ->). destruct s as [|c s].
  - apply total_ret. cbn in Hl. assert (f_left w = []) as Hz by (destruct (f_left w); [done|by destruct Hsome]).
    rewrite Hz in Hl. subst r. split; [|done]. split_and!; [done..|]. by rewrite Heq, Hz.
  - f_call; [done|]. intros [-> ->]. apply total_ret. split.
    + split_and!; [done..|]. cbn. by rewrite Heq, Hl, <- app_assoc.
    + rewrite Hl, length_app. cbn. lia.
Qed.

(** Opening, a loop that copies, and closing. *)
Lemma file_loop_total h1 h2 d w (turn : prog (unit + unit)) (last1 last2 : prog unit) :
  copied h1 h2 d w ->
  (forall w, copied h1 h2 d w -> total copy_protocol (λ r w', match r with
    | inl _ => copied h1 h2 d w' /\ (length (f_left w') < length (f_left w))%nat
    | inr _ => copied h1 h2 d w' /\ f_left w' = [] end) w turn) ->
  (last1 = fclose h1 /\ last2 = fclose h2 \/ last1 = syscall (Close h1) /\ last2 = syscall (Close h2)) ->
  total copy_protocol (λ r w', r = 0 /\ w' = mkFiles None [] None d) w
    (loop (λ _ : unit, turn) tt;; last1;; last2;; mret 0).
Proof.
  intros Hc Hturn Hlast.
  eapply total_bind with (Q := λ _ w, copied h1 h2 d w /\ f_left w = []).
  - apply (total_loop _ (λ _ w, copied h1 h2 d w) (λ _ w, length (f_left w))); [|done].
    intros [] w1 H1. eapply total_conseq; [by apply Hturn|]. by intros [[]|[]].
  - intros [] w1 [(Hs & Hd & H1 & H2 & Hne & Heq) Hl]. rewrite Hl, app_nil_r in Heq.
    destruct w1 as [src l dst out]. cbn in *. subst.
    destruct Hlast as [[-> ->]|[-> ->]]; unfold fclose;
      rewrite ?(proj2 (Z.eqb_neq h1 0)), ?(proj2 (Z.eqb_neq h2 0)) by lia;
      (f_call; [by left|]); intros ->; rewrite bool_decide_true by done;
      (f_call; [by right|]); intros ->; rewrite bool_decide_false by done; by apply total_ret.
Qed.

(** C39: Both programs end with a copy of the file, [stdcpy.c] of any file without NUL bytes
    and [syscpy.c] of any file, however short the reads are, and have closed both. *)
Theorem copies_file d :
  (NUL ∉ d -> total copy_protocol (λ r w, r = 0 /\ w = mkFiles None [] None d) (files0 d) stdcpy) /\
  total copy_protocol (λ r w, r = 0 /\ w = mkFiles None [] None d) (files0 d) syscpy.
Proof.
  split; [intros Hn; unfold stdcpy|unfold syscpy].
  - f_call; [by left|]. intros (H1 & _ & ->). rewrite bool_decide_true by done.
    f_call; [by right|]. intros (H2 & Hne & ->). rewrite bool_decide_false by done. cbn in Hne |- *.
    apply (file_loop_total a a0); [by split_and!; cbn; try congruence|intros w; by apply stdcpy_turn_total|by left].
  - f_call; [by left|]. intros (H1 & _ & ->). rewrite bool_decide_true by done.
    f_call; [by right|]. intros (H2 & Hne & ->). rewrite bool_decide_false by done. cbn in Hne |- *.
    apply (file_loop_total a a0); [by split_and!; cbn; try congruence|intros w; by apply syscpy_turn_total|by right].
Qed.

Lemma copies_file_witness :
  total copy_protocol (λ r w, r = 0 /\ w = mkFiles None [] None (lit "copied")) (files0 (lit "copied")) stdcpy.
Proof.
  apply (copies_file (lit "copied")). apply (bool_decide_unpack _). vm_compute. exact I.
Defined.

(** ** One line

    The file under [data.txt], if there is one, and what was shown; [d_done] is that the
    line was written, or the file read. *)
Record datum := mkDatum { d_file : option bytes; d_fd : option Z; d_shown : bytes; d_done : bool }.

Definition may_line (w : datum) (A : Type) (e : unixE A) : Prop :=
  match e with
  | Open n _ => n = lit "data.txt" /\ d_fd w = None
  | Write fd _ | Read fd _ => d_fd w = Some fd /\ d_done w = false
  | Close fd => d_fd w = Some fd /\ d_done w = true
  | Print _ => d_done w = true
  | Exit c => c = 1 /\ d_done w = false
  | _ => False
  end.

(** The calls may fail; otherwise they write or read all. *)
Definition does_line (w : datum) (A : Type) (e : unixE A) : A -> datum -> Prop :=
  match e in unixE A return A -> datum -> Prop with
  | Open _ wr => λ a w', a = -1 /\ w' = w \/
      0 <= a /\ (wr = true \/ is_Some (d_file w)) /\
        w' = mkDatum (if wr then Some [] else d_file w) (Some a) (d_shown w) false
  | Write _ bs => λ a w', a = -1 /\ w' = w \/
      a = lenZ bs /\ w' = mkDatum (Some (default [] (d_file w) ++ bs)) (d_fd w) (d_shown w) true
  | Read _ n => λ a w', a = None /\ w' = w \/
      a = Some (takeZ n (default [] (d_file w))) /\ w' = mkDatum (d_file w) (d_fd w) (d_shown w) true
  | Close _ => λ _ w', w' = mkDatum (d_file w) None (d_shown w) (d_done w)
  | Print s => λ _ w', w' = mkDatum (d_file w) (d_fd w) (d_shown w ++ s) (d_done w)
  | _ => λ _ _, False
  end.

Definition line_protocol : protocol unixE datum := Protocol may_line does_line.
Definition line : bytes := lit "Let's go!" ++ [LF].

(** What the one program has written, the other shows, whatever was in its array. *)
Lemma line_shown (junk : bytes) :
  total line_protocol (λ r w, r = 0 /\ d_file w = Some (line ++ [NUL]) /\ d_fd w = None)
    (mkDatum None None [] false) low_open /\
  total line_protocol (λ r w, r = 0 /\ d_shown w = lit "file data: " ++ line)
    (mkDatum (Some (line ++ [NUL])) None [] false) (low_read junk).
Proof.
  split; [unfold low_open|unfold low_read].
  - eapply total_call_bind; [done|]. intros fd w [[-> ->]|(Hfd & _ & ->)]; [by apply exits_total|].
    rewrite (proj2 (Z.eqb_neq fd (-1))) by lia.
    eapply total_call_bind; [done|]. intros r w [[-> ->]|[-> ->]]; [by apply exits_total|].
    eapply total_call_bind; [done|]. intros [] w ->. by apply total_ret.
  - eapply total_call_bind; [done|]. intros fd w [[-> ->]|(Hfd & _ & ->)]; [by apply exits_total|].
    rewrite (proj2 (Z.eqb_neq fd (-1))) by lia.
    eapply total_call_bind; [done|]. intros r w [[-> ->]|[-> ->]]; [by apply exits_total|].
    cbn [d_file default]. change (takeZ LOW_BUF_SIZE (line ++ [NUL])) with (line ++ [NUL]).
    rewrite (cstring_over line []) by (apply (bool_decide_unpack _); vm_compute; exact I). apply total_ret_bind.
    eapply total_call_bind; [done|]. intros [] w ->.
    eapply total_call_bind; [done|]. intros [] w ->. by apply total_ret.
Qed.

(** ** Two pipes

    What is left of the input, what is in the pipes, what has come out, and whether a call
    has failed; the handles are those of the pipes in the order they are made. *)
Record tees := mkTees {
  t_in : bytes; t_pipes : list (Z * Z); t_a : bytes; t_b : bytes; t_fd : Z; t_file : bytes; t_out : bytes; t_failed : bool
}.
Definition tees0 (d : bytes) : tees := mkTees d [] [] [] 0 [] [] false.
Definition t_fail (w : tees) : tees :=
  mkTees (t_in w) (t_pipes w) (t_a w) (t_b w) (t_fd w) (t_file w) (t_out w) true.

Definition may_tee (w : tees) (A : Type) (e : unixE A) : Prop :=
  match e with
  | Open _ wr => wr = true
  | Pipe => (length (t_pipes w) < 2)%nat
  | Splice src dst n => exists a b, t_pipes w = [a; b] /\
      (src = 0 /\ dst = a.2 \/ src = a.1 /\ dst = 1 /\ t_a w <> [] \/ src = b.1 /\ dst = t_fd w /\ t_b w <> [])
  | Tee src dst _ => exists a b, t_pipes w = [a; b] /\ src = a.1 /\ dst = b.2
  | Close _ => True
  | Crash => t_failed w = true
  | _ => False
  end.

(** What is moved is some of what is there; [tee] fails on an empty pipe instead of
    waiting, and [splice] from the input moves nothing at its end. *)
Definition moved (n : Z) (from to left to' : bytes) (k : Z) : Prop :=
  exists s, from = s ++ left /\ to' = to ++ s /\ lenZ s = k /\ k <= n /\ (from <> [] -> s <> []).

Definition does_tee (w : tees) (A : Type) (e : unixE A) : A -> tees -> Prop :=
  match e in unixE A return A -> tees -> Prop with
  | Open _ _ => λ a w', a = -1 /\ w' = t_fail w \/
      2 < a /\ w' = mkTees (t_in w) (t_pipes w) (t_a w) (t_b w) a (t_file w) (t_out w) (t_failed w)
  | Pipe => λ a w', a = None /\ w' = t_fail w \/
      exists p, a = Some p /\ p.1 <> 0 /\
        w' = mkTees (t_in w) (t_pipes w ++ [p]) (t_a w) (t_b w) (t_fd w) (t_file w) (t_out w) (t_failed w)
  | Splice src dst n => λ a w', a = -1 /\ w' = t_fail w \/
      match t_pipes w with
      | [p1; p2] =>
          if src =? 0 then exists l b, moved n (t_in w) (t_a w) l b a /\
            w' = mkTees l (t_pipes w) b (t_b w) (t_fd w) (t_file w) (t_out w) (t_failed w)
          else if (src =? p1.1) && (dst =? 1) then exists l b, moved n (t_a w) (t_out w) l b a /\
            w' = mkTees (t_in w) (t_pipes w) l (t_b w) (t_fd w) (t_file w) b (t_failed w)
          else exists l b, moved n (t_b w) (t_file w) l b a /\
            w' = mkTees (t_in w) (t_pipes w) (t_a w) l (t_fd w) b (t_out w) (t_failed w)
      | _ => False
      end
  | Tee _ _ n => λ a w', a = -1 /\ w' = t_fail w \/
      t_a w <> [] /\ exists l b, moved n (t_a w) (t_b w) l b a /\
        w' = mkTees (t_in w) (t_pipes w) (t_a w) b (t_fd w) (t_file w) (t_out w) (t_failed w)
  | Close _ => λ _ w', w' = w
  | _ => λ _ _, False
  end.

Definition tee_protocol : protocol unixE tees := Protocol may_tee does_tee.

(** When the program returns 0 there was some input, and both the file and the output have
    got the beginning of it, neither of them nothing; on no input the assertion after [tee]
    fails. *)
Lemma tee_splice_copies d argv :
  total tee_protocol (λ r w, if lenZ argv =? 2
    then r = 0 /\ t_file w <> [] /\ t_out w <> [] /\ exists a b, d = t_file w ++ a /\ d = t_out w ++ b
    else r = 1) (tees0 d) (tee_splice argv).
Proof.
  unfold tee_splice. destruct (Z.eqb_spec (lenZ argv) 2) as [Hargc|]; cbn [negb]; [|by apply total_ret].
  unfold arg. destruct argv as [|a0 [|name argv]]; [done..|]. cbn [lookup list_lookup within]. apply total_ret_bind.
  eapply total_call_bind; [done|]. intros filefd w [[-> ->]|[Hfd ->]]; [by apply assert_total|].
  apply assert_total; [intros _|intros H%Z.ltb_ge; lia]. cbn.
  eapply total_call_bind; [cbn; lia|]. intros p1 w [[-> ->]|(p & -> & Hp1 & ->)]; [by apply array_total|]. apply total_ret_bind. cbn.
  eapply total_call_bind; [cbn; lia|]. intros p2 w [[-> ->]|(q & -> & Hq1 & ->)]; [by apply array_total|]. apply total_ret_bind. cbn.
  eapply total_call_bind; [exists p, q; by split; [|left]|]. intros r w [[-> ->]|(l & b & Hmv & ->)]; [by apply assert_total|].
  destruct Hmv as (s & Hd & -> & Hr & _ & Hne). cbn in Hd |- *. pose proof (lenZ_nonneg s).
  apply assert_total; [intros _|intros H1%negb_false_iff%Z.eqb_eq; lia].
  eapply total_call_bind; [by exists p, q|]. intros r2 w [[-> ->]|(Hs & l2 & b2 & Hmv & ->)]; [by apply assert_total|].
  destruct Hmv as (s2 & Hd2 & -> & Hr2 & _ & Hne2). cbn in Hs, Hd2, Hne2 |- *. pose proof (lenZ_nonneg s2).
  apply assert_total; [intros _|intros H1%negb_false_iff%Z.eqb_eq; lia].
  eapply total_call_bind.
  { exists p, q. split; [done|]. right. right. by auto. }
  intros r3 w [[-> ->]|H3]; [by apply assert_total|]. cbn in H3. rewrite (proj2 (Z.eqb_neq q.1 0)) in H3 by done.
  rewrite (proj2 (Z.eqb_neq filefd 1)), andb_false_r in H3 by lia. destruct H3 as (l3 & b3 & Hmv & ->).
  destruct Hmv as (s3 & Hd3 & -> & Hr3 & _ & Hne3). cbn in Hd3, Hne3 |- *. pose proof (lenZ_nonneg s3).
  apply assert_total; [intros _|intros H4%negb_false_iff%Z.eqb_eq; lia].
  eapply total_call_bind.
  { exists p, q. split; [done|]. right. left. by auto. }
  intros r4 w [[-> ->]|H4]; [by apply assert_total|]. cbn in H4. rewrite (proj2 (Z.eqb_neq p.1 0)), Z.eqb_refl in H4 by done.
  destruct H4 as (l4 & b4 & Hmv & ->). destruct Hmv as (s4 & Hd4 & -> & Hr4 & _ & Hne4). cbn in Hd4, Hne4 |- *. pose proof (lenZ_nonneg s4).
  apply assert_total; [intros _|intros H5%negb_false_iff%Z.eqb_eq; lia].
  do 5 (eapply total_call_bind; [done|]; intros [] w ->).
  apply total_ret. cbn. split; [done|]. split; [by auto|]. split; [by auto|].
  exists (l3 ++ l2 ++ l), (l4 ++ l).
  split; [rewrite Hd, Hd2, Hd3|rewrite Hd, Hd4]; by rewrite <- !app_assoc.
Qed.
