(* ===== verification/Datagrams.v ===== *)
(** * Datagrams
      (src/Linux/TCP-IPNetworkPrograming/udp_echo, multicast_broadcast)

    An echo server and its client; and two pairs of programs of which the one sends a file
    in pieces to whoever listens and the other shows what comes, by broadcast and by
    multicast.  What the senders print is left out. *)
From S2P Require Import Prelude CLib CStr Interact Threads Posix Web HttpClient Unix.

(** ** The programs *)

Definition MAX_BUF_SIZE : Z := 1024.
Definition BUF_SIZE : Z := 30.

(** [udp_echo_server.c] *)
Definition udp_server_turn (fd : Z) : prog (unit + unit) :=
  r ← syscall (Recvfrom fd MAX_BUF_SIZE);
  match r with
  | None => exit 1
  | Some (bs, cln_addr) =>
      ret ← syscall (Sendto fd bs cln_addr);
      if ret =? -1 then exit 1 else mret (inl tt)
  end.

Definition udp_server (argv : list bytes) : prog Z :=
  fd ← syscall (Socket Dgram);
  if fd =? -1 then exit 1
  else
    port ← arg argv 1;
    ret ← syscall (Bind fd (mkAddr (htonl 0) (htons (atoi port))));
    if ret =? -1 then exit 1
    else
      loop (λ _ : unit, udp_server_turn fd) tt;;
      syscall (Close fd);;
      mret 0.

(** [udp_echo_client.c]; [buf] is its array. *)
Definition hello : bytes := lit "hello".

Definition udp_client_turn (fd : Z) (srv_addr : sockaddr) (buf : bytes) : prog (bytes + unit) :=
  let buf := over (hello ++ [NUL]) buf in
  s ← within (cstring buf 0);
  ret ← syscall (Sendto fd s srv_addr);
  if ret =? -1 then exit 1
  else
    r ← syscall (Recvfrom fd ret);
    match r with
    | None => exit 1
    | Some (bs, _) =>
        buf ← within (put (over bs buf) (lenZ bs) NUL);
        s ← within (cstring buf 0);
        syscall (Print s);;
        mret (inl buf)
    end.

Definition udp_client (argv : list bytes) (inet_addr : bytes -> Z) (junk : bytes) : prog Z :=
  fd ← syscall (Socket Dgram);
  if fd =? -1 then exit 1
  else
    ip ← arg argv 1;
    port ← arg argv 2;
    loop (udp_client_turn fd (mkAddr (inet_addr ip) (htons (atoi port)))) junk;;
    syscall (Close fd);;
    mret 0.

(** A turn of the loop of both senders, of which [multicast_sender.c] exits when a datagram
    cannot be sent. *)
Definition news_turn (strict : bool) (send_sock fp : Z) (a : sockaddr) (buf : bytes) : prog (bytes + unit) :=
  eof ← syscall (Feof fp);
  if eof : bool then mret (inr tt)
  else
    r ← fgets BUF_SIZE fp;
    let buf := match r with Some s => over (s ++ [NUL]) buf | None => buf end in
    s ← within (cstring buf 0);
    ret ← syscall (Sendto send_sock s a);
    if strict && (ret <? 0) then exit 1
    else syscall (Sleep 2);; mret (inl buf).

Definition broadcast_sender (argv : list bytes) (inet_addr : bytes -> Z) (junk : bytes) : prog Z :=
  if negb (lenZ argv =? 3) then exit 1
  else
    send_sock ← syscall (Socket Dgram);
    ip ← arg argv 1;
    port ← arg argv 2;
    syscall (Setsockopt send_sock);;
    fp ← syscall (Fopen (lit "news.txt") (lit "r"));
    if fp =? 0 then exit 1
    else
      loop (news_turn false send_sock fp (mkAddr (inet_addr ip) (htons (atoi port)))) junk;;
      syscall (Sleep 10);;
      syscall (Close send_sock);;
      mret 0.

Definition multicast_sender (argv : list bytes) (inet_addr : bytes -> Z) (junk : bytes) : prog Z :=
  if negb (lenZ argv =? 3) then exit 1
  else
    send_sock ← syscall (Socket Dgram);
    ip ← arg argv 1;
    port ← arg argv 2;
    syscall (Setsockopt send_sock);;
    fp ← syscall (Fopen (lit "news.txt") (lit "r"));
    if fp =? 0 then exit 1
    else
      loop (news_turn true send_sock fp (mkAddr (inet_addr ip) (htons (atoi port)))) junk;;
      fclose fp;;
      syscall (Close send_sock);;
      mret 0.

(** What was received, with a NUL put behind it, is shown. *)
Definition received (bs buf : bytes) : prog bytes := within (put (over bs buf) (lenZ bs) NUL).

(** [make_nonblocking] clears the flag; the socket is one that blocks. *)
Definition make_nonblocking (fd : Z) : prog bool :=
  flags ← syscall (Getfl fd);
  if flags =? -1 then mret false
  else
    r ← syscall (Setfl fd (Z.land flags (Z.lnot O_NONBLOCK)));
    mret (negb (r =? -1)).

Definition broadcast_turn (recv_sock : Z) (buf : bytes) : prog (bytes + unit) :=
  r ← syscall (Recvfrom recv_sock (BUF_SIZE - 1));
  match r with
  | None => mret (inr tt)
  | Some (bs, _) =>
      buf ← received bs buf;
      s ← within (cstring buf 0);
      syscall (Print s);;
      mret (inl buf)
  end.

Definition broadcast_receiver (argv : list bytes) (junk : bytes) : prog Z :=
  if negb (lenZ argv =? 2) then exit 1
  else
    recv_sock ← syscall (Socket Dgram);
    port ← arg argv 1;
    ok ← make_nonblocking recv_sock;
    if negb ok then exit 1
    else
      ret ← syscall (Bind recv_sock (mkAddr (htonl 0) (htons (atoi port))));
      if ret =? -1 then exit 1
      else
        loop (broadcast_turn recv_sock) junk;;
        syscall (Close recv_sock);;
        mret 0.

Definition MAX_SIZE : Z := 1024.

(** [error_handling] gives [fputs] a character for a string. *)
Definition multicast_error {A} : prog A := crash.

Definition multicast_turn (recv_sock : Z) (recv_buf : bytes) : prog (bytes + unit) :=
  s ← within (cstring recv_buf 0);
  syscall (Print s);;
  r ← syscall (Recvfrom recv_sock MAX_SIZE);
  match r with
  | None => mret (inr tt)
  | Some (bs, _) => recv_buf ← received bs recv_buf; mret (inl recv_buf)
  end.

Definition multicast_receiver (argv : list bytes) (junk : bytes) : prog Z :=
  if negb (lenZ argv =? 3) then exit 1
  else
    recv_sock ← syscall (Socket Dgram);
    if recv_sock =? -1 then multicast_error
    else
      port ← arg argv 2;
      ret ← syscall (Bind recv_sock (mkAddr (htonl 0) (htons (atoi port))));
      if ret =? -1 then multicast_error
      else
        ret ← syscall (Setsockopt recv_sock);
        if ret =? -1 then multicast_error
        else
          r ← syscall (Recvfrom recv_sock MAX_SIZE);
          match r with
          | None => multicast_error
          | Some (bs, _) =>
              recv_buf ← received bs junk;
              loop (multicast_turn recv_sock) recv_buf;;
              syscall (Close recv_sock);;
              mret 0
          end.

(** ** The pieces of a file *)

Fixpoint cut_pieces (fuel n : nat) (d : bytes) : list bytes :=
  match fuel, d with
  | S fuel, _ :: _ => (fgets_cut n d).1 :: cut_pieces fuel n (fgets_cut n d).2
  | _, _ => []
  end.
Definition pieces (n : nat) (d : bytes) : list bytes := cut_pieces (length d) n d.

Lemma cut_pieces_enough n : forall f g d, (length d <= f)%nat -> (length d <= g)%nat ->
  cut_pieces f (S n) d = cut_pieces g (S n) d.
Proof.
  induction f as [|f IH]; intros [|g] [|c d] Hf Hg; try done; [cbn in Hf; lia|cbn in Hg; lia|].
  cbn [cut_pieces]. pose proof (fgets_cut_progress n c d) as Hlt. f_equal. cbn [length] in *. apply IH; lia.
Qed.

Lemma pieces_cons n c d :
  pieces (S n) (c :: d) = (fgets_cut (S n) (c :: d)).1 :: pieces (S n) (fgets_cut (S n) (c :: d)).2.
Proof.
  unfold pieces at 1. cbn [cut_pieces length]. f_equal. apply cut_pieces_enough; [|done].
  pose proof (fgets_cut_progress n c d). cbn [length] in *. lia.
Qed.

Lemma fgets_cut_le n : forall d, (length (fgets_cut n d).1 <= n)%nat.
Proof.
  induction n as [|n IH]; intros [|c d]; cbn; [lia..|]. case_bool_decide; cbn; [lia|].
  specialize (IH d). destruct (fgets_cut n d). cbn in *. lia.
Qed.

Lemma concat_pieces n d : concat (pieces (S n) d) = d.
Proof.
  remember (length d) as k eqn:Hk. revert d Hk. induction k as [k IH] using lt_wf_ind; intros [|c d] ->; [done|].
  rewrite pieces_cons. cbn [concat]. rewrite (IH _ (fgets_cut_progress n c d) _ eq_refl). apply fgets_cut_app.
Qed.

Lemma pieces_le n d : Forall (λ s, lenZ s <= Z.of_nat (S n)) (pieces (S n) d).
Proof.
  remember (length d) as k eqn:Hk. revert d Hk. induction k as [k IH] using lt_wf_ind; intros [|c d] ->; [constructor|].
  rewrite pieces_cons. constructor; [|by apply (IH _ (fgets_cut_progress n c d))].
  pose proof (fgets_cut_le (S n) (c :: d)). unfold lenZ. lia.
Qed.

(** The end of the file is met only by a [fgets] that finds less than it could read: the
    last piece is sent again when it was a whole line or filled the array. *)
Definition again (ps : list bytes) : list bytes :=
  match last ps with Some s => if complete BUF_SIZE s then [s] else [] | None => [] end.
Definition news (d : bytes) : list bytes := pieces 29 d ++ again (pieces 29 d).

Example news_ex : news (lit "one" ++ [LF] ++ lit "two" ++ [LF]) =
  [lit "one" ++ [LF]; lit "two" ++ [LF]; lit "two" ++ [LF]] /\ news (lit "one" ++ [LF] ++ lit "two") = [lit "one" ++ [LF]; lit "two"].
Proof. by vm_compute. Qed.

(** ** The senders

    The socket and the file, what is left of it and whether its end was met, and the
    datagrams handed over. *)
Record sending := mkSending {
  n_sock : option Z; n_fp : option Z; n_left : bytes; n_eof : bool; n_sent : list bytes; n_failed : bool
}.
Definition sending0 (d : bytes) : sending := mkSending None None d false [] false.

Section senders.
Context (a : sockaddr).

Definition may_send (w : sending) (A : Type) (e : unixE A) : Prop :=
  match e with
  | Socket ty => ty = Dgram /\ n_sock w = None
  | Setsockopt fd | Close fd => n_sock w = Some fd
  | Fopen n m => n = lit "news.txt" /\ m = lit "r" /\ n_fp w = None
  | Feof fp | Fclose fp => n_fp w = Some fp
  | Fgets n fp => n_fp w = Some fp /\ n = BUF_SIZE
  | Sendto fd _ a' => n_sock w = Some fd /\ a' = a /\ n_fp w <> None
  | Sleep _ => True
  | Exit c => c = 1 /\ n_failed w = true
  | _ => False
  end.

Definition does_send (w : sending) (A : Type) (e : unixE A) : A -> sending -> Prop :=
  match e in unixE A return A -> sending -> Prop with
  | Socket _ => λ r w', w' = mkSending (Some r) (n_fp w) (n_left w) (n_eof w) (n_sent w) (n_failed w)
  | Fopen _ _ => λ r w',
      w' = mkSending (n_sock w) (if r =? 0 then None else Some r) (n_left w) (n_eof w) (n_sent w) (n_failed w || (r =? 0))
  | Feof _ => λ r w', r = n_eof w /\ w' = w
  | Fgets n _ => λ r w',
      match n_left w with
      | [] => r = None /\ w' = mkSending (n_sock w) (n_fp w) [] true (n_sent w) (n_failed w)
      | d => let '(s, l) := fgets_cut (Z.to_nat (n - 1)) d in
             r = Some s /\ w' = mkSending (n_sock w) (n_fp w) l (negb (complete n s)) (n_sent w) (n_failed w)
      end
  | Sendto _ bs _ => λ r w',
      w' = mkSending (n_sock w) (n_fp w) (n_left w) (n_eof w) (n_sent w ++ [bs]) (n_failed w || (r <? 0))
  | _ => λ _ w', w' = w
  end.

Definition send_protocol : protocol unixE sending := Protocol may_send does_send.

Ltac n_call :=
  eapply total_call_bind;
  [cbn [allowed send_protocol may_send]|intros ? ?; cbn [answers send_protocol does_send]].

Context (d : bytes) (Hnul : NUL ∉ d) (Hd : d <> []).

(** Between two turns: the pieces handed over so far, the last of which is in the array. *)
Definition told (sock fp : Z) (buf : bytes) (w : sending) : Prop :=
  n_sock w = Some sock /\ n_fp w = Some fp /\ lenZ buf = BUF_SIZE /\
  if n_eof w then n_sent w = news d
  else pieces 29 d = n_sent w ++ pieces 29 (n_left w) /\ (exists t, d = t ++ n_left w) /\
    match last (n_sent w) with
    | Some s => cstring buf 0 = Some s /\ complete BUF_SIZE s = true
    | None => n_left w = d
    end.

Lemma news_turn_total strict sock fp buf w :
  fp <> 0 -> told sock fp buf w ->
  let left w := (if n_eof w then 0 else S (length (n_left w)))%nat in
  total send_protocol (λ r w', match r with
    | inl b => told sock fp b w' /\ (left w' < left w)%nat
    | inr _ => told sock fp buf w' /\ n_eof w' = true end) w (news_turn strict sock fp a buf).
Proof.
  intros Hfp (Hs & Hf & Hlen & Htold) left. unfold news_turn, fgets. rewrite (proj2 (Z.eqb_neq fp 0)) by done.
  n_call; [done|]. intros [-> ->]. destruct (n_eof w) eqn:Heof.
  { apply total_ret. split; [|done]. split_and!; [done..|]. by rewrite Heof. }
  assert (left w = S (length (n_left w))) as -> by (unfold left; by rewrite Heof).
  destruct Htold as (Hp & (t & Ht) & Hlast). n_call; [done|]. destruct (n_left w) as [|c l] eqn:Hl; cbn iota.
  - intros [-> ->]. rewrite app_nil_r in Hp. destruct (last (n_sent w)) as [s|] eqn:Hls; [|congruence].
    destruct Hlast as [Hbuf Hc]. rewrite Hbuf. apply total_ret_bind. cbn.
    n_call; [by rewrite Hf|]. intros ->. cbn.
    destruct (strict && _) eqn:Hstrict.
    { apply andb_true_iff in Hstrict as [_ ->]. apply exits_total. cbn. by rewrite orb_true_r. }
    n_call; [done|]. intros ->. apply total_ret. cbn. split; [|lia]. split_and!; [done..|]. cbn.
    unfold news, again. by rewrite Hp, Hls, Hc.
  - change (Z.to_nat (BUF_SIZE - 1)) with 29%nat.
    pose proof (fgets_cut_app 29 (c :: l)) as Happ. pose proof (fgets_cut_progress 28 c l) as Hlt.
    pose proof (fgets_cut_incomplete 29 (c :: l)) as Hinc. pose proof (fgets_cut_le 29 (c :: l)) as Hle.
    pose proof (pieces_cons 28 c l) as Hcons.
    destruct (fgets_cut 29 (c :: l)) as [s r]. cbn [fst snd] in *. intros [-> ->].
    assert (NUL ∉ s) as Hn by (intros Hin; apply Hnul; rewrite Ht, <- Happ; set_solver).
    rewrite (cstring_over s []) by done. apply total_ret_bind. cbn.
    n_call; [by rewrite Hf|]. intros ->. cbn.
    destruct (strict && _) eqn:Hstrict.
    { apply andb_true_iff in Hstrict as [_ ->]. apply exits_total. cbn. by rewrite orb_true_r. }
    n_call; [done|]. intros ->. apply total_ret. unfold left. cbn [n_eof n_left n_sent n_sock n_fp].
    split; [|cbn [length] in *; destruct (negb _); lia].
    split_and!; [done|done| |].
    { rewrite over_length; [done|]. rewrite Hlen, lenZ_app, lenZ_cons, lenZ_nil. unfold lenZ, BUF_SIZE. lia. }
    cbn [n_eof n_sent n_left]. destruct (complete BUF_SIZE s) eqn:Hc; cbn [negb].
    + split; [by rewrite Hp, Hcons, <- app_assoc|]. split; [exists (t ++ s); by rewrite Ht, <- Happ, <- app_assoc|].
      rewrite last_snoc. split; [by apply (cstring_over s [])|done].
    + unfold complete in Hc. apply orb_false_iff in Hc as [Hcl%bool_decide_eq_false Hcn%Z.eqb_neq].
      destruct Hinc as (-> & _ & _); [done|unfold lenZ, BUF_SIZE in Hcn; lia|].
      change (pieces 29 []) with (@nil bytes) in Hcons. unfold news, again. rewrite Hp, Hcons, last_snoc. unfold complete.
      rewrite bool_decide_false, (proj2 (Z.eqb_neq _ _)) by done. by rewrite app_nil_r.
Qed.

Lemma news_loop_total strict sock fp junk w :
  fp <> 0 -> w = mkSending (Some sock) (Some fp) d false [] false -> lenZ junk = BUF_SIZE ->
  total send_protocol (λ _ w, n_sock w = Some sock /\ n_fp w = Some fp /\ n_sent w = news d) w
    (loop (news_turn strict sock fp a) junk).
Proof.
  intros Hfp -> Hj. apply (total_loop _ (told sock fp) (λ _ w, if n_eof w then 0 else S (length (n_left w)))%nat).
  - intros buf w Hw. eapply total_conseq; [by apply news_turn_total|].
    intros [b|[]] w'; [done|]. intros [(? & ? & _ & H) He]. by rewrite He in H.
  - split_and!; [done..|]. cbn. split; [done|]. split; [by exists []|done].
Qed.
End senders.

Lemma senders_total (a0 ip port d junk : bytes) (inet_addr : bytes -> Z) :
  NUL ∉ d -> d <> [] -> lenZ junk = BUF_SIZE ->
  let P := send_protocol (mkAddr (inet_addr ip) (htons (atoi port))) in
  total P (λ r w, r = 0 /\ n_sent w = news d) (sending0 d) (broadcast_sender [a0; ip; port] inet_addr junk) /\
  total P (λ r w, r = 0 /\ n_sent w = news d) (sending0 d) (multicast_sender [a0; ip; port] inet_addr junk).
Proof.
  intros Hn Hd Hj P. subst P. split; [unfold broadcast_sender|unfold multicast_sender];
    change (lenZ [a0; ip; port] =? 3) with true; cbn [negb arg lookup list_lookup].
  - eapply total_call_bind; [done|]. intros sock w ->. cbn [within]. do 2 apply total_ret_bind.
    eapply total_call_bind; [done|]. intros r w ->. eapply total_call_bind; [done|]. intros fp w ->. cbn.
    destruct (Z.eqb_spec fp 0) as [->|Hfp]; [by apply exits_total|].
    eapply total_bind; [by apply (news_loop_total _ d)|]. intros [] w (Hs & Hf & Hsent).
    eapply total_call_bind; [done|]. intros [] w' ->. eapply total_call_bind; [done|]. intros [] w' ->. by apply total_ret.
  - eapply total_call_bind; [done|]. intros sock w ->. cbn [within]. do 2 apply total_ret_bind.
    eapply total_call_bind; [done|]. intros r w ->. eapply total_call_bind; [done|]. intros fp w ->. cbn.
    destruct (Z.eqb_spec fp 0) as [->|Hfp]; [by apply exits_total|].
    eapply total_bind; [by apply (news_loop_total _ d)|]. intros [] w (Hs & Hf & Hsent).
    unfold fclose. rewrite (proj2 (Z.eqb_neq fp 0)) by done.
    eapply total_call_bind; [done|]. intros [] w' ->. eapply total_call_bind; [done|]. intros [] w' ->. by apply total_ret.
Qed.

(** ** The receivers

    The socket, the datagrams that have come, what was shown, and whether a call failed.
    Of the datagrams [ds] sent any may come, in any order, any number of times or never. *)
Record receiving := mkReceiving { g_sock : option Z; g_came : list bytes; g_shown : bytes; g_failed : bool }.
Definition receiving0 : receiving := mkReceiving None [] [] false.
Definition g_fail (w : receiving) : receiving := mkReceiving (g_sock w) (g_came w) (g_shown w) true.

Section receivers.
Context (ds : list bytes).

(** When the next datagram is waited for, or the socket is closed, what has come has been
    shown; nothing else ever is. *)
Definition may_recv (w : receiving) (A : Type) (e : unixE A) : Prop :=
  match e with
  | Socket ty => ty = Dgram /\ g_sock w = None
  | Getfl fd | Setfl fd _ | Bind fd _ | Setsockopt fd => g_sock w = Some fd
  | Recvfrom fd _ | Close fd => g_sock w = Some fd /\ g_shown w = concat (g_came w)
  | Print s => g_shown w ++ s = concat (g_came w)
  | Exit _ | Crash => g_failed w = true
  | _ => False
  end.

Definition does_recv (w : receiving) (A : Type) (e : unixE A) : A -> receiving -> Prop :=
  match e in unixE A return A -> receiving -> Prop with
  | Socket _ => λ r w', w' = mkReceiving (Some r) (g_came w) (g_shown w) (g_failed w || (r =? -1))
  | Getfl _ | Setfl _ _ | Bind _ _ | Setsockopt _ => λ r w', w' = if r =? -1 then g_fail w else w
  | Recvfrom _ n => λ r w', r = None /\ w' = g_fail w \/
      exists b from, (b ∈ ds) /\ r = Some (takeZ n b, from) /\
        w' = mkReceiving (g_sock w) (g_came w ++ [b]) (g_shown w) (g_failed w)
  | Print s => λ _ w', w' = mkReceiving (g_sock w) (g_came w) (g_shown w ++ s) (g_failed w)
  | _ => λ _ w', w' = w
  end.

Definition recv_protocol : protocol unixE receiving := Protocol may_recv does_recv.

Context (size : Z) (Hds : Forall (λ b, (NUL ∉ b) /\ lenZ b < size) ds).

Ltac g_call :=
  eapply safe_call;
  [cbn [allowed recv_protocol may_recv]|intros ? ?; cbn [answers recv_protocol does_recv]].

Lemma came_fits b : b ∈ ds -> (NUL ∉ b) /\ lenZ b < size.
Proof. revert b. by apply Forall_forall. Qed.

(** The array holds what has come last, and all before it was shown. *)
Definition showing (sock : Z) (buf : bytes) (w : receiving) : Prop :=
  g_sock w = Some sock /\ lenZ buf = size /\ g_shown w = concat (g_came w).
Definition to_show (sock : Z) (buf : bytes) (w : receiving) : Prop :=
  g_sock w = Some sock /\ lenZ buf = size /\ exists s, cstring buf 0 = Some s /\ g_shown w ++ s = concat (g_came w).

Lemma received_safe {R} (Q : R -> receiving -> Prop) sock n b buf w (k : bytes -> prog R) :
  showing sock buf w -> (b ∈ ds) -> lenZ b <= n ->
  (forall buf', to_show sock buf' (mkReceiving (g_sock w) (g_came w ++ [b]) (g_shown w) (g_failed w)) ->
     safe recv_protocol Q (mkReceiving (g_sock w) (g_came w ++ [b]) (g_shown w) (g_failed w)) (k buf')) ->
  safe recv_protocol Q (mkReceiving (g_sock w) (g_came w ++ [b]) (g_shown w) (g_failed w))
    (received (takeZ n b) buf ≫= k).
Proof.
  intros (Hs & Hlen & Hsh) Hb Hn Hk. destruct (came_fits b Hb) as [Hnul Hsize].
  rewrite takeZ_ge by done. unfold received.
  destruct (cstring_put b buf Hnul ltac:(lia)) as (buf' & -> & Hl & Hc). cbn [within]. apply safe_ret_bind, Hk.
  split_and!; [done|lia|]. exists b. split; [done|]. cbn. by rewrite concat_app, Hsh, concat_cons, app_nil_r.
Qed.

Lemma broadcast_turn_safe sock buf w :
  size = BUF_SIZE -> showing sock buf w ->
  safe recv_protocol (λ r w', match r with
    | inl b => showing sock b w'
    | inr _ => g_sock w' = Some sock /\ g_shown w' = concat (g_came w') end) w (broadcast_turn sock buf).
Proof.
  intros Hsize Hshow. pose proof Hshow as (Hs & Hlen & Hsh). unfold broadcast_turn. g_call; [done|].
  intros [[-> ->]|(b & from & Hb & -> & ->)]; [by apply safe_ret|].
  pose proof (proj2 (came_fits b Hb)). apply (received_safe _ sock); [done|done|lia|].
  intros buf' (Hs' & Hl & s & Hc & Hcat). rewrite Hc. apply safe_ret_bind.
  g_call; [exact Hcat|]. intros ->. apply safe_ret. by split_and!.
Qed.

Lemma multicast_turn_safe sock buf w :
  size = MAX_SIZE -> to_show sock buf w ->
  safe recv_protocol (λ r w', match r with
    | inl b => to_show sock b w'
    | inr _ => g_sock w' = Some sock /\ g_shown w' = concat (g_came w') end) w (multicast_turn sock buf).
Proof.
  intros Hsize (Hs & Hlen & s & Hc & Hcat). unfold multicast_turn. rewrite Hc. apply safe_ret_bind.
  g_call; [done|]. intros ->. g_call; [done|]. intros [[-> ->]|(b & from & Hb & -> & ->)]; [by apply safe_ret|].
  pose proof (proj2 (came_fits b Hb)).
  set (w1 := mkReceiving (g_sock w) (g_came w) (g_shown w ++ s) (g_failed w)).
  apply (received_safe _ sock MAX_SIZE b buf w1); [by split_and!|done|lia|]. intros buf' Hb'. by apply safe_ret.
Qed.
End receivers.

Lemma receivers_safe (ds : list bytes) (a0 ip port junk junk' : bytes) :
  Forall (λ b, (NUL ∉ b) /\ lenZ b < BUF_SIZE) ds -> lenZ junk = BUF_SIZE -> lenZ junk' = MAX_SIZE ->
  safe (recv_protocol ds) (λ r w, r = 0 /\ g_shown w = concat (g_came w)) receiving0 (broadcast_receiver [a0; port] junk) /\
  safe (recv_protocol ds) (λ r w, r = 0 /\ g_shown w = concat (g_came w)) receiving0 (multicast_receiver [a0; ip; port] junk').
Proof.
  intros Hds Hj Hj'. split; [unfold broadcast_receiver, make_nonblocking|unfold multicast_receiver, multicast_error].
  - change (lenZ [a0; port] =? 2) with true. cbn [negb arg lookup list_lookup within].
    eapply safe_call; [done|]. intros sock w ->. apply safe_ret_bind.
    eapply (safe_bind _ (λ ok w, g_sock w = Some sock /\ g_came w = [] /\ g_shown w = [] /\ (ok = false -> g_failed w = true))).
    { eapply safe_call; [done|]. intros fl w ->. destruct (fl =? -1); [by apply safe_ret|].
      eapply safe_call; [done|]. intros r w ->. destruct (r =? -1); by apply safe_ret. }
    intros ok w (Hs & Hc & Hsh & Hf). destruct ok; cbn [negb]; [|by apply exits_safe, Hf].
    eapply safe_call; [done|]. intros r w' ->. destruct (r =? -1); [by apply exits_safe|].
    eapply safe_bind; [apply (safe_loop _ (showing BUF_SIZE sock))|].
    + intros buf w1 Hw1. by apply (broadcast_turn_safe ds BUF_SIZE Hds).
    + split_and!; [done|done|]. by rewrite Hc, Hsh.
    + intros [] w1 [Hs1 Hsh1]. eapply safe_call; [done|]. intros [] w2 ->. by apply safe_ret.
  - change (lenZ [a0; ip; port] =? 3) with true. cbn [negb arg lookup list_lookup within].
    assert (Forall (λ b, (NUL ∉ b) /\ lenZ b < MAX_SIZE) ds) as Hds'.
    { eapply Forall_impl; [exact Hds|]. cbn. unfold MAX_SIZE, BUF_SIZE. intros b []. split; [done|lia]. }
    eapply safe_call; [done|]. intros sock w ->. destruct (sock =? -1) eqn:Hsock; [by apply crashes_safe|]. apply safe_ret_bind.
    eapply safe_call; [done|]. intros r w ->. destruct (r =? -1); [by apply crashes_safe|].
    eapply safe_call; [done|]. intros r2 w ->. destruct (r2 =? -1); [by apply crashes_safe|].
    eapply safe_call; [done|]. intros r3 w [[-> ->]|(b & from & Hb & -> & ->)]; [by apply crashes_safe|].
    pose proof (proj2 (came_fits ds MAX_SIZE Hds' b Hb)).
    apply (received_safe ds MAX_SIZE Hds' _ sock); [by split_and!|done|lia|]. intros buf Hbuf.
    eapply safe_bind; [apply (safe_loop _ (to_show MAX_SIZE sock))|].
    + intros buf1 w1 Hw1. by apply (multicast_turn_safe ds MAX_SIZE Hds').
    + exact Hbuf.
    + intros [] w1 [Hs1 Hsh1]. eapply safe_call; [done|]. intros [] w2 ->. by apply safe_ret.
Qed.

Lemma news_fit d : NUL ∉ d -> Forall (λ b, (NUL ∉ b) /\ lenZ b < BUF_SIZE) (news d).
Proof.
  intros Hn. assert (Forall (λ b, (NUL ∉ b) /\ lenZ b < BUF_SIZE) (pieces 29 d)) as Hp.
  { apply Forall_forall. intros b Hb. split.
    - intros Hin. apply Hn. rewrite <- (concat_pieces 28 d). apply list_elem_of_In, in_concat.
      exists b. by rewrite <- !list_elem_of_In.
    - pose proof (pieces_le 28 d) as Hle. rewrite Forall_forall in Hle. specialize (Hle b Hb). unfold BUF_SIZE. lia. }
  unfold news, again. apply Forall_app. split; [done|]. destruct (last (pieces 29 d)) as [s|] eqn:Hl; [|done].
  destruct (complete BUF_SIZE s); [|done]. apply Forall_singleton. rewrite Forall_forall in Hp. apply Hp.
  by apply last_Some_elem_of.
Qed.

(** C35: The news program pairs: from a file without NUL bytes that is not empty each sender
    hands over, and ends, the pieces of the file, lines of at most 29 bytes or what fits of
    them, the last one twice when it was a whole line or filled the array.  A receiver to
    which only such datagrams come, in whatever order and however many, shows exactly
    these: if all come in order the file and that piece again.  Neither program then leaves
    an array, and nothing that was in one before is ever sent or shown.  (A datagram of
    another sender can be longer than the array of the multicast receiver has room for.) *)
Theorem news_delivered (a0 ip port d junk junk' : bytes) (inet_addr : bytes -> Z) :
  NUL ∉ d -> d <> [] -> lenZ junk = BUF_SIZE -> lenZ junk' = MAX_SIZE ->
  let P := send_protocol (mkAddr (inet_addr ip) (htons (atoi port))) in
  let R := recv_protocol (news d) in
  let done r (w : receiving) := r = 0 /\ g_shown w = concat (g_came w) /\
    (g_came w = news d -> g_shown w = d ++ concat (again (pieces 29 d))) in
  total P (λ r w, r = 0 /\ n_sent w = news d) (sending0 d) (broadcast_sender [a0; ip; port] inet_addr junk) /\
  total P (λ r w, r = 0 /\ n_sent w = news d) (sending0 d) (multicast_sender [a0; ip; port] inet_addr junk) /\
  safe R done receiving0 (broadcast_receiver [a0; port] junk) /\
  safe R done receiving0 (multicast_receiver [a0; ip; port] junk').
Proof.
  intros Hn Hd Hj Hj' P R fin.
  destruct (senders_total a0 ip port d junk inet_addr Hn Hd Hj) as [H1 H2].
  pose proof (news_fit d Hn) as Hds.
  destruct (receivers_safe (news d) a0 ip port junk junk' Hds Hj Hj') as [H3 H4].
  assert (forall r w, r = 0 /\ g_shown w = concat (g_came w) -> fin r w) as Hfin.
  { intros r w [-> Hsh]. split; [done|]. split; [done|]. intros Hc. rewrite Hsh, Hc. unfold news.
    by rewrite concat_app, concat_pieces. }
  split_and!; [exact H1|exact H2|by eapply safe_conseq|by eapply safe_conseq].
Qed.

Lemma news_delivered_witness :
  let d := lit "one" ++ [LF] ++ lit "two" ++ [LF] in
  let junk := replicate 30 SP in let junk' := replicate 1024 SP in
  total (send_protocol (mkAddr 7 (htons 9190))) (λ r w, r = 0 /\ n_sent w = news d) (sending0 d)
    (broadcast_sender [[]; []; lit "9190"] (λ _, 7) junk).
Proof.
  intros d junk junk'.
  apply (news_delivered [] [] (lit "9190") d junk junk' (λ _, 7)); [|done|by vm_compute|by vm_compute].
  apply (bool_decide_unpack _). vm_compute. exact I.
Defined.
