(* ===== verification/UdpEcho.v ===== *)
(** * The datagram echo server and its client side by side
      (src/Linux/TCP-IPNetworkPrograming/udp_echo)

    [Datagrams] has the two programs.  Here both run, together with a network that loses,
    repeats and reorders what they send. *)
From S2P Require Import Prelude CLib CStr Interact Threads Posix Unix Datagrams.

(** The descriptor each has, what is under way to the server, with the address of the
    client, and to the client, the datagram the server is to send back, whether a call has
    failed, and what the client has shown. *)
Record net := mkNet {
  e_client : option Z; e_server : option Z;
  e_toS : list (bytes * sockaddr); e_toC : list bytes; e_owed : option (bytes * sockaddr);
  e_failed : bool; e_shown : list bytes
}.
Definition net0 : net := mkNet None None [] [] None false [].
Definition fail (b : bool) (w : net) : net :=
  mkNet (e_client w) (e_server w) (e_toS w) (e_toC w) (e_owed w) (e_failed w || b) (e_shown w).

Section echo.
(** The address of the server, and those the client's datagrams come from. *)
Context (srv_addr : sockaddr).

Definition may_client (w : net) (A : Type) (e : unixE A) : Prop :=
  match e with
  | Socket ty => ty = Dgram /\ e_client w = None
  | Sendto fd bs a => e_client w = Some fd /\ bs = hello /\ a = srv_addr
  | Recvfrom fd n => e_client w = Some fd /\ n = lenZ hello
  | Print s => s = hello
  | Exit _ => e_failed w = true
  | _ => False
  end.

(** The server sends back each datagram to where it came from, once, before it takes the
    next. *)
Definition may_server (w : net) (A : Type) (e : unixE A) : Prop :=
  match e with
  | Socket ty => ty = Dgram /\ e_server w = None
  | Bind fd _ => e_server w = Some fd
  | Recvfrom fd n => e_server w = Some fd /\ n = MAX_BUF_SIZE /\ e_owed w = None
  | Sendto fd bs a => e_server w = Some fd /\ e_owed w = Some (bs, a)
  | Exit _ => e_failed w = true
  | _ => False
  end.

(** What is sent stays under way, to be received any number of times. *)
Definition does_client (w : net) (A : Type) (e : unixE A) : A -> net -> Prop :=
  match e in unixE A return A -> net -> Prop with
  | Socket _ => λ r w', w' = fail (r =? -1) (mkNet (Some r) (e_server w) (e_toS w) (e_toC w) (e_owed w) (e_failed w) (e_shown w))
  | Sendto _ bs _ => λ r w', r = -1 /\ w' = fail true w \/
      r = lenZ bs /\ exists from, w' = mkNet (e_client w) (e_server w) ((bs, from) :: e_toS w) (e_toC w) (e_owed w) (e_failed w) (e_shown w)
  | Recvfrom _ n => λ r w', r = None /\ w' = fail true w \/
      exists bs from, (bs ∈ e_toC w) /\ r = Some (takeZ n bs, from) /\ w' = w
  | Print s => λ _ w', w' = mkNet (e_client w) (e_server w) (e_toS w) (e_toC w) (e_owed w) (e_failed w) (e_shown w ++ [s])
  | _ => λ _ _, False
  end.

Definition does_server (w : net) (A : Type) (e : unixE A) : A -> net -> Prop :=
  match e in unixE A return A -> net -> Prop with
  | Socket _ => λ r w', w' = fail (r =? -1) (mkNet (e_client w) (Some r) (e_toS w) (e_toC w) (e_owed w) (e_failed w) (e_shown w))
  | Bind _ _ => λ r w', w' = fail (r =? -1) w
  | Recvfrom _ n => λ r w', r = None /\ w' = fail true w \/
      exists bs from, ((bs, from) ∈ e_toS w) /\ r = Some (takeZ n bs, from) /\
        w' = mkNet (e_client w) (e_server w) (e_toS w) (e_toC w) (Some (takeZ n bs, from)) (e_failed w) (e_shown w)
  | Sendto _ bs _ => λ r w', w' = fail (r =? -1)
        (mkNet (e_client w) (e_server w) (e_toS w) (bs :: e_toC w) None (e_failed w) (e_shown w))
  | _ => λ _ _, False
  end.

(** Thread 0 is the client, thread 1 the server. *)
Definition udp_protocol (i : nat) : protocol unixE net :=
  match i with
  | 0%nat => Protocol may_client does_client
  | 1%nat => Protocol may_server does_server
  | _ => Protocol (λ _ _ _, False) (λ _ _ _ _ _, False)
  end.

(** Nothing but the greeting is under way, and nothing else was shown. *)
Record Inv (w : net) : Prop := {
  u_toS : Forall (λ p, p.1 = hello) (e_toS w);
  u_toC : Forall (λ bs, bs = hello) (e_toC w);
  u_owed : forall bs a, e_owed w = Some (bs, a) -> bs = hello;
  u_shown : Forall (λ bs, bs = hello) (e_shown w);
}.

Definition rely (i : nat) (w w' : net) : Prop :=
  (e_failed w = true -> e_failed w' = true) /\
  match i with
  | 0%nat => e_client w' = e_client w
  | 1%nat => e_server w' = e_server w /\ e_owed w' = e_owed w
  | _ => True
  end.

Lemma fail_inv b w : Inv w -> Inv (fail b w).
Proof. by intros []. Qed.

Lemma fail_rely b i w : rely i w (fail b w).
Proof. split; [by intros H; cbn; rewrite H|]. by destruct i as [|[|i]]. Qed.

Lemma client_call_ok w A (e : unixE A) a w' :
  Inv w -> may_client w A e -> does_client w A e a w' -> Inv w' /\ rely 1 w w'.
Proof.
  intros HI Hm Hd. pose proof HI as [H1 H2 H3 H4].
  destruct e; cbn in Hm, Hd; try done.
  - subst w'. by repeat split; cbn; auto; intros ->.
  - destruct Hd as [[-> ->]|(bs' & from & _ & -> & ->)]; [split; [by apply fail_inv|apply fail_rely]|done].
  - destruct Hm as (_ & -> & _). destruct Hd as [[-> ->]|(-> & from & ->)]; [split; [by apply fail_inv|apply fail_rely]|].
    split; [|done]. split; cbn; auto.
  - subst. split; [|done]. split; cbn; auto. apply Forall_app. by split; [|constructor].
Qed.

Lemma server_call_ok w A (e : unixE A) a w' :
  Inv w -> may_server w A e -> does_server w A e a w' -> Inv w' /\ rely 0 w w'.
Proof.
  intros HI Hm Hd. pose proof HI as [H1 H2 H3 H4].
  destruct e; cbn in Hm, Hd; try done.
  - subst w'. by repeat split; cbn; auto; intros ->.
  - subst w'. split; [by apply fail_inv|apply fail_rely].
  - destruct Hd as [[-> ->]|(bs' & from & Hin & -> & ->)]; [split; [by apply fail_inv|apply fail_rely]|].
    split; [|done]. split; cbn; auto. intros bs a' [= <- <-].
    rewrite Forall_forall in H1. pose proof (H1 _ Hin) as Heq. cbn in Heq. subst bs'.
    by destruct Hm as (_ & -> & _).
  - destruct Hm as [_ Ho]. subst w'. split; [apply fail_inv|].
    + split; cbn; auto; [|done]. constructor; [by eapply H3|done].
    + by repeat split; cbn; auto; intros ->.
Qed.

Lemma udp_non_interfering : non_interfering udp_protocol (λ _ _, False) Inv rely.
Proof.
  split; [by intros [|[|i]] s| |done|].
  - intros i s1 s2 s3 [A1 A2] [B1 B2]. split; [auto|]. destruct i as [|[|i]]; [congruence| |done].
    destruct A2, B2. split; congruence.
  - intros i s A e a s' HI Hm Hd. destruct i as [|[|i]]; [| |done].
    + destruct (client_call_ok s A e a s' HI Hm Hd) as [HI' Hr]. split; [done|].
      intros [|[|j]] Hj; [done|done|by split; [apply Hr|]].
    + destruct (server_call_ok s A e a s' HI Hm Hd) as [HI' Hr]. split; [done|].
      intros [|[|j]] Hj; [done|done|by split; [apply Hr|]].
Qed.

Abbreviation holds0 := (holds udp_protocol Inv rely 0).
Abbreviation holds1 := (holds udp_protocol Inv rely 1).

(** ** The client *)

Definition own0 (fd : Z) (w : net) : Prop := e_client w = Some fd.

Lemma exit0 {A} (Q : A -> net -> Prop) w c : e_failed w = true -> holds0 Q w (exit c).
Proof.
  intros Hf. apply (holds_call _ _ _ _ udp_non_interfering). intros w1 _ [Hr _]. split; [by apply Hr|]. done.
Qed.

Lemma client_turn_holds fd buf w :
  own0 fd w -> lenZ buf = MAX_BUF_SIZE ->
  holds0 (λ r w', match r with inl b => own0 fd w' /\ lenZ b = MAX_BUF_SIZE | inr _ => False end) w
    (udp_client_turn fd srv_addr buf).
Proof.
  intros Hfd Hlen. unfold udp_client_turn. pose proof udp_non_interfering as ni.
  assert (NUL ∉ hello) as Hn by (apply (bool_decide_unpack _); vm_compute; exact I).
  rewrite (cstring_over hello []) by done. apply holds_ret_bind.
  apply (holds_call _ _ _ _ ni). intros w1 _ [_ Hr1]. unfold own0 in *.
  assert (e_client w1 = Some fd) as Hfd1 by congruence. split; [done|].
  intros r w2 [[-> ->]|(-> & from & ->)] _; [by apply exit0; cbn; rewrite orb_true_r|]. change (lenZ hello =? -1) with false.
  cbn iota. apply (holds_call _ _ _ _ ni). intros w3 HI3 [_ Hr3]. cbn in Hr3.
  assert (e_client w3 = Some fd) as Hfd3 by congruence. split; [done|].
  intros r w4 [[-> ->]|(bs & from' & Hin & -> & ->)] _; [by apply exit0; cbn; rewrite orb_true_r|].
  pose proof (u_toC _ HI3) as HC. rewrite Forall_forall in HC. apply HC in Hin as ->.
  change (takeZ (lenZ hello) hello) with hello. cbn iota.
  assert (lenZ (over (hello ++ [NUL]) buf) = MAX_BUF_SIZE) as Hl2.
  { rewrite over_length; [done|]. rewrite Hlen. by vm_compute. }
  destruct (cstring_put hello (over (hello ++ [NUL]) buf) Hn) as (b & -> & Hb & Hc); [rewrite Hl2; by vm_compute|].
  apply holds_ret_bind. rewrite Hc. apply holds_ret_bind.
  apply (holds_call _ _ _ _ ni). intros w5 _ [_ Hr5]. split; [done|]. intros [] w6 -> _.
  apply holds_ret; [|split; [cbn; congruence|lia]].
  intros w7 w8 [H7 ?] _ [_ Hr]. split; [congruence|done].
Qed.

Lemma client_holds a0 ip port (inet_addr : bytes -> Z) junk :
  srv_addr = mkAddr (inet_addr ip) (htons (atoi port)) -> lenZ junk = MAX_BUF_SIZE ->
  holds0 (λ _ _, False) net0 (udp_client [a0; ip; port] inet_addr junk).
Proof.
  intros Hsrv Hj. pose proof udp_non_interfering as ni. unfold udp_client.
  apply (holds_call _ _ _ _ ni). intros w1 _ [_ Hr1]. split; [done|]. intros fd w2 -> _.
  destruct (fd =? -1) eqn:Hfd; [by apply exit0; cbn; rewrite orb_true_r|]. cbn [arg lookup list_lookup within].
  do 2 apply holds_ret_bind. rewrite <- Hsrv.
  eapply holds_bind; [exact ni|apply (holds_loop _ _ _ _ ni _ (λ b w, own0 fd w /\ lenZ b = MAX_BUF_SIZE) (λ _ _, False))|done].
  - intros b w [Hw Hb]. eapply holds_mono; [|by apply client_turn_holds]. by intros [b'|[]].
  - by intros ? s s' [].
  - by split.
Qed.

(** ** The server *)

Definition own1 (fd : Z) (w : net) : Prop := e_server w = Some fd /\ e_owed w = None.

Lemma exit1 {A} (Q : A -> net -> Prop) w c : e_failed w = true -> holds1 Q w (exit c).
Proof.
  intros Hf. apply (holds_call _ _ _ _ udp_non_interfering). intros w1 _ [Hr _]. split; [by apply Hr|]. done.
Qed.

Lemma server_turn_holds fd w :
  own1 fd w -> holds1 (λ r w', match r with inl _ => own1 fd w' | inr _ => False end) w (udp_server_turn fd).
Proof.
  intros [Hfd Ho]. unfold udp_server_turn. pose proof udp_non_interfering as ni.
  apply (holds_call _ _ _ _ ni). intros w1 _ [_ [Hr1 Hr1']]. split; [by split_and!; cbn; try congruence|].
  intros r w2 [[-> ->]|(bs & from & Hin & -> & ->)] _; [by apply exit1; cbn; rewrite orb_true_r|].
  apply (holds_call _ _ _ _ ni). intros w3 _ [_ [Hr3 Hr3']]. cbn in Hr3, Hr3'. split; [split; cbn; congruence|].
  intros r w4 -> _. destruct (r =? -1); [by apply exit1; cbn; rewrite orb_true_r|].
  apply holds_ret; [|split; cbn; congruence]. intros w5 w6 [H5 H6] _ [_ [Hr Hr']]. split; congruence.
Qed.

Lemma server_holds a0 port : holds1 (λ _ _, False) net0 (udp_server [a0; port]).
Proof.
  pose proof udp_non_interfering as ni. unfold udp_server.
  apply (holds_call _ _ _ _ ni). intros w1 _ [_ [Hr1 Ho1]]. split; [done|]. intros fd w2 -> _.
  destruct (fd =? -1) eqn:Hfd; [by apply exit1; cbn; rewrite orb_true_r|]. cbn [arg lookup list_lookup within].
  apply holds_ret_bind.
  apply (holds_call _ _ _ _ ni). intros w3 _ [_ [Hr3 Ho3]]. split; [done|]. intros r w4 -> _.
  destruct (r =? -1); [by apply exit1; cbn; rewrite orb_true_r|].
  eapply holds_bind; [exact ni|apply (holds_loop _ _ _ _ ni _ (λ _ w, own1 fd w) (λ _ _, False))|done].
  - intros [] w Hw. eapply holds_mono; [|by apply server_turn_holds]. by intros [[]|[]].
  - by intros ? s s' [].
  - split; cbn in *; congruence.
Qed.
End echo.

(** Whatever the network does with the datagrams, the client shows nothing but the greeting
    it sent, and neither of the two leaves an array. *)
Lemma udp_echoes (a0 ip port b0 port' junk : bytes) (inet_addr : bytes -> Z) ps :
  lenZ junk = MAX_BUF_SIZE ->
  rtc (pool_step (udp_protocol (mkAddr (inet_addr ip) (htons (atoi port)))) (λ _ _, False))
    ([udp_client [a0; ip; port] inet_addr junk; udp_server [b0; port']], net0) ps ->
  pool_ok (udp_protocol (mkAddr (inet_addr ip) (htons (atoi port)))) ps /\
  Forall (λ bs, bs = hello) (e_shown ps.2).
Proof.
  intros Hj Hr. set (srv := mkAddr (inet_addr ip) (htons (atoi port))) in *.
  pose proof (udp_non_interfering srv) as ni.
  assert (Inv net0) as HI by (by split; cbn; auto).
  assert (forall i t, [udp_client [a0; ip; port] inet_addr junk; udp_server [b0; port']] !! i = Some t ->
    holds (udp_protocol srv) Inv rely i (λ _ _, True) net0 t) as Ht.
  { intros [|[|i]] t Hi; [| |done]; injection Hi as <-; (eapply holds_mono; [|first [by apply client_holds|by apply server_holds]]); done. }
  split; [exact (pool_sound _ _ _ _ ni _ _ _ _ HI Ht Hr)|].
  apply (u_shown _ (proj1 (pool_keeps _ _ _ _ ni _ _ _ _ HI Ht Hr))).
Qed.
