(* ===== verification/Greetings.v ===== *)
(** * Programs of one connection
      (src/Linux/TCP-IPNetworkPrograming/hello, tcp,
       src/Linux/LinuxHighPerformanceServerPrograming/daytime_demo.c, dup.c, listen_demo.c)

    Two servers that send a line to one client, and their clients, of which the one reads
    once and the other byte by byte; a client that asks for the time; a server that writes
    to a copy of its connection; and one that only listens. *)
From S2P Require Import Prelude CLib CStr Interact Posix Web WriteV Unix.

(** ** The programs *)

(** Both servers, but for the message and what [tcp_server.c] prints about it. *)
Definition greeter (message : bytes) (argv : list bytes) : prog Z :=
  if negb (lenZ argv =? 2) then exit 1
  else
    serv_sock ← syscall (Socket Stream);
    if serv_sock =? -1 then exit 1
    else
      port ← arg argv 1;
      r ← syscall (Bind serv_sock (mkAddr (htonl 0) (htons (atoi port))));
      if r =? -1 then exit 1
      else
        r ← syscall (Listen serv_sock 5);
        if r =? -1 then exit 1
        else
          clnt_sock ← syscall (Accept serv_sock);
          if clnt_sock =? -1 then exit 1
          else
            syscall (Write clnt_sock (message ++ [NUL]));;
            syscall (Close clnt_sock);;
            syscall (Close serv_sock);;
            mret 0.

Definition hello_server : list bytes -> prog Z := greeter (lit "Hello World!").
Definition tcp_server : list bytes -> prog Z := greeter (lit "This is tcp server!").

Definition MESSAGE_SIZE : Z := 30.

(** The beginning of both clients. *)
Definition connected {A} (argv : list bytes) (inet_addr : bytes -> Z) (rest : Z -> prog A) : prog A :=
  if negb (lenZ argv =? 3) then exit 1
  else
    sock ← syscall (Socket Stream);
    if sock =? -1 then exit 1
    else
      ip ← arg argv 1;
      port ← arg argv 2;
      r ← syscall (Connect sock (mkAddr (inet_addr ip) (htons (atoi port))));
      if r =? -1 then exit 1 else rest sock.

Definition hello_client (argv : list bytes) (inet_addr : bytes -> Z) (message : bytes) : prog Z :=
  connected argv inet_addr (λ sock,
    r ← syscall (Read sock (MESSAGE_SIZE - 1));
    match r with
    | None => exit 1
    | Some bs =>
        s ← within (cstring (over bs message) 0);
        syscall (Print (lit "Message from server : " ++ s));;
        syscall (Close sock);;
        mret 0
    end).

(** A byte is read behind the last one; what is left of the array is not looked at. *)
Definition tcp_turn (sock : Z) (st : Z * Z * bytes) : prog (Z * Z * bytes + Z * bytes) :=
  let '(idx, str_len, message) := st in
  r ← syscall (Read sock 1);
  match r with
  | None => exit 1
  | Some [] => mret (inr (str_len, message))
  | Some bs =>
      message ← within (fill message idx bs);
      mret (inl (idx + 1, str_len + lenZ bs, message))
  end.

Definition tcp_client (argv : list bytes) (inet_addr : bytes -> Z) (message : bytes) : prog Z :=
  connected argv inet_addr (λ sock,
    r ← loop (tcp_turn sock) (0, 0, message);
    s ← within (cstring r.2 0);
    syscall (Print (lit "Message from server : " ++ s));;
    syscall (Print (lit "FUnction read call count: " ++ format_d r.1));;
    syscall (Close sock);;
    mret 0).

Definition DAYTIME_SIZE : Z := 128.

(** [hostinfo] and [servinfo] are what [gethostbyname] and [getservbyname] find. *)
Definition daytime (argc : Z) (hostinfo servinfo : option Z) (buffer : bytes) : prog Z :=
  check (argc =? 2);;
  host ← within hostinfo;
  s_port ← within servinfo;
  sockfd ← syscall (Socket Stream);
  result ← syscall (Connect sockfd (mkAddr host s_port));
  if negb (result =? 0) then exit 1
  else
    r ← syscall (Read sockfd DAYTIME_SIZE);
    bs ← within r;
    check (0 <? lenZ bs);;
    buffer ← within (put (over bs buffer) (lenZ bs) NUL);
    s ← within (cstring buffer 0);
    syscall (Print (lit "the day time is " ++ s));;
    syscall (Close sockfd);;
    mret 0.

(** Descriptor 5 is written to, whatever [dup] returns. *)
Definition dup_main (argv : list bytes) (inet_pton : bytes -> Z) : prog Z :=
  if lenZ argv <=? 2 then mret 1
  else
    ip ← arg argv 1;
    port ← arg argv 2;
    sock ← syscall (Socket Stream);
    check (0 <=? sock);;
    ret ← syscall (Bind sock (mkAddr (inet_pton ip) (htons (atoi port))));
    check (negb (ret =? -1));;
    ret ← syscall (Listen sock 5);
    check (negb (ret =? -1));;
    connfd ← syscall (Accept sock);
    (if connfd <? 0 then mret tt
     else
       syscall (Dup connfd);;
       syscall (Write 5 (lit "abcd" ++ [LF]));;
       syscall (Close connfd));;
    syscall (Close sock);;
    mret 0.

(** [Stopped] reads the flag that the handler of the signal sets. *)
Definition listen_turn : prog (unit + unit) :=
  stop ← syscall Stopped;
  if stop : bool then mret (inr tt) else syscall (Sleep 1);; mret (inl tt).

Definition listen_demo (argv : list bytes) (inet_pton : bytes -> Z) : prog Z :=
  if lenZ argv <=? 3 then mret 1
  else
    ip ← arg argv 1;
    port ← arg argv 2;
    backlog ← arg argv 3;
    sock ← syscall (Socket Stream);
    check (0 <=? sock);;
    ret ← syscall (Bind sock (mkAddr (inet_pton ip) (htons (atoi port))));
    check (negb (ret =? -1));;
    ret ← syscall (Listen sock (atoi backlog));
    check (negb (ret =? -1));;
    loop (λ _ : unit, listen_turn) tt;;
    syscall (Close sock);;
    mret 0.

(** ** The protocol

    The two sockets, the bytes of the peer still to be read, what was written and to which
    descriptor, what was printed, whether a call has failed, for how many more turns
    [stop] is not set, and the socket of the client that was accepted, if any was. *)
Record tcp := mkTcp {
  x_sock : option Z; x_conn : option Z; x_in : bytes; x_out : list (Z * bytes); x_shown : list bytes;
  x_failed : bool; x_turns : nat; x_peer : option Z
}.
Definition tcp0 (stream : bytes) (turns : nat) : tcp := mkTcp None None stream [] [] false turns None.
Definition x_fail (b : bool) (w : tcp) : tcp :=
  mkTcp (x_sock w) (x_conn w) (x_in w) (x_out w) (x_shown w) (x_failed w || b) (x_turns w) (x_peer w).

(** The process ends early when a call has failed, or when not all was read of what the
    peer sends, or more than an array holds. *)
Definition may (w : tcp) (A : Type) (e : unixE A) : Prop :=
  match e with
  | Socket ty => ty = Stream /\ x_sock w = None
  | Bind fd _ | Listen fd _ | Accept fd | Connect fd _ | Read fd _ => x_sock w = Some fd
  | Dup fd => x_conn w = Some fd
  | Write _ _ => is_Some (x_conn w)
  | Close fd => x_conn w = Some fd \/ x_conn w = None /\ x_sock w = Some fd
  | Print _ | Sleep _ | Stopped => True
  | Exit _ => x_failed w = true
  | Crash => x_failed w = true \/ x_in w <> []
  | _ => False
  end.

(** [read] brings some of what is left, and nothing at the end. *)
Definition does (w : tcp) (A : Type) (e : unixE A) : A -> tcp -> Prop :=
  match e in unixE A return A -> tcp -> Prop with
  | Socket _ => λ r w', (r = -1 \/ 0 <= r) /\
      w' = x_fail (r =? -1) (mkTcp (Some r) (x_conn w) (x_in w) (x_out w) (x_shown w) (x_failed w) (x_turns w) (x_peer w))
  | Bind _ _ | Listen _ _ => λ r w', w' = x_fail (r =? -1) w
  | Connect _ _ => λ r w', w' = x_fail (negb (r =? 0)) w
  | Accept _ => λ r w', r = -1 /\ w' = x_fail true w \/
      0 <= r /\ x_sock w <> Some r /\
      w' = mkTcp (x_sock w) (Some r) (x_in w) (x_out w) (x_shown w) (x_failed w) (x_turns w) (Some r)
  | Read _ n => λ r w', r = None /\ w' = x_fail true w \/
      exists s l, r = Some s /\ x_in w = s ++ l /\ lenZ s <= n /\ (x_in w <> [] -> s <> []) /\
        w' = mkTcp (x_sock w) (x_conn w) l (x_out w) (x_shown w) (x_failed w) (x_turns w) (x_peer w)
  | Write fd bs => λ _ w',
      w' = mkTcp (x_sock w) (x_conn w) (x_in w) (x_out w ++ [(fd, bs)]) (x_shown w) (x_failed w) (x_turns w) (x_peer w)
  | Close _ => λ _ w',
      w' = match x_conn w with
           | Some _ => mkTcp (x_sock w) None (x_in w) (x_out w) (x_shown w) (x_failed w) (x_turns w) (x_peer w)
           | None => mkTcp None None (x_in w) (x_out w) (x_shown w) (x_failed w) (x_turns w) (x_peer w)
           end
  | Print s => λ _ w',
      w' = mkTcp (x_sock w) (x_conn w) (x_in w) (x_out w) (x_shown w ++ [s]) (x_failed w) (x_turns w) (x_peer w)
  | Stopped => λ r w',
      match x_turns w with
      | O => r = true /\ w' = w
      | S k => r = false /\ w' = mkTcp (x_sock w) (x_conn w) (x_in w) (x_out w) (x_shown w) (x_failed w) k (x_peer w)
      end
  | _ => λ _ w', w' = w
  end.

Definition tcp_protocol : protocol unixE tcp := Protocol may does.

Ltac x_call :=
  eapply total_call_bind;
  [cbn [allowed tcp_protocol may]|intros ? ?; cbn [answers tcp_protocol does]].

(** The end of a program after a call that returned -1. *)
Lemma failed_exit {R} (Q : R -> tcp -> Prop) w (r : Z) c (k : prog R) :
  (r <> -1 -> total tcp_protocol Q (x_fail false w) k) ->
  total tcp_protocol Q (x_fail (r =? -1) w) (if r =? -1 then exit c else k).
Proof.
  intros Hk. destruct (Z.eqb_spec r (-1)) as [->|Hr]; [|by apply Hk].
  apply exits_total. cbn. by rewrite orb_true_r.
Qed.

(** ** The servers *)

Lemma greeter_total message a0 port stream k :
  total tcp_protocol (λ r w, r = 0 /\ x_sock w = None /\ x_conn w = None /\
      exists conn, x_peer w = Some conn /\ x_out w = [(conn, message ++ [NUL])])
    (tcp0 stream k) (greeter message [a0; port]).
Proof.
  unfold greeter. change (lenZ [a0; port] =? 2) with true. cbn [negb arg lookup list_lookup within].
  x_call; [done|]. intros [_ ->]. apply failed_exit. intros _. apply total_ret_bind.
  x_call; [done|]. intros ->. apply failed_exit. intros _.
  x_call; [done|]. intros ->. apply failed_exit. intros _.
  x_call; [done|]. intros [[-> ->]|(Hc & Hne & ->)].
  { by apply exits_total. }
  rewrite (proj2 (Z.eqb_neq _ (-1))) by lia.
  x_call; [by eexists|]. intros ->. x_call; [by left|]. intros ->. x_call; [by right|]. intros ->.
  apply total_ret. cbn. split_and!; [done..|]. by eexists.
Qed.

(** ** The clients *)

Lemma connected_total {R} (Q : R -> tcp -> Prop) a0 ip port inet_addr rest stream k :
  (forall sock w, x_sock w = Some sock -> x_conn w = None -> x_in w = stream -> x_shown w = [] ->
     total tcp_protocol Q w (rest sock)) ->
  total tcp_protocol Q (tcp0 stream k) (connected [a0; ip; port] inet_addr rest).
Proof.
  intros Hrest. unfold connected. change (lenZ [a0; ip; port] =? 3) with true. cbn [negb arg lookup list_lookup within].
  x_call; [done|]. intros [_ ->]. apply failed_exit. intros _. do 2 apply total_ret_bind.
  x_call; [done|]. intros ->. destruct (Z.eqb_spec a1 (-1)) as [->|Hr]; [by apply exits_total|]. by apply Hrest.
Qed.

Lemma hello_client_total message junk a0 ip port inet_addr k :
  NUL ∉ message -> lenZ junk = MESSAGE_SIZE ->
  total tcp_protocol (λ r w, r = 0 /\ x_sock w = None /\
      exists s, x_shown w = [lit "Message from server : " ++ s] /\ (x_in w = [] -> s = message))
    (tcp0 (message ++ [NUL]) k) (hello_client [a0; ip; port] inet_addr junk).
Proof.
  intros Hn Hj. unfold hello_client. apply connected_total. intros sock w Hs Hc Hin Hsh.
  x_call; [done|]. intros [[-> ->]|(bs & l & -> & Hbs & Hlen & _ & ->)]; [by apply exits_total; cbn; rewrite orb_true_r|].
  rewrite Hin in Hbs. apply array_total.
  - intros s Hcs. x_call; [done|]. intros ->. cbn. x_call; [by right|]. intros ->. cbn. rewrite Hc, Hsh.
    apply total_ret. cbn. split; [done|]. split; [done|]. exists s. split; [done|]. intros ->.
    rewrite app_nil_r in Hbs. subst bs. rewrite (cstring_over message []) in Hcs by done. congruence.
  - intros Hnone. right. cbn. intros ->. rewrite app_nil_r in Hbs. subst bs.
    by rewrite (cstring_over message []) in Hnone.
Qed.

(** What has been read so far is at the start of the array. *)
Definition reading (stream : bytes) (sock : Z) (st : Z * Z * bytes) (w : tcp) : Prop :=
  x_sock w = Some sock /\ x_conn w = None /\ x_shown w = [] /\
  exists got r, st = (lenZ got, lenZ got, got ++ r) /\ stream = got ++ x_in w /\ lenZ (got ++ r) = MESSAGE_SIZE.

Lemma tcp_turn_total stream sock st w :
  lenZ stream <= MESSAGE_SIZE -> reading stream sock st w ->
  total tcp_protocol (λ r w', match r with
    | inl st' => reading stream sock st' w' /\ (length (x_in w') < length (x_in w))%nat
    | inr (n, arr) => reading stream sock (n, n, arr) w' /\ x_in w' = [] end) w (tcp_turn sock st).
Proof.
  intros Hle (Hs & Hc & Hsh & got & r & -> & Hst & Hlen). unfold tcp_turn.
  x_call; [done|]. intros [[-> ->]|(s & l & -> & Hin & H1 & Hne & ->)]; [by apply exits_total; cbn; rewrite orb_true_r|].
  destruct s as [|c [|c' s]].
  - apply total_ret. cbn in Hin. assert (x_in w = []) as Hz by (destruct (x_in w); [done|by destruct Hne]).
    rewrite Hz in Hin. subst l. split; [|done]. split_and!; [done..|]. exists got, r. by rewrite Hst, Hz.
  - assert (lenZ stream = lenZ got + 1 + lenZ l) as Hsl by (rewrite Hst, Hin, !lenZ_app, lenZ_cons, lenZ_nil; lia).
    rewrite lenZ_app in Hlen. pose proof (lenZ_nonneg l). destruct r as [|c0 r]; [rewrite lenZ_nil in Hlen; lia|].
    change (c0 :: r) with ([c0] ++ r). rewrite (fill_app got [c0] r [c]) by done. apply total_ret_bind, total_ret. split.
    + split_and!; [done..|]. exists (got ++ [c]), r. rewrite <- app_assoc, lenZ_app. cbn [x_in].
      split; [done|]. split; [by rewrite Hst, Hin, <- app_assoc|]. rewrite lenZ_cons in Hlen. rewrite !lenZ_app, lenZ_cons, lenZ_nil. lia.
    + cbn. rewrite Hin. cbn. lia.
  - rewrite !lenZ_cons in H1. pose proof (lenZ_nonneg s). lia.
Qed.

Lemma tcp_client_total message junk a0 ip port inet_addr k :
  NUL ∉ message -> lenZ message < MESSAGE_SIZE -> lenZ junk = MESSAGE_SIZE ->
  total tcp_protocol (λ r w, r = 0 /\ x_sock w = None /\
      x_shown w = [lit "Message from server : " ++ message;
                   lit "FUnction read call count: " ++ format_d (lenZ message + 1)])
    (tcp0 (message ++ [NUL]) k) (tcp_client [a0; ip; port] inet_addr junk).
Proof.
  intros Hn Hm Hj. unfold tcp_client. apply connected_total. intros sock w Hs Hc Hin Hsh.
  eapply total_bind with (Q := λ r w', reading (message ++ [NUL]) sock (r.1, r.1, r.2) w' /\ x_in w' = []).
  - apply (total_loop _ (reading (message ++ [NUL]) sock) (λ _ w, length (x_in w))).
    + intros st w1 Hr. eapply total_conseq; [apply tcp_turn_total; [|exact Hr]|].
      * rewrite lenZ_app, lenZ_cons, lenZ_nil. lia.
      * by intros [st'|[n arr]].
    + split_and!; [done..|]. exists [], junk. by rewrite Hin.
  - intros [n arr] w' [(Hs' & Hc' & Hsh' & got & r & Heq & Hst & Hl) He]. cbn in Heq. injection Heq as -> _ ->.
    rewrite He, app_nil_r in Hst. subst got. cbn [fst snd].
    assert (cstring ((message ++ [NUL]) ++ r) 0 = Some message) as ->.
    { apply (cstring_eq _ [] message r 0); [|done|done]. cbn [app]. by rewrite <- app_assoc. }
    apply total_ret_bind.
    x_call; [done|]. intros ->. x_call; [done|]. intros ->. x_call; [by right|]. intros ->.
    apply total_ret. cbn. rewrite Hc', Hsh', lenZ_app. done.
Qed.

(** C36: The servers end; unless a call has failed they have then accepted one client, sent
    it their line with its NUL on its own socket, and nothing else to anyone, and closed
    both sockets; the client that reads byte by byte shows exactly the line, however
    it arrives, and its length; the client that reads once shows the line if that one read
    brings all of it, and otherwise may show less or what was in its array before. *)
Theorem greetings_exchanged (a0 ip port junk : bytes) (inet_addr : bytes -> Z) (k : nat) :
  lenZ junk = MESSAGE_SIZE ->
  let sent message r w := r = 0 /\ x_sock w = None /\ x_conn w = None /\
    exists conn, x_peer w = Some conn /\ x_out w = [(conn, message ++ [NUL])] in
  let hello := lit "Hello World!" in
  let tcp := lit "This is tcp server!" in
  total tcp_protocol (sent hello) (tcp0 [] k) (hello_server [a0; port]) /\
  total tcp_protocol (sent tcp) (tcp0 [] k) (tcp_server [a0; port]) /\
  total tcp_protocol (λ r w, r = 0 /\ x_sock w = None /\
      exists s, x_shown w = [lit "Message from server : " ++ s] /\ (x_in w = [] -> s = hello))
    (tcp0 (hello ++ [NUL]) k) (hello_client [a0; ip; port] inet_addr junk) /\
  total tcp_protocol (λ r w, r = 0 /\ x_sock w = None /\
      x_shown w = [lit "Message from server : " ++ tcp; lit "FUnction read call count: " ++ format_d (lenZ tcp + 1)])
    (tcp0 (tcp ++ [NUL]) k) (tcp_client [a0; ip; port] inet_addr junk).
Proof.
  intros Hj sent hello tcp. split_and!.
  - apply greeter_total.
  - apply greeter_total.
  - apply hello_client_total; [|done]. apply (bool_decide_unpack _). vm_compute. exact I.
  - apply tcp_client_total; [|by vm_compute|done]. apply (bool_decide_unpack _). vm_compute. exact I.
Qed.

Lemma greetings_exchanged_witness :
  let junk := replicate 30 SP in let tcp := lit "This is tcp server!" in
  total tcp_protocol (λ r w, r = 0 /\ x_sock w = None /\
      x_shown w = [lit "Message from server : " ++ tcp; lit "FUnction read call count: " ++ format_d (lenZ tcp + 1)])
    (tcp0 (tcp ++ [NUL]) 0) (tcp_client [[]; []; lit "9190"] (λ _, 7) junk).
Proof. intros junk tcp. apply (greetings_exchanged [] [] (lit "9190") junk (λ _, 7) 0). by vm_compute. Defined.

(** ** The others *)

(** The time is shown as it came; an answer that fills the array is written past its end. *)
Lemma daytime_total time host s_port buffer k :
  NUL ∉ time -> time <> [] -> lenZ time < DAYTIME_SIZE -> lenZ buffer = DAYTIME_SIZE ->
  total tcp_protocol (λ r w, r = 0 /\ x_sock w = None /\
      exists s, x_shown w = [lit "the day time is " ++ s] /\ time = s ++ x_in w /\ s <> [])
    (tcp0 time k) (daytime 2 (Some host) (Some s_port) buffer).
Proof.
  intros Hn Ht Hlen Hb. unfold daytime. cbn [check within Z.eqb]. do 3 apply total_ret_bind.
  x_call; [done|]. intros [_ ->]. x_call; [done|]. intros ->.
  destruct (Z.eqb_spec a0 0) as [->|Hr]; cbn [negb]; [|by apply exits_total; cbn; rewrite orb_true_r].
  x_call; [done|]. intros [[-> ->]|(s & l & -> & Hs & Hl & Hne & ->)].
  { apply array_total; [done|]. intros _. left. cbn. by rewrite orb_true_r. }
  cbn in Hs, Hne. apply total_ret_bind. destruct s as [|c s]; [by destruct Hne|].
  apply assert_total; [intros _|intros H; rewrite lenZ_cons in H; pose proof (lenZ_nonneg s); lia].
  destruct (cstring_put (c :: s) buffer) as (b & -> & _ & Hc).
  { intros Hin. apply Hn. rewrite Hs. set_solver. }
  { apply (f_equal lenZ) in Hs. rewrite lenZ_app in Hs. pose proof (lenZ_nonneg l). lia. }
  apply total_ret_bind. rewrite Hc. apply total_ret_bind. x_call; [done|]. intros ->. x_call; [by right|]. intros ->.
  apply total_ret. cbn. split; [done|]. split; [done|]. by exists (c :: s).
Qed.

(** The greeting goes to descriptor 5, not to the copy. *)
Lemma dup_fixed_descriptor a0 ip port inet_pton k :
  total tcp_protocol (λ r w, r = 0 /\ x_sock w = None /\ x_conn w = None /\
      (x_out w = [] \/ x_out w = [(5, lit "abcd" ++ [LF])]))
    (tcp0 [] k) (dup_main [a0; ip; port] inet_pton).
Proof.
  unfold dup_main. change (lenZ [a0; ip; port] <=? 2) with false. cbn [arg lookup list_lookup within]. do 2 apply total_ret_bind.
  x_call; [done|]. intros [Ha ->]. apply assert_total; [intros Hs%Z.leb_le|intros Hs%Z.leb_gt; left; cbn].
  2: { destruct Ha as [->|]; [done|lia]. }
  x_call; [done|]. intros ->. apply assert_total; [intros _|intros ->%negb_false_iff; left; cbn; by rewrite orb_true_r].
  x_call; [done|]. intros ->. apply assert_total; [intros _|intros ->%negb_false_iff; left; cbn; by rewrite orb_true_r].
  x_call; [done|]. intros Hacc.
  eapply total_bind with (Q := λ _ w, x_sock w = Some a /\ x_conn w = None /\
      (x_out w = [] \/ x_out w = [(5, lit "abcd" ++ [LF])])).
  - destruct Hacc as [[-> ->]|(Hc & _ & ->)]; [by apply total_ret; cbn; auto|].
    rewrite (proj2 (Z.ltb_ge _ 0)) by done. x_call; [done|]. intros ->. x_call; [by eexists|]. intros ->.
    apply total_last; cbn; [by left|]. intros [] w ->. cbn. auto.
  - intros [] w (Hs1 & Hc & Ho). x_call; [by right|]. intros ->. apply total_ret. rewrite Hc. by split_and!.
Qed.

(** The server that only listens ends when it is told to, and not before. *)
Lemma listen_demo_total a0 ip port backlog inet_pton k :
  total tcp_protocol (λ r w, r = 0 /\ x_sock w = None /\ x_turns w = 0%nat)
    (tcp0 [] k) (listen_demo [a0; ip; port; backlog] inet_pton).
Proof.
  unfold listen_demo. change (lenZ [a0; ip; port; backlog] <=? 3) with false. cbn [arg lookup list_lookup within]. do 3 apply total_ret_bind.
  x_call; [done|]. intros [Ha ->]. apply assert_total; [intros Hs%Z.leb_le|intros Hs%Z.leb_gt; left; cbn].
  2: { destruct Ha as [->|]; [done|lia]. }
  x_call; [done|]. intros ->. apply assert_total; [intros _|intros ->%negb_false_iff; left; cbn; by rewrite orb_true_r].
  x_call; [done|]. intros ->. apply assert_total; [intros _|intros ->%negb_false_iff; left; cbn; by rewrite orb_true_r].
  eapply total_bind with (Q := λ _ w, x_sock w = Some a /\ x_conn w = None /\ x_turns w = 0%nat).
  - apply (total_loop _ (λ _ w, x_sock w = Some a /\ x_conn w = None) (λ _ w, x_turns w)); [|done].
    intros [] w [Hs1 Hc]. unfold listen_turn. x_call; [done|]. destruct (x_turns w) as [|m] eqn:Hm; intros [-> ->].
    + apply total_ret. by split_and!.
    + x_call; [done|]. intros ->. apply total_ret. cbn. split; [done|]. lia.
  - intros [] w (Hs1 & Hc & Ht). x_call; [by right|]. intros ->. apply total_ret. rewrite Hc. by split_and!.
Qed.
