(* ===== verification/Epoll.v ===== *)
(** * Waiting with epoll and poll
      (src/Linux/TCP-IPNetworkPrograming/epoll_poll_test.c, poll_test.c)

    [epoll_poll_test.c] is a server around [epoll]; its [main] ends before the loop, in
    [inet_addr] of a null pointer.  [poll_test.c] waits once for one connection. *)
From S2P Require Import Prelude CLib CStr Interact Posix Unix.

Definition MAX_EVENT : Z := 1024.
Definition BUF_SIZE : Z := 1024.
Definition EAGAIN : Z := 11.

(** ** epoll_poll_test.c *)

(** [error_handle] does nothing. *)
Definition error_handle : prog unit := mret tt.

Definition set_nonblocking (fd : Z) : prog unit :=
  flag ← syscall (Getfl fd);
  if flag <? 0 then mret tt
  else syscall (Setfl fd (Z.lor flag O_NONBLOCK));; mret tt.

(** A new connection is watched for input. *)
Definition on_connection (listenfd epfd : Z) : prog unit :=
  connfd ← syscall (Accept listenfd);
  (if connfd <? 0 then error_handle else mret tt);;
  set_nonblocking connfd;;
  r ← syscall (EpollCtl epfd EpollAdd connfd (mkEvent connfd true false));
  (if r <? 0 then error_handle else mret tt);;
  mret tt.

(** [send_buf] is what is in that array, which nothing was written to. *)
Definition on_input (epfd triggered_fd : Z) (send_buf : bytes) : prog unit :=
  r ← syscall (Read triggered_fd BUF_SIZE);
  match r with
  | None =>
      errno ← syscall Errno;
      if errno =? EAGAIN then mret tt else error_handle
  | Some [] => syscall (Close triggered_fd)
  | Some _ =>
      nwrite ← syscall (Write triggered_fd send_buf);
      if nwrite <? 0 then
        errno ← syscall Errno;
        if errno =? EAGAIN then
          r ← syscall (EpollCtl epfd EpollMod triggered_fd (mkEvent triggered_fd false true));
          if r <? 0 then error_handle else mret tt
        else error_handle
      else mret tt
  end.

(** The [for] loop; [true] when it returns from [main]. *)
Fixpoint events_loop (listenfd epfd : Z) (send_buf : bytes) (evs : list epoll_event) : prog bool :=
  match evs with
  | [] => mret false
  | ev :: evs =>
      if ev_in ev then
        (if ev_fd ev =? listenfd then on_connection listenfd epfd else on_input epfd (ev_fd ev) send_buf);;
        events_loop listenfd epfd send_buf evs
      else if ev_out ev then events_loop listenfd epfd send_buf evs
      else mret true
  end.

Definition wait_turn (listenfd epfd : Z) (send_buf : bytes) : prog (unit + bool) :=
  r ← syscall (EpollWait epfd MAX_EVENT);
  match r with
  | None => mret (inr false)
  | Some evs =>
      stop ← events_loop listenfd epfd send_buf evs;
      if stop : bool then mret (inr true) else mret (inl tt)
  end.

(** The [while (1)] loop and what follows it; [None] is a [return] without a value. *)
Definition serve (listenfd epfd : Z) (send_buf : bytes) : prog (option Z) :=
  stop ← loop (λ _ : unit, wait_turn listenfd epfd send_buf) tt;
  if stop : bool then mret None
  else
    syscall (Close listenfd);;
    syscall (Close epfd);;
    mret (Some 0).

(** [inet_addr] reads the string it is given: [INADDR_ANY] is the null pointer. *)
Definition inet_addr_of (s : option bytes) (inet_addr : bytes -> Z) : prog Z := s ← within s; mret (inet_addr s).

Definition main (argv : list bytes) (inet_addr : bytes -> Z) (send_buf : bytes) : prog (option Z) :=
  listenfd ← syscall (Socket Stream);
  (if listenfd <? 0 then error_handle else mret tt);;
  set_nonblocking listenfd;;
  s_addr ← inet_addr_of None inet_addr;
  port ← arg argv 1;
  r ← syscall (Bind listenfd (mkAddr s_addr (htons (atoi port))));
  (if r <? 0 then error_handle else mret tt);;
  r ← syscall (Listen listenfd 10);
  (if r <? 0 then error_handle else mret tt);;
  epfd ← syscall EpollCreate;
  (if epfd <? 0 then error_handle else mret tt);;
  r ← syscall (EpollCtl epfd EpollAdd listenfd (mkEvent listenfd true false));
  (if r <? 0 then error_handle else mret tt);;
  serve listenfd epfd send_buf.

(** ** poll_test.c *)

Definition poll_test (argv : list bytes) : prog Z :=
  listenfd ← syscall (Socket Stream);
  if listenfd <? 0 then exit 1
  else
    port ← arg argv 1;
    err ← syscall (Bind listenfd (mkAddr (htonl 0) (htons (atoi port))));
    if err <? 0 then exit 1
    else
      r ← syscall (Listen listenfd 10);
      if r <? 0 then exit 1
      else
        connfd ← syscall (Accept listenfd);
        if connfd <? 0 then exit 1
        else
          syscall (Print (lit "begin"));;
          p ← syscall (PollOne connfd);
          let '(nready, revents) := p in
          if (nready =? 1) && (revents =? POLLOUT) then syscall (Print (lit "POLLOUT"));; mret 0
          else if (nready =? 1) && (revents =? POLLERR) then syscall (Print (lit "POLLERR"));; mret 0
          else syscall (Print (lit "end"));; mret 0.

(** ** main ends at once *)

(** The only calls made are those before [inet_addr]. *)
Definition start_protocol : protocol unixE (option Z) :=
  Protocol
    (λ s A e, match e with
              | Socket ty => s = None
              | Getfl fd | Setfl fd _ => s = Some fd
              | Crash => is_Some s
              | _ => False
              end)
    (λ s A e, match e in unixE A return A -> option Z -> Prop with
              | Socket _ => λ a s', s' = Some a
              | Crash | Exit _ => λ _ _, False
              | _ => λ _ s', s' = s
              end).

Lemma main_crashes argv inet_addr send_buf :
  total start_protocol (λ _ _, False) None (main argv inet_addr send_buf).
Proof.
  unfold main. eapply total_call_bind; [done|]. intros fd s ->.
  eapply total_bind with (Q := λ _ s, s = Some fd); [destruct (fd <? 0); by apply total_ret|]. intros [] s ->.
  eapply total_bind with (Q := λ _ s, s = Some fd).
  - unfold set_nonblocking. eapply total_call_bind; [done|]. intros fl s ->.
    destruct (fl <? 0); [by apply total_ret|]. eapply total_call_bind; [done|]. intros r s ->. by apply total_ret.
  - intros [] s ->. eapply total_bind with (Q := λ _ _, False); [|done]. unfold inet_addr_of, within.
    eapply total_bind with (Q := λ _ _, False); [|done]. apply crashes_total. by eexists.
Qed.

(** ** The loop

    What is watched for input, and for room to write only; the connection that was
    accepted and is not watched yet; what the one that was read from is owed; the events
    still to be looked at; and why the loop was left. *)
Inductive debt := Nothing | Answer (fd : Z) | Hangup (fd : Z) | Blocked (fd : Z).
Inductive outcome := Running | WaitFailed | BadEvent.

Record watch := mkWatch {
  w_in : gset Z; w_out : gset Z; w_new : option Z; w_debt : debt; w_end : outcome
}.

Section loop.
Context (listenfd epfd : Z) (send_buf : bytes).

Definition set_debt (d : debt) (w : watch) : watch := mkWatch (w_in w) (w_out w) (w_new w) d (w_end w).

(** A connection is read when it is watched for input; one that brought something is
    written the array [send_buf], one at its end is closed, one that takes no more is
    watched for room from then on.  Then it is not read, written or closed any more. *)
Definition may (w : watch) (A : Type) (e : unixE A) : Prop :=
  match e with
  | EpollWait ep n => ep = epfd /\ n = MAX_EVENT /\ w_new w = None /\ w_debt w = Nothing /\ w_end w = Running
  | Accept fd => fd = listenfd /\ w_new w = None /\ w_debt w = Nothing
  | Getfl fd | Setfl fd _ => w_new w = Some fd \/ w_new w = None /\ fd < 0
  | EpollCtl ep EpollAdd fd ev => ep = epfd /\ ev = mkEvent fd true false /\ (w_new w = Some fd \/ w_new w = None /\ fd < 0)
  | EpollCtl ep EpollMod fd ev => ep = epfd /\ ev = mkEvent fd false true /\ w_debt w = Blocked fd
  | Read fd n => (fd ∈ w_in w) /\ (fd ∉ w_out w) /\ n = BUF_SIZE /\ w_debt w = Nothing
  | Write fd bs => w_debt w = Answer fd /\ (fd ∉ w_out w) /\ bs = send_buf
  | Close fd => w_debt w = Hangup fd /\ (fd ∉ w_out w) \/ w_end w = WaitFailed /\ (fd = listenfd \/ fd = epfd)
  | Errno => True
  | _ => False
  end.

(** [epoll_wait] reports each descriptor once, input only for what is watched for it. *)
Definition reported (w : watch) (evs : list epoll_event) : Prop :=
  NoDup (map ev_fd evs) /\
  Forall (λ ev, ev_in ev = true -> ev_fd ev = listenfd \/ ev_fd ev ∈ w_in w) evs /\
  Forall (λ ev, ev_fd ev = listenfd \/ (ev_fd ev ∈ w_in w) \/ (ev_fd ev ∈ w_out w)) evs.

Definition does (w : watch) (A : Type) (e : unixE A) : A -> watch -> Prop :=
  match e in unixE A return A -> watch -> Prop with
  | EpollWait _ _ => λ a w',
      match a with
      | None => w' = mkWatch (w_in w) (w_out w) None Nothing WaitFailed
      | Some evs => reported w evs /\
          w' = mkWatch (w_in w) (w_out w) None Nothing
                 (if forallb (λ ev, ev_in ev || ev_out ev) evs then Running else BadEvent)
      end
  | Accept _ => λ a w', a < 0 /\ w' = w \/
      0 <= a /\ a <> listenfd /\ (a ∉ w_in w) /\ (a ∉ w_out w) /\ w' = mkWatch (w_in w) (w_out w) (Some a) Nothing (w_end w)
  | EpollCtl _ EpollAdd fd _ => λ a w', a < 0 /\ w' = mkWatch (w_in w) (w_out w) None Nothing (w_end w) \/
      0 <= a /\ w_new w = Some fd /\ w' = mkWatch ({[fd]} ∪ w_in w) (w_out w) None Nothing (w_end w)
  | EpollCtl _ EpollMod fd _ => λ a w', a < 0 /\ w' = set_debt Nothing w \/
      0 <= a /\ w' = mkWatch (w_in w ∖ {[fd]}) ({[fd]} ∪ w_out w) (w_new w) Nothing (w_end w)
  | Read fd _ => λ a w',
      match a with
      | None => w' = w
      | Some [] => w' = set_debt (Hangup fd) w
      | Some _ => w' = set_debt (Answer fd) w
      end
  | Write fd _ => λ a w', 0 <= a /\ w' = set_debt Nothing w \/ a < 0 /\ w' = set_debt (Blocked fd) w
  | Close fd => λ _ w', w' = mkWatch (w_in w ∖ {[fd]}) (w_out w) (w_new w) Nothing (w_end w)
  | Errno => λ a w', w' = if a =? EAGAIN then w else set_debt Nothing w
  | _ => λ _ w', w' = w
  end.

Definition epoll_protocol : protocol unixE watch := Protocol may does.

Ltac p_call :=
  eapply total_call_bind;
  [cbn [allowed epoll_protocol may]|intros ? ?; cbn [answers epoll_protocol does]].

(** Nothing is owed, and what is watched for room only is watched for nothing else. *)
Definition rest (w : watch) : Prop := w_new w = None /\ w_debt w = Nothing /\ w_in w ## w_out w.

Lemma set_nonblocking_total {R} (Q : R -> watch -> Prop) fd w (k : unit -> prog R) :
  (w_new w = Some fd \/ w_new w = None /\ fd < 0) -> total epoll_protocol Q w (k tt) ->
  total epoll_protocol Q w (set_nonblocking fd ≫= k).
Proof.
  intros Hn Hk. eapply (total_bind _ (λ _ w', w' = w)); [|by intros [] w' ->].
  unfold set_nonblocking. p_call; [done|]. intros ->. destruct (a <? 0); [by apply total_ret|].
  p_call; [done|]. intros ->. by apply total_ret.
Qed.

Ltac at_rest := split; [split; [done|split; [done|cbn; set_solver]]|cbn; split_and!].

Lemma error_if {R} (Q : R -> watch -> Prop) (b : bool) w (k : unit -> prog R) :
  total epoll_protocol Q w (k tt) -> total epoll_protocol Q w ((if b then error_handle else mret tt) ≫= k).
Proof. intros Hk. destruct b; by apply total_ret_bind. Qed.

Lemma on_connection_total w :
  rest w ->
  total epoll_protocol (λ _ w', rest w' /\ w_in w ⊆ w_in w' /\ w_out w' = w_out w /\ w_end w' = w_end w)
    w (on_connection listenfd epfd).
Proof.
  intros (Hn & Hd & Hdis). unfold on_connection. p_call; [done|].
  intros Hacc. apply error_if, set_nonblocking_total.
  { destruct Hacc as [[Ha ->]|(_ & _ & _ & _ & ->)]; [by right|by left]. }
  destruct Hacc as [[Ha ->]|(Ha & Hl & Hi & Ho & ->)].
  - p_call; [by split_and!; auto|]. intros [[_ ->]|(_ & Hnew & ->)]; [|congruence].
    apply error_if, total_ret. by at_rest.
  - p_call; [by split_and!; auto|]. intros [[_ ->]|(_ & _ & ->)]; apply error_if, total_ret; cbn.
    + by at_rest.
    + at_rest; [set_solver|done|done].
Qed.

Lemma on_input_total fd w :
  rest w -> fd ∈ w_in w ->
  total epoll_protocol (λ _ w', rest w' /\ w_in w ∖ {[fd]} ⊆ w_in w' /\ w_out w ⊆ w_out w' /\ w_end w' = w_end w)
    w (on_input epfd fd send_buf).
Proof.
  intros (Hn & Hd & Hdis) Hfd. assert (fd ∉ w_out w) as Hout by set_solver.
  unfold on_input. p_call; [done|]. destruct a as [[|c bs]|].
  - intros ->. apply total_last; cbn; [by left|]. intros [] w' ->. at_rest; first [done|set_solver].
  - intros ->. p_call; [done|]. intros [[Ha ->]|[Ha ->]].
    + rewrite (proj2 (Z.ltb_ge _ 0)) by done. apply total_ret. at_rest; first [done|set_solver].
    + rewrite (proj2 (Z.ltb_lt _ 0)) by done. p_call; [done|]. intros ->. destruct (a0 =? EAGAIN).
      * p_call; [done|]. intros [[_ ->]|[_ ->]].
        -- destruct (_ <? 0); apply total_ret; at_rest; first [done|set_solver].
        -- destruct (_ <? 0); apply total_ret; at_rest; first [done|set_solver].
      * apply total_ret. at_rest; first [done|set_solver].
  - intros ->. p_call; [done|]. intros ->. destruct (_ =? EAGAIN); apply total_ret.
    + at_rest; first [done|set_solver].
    + at_rest; first [done|set_solver].
Qed.

(** The events still to be looked at. *)
Definition looking (evs : list epoll_event) (w : watch) : Prop :=
  rest w /\ NoDup (map ev_fd evs) /\
  Forall (λ ev, ev_in ev = true -> ev_fd ev = listenfd \/ ev_fd ev ∈ w_in w) evs /\
  w_end w = if forallb (λ ev, ev_in ev || ev_out ev) evs then Running else BadEvent.

Lemma watching_next ev evs w w' :
  looking (ev :: evs) w -> ev_in ev || ev_out ev = true -> rest w' -> w_end w' = w_end w ->
  (forall fd, fd ∈ w_in w -> fd <> ev_fd ev -> fd ∈ w_in w') -> looking evs w'.
Proof.
  intros (_ & Hnd & Hin & He) Hev Hr' He' Hsub. cbn in Hnd, He. apply NoDup_cons in Hnd as [Hni Hnd].
  apply Forall_cons in Hin as [_ Hin]. split_and!; [done|done| |by rewrite He', He, Hev].
  rewrite Forall_forall in Hin |- *. intros ev' Hev' Hi. destruct (Hin ev' Hev' Hi) as [|Hw]; [by left|right].
  apply Hsub; [done|]. intros Heq. apply Hni. rewrite <- Heq. by apply list_elem_of_fmap_2.
Qed.

Lemma events_loop_total evs : forall w, looking evs w ->
  total epoll_protocol (λ (stop : bool) w', rest w' /\ w_out w ⊆ w_out w' /\ w_end w' = if stop then BadEvent else Running)
    w (events_loop listenfd epfd send_buf evs).
Proof.
  induction evs as [|ev evs IH]; intros w Hl; pose proof Hl as (Hr & Hnd & Hin & He); cbn [events_loop].
  { by apply total_ret. }
  destruct (ev_in ev) eqn:Hi; [|destruct (ev_out ev) eqn:Ho].
  - eapply total_bind with (Q := λ _ w', looking evs w' /\ w_out w ⊆ w_out w').
    + destruct (Z.eqb_spec (ev_fd ev) listenfd) as [|Hne].
      * eapply total_conseq; [by apply on_connection_total|]. intros [] w' (Hr' & Hs & Ho & He').
        split; [eapply watching_next; [done|by rewrite Hi|done|done|set_solver]|by rewrite Ho].
      * apply Forall_cons in Hin as [Hin _]. destruct (Hin Hi) as [|Hw]; [done|].
        eapply total_conseq; [by apply on_input_total|]. intros [] w' (Hr' & Hs & Ho & He').
        split; [eapply watching_next; [done|by rewrite Hi|done|done|set_solver]|done].
    + intros [] w' [Hl' Ho]. eapply total_conseq; [by apply IH|]. intros stop w2 (? & ? & ?). split_and!; [done|set_solver|done].
  - eapply IH, watching_next; [done|by rewrite Hi, Ho|done|done|auto].
  - apply total_ret. cbn in He. rewrite Hi, Ho in He. by split_and!.
Qed.

Lemma epoll_turn_total w :
  rest w -> w_end w = Running ->
  total epoll_protocol (λ r w', match r with
    | inl _ => rest w' /\ w_end w' = Running
    | inr b => w_end w' = if b : bool then BadEvent else WaitFailed end) w (wait_turn listenfd epfd send_buf).
Proof.
  intros (Hn & Hd & Hdis) He. unfold wait_turn. p_call; [done|]. destruct a as [evs|]; [|intros ->; by apply total_ret].
  intros [(Hnd & Hin & _) ->]. eapply total_bind; [apply events_loop_total; by split_and!|].
  intros [|] w' (Hr' & _ & He'); by apply total_ret.
Qed.
End loop.

(** C34: The loop of the [epoll] server, from any state at rest: it reads only what is watched
    for input, closes what is at its end, watches every connection it accepts, and to
    whoever has sent something it writes its array [send_buf], to which nothing was ever
    written, and never what was sent; a connection that could not take it is watched for
    room from then on and never served or closed again; and the loop is left only by a
    failed wait, or by an event that is neither input nor room, after which nothing is
    closed. *)
Theorem epoll_serves (listenfd epfd : Z) (send_buf : bytes) (w : watch) :
  rest w -> w_end w = Running ->
  safe (epoll_protocol listenfd epfd send_buf)
    (λ r w', r = None /\ w_end w' = BadEvent \/ r = Some 0 /\ w_end w' = WaitFailed) w (serve listenfd epfd send_buf).
Proof.
  intros Hr He. unfold serve.
  eapply safe_bind; [apply (safe_loop _ (λ _ w, rest w /\ w_end w = Running)
    (λ (b : bool) w', w_end w' = if b then BadEvent else WaitFailed))|].
  - intros [] w1 [Hr1 He1]. apply total_safe. eapply total_conseq; [by apply epoll_turn_total|].
    by intros [[]|b] w2.
  - done.
  - intros [|] w1 H1; [apply safe_ret; auto|].
    eapply safe_call; [cbn; auto|]. intros [] w2 ->. eapply safe_call; [cbn; auto|]. intros [] w3 ->.
    apply safe_ret. auto.
Qed.

Lemma epoll_serves_witness :
  let w := mkWatch {[5]} {[6]} None Nothing Running in
  safe (epoll_protocol 3 4 [SP])
    (λ r w', r = None /\ w_end w' = BadEvent \/ r = Some 0 /\ w_end w' = WaitFailed) w (serve 3 4 [SP]).
Proof.
  intros w. apply (epoll_serves 3 4 [SP] w); [|reflexivity].
  split; [reflexivity|]. split; [reflexivity|]. apply (bool_decide_unpack _). vm_compute. exact I.
Defined.

(** ** poll_test.c

    The sockets and the lines printed: one verdict, after which no socket is closed. *)
Record polling := mkPolling { o_listen : option Z; o_conn : option Z; o_lines : list bytes; o_failed : bool }.

Definition may_poll (w : polling) (A : Type) (e : unixE A) : Prop :=
  match e with
  | Socket ty => o_listen w = None
  | Bind fd _ | Listen fd _ | Accept fd => o_listen w = Some fd /\ o_conn w = None
  | PollOne fd => o_conn w = Some fd
  | Print _ => is_Some (o_conn w)
  | Exit _ => o_failed w = true
  | _ => False
  end.

Definition does_poll (w : polling) (A : Type) (e : unixE A) : A -> polling -> Prop :=
  match e in unixE A return A -> polling -> Prop with
  | Socket _ => λ a w', w' = mkPolling (Some a) None [] (a <? 0)
  | Bind _ _ | Listen _ _ => λ a w', w' = mkPolling (o_listen w) None [] (o_failed w || (a <? 0))
  | Accept _ => λ a w', w' = mkPolling (o_listen w) (Some a) [] (o_failed w || (a <? 0))
  | Print s => λ _ w', w' = mkPolling (o_listen w) (o_conn w) (o_lines w ++ [s]) (o_failed w)
  | _ => λ _ w', w' = w
  end.

Lemma poll_test_total a0 port :
  total (Protocol may_poll does_poll) (λ r w, r = 0 /\ is_Some (o_conn w) /\
      exists s, o_lines w = [lit "begin"; s] /\ (s = lit "POLLOUT" \/ s = lit "POLLERR" \/ s = lit "end"))
    (mkPolling None None [] false) (poll_test [a0; port]).
Proof.
  unfold poll_test. eapply total_call_bind; [done|]. intros fd w ->. destruct (fd <? 0) eqn:Hfd; [by apply exits_total; cbn; rewrite ?Hfd|].
  cbn [arg lookup list_lookup within]. apply total_ret_bind.
  eapply total_call_bind; [done|]. intros r w ->. destruct (r <? 0); [by apply exits_total; cbn; rewrite ?orb_true_r|].
  eapply total_call_bind; [done|]. intros r2 w ->. destruct (r2 <? 0); [by apply exits_total; cbn; rewrite ?orb_true_r|].
  eapply total_call_bind; [done|]. intros c w ->. destruct (c <? 0); [by apply exits_total; cbn; rewrite ?orb_true_r|].
  eapply total_call_bind; [by eexists|]. intros [] w ->. eapply total_call_bind; [done|]. intros [nready revents] w ->.
  destruct ((nready =? 1) && (revents =? POLLOUT)); [|destruct ((nready =? 1) && (revents =? POLLERR))];
    (eapply total_call_bind; [by eexists|]); intros [] w ->; apply total_ret; cbn;
    (split; [done|]); (split; [by eexists|]); eexists; (split; [done|]); auto.
Qed.
