(* ===== verification/Signals.v ===== *)
(** * Signals and child processes
      (src/Linux/TCP-IPNetworkPrograming/signal, zombie, sigalrm.cpp)

    Programs that wait, and what happens to them meanwhile.  The handler of a signal runs
    inside the call that the signal interrupts; [sleep] returns after that, [read] goes on.
    Time passes while a program sleeps or waits for input. *)
From S2P Require Import Prelude CLib CStr Interact Unix WriteV.

Definition SIGINT : Z := 2.
Definition SIGALRM : Z := 14.
Definition SIGCHLD : Z := 17.

(** [Sleep] and [ReadIn] answer the signal that interrupts them, if one does; [Fork] answers
    the number of the child, or 0 to it; [Wait] is [waitpid] for any child that has ended,
    and answers its number and what is in [status] afterwards. *)
Variant sigE : Type -> Type :=
  | Handle (sig : Z) : sigE unit
  | Alarm (secs : Z) : sigE unit
  | Puts (s : bytes) : sigE unit
  | Sleep (secs : Z) : sigE (option Z)
  | ReadIn (n : Z) : sigE ((option bytes) + Z)
  | Fork : sigE Z
  | Wait : sigE (Z * Z)
  | Crash : sigE Empty_set.

Abbreviation prog := (itree sigE).

Definition crash {A} : prog A := syscall Crash ≫= λ v : Empty_set, match v with end.

Definition sleep (handler : Z -> prog unit) (secs : Z) : prog unit :=
  r ← syscall (Sleep secs);
  match r with Some sig => handler sig | None => mret tt end.

(** [read] with [SA_RESTART]. *)
Definition read_restart (handler : Z -> prog unit) (n : Z) : prog (option bytes) :=
  loop (λ _ : unit,
    r ← syscall (ReadIn n);
    match r with
    | inr sig => handler sig;; mret (inl tt)
    | inl bs => mret (inr bs)
    end) tt.

Fixpoint times (n : nat) (body : prog unit) : prog unit :=
  match n with O => mret tt | S n => body;; times n body end.

(** ** The programs *)

Definition timeout (sig : Z) : prog unit :=
  (if sig =? SIGALRM then syscall (Puts (lit "Time out!")) else mret tt);;
  syscall (Alarm 2).

Definition keycontrol (sig : Z) : prog unit :=
  if sig =? SIGINT then syscall (Puts (lit "CTRL+C pressed")) else mret tt.

Definition handler (sig : Z) : prog unit := if sig =? SIGALRM then timeout sig else keycontrol sig.

Definition signal_main : prog Z :=
  syscall (Handle SIGALRM);;
  syscall (Handle SIGINT);;
  syscall (Alarm 2);;
  times 3 (syscall (Puts (lit "wait.."));; sleep handler 100);;
  mret 0.

Definition sigaction_main : prog Z :=
  syscall (Handle SIGALRM);;
  syscall (Alarm 2);;
  times 3 (syscall (Puts (lit "wait..."));; sleep timeout 100);;
  mret 0.

(** In the handler its own signal is blocked, so [sleep] is not interrupted there. *)
Definition sig_handler (sig : Z) : prog unit :=
  syscall (Puts (lit "in handler"));;
  syscall (Sleep 1);;
  syscall (Puts (lit "handler return")).

Definition SIGALRM_BUF : Z := 100.

(** [ignored] is whether the signal was ignored when the program began. *)
Definition sigalrm_main (ignored : bool) : prog Z :=
  (if ignored then mret tt else syscall (Handle SIGALRM));;
  syscall (Alarm 3);;
  let buf := replicate (Z.to_nat SIGALRM_BUF) NUL in
  r ← read_restart sig_handler SIGALRM_BUF;
  let buf := match r with Some bs => over bs buf | None => buf end in
  match cstring buf 0 with
  | Some s => syscall (Puts s);; mret 0
  | None => crash
  end.

Definition WIFEXITED (status : Z) : bool := Z.land status 127 =? 0.
Definition WEXITSTATUS (status : Z) : Z := Z.land (Z.shiftr status 8) 255.

Definition read_childproc (sig : Z) : prog unit :=
  r ← syscall Wait;
  if WIFEXITED r.2 then
    syscall (Puts (lit "Removed proc id: " ++ format_d r.1 ++ lit " "));;
    syscall (Puts (lit "Child send: " ++ format_d (WEXITSTATUS r.2) ++ lit " "))
  else mret tt.

Definition remove_zombie_main : prog Z :=
  syscall (Handle SIGCHLD);;
  syscall (Handle SIGCHLD);;
  pid ← syscall Fork;
  if pid =? 0 then
    syscall (Puts (lit "Hi! I'm child process 1"));;
    syscall (Sleep 10);;
    mret 12
  else
    syscall (Puts (lit "Child 1 proc id: " ++ format_d pid ++ lit " "));;
    pid ← syscall Fork;
    if pid =? 0 then
      syscall (Puts (lit "Hi! I'M child process 2"));;
      syscall (Sleep 10);;
      mret 24
    else
      syscall (Puts (lit "Child 2 proc id: " ++ format_d pid ++ lit " "));;
      times 2 (syscall (Puts (lit "wait..."));; sleep read_childproc 100);;
      mret 0.

Definition zombie_main : prog Z :=
  pid ← syscall Fork;
  (if pid =? 0 then syscall (Puts (lit "Hi, I am a child process"))
   else syscall (Puts (lit "Child Process ID: " ++ format_d pid ++ lit " "));; syscall (Sleep 30);; mret tt);;
  (if pid =? 0 then syscall (Puts (lit "End child process")) else syscall (Puts (lit "End parent process")));;
  mret 0.

(** ** Alarms

    The time, when the alarm goes off, the signals that are handled, what was printed, how
    many calls were interrupted, and the input that will come. *)
Record clock := mkClock {
  c_now : Z; c_alarm : option Z; c_handled : gset Z; c_out : list bytes; c_cuts : nat; c_input : option bytes
}.
Definition clock0 (input : option bytes) : clock := mkClock 0 None ∅ [] 0 input.

(** An interruption at time [t] by a signal that is handled: by the alarm when it is due,
    or by the keyboard at any time before. *)
Definition interrupts (w : clock) (sig t : Z) (w' : clock) : Prop :=
  c_now w <= t /\ (sig ∈ c_handled w) /\
  (sig = SIGALRM /\ c_alarm w = Some t /\
     w' = mkClock t None (c_handled w) (c_out w) (S (c_cuts w)) (c_input w) \/
   sig = SIGINT /\ (forall d, c_alarm w = Some d -> t <= d) /\
     w' = mkClock t (c_alarm w) (c_handled w) (c_out w) (S (c_cuts w)) (c_input w)).

Definition alarm_protocol : protocol sigE clock :=
  Protocol
    (λ w A e, match e with
              | Handle _ | Alarm _ | Puts _ | Sleep _ | ReadIn _ => True
              | Crash => exists bs, c_input w = Some bs /\ SIGALRM_BUF <= lenZ bs
              | _ => False
              end)
    (λ w A e, match e in sigE A return A -> clock -> Prop with
              | Handle sig => λ _ w', w' = mkClock (c_now w) (c_alarm w) ({[sig]} ∪ c_handled w) (c_out w) (c_cuts w) (c_input w)
              | Alarm n => λ _ w', w' = mkClock (c_now w) (Some (c_now w + n)) (c_handled w) (c_out w) (c_cuts w) (c_input w)
              | Puts s => λ _ w', w' = mkClock (c_now w) (c_alarm w) (c_handled w) (c_out w ++ [s]) (c_cuts w) (c_input w)
              | Sleep n => λ a w',
                  match a with
                  | Some sig => exists t, t <= c_now w + n /\ interrupts w sig t w'
                  | None => (forall d, c_alarm w = Some d -> SIGALRM ∈ c_handled w -> c_now w + n < d) /\
                      w' = mkClock (c_now w + n) (c_alarm w) (c_handled w) (c_out w) (c_cuts w) (c_input w)
                  end
              | ReadIn n => λ a w',
                  match a with
                  | inr sig => exists t, interrupts w sig t w'
                  | inl bs => bs = option_map (takeZ n) (c_input w) /\ w' = w
                  end
              | _ => λ _ _, False
              end).

Ltac s_call := eapply total_call_bind; [done|intros ? ?; cbn [answers alarm_protocol]].

(** [sleep] is always cut short while an alarm of at most two seconds is set. *)
Definition set_soon (sigs : gset Z) (w : clock) : Prop :=
  c_handled w = sigs /\ exists d, c_alarm w = Some d /\ c_now w <= d <= c_now w + 2.

Lemma sleep_cut (handled : Z -> prog unit) sigs n (Q : unit -> clock -> Prop) w :
  set_soon sigs w -> SIGALRM ∈ sigs -> 2 <= n ->
  (forall sig t w', c_now w <= t <= c_now w + 2 -> interrupts w sig t w' -> total alarm_protocol Q w' (handled sig)) ->
  total alarm_protocol Q w (sleep handled n).
Proof.
  intros (Hh & d & Hd & Hr) Ha Hn Hk. unfold sleep. s_call. destruct a as [sig|].
  - intros (t & Ht & Hi). apply (Hk sig t); [|done]. destruct Hi as (H1 & _ & [(_ & Hal & _)|(_ & Hle & _)]).
    + rewrite Hd in Hal. injection Hal as ->. lia.
    + specialize (Hle d Hd). lia.
  - intros [H1 _]. rewrite Hh in H1. specialize (H1 d Hd Ha). lia.
Qed.

(** A body done [n] times. *)
Lemma times_total {S} (P : protocol sigE S) (Lo : nat -> S -> Prop) (body : prog unit) n : forall w,
  Lo n w -> (forall k w, Lo (Datatypes.S k) w -> total P (λ _ w', Lo k w') w body) ->
  total P (λ _ w', Lo 0%nat w') w (times n body).
Proof.
  induction n as [|n IH]; intros w Hw Hb; cbn [times]; [by apply total_ret|].
  eapply total_bind; [by apply Hb|]. intros [] w' Hw'. by apply IH.
Qed.

Definition WAIT : bytes := lit "wait..".
Definition wait_count (l : list bytes) : nat := length (filter (.= WAIT) l).
Definition waits (w : clock) : nat := wait_count (c_out w).

Lemma wait_count_app l k : wait_count (l ++ k) = (wait_count l + wait_count k)%nat.
Proof. unfold wait_count. by rewrite filter_app, length_app. Qed.

(** Turns that are left. *)
Definition waited (k : nat) (w : clock) : Prop :=
  set_soon {[SIGALRM; SIGINT]} w /\ (c_cuts w + k = 3)%nat /\ (waits w + k = 3)%nat /\ c_now w <= 2 * Z.of_nat (3 - k).

Lemma signal_turn k w :
  waited (S k) w -> total alarm_protocol (λ _ w', waited k w') w (syscall (Puts WAIT);; sleep handler 100).
Proof.
  intros ((Hh & d & Hd & Hr) & Hc & Hw & Hn). s_call. intros ->.
  apply (sleep_cut _ {[SIGALRM; SIGINT]}); [split; [done|by exists d]|set_solver|done|].
  intros sig t w' Ht (_ & _ & [(-> & _ & ->)|(-> & Hle & ->)]); unfold handler; cbn [c_now c_alarm c_handled c_out c_cuts c_input] in *.
  - change (SIGALRM =? SIGALRM) with true. cbn iota. unfold timeout. change (SIGALRM =? SIGALRM) with true. cbn iota.
    s_call. intros ->. apply total_last; [done|]. intros [] w' ->. unfold waited, set_soon, waits in *. cbn -[Z.mul wait_count WAIT lit Nat.sub].
    rewrite !wait_count_app. change (wait_count [WAIT]) with 1%nat. change (wait_count [lit "Time out!"]) with 0%nat.
    split_and!; [done|exists (t + 2); split; [done|lia]|lia|lia|lia].
  - change (SIGINT =? SIGALRM) with false. cbn iota. unfold keycontrol. change (SIGINT =? SIGINT) with true. cbn iota.
    specialize (Hle d Hd). apply total_last; [done|]. intros [] w' ->. unfold waited, set_soon, waits in *. cbn -[Z.mul wait_count WAIT lit Nat.sub].
    rewrite !wait_count_app. change (wait_count [WAIT]) with 1%nat. change (wait_count [lit "CTRL+C pressed"]) with 0%nat.
    split_and!; [done|exists d; split; [done|lia]|lia|lia|lia].
Qed.

(** What [sigaction.c] has printed when [k] turns are left, and when. *)
Definition rung (k : nat) (w : clock) : Prop :=
  w = mkClock (2 * Z.of_nat (3 - k)) (Some (2 * Z.of_nat (3 - k) + 2)) {[SIGALRM]}
        (concat (replicate (3 - k) [lit "wait..."; lit "Time out!"])) (3 - k) None.

Lemma sigaction_turn k w :
  (k < 3)%nat -> rung (S k) w -> total alarm_protocol (λ _ w', rung k w') w (syscall (Puts (lit "wait..."));; sleep timeout 100).
Proof.
  intros Hk ->. s_call. intros ->.
  apply (sleep_cut _ {[SIGALRM]}); [split; [done|]; cbn -[Z.mul]; eexists; split; [done|lia]|set_solver|done|].
  intros sig t w' Ht (_ & Hin & [(-> & Hal & ->)|(-> & _)]); [|set_solver].
  cbn -[Z.mul concat replicate] in Hal. injection Hal as <-.
  unfold timeout. change (SIGALRM =? SIGALRM) with true. cbn iota. s_call. intros ->.
  apply total_last; [done|]. intros [] w' ->. unfold rung. cbn -[Z.mul concat replicate].
  replace (3 - k)%nat with (S (3 - S k)) by lia. rewrite replicate_S_end, concat_app. cbn [concat app].
  rewrite <- app_assoc. cbn [app]. f_equal; [lia|f_equal; lia].
Qed.

(** What the input brings is printed, after the alarm has rung once or not at all; input
    that fills the array runs over its end. *)
Definition reads_on (input : option bytes) (w : clock) : Prop :=
  c_input w = input /\ (c_alarm w = None -> c_out w = [lit "in handler"; lit "handler return"]) /\
  (is_Some (c_alarm w) -> c_out w = []) /\ (SIGINT ∉ c_handled w).

Lemma sigalrm_total ignored input :
  (forall bs, input = Some bs -> (NUL ∉ bs) /\ lenZ bs < SIGALRM_BUF) ->
  total alarm_protocol (λ r w, r = 0 /\ exists bell, (bell = [] \/ bell = [lit "in handler"; lit "handler return"]) /\
      c_out w = bell ++ [default [] input]) (clock0 input) (sigalrm_main ignored).
Proof.
  intros Hin. unfold sigalrm_main.
  eapply total_bind with (Q := λ _ w, (SIGINT ∉ c_handled w) /\ c_out w = [] /\ c_input w = input).
  { destruct ignored; [by apply total_ret|]. apply total_last; [done|]. intros [] w ->. by split_and!. }
  intros [] w (Hh & Ho & Hi). s_call. intros ->.
  eapply total_bind with (Q := λ r w, r = option_map (takeZ SIGALRM_BUF) input /\ reads_on input w).
  - apply (total_loop _ (λ _ w, reads_on input w) (λ _ w, match c_alarm w with Some _ => 1 | None => 0 end)%nat).
    + intros [] w1 (H1 & H2 & H3 & H4). s_call. destruct a0 as [bs|sig].
      * intros [-> ->]. apply total_ret. rewrite H1. by split.
      * intros (t & _ & Hs & [(-> & Hal & ->)|(-> & _)]); [|done]. eapply total_bind with (Q := λ _ w', c_alarm w' = None /\ reads_on input w').
        -- unfold sig_handler. s_call. intros ->. s_call. destruct a1 as [sig|].
           { intros (t' & _ & _ & Hsig & [(_ & Hal' & _)|(-> & _)]); [done|done]. }
           intros [_ ->]. apply total_last; [done|]. intros [] w2 ->. cbn. rewrite H3 by (by eexists).
           split; [done|]. unfold reads_on. split_and!; [done|done|by intros [? ?]|done].
        -- intros [] w2 [Hn Hr]. apply total_ret. split; [done|]. rewrite Hal, Hn. lia.
    + unfold reads_on. by split_and!.
  - intros r w1 (-> & H1 & H2 & H3 & _).
    assert (exists bell, (bell = [] \/ bell = [lit "in handler"; lit "handler return"]) /\ c_out w1 = bell) as (bell & Hr & Hout).
    { exists (c_out w1). split; [|done]. destruct (c_alarm w1); [left; apply H3; by eexists|right; by apply H2]. }
    assert (cstring match option_map (takeZ SIGALRM_BUF) input with
                    | Some bs => over bs (replicate (Z.to_nat SIGALRM_BUF) NUL)
                    | None => replicate (Z.to_nat SIGALRM_BUF) NUL end 0 = Some (default [] input)) as ->.
    { destruct input as [bs|]; cbn [option_map default]; [|by vm_compute]. destruct (Hin bs eq_refl) as [Hn Hl].
      rewrite takeZ_ge by lia. unfold over, dropZ. rewrite drop_replicate.
      destruct (Z.to_nat SIGALRM_BUF - Z.to_nat (lenZ bs))%nat as [|m] eqn:Hm; [unfold SIGALRM_BUF in *; lia|].
      by apply (cstring_eq _ [] bs (replicate m NUL)). }
    s_call. intros ->. apply total_ret. split; [done|]. exists bell. cbn. by rewrite Hout.
Qed.

(** ** Children

    The number of this process (0 for the parent), the time, when its children that run will
    end, how many have ended and not been waited for, how many have been, and whether their
    signal is handled. *)
Record family := mkFamily {
  f_me : Z; f_now : Z; f_running : list Z; f_zombies : nat; f_removed : nat; f_handled : bool
}.
Definition family0 : family := mkFamily 0 0 [] 0 0 false.

(** Of the children that end at the same time one signal tells, or one for each: [k] of them
    have ended when the signal comes. *)
Definition child_protocol : protocol sigE family :=
  Protocol
    (λ w A e, match e with
              | Handle sig => sig = SIGCHLD
              | Puts _ | Sleep _ | Fork => True
              | Wait => f_zombies w <> 0%nat
              | _ => False
              end)
    (λ w A e, match e in sigE A return A -> family -> Prop with
              | Handle _ => λ _ w', w' = mkFamily (f_me w) (f_now w) (f_running w) (f_zombies w) (f_removed w) true
              | Puts _ => λ _ w', w' = w
              | Fork => λ pid w',
                  0 < pid /\ w' = mkFamily (f_me w) (f_now w) (f_running w ++ [f_now w + 10]) (f_zombies w) (f_removed w) (f_handled w) \/
                  pid = 0 /\ w' = mkFamily (f_me w + Z.of_nat (length (f_running w)) + 1) (f_now w) [] 0 0 (f_handled w)
              | Sleep n => λ a w',
                  match a with
                  | Some sig => sig = SIGCHLD /\ f_handled w = true /\ exists t k rest,
                      f_running w = replicate (S k) t ++ rest /\ t <= f_now w + n /\
                      w' = mkFamily (f_me w) (Z.max (f_now w) t) rest (f_zombies w + S k) (f_removed w) true
                  | None => exists ended rest, f_running w = ended ++ rest /\ (f_handled w = true -> ended = []) /\
                      Forall (λ t, t <= f_now w + n) ended /\ Forall (λ t, f_now w + n < t) rest /\
                      w' = mkFamily (f_me w) (f_now w + n) rest (f_zombies w + length ended) (f_removed w) (f_handled w)
                  end
              | Wait => λ _ w', w' = mkFamily (f_me w) (f_now w) (f_running w) (pred (f_zombies w)) (S (f_removed w)) (f_handled w)
              | _ => λ _ _, False
              end).

(** C38: Though they sleep three times a hundred seconds, [signal.c] ends within six seconds
    and [sigaction.c] after exactly six, each sleep cut short once; the one has announced
    each wait, and the other has printed a line for each wait and each alarm in turn. *)
Theorem signals_end :
  total alarm_protocol (λ r w, r = 0 /\ c_cuts w = 3%nat /\ waits w = 3%nat /\ c_now w <= 6) (clock0 None) signal_main /\
  total alarm_protocol (λ r w, r = 0 /\ c_cuts w = 3%nat /\ c_now w = 6 /\
      c_out w = concat (replicate 3 [lit "wait..."; lit "Time out!"])) (clock0 None) sigaction_main.
Proof.
  split; [unfold signal_main|unfold sigaction_main].
  - s_call. intros ->. s_call. intros ->. s_call. intros ->.
    eapply total_bind; [apply (times_total _ waited)|].
    + split; [split; [cbn; set_solver|by exists 2]|]. by vm_compute.
    + intros k w Hw. by apply signal_turn.
    + intros [] w (_ & Hc & Hw & Hn). apply total_ret. split_and!; [done|lia|lia|]. cbn in Hn. lia.
  - s_call. intros ->. s_call. intros ->.
    eapply total_bind; [apply (times_total _ (λ k w, (k <= 3)%nat /\ rung k w))|].
    + split; [done|]. done.
    + intros k w [Hk Hw]. eapply total_conseq; [apply (sigaction_turn k); [lia|done]|]. intros [] w' Hw'. split; [lia|done].
    + intros [] w [_ ->]. by apply total_ret.
Qed.

(** ** remove_zombie.c *)

Ltac k_call := eapply total_call_bind; [done|intros ? ?; cbn [answers child_protocol]].

(** A child that has none of its own sleeps to the end. *)
Lemma child_sleeps {R} (Q : R -> family -> Prop) n w (k : option Z -> prog R) :
  f_running w = [] ->
  (forall w', w' = mkFamily (f_me w) (f_now w + n) [] (f_zombies w) (f_removed w) (f_handled w) -> total child_protocol Q w' (k None)) ->
  total child_protocol Q w (syscall (Sleep n) ≫= k).
Proof.
  intros Hr Hk. k_call. rewrite Hr. destruct a as [sig|].
  - intros (_ & _ & t & m & rest & Heq & _). done.
  - intros (ended & rest & Heq & _ & _ & _ & ->). symmetry in Heq. apply app_eq_nil in Heq as [-> ->].
    apply Hk. cbn. by rewrite Nat.add_0_r.
Qed.

(** One wait of the parent: it is told of children that have ended, and removes one; or no
    child ends. *)
Lemma parent_turn (Q : unit -> family -> Prop) w :
  f_handled w = true ->
  (forall t k rest, f_running w = replicate (S k) t ++ rest ->
     Q tt (mkFamily (f_me w) (Z.max (f_now w) t) rest (f_zombies w + k) (S (f_removed w)) true)) ->
  (Forall (λ t, f_now w + 100 < t) (f_running w) ->
     Q tt (mkFamily (f_me w) (f_now w + 100) (f_running w) (f_zombies w) (f_removed w) true)) ->
  total child_protocol Q w (syscall (Puts (lit "wait..."));; sleep read_childproc 100).
Proof.
  intros Hh H1 H2. k_call. intros ->. unfold sleep. k_call. destruct a0 as [sig|].
  - intros (-> & _ & t & k & rest & Heq & _ & ->). unfold read_childproc.
    eapply total_call_bind; [cbn; lia|]. intros a1 w1. cbn [answers child_protocol]. intros ->.
    destruct (WIFEXITED a1.2); [|apply total_ret; cbn -[Z.max]; rewrite Nat.add_succ_r; by apply H1].
    k_call. intros ->. apply total_last; [done|]. intros [] w' ->. cbn -[Z.max]. rewrite Nat.add_succ_r. by apply H1.
  - intros (ended & rest & Heq & He & _ & Hf & ->). rewrite He in Heq by done. cbn in Heq. subst rest.
    apply total_ret. rewrite He by done. cbn. rewrite Nat.add_0_r, Hh. by apply H2.
Qed.

(** The parent waits for its children; those that end together may cost it one of them. *)
Definition one_removed w : Prop := w = mkFamily 0 10 [10] 0 1 true \/ w = mkFamily 0 10 [] 1 1 true.
Definition outcome w : Prop :=
  f_me w = 0 /\ (f_now w = 10 /\ f_zombies w = 0%nat /\ f_removed w = 2%nat \/
                 f_now w = 110 /\ f_zombies w = 1%nat /\ f_removed w = 1%nat).

Lemma first_wait : total child_protocol (λ _ w, one_removed w) (mkFamily 0 0 [10; 10] 0 0 true)
  (syscall (Puts (lit "wait..."));; sleep read_childproc 100).
Proof.
  apply parent_turn; [done| |]; cbn -[Z.max].
  - intros t [|[|k]] rest Heq; cbn in Heq; injection Heq as ? ?; subst; [by left|by right|done].
  - intros Hf. apply Forall_cons in Hf as [Hf _]. lia.
Qed.

Lemma second_wait w : one_removed w ->
  total child_protocol (λ _ w, outcome w) w (syscall (Puts (lit "wait..."));; sleep read_childproc 100).
Proof.
  intros [-> | ->]; (apply parent_turn; [done| |]); cbn -[Z.max].
  - intros t [|k] rest Heq; cbn in Heq; injection Heq as ? ?; subst; [|done]. split; [done|by left].
  - intros Hf. apply Forall_cons in Hf as [Hf _]. lia.
  - intros t k rest Heq. done.
  - intros _. split; [done|by right].
Qed.

Lemma zombie_outcomes :
  total child_protocol (λ r w, r = 0 /\ outcome w \/ r = 12 * f_me w /\ 0 < f_me w /\ f_now w = 10)
    family0 remove_zombie_main.
Proof.
  unfold remove_zombie_main. k_call. intros ->. k_call. intros ->. k_call. intros [[Hp ->]|[-> ->]].
  2: { change (0 =? 0) with true. cbn iota. k_call. intros ->. apply child_sleeps; [done|]. intros w ->. apply total_ret. by right. }
  rewrite (proj2 (Z.eqb_neq _ 0)) by lia. k_call. intros ->. k_call. intros [[Hp' ->]|[-> ->]].
  2: { change (0 =? 0) with true. cbn iota. k_call. intros ->. apply child_sleeps; [done|]. intros w ->. apply total_ret. by right. }
  rewrite (proj2 (Z.eqb_neq _ 0)) by lia. k_call. intros ->. cbn [times]. unfold family0.
  cbn [f_me f_now f_running f_zombies f_removed f_handled app]. change (0 + 10) with 10.
  eapply total_bind with (Q := λ _ w, outcome w); [|intros [] w Hw; apply total_ret; by left].
  eapply total_bind; [apply first_wait|]. intros [] w Hw.
  eapply total_bind; [by apply second_wait|]. intros [] w' Hw'. by apply total_ret.
Qed.

(** [zombie.c]: the child ends at once; the parent sleeps on for half a minute. *)
Lemma zombie_total :
  total child_protocol (λ r w, r = 0 /\ (f_me w = 0 -> f_now w = 30)) family0 zombie_main.
Proof.
  unfold zombie_main. k_call. intros [[Hp ->]|[-> ->]].
  - rewrite (proj2 (Z.eqb_neq _ 0)) by lia. eapply total_bind with (Q := λ _ w, f_now w = 30).
    + k_call. intros ->. k_call. destruct a1 as [sig|]; [intros (_ & H & _); done|].
      intros (ended & rest & _ & _ & _ & _ & ->). by apply total_ret.
    + intros [] w Hw. k_call. intros ->. by apply total_ret.
  - change (0 =? 0) with true. cbn iota. k_call. intros ->. k_call. intros ->. by apply total_ret.
Qed.
