(* ===== verification/Explore.v ===== *)
(** * All runs of a small pool

    A pool whose calls have finitely many answers can be explored: [explore] follows
    every run and tests every state in which nothing can go on.  When it answers [true]
    all runs of the pool are bounded and end in states that pass the test, which
    evaluation then proves. *)
From S2P Require Import Prelude Interact Threads.

Section explore.
Context {E : Type -> Type} {S R : Type}.
Context (P : nat -> protocol E S) (answers_of : nat -> forall A, E A -> S -> list (A * S)).
Context (Hanswers : forall i s A (e : E A) a s', answers (P i) s e a s' -> In (a, s') (answers_of i A e s)).

Definition no_system (s s' : S) : Prop := False.

Abbreviation state := (list (itree E R) * S)%type.

(** The states one step of thread [i], which is at [t], leads to. *)
Definition moves_from (ps : state) (i : nat) (t : itree E R) : list state :=
  match observe t with
  | RetF _ => []
  | TauF u => [(<[i := u]> ps.1, ps.2)]
  | VisF e k => map (λ r, (<[i := k r.1]> ps.1, r.2)) (answers_of i _ e ps.2)
  end.

Definition moves (ps : state) (i : nat) : list state :=
  match ps.1 !! i with None => [] | Some t => moves_from ps i t end.

Definition successors (ps : state) : list state := concat (map (moves ps) (seq 0 (length ps.1))).

(** Nothing but states that pass [final] is reached after which there is no step, and they are
    reached within [n] steps. *)
Fixpoint explore (n : nat) (final : state -> bool) (ps : state) : bool :=
  match successors ps with
  | [] => final ps
  | next => match n with O => false | Datatypes.S n => forallb (explore n final) next end
  end.

Lemma successors_complete ps ps' : pool_step P no_system ps ps' -> In ps' (successors ps).
Proof.
  intros H. assert (exists i, i < length ps.1 /\ In ps' (moves ps i))%nat as (i & Hi & Hin).
  { apply pool_step_iff in H as [(s' & [] & _)|(i & t & Ht & H)].
    exists i. split; [by eapply lookup_lt_Some|]. unfold moves. rewrite Ht.
    unfold thread_step in H. unfold moves_from. destruct (observe t) as [r|u|A e k]; [done|by left|].
    destruct H as (a & s' & Ha & ->). apply in_map_iff. exists (a, s'). split; [done|]. by apply Hanswers. }
  apply in_concat. exists (moves ps i). split; [|done]. apply in_map, in_seq. lia.
Qed.

Lemma explore_step n final ps ps' :
  explore n final ps = true -> pool_step P no_system ps ps' ->
  exists m, n = Datatypes.S m /\ explore m final ps' = true.
Proof.
  intros He H%successors_complete.
  destruct n as [|n]; cbn in He; (destruct (successors ps) as [|p l]; [done|]); [done|].
  exists n. split; [done|]. by apply (proj1 (forallb_forall _ (p :: l)) He).
Qed.

(** Every run ends, where it is meant to. *)
Lemma explore_sound n final ps :
  explore n final ps = true -> forall k ps', nsteps (pool_step P no_system) k ps ps' ->
  (k <= n)%nat /\ (successors ps' = [] -> final ps' = true).
Proof.
  intros He k. revert n ps He. induction k as [|k IH]; intros n ps He ps' Hk.
  - inversion Hk; subst. split; [lia|]. intros Hs. by destruct n; cbn in He; rewrite Hs in He.
  - inversion Hk as [|? ? q ? H1 H2]; subst. destruct (explore_step _ _ _ _ He H1) as (m & -> & Hm).
    destruct (IH m q Hm ps' H2). split; [lia|done].
Qed.
End explore.
