(* ===== verification/Pipe.v ===== *)
(** * Two processes and one pipe (src/Linux/TCP-IPNetworkPrograming/pipe/pipe.c)

    A process and its child write to the same pipe and read from it; they wait two seconds
    where they want the other to go on.  The two are a pool ([Threads]) of which every run
    is followed ([Explore]), whatever the sleeps take. *)
From S2P Require Import Prelude CStr Interact Threads Unix Explore.

(** ** Calls

    They have the two ends of the pipe, and each the memory of its own. *)
Variant pipeE : Type -> Type :=
  | pipe : pipeE unit
  | fork : pipeE Z
  | write (bs : bytes) : pipeE unit
  | read (n : Z) : pipeE bytes
  | sleep (secs : Z) : pipeE unit
  | printf (s : bytes) : pipeE unit
  | overrun : pipeE Empty_set.

Abbreviation prog := (itree pipeE).

(** ** The program *)

Definition BUF_SIZE : Z := 30.
Definition str1 : bytes := lit "Who are you?" ++ [NUL].
Definition str2 : bytes := lit "Thank you for your message" ++ [NUL].

(** [printf] with a string that the array need not end. *)
Definition print (buf : bytes) : prog unit :=
  match cstring buf 0 with
  | Some s => syscall (printf s)
  | None => syscall overrun ≫= λ v : Empty_set, match v with end
  end.

Definition child (buf : bytes) : prog Z :=
  syscall (write str1);;
  syscall (sleep 2);;
  bs ← syscall (read BUF_SIZE);
  print (over bs buf);;
  mret 0.

Definition parent (buf : bytes) : prog Z :=
  syscall (sleep 2);;
  bs ← syscall (read BUF_SIZE);
  print (over bs buf);;
  syscall (write str2);;
  mret 0.

Definition forks (buf : bytes) : prog Z :=
  pid ← syscall fork;
  if pid =? 0 then child buf else parent buf.

Definition main (buf : bytes) : prog Z :=
  syscall pipe;; forks buf.

(** [fork] returns in both processes. *)
Definition processes (buf : bytes) : list (prog Z) := [main buf; forks buf].

(** ** The pipe

    What is in it, whether there is a child, and what was printed by whom.  A read waits
    for bytes and takes those there are; the pipe is never closed, as each process has
    both its ends. *)
Inductive who := Parent | Child.
#[export] Instance who_eq_dec : EqDecision who.
Proof. solve_decision. Defined.

Record world := mkWorld { content : bytes; forked : bool; printed : list (who * bytes) }.
Definition nothing : world := mkWorld [] false [].

Definition name (i : nat) : who := match i with O => Parent | _ => Child end.

Section answers.
(** The number of the child. *)
Context (pid : Z).

Definition answers_of (i : nat) (A : Type) (e : pipeE A) (w : world) : list (A * world) :=
  match e in pipeE A return list (A * world) with
  | pipe => [(tt, w)]
  | fork =>
      match name i with
      | Parent => [(pid, mkWorld (content w) true (printed w)); (-1, w)]
      | Child => if forked w then [(0, w)] else []
      end
  | write bs => [(tt, mkWorld (content w ++ bs) (forked w) (printed w))]
  | read n =>
      match content w with
      | [] => []
      | l => [(takeZ n l, mkWorld (dropZ n l) (forked w) (printed w))]
      end
  | sleep _ => [(tt, w)]
  | printf s => [(tt, mkWorld (content w) (forked w) (printed w ++ [(name i, s)]))]
  | overrun => []
  end.

Definition pipe_protocol (i : nat) : protocol pipeE world :=
  Protocol (λ _ _ _, True) (λ w A e a w', In (a, w') (answers_of i A e w)).

(** ** How it ends *)

Definition returned (t : prog Z) : bool := match observe t with RetF _ => true | _ => false end.
Definition reading (t : prog Z) : bool :=
  match observe t with VisF (read _) _ => true | _ => false end.
Definition waiting (t : prog Z) : bool :=
  match observe t with VisF fork _ => true | _ => false end.

(** The two have talked to each other; the child has read its own message and the parent
    waits for one for ever; or there is no child, and the parent waits as well. *)
Definition talked (ps : list (prog Z) * world) : bool :=
  match ps.1 with
  | [p; c] => returned p && returned c &&
      bool_decide (printed ps.2 = [(Parent, lit "Who are you?"); (Child, lit "Thank you for your message")])
  | _ => false
  end.
Definition to_itself (ps : list (prog Z) * world) : bool :=
  match ps.1 with
  | [p; c] => reading p && returned c && bool_decide (printed ps.2 = [(Child, lit "Who are you?")])
  | _ => false
  end.
Definition alone (ps : list (prog Z) * world) : bool :=
  match ps.1 with
  | [p; c] => reading p && waiting c && bool_decide (printed ps.2 = [])
  | _ => false
  end.
End answers.

Lemma explored pid buf :
  0 < pid ->
  explore (answers_of pid) 11 (λ ps, talked ps || to_itself ps || alone ps) (processes buf, nothing) = true.
Proof. by destruct pid. Qed.

(** The schedules of the two ways it ends when there is a child: who takes the first message. *)
Definition orderly : list move := map (λ i, Move (C:=Empty_set) i 0%nat) [0; 0; 1; 1; 0; 0; 0; 0; 1; 1; 1]%nat.
Definition greedy : list move := map (λ i, Move (C:=Empty_set) i 0%nat) [0; 0; 1; 1; 1; 1; 1; 0]%nat.

Definition resolve pid (o i : nat) (A : Type) (e : pipeE A) (w : world) : option (A * world) :=
  answers_of pid i A e w !! o.

(** Runs by schedule are runs. *)
Lemma scheduled pid buf ms (final : list (prog Z) * world -> bool) :
  (ps ← exec (resolve pid) (λ (c : Empty_set) _, match c with end) ms (processes buf, nothing); Some (final ps)) = Some true ->
  exists ps, rtc (pool_step (pipe_protocol pid) no_system) (processes buf, nothing) ps /\ final ps = true.
Proof.
  intros (ps & Hx & [= Hf])%bind_Some. exists ps. split; [|done]. eapply exec_steps; [..|exact Hx]; [|by intros []].
  intros o i A e s a s' H. apply list_elem_of_In. by eapply list_elem_of_lookup_2.
Qed.

(** C37: Whatever the sleeps take, the two processes make at most eleven calls, and when
    nothing can go on any more they have read each other's message, or the child has read
    its own and the parent waits for ever, or there is no child and it waits as well; the
    first two both happen. *)
Theorem pipe_outcomes (pid : Z) (buf : bytes) (Hpid : 0 < pid) :
  (forall k ps, nsteps (pool_step (pipe_protocol pid) no_system) k (processes buf, nothing) ps ->
     (k <= 11)%nat /\
     (successors (answers_of pid) ps = [] -> talked ps || to_itself ps || alone ps = true)) /\
  (exists ps, rtc (pool_step (pipe_protocol pid) no_system) (processes buf, nothing) ps /\ talked ps = true) /\
  (exists ps, rtc (pool_step (pipe_protocol pid) no_system) (processes buf, nothing) ps /\ to_itself ps = true).
Proof.
  split; [by apply explore_sound, explored|].
  split; [apply scheduled with orderly|apply scheduled with greedy]; by destruct pid.
Qed.

Lemma pipe_outcomes_witness :
  0 < 7 /\
  forall k ps, nsteps (pool_step (pipe_protocol 7) no_system) k (processes (replicate 30 NUL), nothing) ps -> (k <= 11)%nat.
Proof. split; [done|]. intros k ps H. by apply (proj1 (pipe_outcomes 7 (replicate 30 NUL) eq_refl)) in H as [H _]. Defined.
