(* ===== verification/Addr.v ===== *)
(** * Addresses as text (Addr.cpp)

    The address of a peer in the usual notation.  [inet_ntop] is a function of the
    system: a parameter, whose documented behaviour is the class [Ntop]. *)
From S2P Require Import Prelude CLib CStr Interact Posix Unix WriteV Endian.

Class Ntop (inet_ntop : Z -> bytes) : Prop := {
  ntop_chars : forall a, NUL ∉ inet_ntop a /\ Byte.x3a ∉ inet_ntop a;
  ntop_length : forall a, 0 <= a < 2 ^ 32 -> lenZ (inet_ntop a) < 16;
  ntop_inj : forall a b, 0 <= a < 2 ^ 32 -> 0 <= b < 2 ^ 32 -> inet_ntop a = inet_ntop b -> a = b;
}.

Section addr.
Context (inet_ntop : Z -> bytes).

(** [None] is a string that leaves the array. *)
Definition toString (m_addr : sockaddr) : option bytes :=
  peerAddrBuf ← fill (replicate 1024 NUL) 0 (inet_ntop (sin_addr m_addr) ++ [NUL]);
  peer ← cstring peerAddrBuf 0;
  Some (peer ++ lit ":" ++ format_d (htons (sin_port m_addr))).
End addr.

(** ** What is printed *)

Lemma cut_at (c : byte) (x y x' y' : bytes) : c ∉ x -> c ∉ x' -> x ++ c :: y = x' ++ c :: y' -> x = x' /\ y = y'.
Proof.
  revert x'. induction x as [|d x IH]; intros [|d' x'] H H' Heq; cbn in *; [by injection Heq|..].
  - injection Heq as <- _. set_solver.
  - injection Heq as -> _. set_solver.
  - injection Heq as <- Heq. destruct (IH x') as [-> ->]; set_solver.
Qed.

Lemma htons_octets p : htons p = Z.lor (Z.shiftl (octet p 0) 8) (octet p 8).
Proof. done. Qed.

Lemma word_octets p : 0 <= p < 2 ^ 16 -> p = octet p 0 + 256 * octet p 8.
Proof.
  intros Hp. unfold octet. change 255 with (Z.ones 8). rewrite !Z.land_ones, Z.shiftr_0_r, Z.shiftr_div_pow2 by lia.
  change (2 ^ 8) with 256. rewrite (Z.mod_small (p / 256)); [pose proof (Z.div_mod p 256); lia|].
  split; [apply Z.div_pos; lia|apply Z.div_lt_upper_bound; lia].
Qed.

Lemma htons_sum p : htons p = 256 * octet p 0 + octet p 8.
Proof.
  rewrite htons_octets, <- Z.add_nocarry_lor; [rewrite Z.shiftl_mul_pow2 by lia; lia|].
  apply Z.bits_inj'. intros i Hi. rewrite Z.land_spec, Z.shiftl_spec, Z.bits_0 by done.
  destruct (Z.ltb_spec i 8) as [H|H]; [by rewrite Z.testbit_neg_r by lia|].
  rewrite <- (Z.mod_small (octet p 8) (2 ^ 8)) by apply octet_range.
  by rewrite Z.mod_pow2_bits_high, andb_false_r by lia.
Qed.

Lemma htons_inj p q : 0 <= p < 2 ^ 16 -> 0 <= q < 2 ^ 16 -> htons p = htons q -> p = q.
Proof.
  intros Hp Hq H. rewrite (word_octets p), (word_octets q) by done. rewrite !htons_sum in H.
  pose proof (octet_range p 0). pose proof (octet_range p 8).
  pose proof (octet_range q 0). pose proof (octet_range q 8). lia.
Qed.

Lemma htons_range p : 0 <= htons p < 2 ^ 16.
Proof. rewrite htons_sum. pose proof (octet_range p 0). pose proof (octet_range p 8). lia. Qed.

(** ["%d"] writes different numbers differently. *)
Lemma format_d_inj m n : 0 <= m < 2 ^ 31 -> 0 <= n < 2 ^ 31 -> format_d m = format_d n -> m = n.
Proof. intros Hm Hn H. by rewrite <- (atoi_format_d m), <- (atoi_format_d n), H by done. Qed.

Definition ipv4 (a : sockaddr) : Prop := 0 <= sin_addr a < 2 ^ 32 /\ 0 <= sin_port a < 2 ^ 16.

Section printed.
Context (inet_ntop : Z -> bytes) `{!Ntop inet_ntop}.

(** The array is never left. *)
Lemma toString_text a : ipv4 a ->
  toString inet_ntop a = Some (inet_ntop (sin_addr a) ++ lit ":" ++ format_d (htons (sin_port a))).
Proof.
  intros [Ha _]. unfold toString. pose proof (ntop_length _ Ha) as Hl. destruct (ntop_chars (sin_addr a)) as [Hn _].
  set (s := inet_ntop (sin_addr a)) in *.
  assert (replicate 1024 NUL = [] ++ replicate (S (length s)) NUL ++ replicate (1024 - S (length s)) NUL) as ->.
  { cbn [app]. rewrite <- replicate_add. f_equal. unfold lenZ in Hl. lia. }
  rewrite (fill_app []); [|done|unfold lenZ; rewrite length_app, length_replicate; cbn; lia].
  cbn [app mbind option_bind]. rewrite <- app_assoc. cbn [app].
  by rewrite (cstring_eq _ [] s (replicate (1024 - S (length s)) NUL)).
Qed.

(** Different addresses are printed differently. *)
Lemma toString_inj a b : ipv4 a -> ipv4 b -> toString inet_ntop a = toString inet_ntop b -> a = b.
Proof.
  intros Ha Hb. rewrite !toString_text by done. intros [= H].
  apply cut_at in H as [H1 H2]; [|apply ntop_chars..]. destruct Ha, Hb.
  pose proof (htons_range (sin_port a)). pose proof (htons_range (sin_port b)).
  apply ntop_inj in H1; [|done..]. apply format_d_inj, htons_inj in H2; [|lia..].
  destruct a, b. cbn in *. congruence.
Qed.
End printed.

(** ** The dotted notation

    A function that does what [inet_ntop] is documented to do. *)
Definition dotted (a : Z) : bytes :=
  format_d (octet a 0) ++ lit "." ++ format_d (octet a 8) ++ lit "." ++
  format_d (octet a 16) ++ lit "." ++ format_d (octet a 24).

Lemma format_d_digits n : 0 <= n -> Forall (λ c, isdigit c = true) (format_d n).
Proof. intros Hn. unfold format_d. arith_tests. by apply dec_digits_digits. Qed.

Lemma format_d_free (c : byte) n : isdigit c = false -> 0 <= n -> c ∉ format_d n.
Proof.
  intros Hc Hn Hin. pose proof (format_d_digits n Hn) as H. rewrite Forall_forall in H.
  rewrite (H c Hin) in Hc. done.
Qed.

Lemma dec_digits_short n acc k : 0 <= n < 256 -> (3 <= k)%nat -> lenZ (dec_digits k n acc) <= 3 + lenZ acc.
Proof.
  intros Hn Hk. destruct k as [|[|[|k]]]; try lia. cbn [dec_digits].
  destruct (Z.ltb_spec n 10); [rewrite !lenZ_cons; lia|].
  destruct (Z.ltb_spec (n / 10) 10); [rewrite !lenZ_cons; lia|].
  assert (n / 10 / 10 < 10) as H1. { do 2 (apply Z.div_lt_upper_bound; [lia|]). lia. }
  arith_tests. rewrite !lenZ_cons. lia.
Qed.

Lemma octet_text a k : lenZ (format_d (octet a k)) <= 3.
Proof.
  pose proof (octet_range a k). unfold format_d. arith_tests. by apply (dec_digits_short _ []); [|lia].
Qed.

Lemma quad_octets a : 0 <= a < 2 ^ 32 ->
  a = octet a 0 + 2 ^ 8 * (octet a 8 + 2 ^ 8 * (octet a 16 + 2 ^ 8 * octet a 24)).
Proof.
  intros Ha. unfold octet. change 255 with (Z.ones 8). rewrite !Z.land_ones, Z.shiftr_0_r, !Z.shiftr_div_pow2 by lia.
  change (2 ^ 24) with (2 ^ 8 * (2 ^ 8 * 2 ^ 8)). change (2 ^ 16) with (2 ^ 8 * 2 ^ 8). rewrite <- !Z.div_div by lia.
  rewrite (Z.mod_small (a / 2 ^ 8 / 2 ^ 8 / 2 ^ 8)).
  - pose proof (Z.div_mod a (2 ^ 8)). pose proof (Z.div_mod (a / 2 ^ 8) (2 ^ 8)).
    pose proof (Z.div_mod (a / 2 ^ 8 / 2 ^ 8) (2 ^ 8)). lia.
  - split; [repeat apply Z.div_pos; lia|]. repeat (apply Z.div_lt_upper_bound; [lia|]). lia.
Qed.

#[export] Instance dotted_ntop : Ntop dotted.
Proof.
  pose proof (λ a k, proj1 (octet_range a k)) as Hpos.
  assert (forall c a, isdigit c = false -> c <> Byte.x2e -> c ∉ dotted a) as Hfree.
  { intros c a Hc Hd. unfold dotted. rewrite !elem_of_app. cbn.
    intros [H|[H|[H|[H|[H|[H|H]]]]]]; try (by eapply format_d_free; [..|exact H]); set_solver. }
  split.
  - intros a. split; by apply Hfree.
  - intros a _. unfold dotted. rewrite !lenZ_app. change (lenZ (lit ".")) with 1.
    pose proof (octet_text a 0). pose proof (octet_text a 8). pose proof (octet_text a 16).
    pose proof (octet_text a 24). lia.
  - intros a b Ha Hb H. unfold dotted in H. cbn [lit String.list_byte_of_string app] in H.
    apply cut_at in H as [H0 H]; [|by apply format_d_free..].
    apply cut_at in H as [H1 H]; [|by apply format_d_free..].
    apply cut_at in H as [H2 H3]; [|by apply format_d_free..].
    apply format_d_inj in H0, H1, H2, H3; try (match goal with |- context[octet ?x ?k] => pose proof (octet_range x k) end; lia).
    rewrite (quad_octets a), (quad_octets b) by done. congruence.
Qed.
