(* ===== verification/HttpCodecOld.v ===== *)
(** * The codec that was begun first (HttpCodec.cpp)

    It is part of the project, but nothing calls it; most of its functions are only
    declared.  The result of [tryDecode] is thrown away where it is made: here the headers
    it cuts are kept to say what they are. *)
From S2P Require Import Prelude CLib CStr.

Inductive HttpState := HTTP_OK | HTTP_BAD_REQUEST.

Definition CRLF2 : bytes := [CR; LF; CR; LF].

(** [memcmp] of [k] with the bytes at [p], which must all be in the array. *)
Definition memcmp_at (k b : bytes) (p : Z) : option Z :=
  if (0 <=? p) && (p + lenZ k <=? lenZ b) then Some (memcmp k (takeZ (lenZ k) (dropZ p b))) else None.

(** The loop at [i], with [n] bytes to go.  The test takes any result of [memcmp] but
    0 for an end of the header. *)
Fixpoint tryDecode_loop (n : nat) (msg : bytes) (i : Z) : option (list bytes) :=
  match n with
  | O => Some []
  | S n =>
      c ← get msg i;
      hit ← (if bool_decide (c = CR)
             then r ← memcmp_at CRLF2 (msg ++ [NUL]) i; Some (negb (r =? 0))
             else Some false);
      headers ← tryDecode_loop n msg (i + 1);
      Some (if hit : bool then takeZ (i + 1) msg :: headers else headers)
  end.

Definition tryDecode (msg : bytes) : option (list bytes) :=
  if lenZ msg <? 4 then Some [] else tryDecode_loop (length msg) msg 0.

(** [HttpState()] *)
Definition getLine (data line : bytes) : HttpState := HTTP_OK.

(** ** What it does *)

(** The loop does not get past a turn in which it faults. *)
Lemma loop_faults m : forall n msg i,
  tryDecode_loop n msg (i + Z.of_nat m) = None -> tryDecode_loop (m + n) msg i = None.
Proof.
  induction m as [|m IH]; intros n msg i H; [by rewrite Z.add_0_r in H|]. cbn [Nat.add tryDecode_loop].
  destruct (get msg i) as [c|]; [|done]. cbn [mbind option_bind].
  rewrite (IH n msg (i + 1)); [|rewrite <- H; f_equal; lia].
  by destruct (bool_decide (c = CR)); [destruct (memcmp_at _ _ _)|].
Qed.

(** A message with a carriage return in one of its last two bytes, such as a request whose
    header ends where the message does, makes the comparison leave the string. *)
Lemma tryDecode_reads_past h x : lenZ x <= 1 -> 4 <= lenZ (h ++ CR :: x) -> tryDecode (h ++ CR :: x) = None.
Proof.
  intros Hx Hl. unfold tryDecode. arith_tests. rewrite length_app. apply loop_faults.
  cbn [length tryDecode_loop]. rewrite (get_app h CR) by done. cbn [mbind option_bind].
  rewrite bool_decide_true by done. unfold memcmp_at. rewrite !lenZ_app, lenZ_cons.
  change (lenZ CRLF2) with 4. change (lenZ [NUL]) with 1. pose proof (lenZ_nonneg h).
  change (Z.of_nat (length h)) with (lenZ h). by arith_tests.
Qed.

Lemma request_reads_past h : tryDecode (h ++ CRLF2) = None.
Proof.
  change CRLF2 with ([CR; LF] ++ CR :: [LF]). rewrite app_assoc.
  apply tryDecode_reads_past; [done|]. rewrite !lenZ_app. pose proof (lenZ_nonneg h). change (lenZ [CR; LF]) with 2.
  change (lenZ (CR :: [LF])) with 2. lia.
Qed.

(** A carriage return that ends nothing gives a header. *)
Example wrong_header : tryDecode (lit "GET" ++ [CR] ++ lit "abcd") = Some [lit "GET" ++ [CR]].
Proof. reflexivity. Qed.
